(** * Kunlun: block primitives, bit-matrix transpose, Bloom filter,
      ALSZ OT extension, cwPRF PSI and the NIZK for discrete-log equality.

    A shallow embedding of the C++ sources.  Conventions:

    - a [uint8_t] is a [Z] in [0, 256); a [block] ([__m128i]) is a [Z] in
      [0, 2^128); a [std::vector] or a raw buffer is a [list];
    - the memory image of a [block] is its 16 little-endian bytes, so the
      cast [(uint8_t* )v.data()] is [bytes_of_blocks];
    - [int] arithmetic is checked: a result outside [INT_MIN, INT_MAX] is
      undefined behaviour; [uint64_t] arithmetic wraps modulo 2^64;
    - an access outside a buffer is undefined behaviour;
    - a counted loop [for (auto i = 0; i < n; i++)] over a vector is a
      recursion over the indices [0 .. n-1]; its counter is an [int], and
      where a definition leaves the counter out, the statements in which
      the loop runs through bound [n] by [INT_MAX]. *)

From stdpp Require Import base list numbers gmap strings.
From Stdlib Require Import ZArith Lia.
Local Open Scope Z_scope.

(** ** Outcomes of a computation *)

Inductive outcome (A : Type) : Type :=
| Done (a : A)
| Undefined          (* undefined behaviour: bad access, signed overflow *)
| OutOfFuel.         (* the loop budget of the model ran out *)
Arguments Done {A} a.
Arguments Undefined {A}.
Arguments OutOfFuel {A}.

Definition obind {A B} (m : outcome A) (f : A -> outcome B) : outcome B :=
  match m with
  | Done a => f a
  | Undefined => Undefined
  | OutOfFuel => OutOfFuel
  end.

Notation "'do' x <- m ; k" := (obind m (fun x => k))
  (at level 10, x name, m at level 100, k at level 200).

(** Whether a computation returns a result. *)
Definition returns {A : Type} (o : outcome A) : bool :=
  match o with
  | Done _ => true
  | _ => false
  end.

(** [for (auto i = 0; i < n; i++) body], state threaded through. *)
Fixpoint for_seq {S : Type} (body : Z -> S -> outcome S)
         (start : Z) (count : nat) (s : S) : outcome S :=
  match count with
  | O => Done s
  | Datatypes.S c => do s' <- body start s; for_seq body (start + 1) c s'
  end.

Definition for_n {S : Type} (n : Z) (body : Z -> S -> outcome S) (s : S)
  : outcome S :=
  for_seq body 0 (Z.to_nat n) s.

(** [for (i = 8; i--; ) body]: the indices [n-1, ..., 0]. *)
Fixpoint for_down {S : Type} (n : nat) (body : Z -> S -> outcome S) (s : S)
  : outcome S :=
  match n with
  | O => Done s
  | Datatypes.S c => do s' <- body (Z.of_nat c) s; for_down c body s'
  end.

(** [for (i = i0; cond i; i = step i) body]; the final value of the loop
    variable is returned with the state, since the code reads it after
    the loop. *)
Fixpoint for_loop {S : Type} (fuel : nat) (cond : Z -> bool)
         (step : Z -> outcome Z) (body : Z -> S -> outcome S)
         (i : Z) (s : S) : outcome (Z * S) :=
  match fuel with
  | O => OutOfFuel
  | Datatypes.S f =>
      if cond i then
        do s' <- body i s;
        do i' <- step i;
        for_loop f cond step body i' s'
      else Done (i, s)
  end.

(** ** Machine arithmetic *)

Definition INT_MIN : Z := -2147483648.
Definition INT_MAX : Z := 2147483647.

Definition int_of (z : Z) : outcome Z :=
  if decide (INT_MIN <= z <= INT_MAX) then Done z else Undefined.

Definition iadd (a b : Z) : outcome Z := int_of (a + b).
Definition isub (a b : Z) : outcome Z := int_of (a - b).
Definition imul (a b : Z) : outcome Z := int_of (a * b).

Definition u64 (z : Z) : Z := z mod 2 ^ 64.
Definition u32 (z : Z) : Z := z mod 2 ^ 32.

(** [size_t(pow(2, LOG))] for a [size_t] value [LOG]: the power is exact
    in a [double], and its conversion is defined when it is below
    [2^64]. *)
Definition pow2_size_t (LOG : Z) : outcome Z :=
  if decide (LOG < 64) then Done (2 ^ LOG) else Undefined.

(** [for (auto i = 0; i < n; i++) body] with an unsigned bound [n]: [i]
    is an [int].  Up to [INT_MAX] iterations are the loop [for_n]; with
    more, the iterations [0 .. INT_MAX] run and [i++] overflows. *)
Definition for_int {S : Type} (n : Z) (body : Z -> S -> outcome S) (s : S)
  : outcome S :=
  if decide (n <= INT_MAX) then for_n n body s
  else do s' <- for_n (INT_MAX + 1) body s; Undefined.

(** ** Buffers *)

Definition load (buf : list Z) (i : Z) : outcome Z :=
  if decide (0 <= i) then
    match buf !! Z.to_nat i with
    | Some b => Done b
    | None => Undefined
    end
  else Undefined.

Definition store (buf : list Z) (i : Z) (v : Z) : outcome (list Z) :=
  if decide (0 <= i < Z.of_nat (length buf))
  then Done (<[Z.to_nat i := v]> buf)
  else Undefined.

(** [*(uint16_t* )&buf[i]], little-endian. *)
Definition load16 (buf : list Z) (i : Z) : outcome Z :=
  do lo <- load buf i;
  do hi <- load buf (i + 1);
  Done (lo + 256 * hi).

Definition store16 (buf : list Z) (i : Z) (v : Z) : outcome (list Z) :=
  do buf' <- store buf i (v mod 256);
  store buf' (i + 1) (v / 256 mod 256).

(** [memcpy(dst, src, n)] on byte images. *)
Definition memcpy (dst src : list Z) (n : Z) : outcome (list Z) :=
  if decide (0 <= n <= Z.of_nat (length src) /\ n <= Z.of_nat (length dst))
  then Done (take (Z.to_nat n) src ++ drop (Z.to_nat n) dst)
  else Undefined.

Definition is_byte (b : Z) : Prop := 0 <= b < 256.

(** A [block] is a 128-bit value. *)
Definition is_block (b : Z) : Prop := 0 <= b < 2 ^ 128.

(** A selection bit, one per byte. *)
Definition is_bit (b : Z) : Prop := b = 0 \/ b = 1.

Fixpoint le_combine (bs : list Z) : Z :=
  match bs with
  | [] => 0
  | b :: r => b + 256 * le_combine r
  end.

Fixpoint le_split (n : nat) (x : Z) : list Z :=
  match n with
  | O => []
  | Datatypes.S m => x mod 256 :: le_split m (x / 256)
  end.

Fixpoint chunks16 (n : nat) (bs : list Z) : list (list Z) :=
  match n with
  | O => []
  | Datatypes.S m => take 16 bs :: chunks16 m (drop 16 bs)
  end.

(** The bytes at [v.data()] of a [std::vector<block>], and back. *)
Definition bytes_of_blocks (v : list Z) : list Z :=
  concat (map (le_split 16) v).

Definition blocks_of_bytes (bs : list Z) : list Z :=
  map le_combine (chunks16 (length bs / 16)%nat bs).

(** An expression statement: the value is computed and dropped. *)
Definition expr_stmt {A S : Type} (dropped : A) (s : S) : S := s.

(** ** SSE2 intrinsics on 128-bit values *)

Definition lane_lo (a : Z) : Z := a mod 2 ^ 64.
Definition lane_hi (a : Z) : Z := (a / 2 ^ 64) mod 2 ^ 64.

Definition _mm_set_epi64x (e1 e0 : Z) : Z := u64 e0 + 2 ^ 64 * u64 e1.

Definition _mm_slli_epi64 (a count : Z) : Z :=
  if decide (63 < count) then 0
  else _mm_set_epi64x (Z.shiftl (lane_hi a) count) (Z.shiftl (lane_lo a) count).

Definition _mm_srli_si128 (a imm8 : Z) : Z :=
  if decide (15 < imm8) then 0 else Z.shiftr a (8 * imm8).

Definition _mm_slli_si128 (a imm8 : Z) : Z :=
  if decide (15 < imm8) then 0 else Z.shiftl a (8 * imm8) mod 2 ^ 128.

Definition _mm_or_si128 (a b : Z) : Z := Z.lor a b.
Definition _mm_xor_si128 (a b : Z) : Z := Z.lxor a b.
Definition _mm_and_si128 (a b : Z) : Z := Z.land a b.

(** [(~a) & b] *)
Definition _mm_andnot_si128 (a b : Z) : Z :=
  Z.land (Z.lxor a (2 ^ 128 - 1)) b.

Definition _mm_testz_si128 (a b : Z) : bool := Z.land a b =? 0.

Fixpoint bits_combine (bs : list bool) : Z :=
  match bs with
  | [] => 0
  | b :: r => Z.b2z b + 2 * bits_combine r
  end.

(** Bit [t] of the mask is the top bit of byte [t]. *)
Definition _mm_movemask_epi8 (a : Z) : Z :=
  bits_combine
    (map (fun t : nat => Z.testbit a (8 * Z.of_nat t + 7)) (seq 0 16)).

(** ** crypto/block.hpp, namespace Block *)

Module Block.

Definition MakeBlock (high low : Z) : Z := _mm_set_epi64x high low.

Definition zero_block : Z := _mm_set_epi64x 0 0.
Definition all_one_block : Z :=
  _mm_set_epi64x 0xFFFFFFFFFFFFFFFF 0xFFFFFFFFFFFFFFFF.

Definition Calc2ToTheN (N : Z) : Z :=
  let onesLowHigh := _mm_slli_epi64 all_one_block 63 in
  let single_one_block :=
    if decide (N < 64) then _mm_srli_si128 onesLowHigh (64 / 8)
    else _mm_slli_si128 onesLowHigh (64 / 8) in
  _mm_slli_epi64 single_one_block (Z.land N 63).

Definition SetBitN (value N : Z) : Z := _mm_or_si128 value (Calc2ToTheN N).

Definition ClearBitN (value N : Z) : Z :=
  _mm_andnot_si128 value (Calc2ToTheN N).

(** [vec_result[i] = vec_a[i] ^ vec_b[i]] for [i < vec_a.size()]; a size
    mismatch only prints a message, so a shorter [vec_b] is read past
    its end. *)
Definition XOR (vec_a vec_b : list Z) : outcome (list Z) :=
  let LEN := Z.of_nat (length vec_a) in
  for_int LEN (fun i vec_result =>
    do a <- load vec_a i;
    do b <- load vec_b i;
    store vec_result i (Z.lxor a b)) (replicate (Z.to_nat LEN) zero_block).

Definition FixXOR (vec_a : list Z) (b : Z) : outcome (list Z) :=
  let LEN := Z.of_nat (length vec_a) in
  for_int LEN (fun i vec_result =>
    do a <- load vec_a i;
    store vec_result i (Z.lxor a b)) (replicate (Z.to_nat LEN) zero_block).

Definition Compare (a b : Z) : bool :=
  let vcmp := _mm_xor_si128 a b in
  if negb (_mm_testz_si128 vcmp vcmp) then false else true.

Definition FromSparseBits (bool_data : list Z) (BIT_LEN : Z)
           (block_data : list Z) (BLOCK_LEN : Z) : outcome (list Z) :=
  for_n BLOCK_LEN (fun i block_data =>
    do block_data <- store block_data i zero_block;
    for_n 128 (fun j block_data =>
      do p <- imul 128 i;
      do q <- iadd p j;
      do b <- load bool_data q;
      if decide (b = 1) then
        do v <- load block_data i;
        (* [SetBitN(block_data[i], j);] takes the block by value and its
           result is not assigned *)
        expr_stmt (SetBitN v j) (Done block_data)
      else Done block_data) block_data) block_data.

Definition FromDenseBits (bool_data : list Z) (BIT_LEN : Z)
           (block_data : list Z) (BLOCK_LEN : Z) : outcome (list Z) :=
  do img <- memcpy (bytes_of_blocks block_data) bool_data (BIT_LEN / 8);
  Done (blocks_of_bytes img).

Definition ToDenseBits (block_data : list Z) (BLOCK_LEN : Z)
           (bool_data : list Z) (BIT_LEN : Z) : outcome (list Z) :=
  memcpy bool_data (bytes_of_blocks block_data) (BIT_LEN / 8).

(** Modelled from the spec: the dense form of 128 sparse bits.  Section 3
    of the specification has the sparse form of a block as 128 bytes,
    each 0 or 1, and the dense form as 16 bytes in little-endian packing:
    the sparse byte [j] is bit [j] of the 128-bit value. *)
Fixpoint sparse_block (bits : list Z) : Z :=
  match bits with
  | [] => 0
  | b :: r => (if decide (b = 1) then 1 else 0) + 2 * sparse_block r
  end.

(** Modelled from the spec: [Block::FromSparseBytes], which alsz_ote.hpp
    calls, is not in block.hpp as given here.  By sections 3 and 4.1 of
    the specification it takes one input byte per output bit and packs
    them little-endian: bit [j] of block [i] is the byte [128 i + j]. *)
Definition FromSparseBytes (byte_data : list Z) (BYTE_LEN : Z)
           (block_data : list Z) (BLOCK_LEN : Z) : list Z :=
  map (fun i : nat => sparse_block (take 128 (drop (128 * i) byte_data)))
      (seq 0 (Z.to_nat BLOCK_LEN))
  ++ drop (Z.to_nat BLOCK_LEN) block_data.

(** [Compare(vec_a, vec_b, LEN)]: the loop does not stop at the first
    difference, every position below [LEN] is read; [i] is an [int]. *)
Definition Compare_vec (vec_a vec_b : list Z) (LEN : Z) : outcome bool :=
  for_n LEN (fun i EQUAL =>
    do i <- int_of i;
    do a <- load vec_a i;
    do b <- load vec_b i;
    let vcmp := _mm_xor_si128 a b in
    Done (if negb (_mm_testz_si128 vcmp vcmp) then false else EQUAL)) true.

End Block.

(** ** crypto/block.hpp, bit-matrix transposition *)

(** [#define INP(x,y) inp[(x)*ncols/8 + (y)/8]] and
    [#define OUT(x,y) out[(y)*nrows/8 + (x)/8]], in [int]. *)
Definition INP_index (ncols x y : Z) : outcome Z :=
  do p <- imul x ncols;
  iadd (Z.quot p 8) (Z.quot y 8).

Definition OUT_index (nrows x y : Z) : outcome Z :=
  do p <- imul y nrows;
  iadd (Z.quot p 8) (Z.quot x 8).

(** [#define II (i ^ 7)] *)
Definition II (i : Z) : Z := Z.lxor i 7.

(** The union [tmp] is its 16 bytes [tmp.b]; [tmp.x] is their
    little-endian value. *)
Definition tmp_x (tmp : list Z) : Z := le_combine tmp.
Definition set_tmp_x (x : Z) : list Z := le_split 16 x.

(** [for (i = 8; i--; tmp.x = _mm_slli_epi64(tmp.x, 1)) emit i]: the
    emission of one of the eight output rows, then the shift. *)
Definition shift_after (emit : Z -> list Z -> list Z -> outcome (list Z))
           (i : Z) (st : list Z * list Z) : outcome (list Z * list Z) :=
  let '(tmp, out) := st in
  do out <- emit i tmp out;
  Done (set_tmp_x (_mm_slli_epi64 (tmp_x tmp) 1), out).

(** The [16 x 8] block at row [rr], column [cc]. *)
Definition block_16x8 (inp : list Z) (nrows ncols rr cc : Z)
           (st : list Z * list Z) : outcome (list Z * list Z) :=
  let '(tmp, out) := st in
  do tmp <- for_seq (fun i tmp =>
      do x <- iadd rr (II i);
      do idx <- INP_index ncols x cc;
      do v <- load inp idx;
      store tmp i v) 0 16 tmp;
  for_down 8 (shift_after (fun i tmp out =>
      do y <- iadd cc (II i);
      do idx <- OUT_index nrows rr y;
      store16 out idx (_mm_movemask_epi8 (tmp_x tmp)))) (tmp, out).

(** The [8 x 16] block of the remaining rows. *)
Definition block_8x16 (inp : list Z) (nrows ncols rr cc : Z)
           (st : list Z * list Z) : outcome (list Z * list Z) :=
  let '(tmp, out) := st in
  do tmp <- for_down 8 (fun i tmp =>
      do x <- iadd rr (II i);
      do idx <- INP_index ncols x cc;
      do h <- load16 inp idx;
      do tmp <- store tmp i (h mod 256);
      store tmp (i + 8) (Z.shiftr h 8 mod 256)) tmp;
  for_down 8 (shift_after (fun i tmp out =>
      let h := _mm_movemask_epi8 (tmp_x tmp) in
      do y <- iadd cc (II i);
      do idx <- OUT_index nrows rr y;
      do out <- store out idx (h mod 256);
      do y8 <- iadd y 8;
      do idx8 <- OUT_index nrows rr y8;
      store out idx8 (Z.shiftr h 8 mod 256))) (tmp, out).

(** The remaining [8 x 8] block. *)
Definition block_8x8 (inp : list Z) (nrows ncols rr cc : Z)
           (st : list Z * list Z) : outcome (list Z * list Z) :=
  let '(tmp, out) := st in
  do tmp <- for_down 8 (fun i tmp =>
      do x <- iadd rr (II i);
      do idx <- INP_index ncols x cc;
      do v <- load inp idx;
      store tmp i v) tmp;
  for_down 8 (shift_after (fun i tmp out =>
      do y <- iadd cc (II i);
      do idx <- OUT_index nrows rr y;
      store out idx (_mm_movemask_epi8 (tmp_x tmp) mod 256))) (tmp, out).

(** Enough iterations for a loop that counts up from 0 to [n]. *)
Definition loop_fuel (n : Z) : nat := Datatypes.S (Z.to_nat n).

(** [BitMatrixTranspose(inp, nrows, ncols, out)].  [out] is the output
    buffer as the caller passes it and [tmp] the contents of the local
    union, which the code does not initialise. *)
Definition BitMatrixTranspose (inp : list Z) (nrows ncols : Z)
           (out : list Z) (tmp : list Z) : outcome (list Z) :=
  (* Do the main body in [16 x 8] blocks *)
  do last_rr <- isub nrows 16;
  do r <- for_loop (loop_fuel nrows) (fun rr => rr <=? last_rr)
            (fun rr => iadd rr 16)
            (fun rr st =>
               do r <- for_loop (loop_fuel ncols) (fun cc => cc <? ncols)
                         (fun cc => iadd cc 8)
                         (block_16x8 inp nrows ncols rr) 0 st;
               Done (snd r))
            0 (tmp, out);
  let '(rr, st) := r in
  if decide (rr = nrows) then Done (snd st) else
  (* Do the [8 x 16] blocks *)
  do last_cc <- isub ncols 16;
  do r <- for_loop (loop_fuel ncols) (fun cc => cc <=? last_cc)
            (fun cc => iadd cc 16)
            (block_8x16 inp nrows ncols rr) 0 st;
  let '(cc, st) := r in
  if decide (cc = ncols) then Done (snd st) else
  (* Do the remaining [8 x 8] block *)
  do st <- block_8x8 inp nrows ncols rr cc st;
  Done (snd st).

(** [#define INPUT(x, y) input[(x)*COLUMN_NUM/8 + (y)/8]] and
    [#define OUTPUT(x, y) output[(y)*ROW_NUM/8 + (x)/8]]: [x] and [y] are
    [int], the dimensions [uint64_t], so the index is computed modulo
    2^64. *)
Definition INPUT_index (COLUMN_NUM x y : Z) : Z :=
  u64 (u64 (u64 x * COLUMN_NUM) / 8 + u64 (Z.quot y 8)).

Definition OUTPUT_index (ROW_NUM x y : Z) : Z :=
  u64 (u64 (u64 y * ROW_NUM) / 8 + u64 (Z.quot x 8)).

Definition emp_block_16x8 (input : list Z) (ROW_NUM COLUMN_NUM rr cc : Z)
           (output : list Z) : outcome (list Z) :=
  (* vec = _mm_set_epi8(INPUT(rr + 15, cc), ..., INPUT(rr + 0, cc)) *)
  do bytes <- for_seq (fun i bytes =>
      do x <- iadd rr i;
      do v <- load input (INPUT_index COLUMN_NUM x cc);
      Done (bytes ++ [v])) 0 16 [];
  do r <- for_down 8 (shift_after (fun i vec output =>
      do y <- iadd cc i;
      store16 output (OUTPUT_index ROW_NUM rr y)
              (_mm_movemask_epi8 (tmp_x vec)))) (bytes, output);
  Done (snd r).

Definition emp_block_8x16 (input : list Z) (ROW_NUM COLUMN_NUM rr cc : Z)
           (st : list Z * list Z) : outcome (list Z * list Z) :=
  let '(tmp, output) := st in
  do tmp <- for_seq (fun i tmp =>
      do x <- iadd rr i;
      do h <- load16 input (INPUT_index COLUMN_NUM x cc);
      do tmp <- store tmp i (h mod 256);
      store tmp (i + 8) (Z.shiftr h 8 mod 256)) 0 8 tmp;
  for_down 8 (shift_after (fun i tmp output =>
      let h := _mm_movemask_epi8 (tmp_x tmp) in
      do y <- iadd cc i;
      do output <- store output (OUTPUT_index ROW_NUM rr y) (h mod 256);
      do y8 <- iadd y 8;
      store output (OUTPUT_index ROW_NUM rr y8) (Z.shiftr h 8 mod 256)))
    (tmp, output).

(** The else-branch: [vec = _mm_set_epi16(...)] of the eight 16-bit
    words of the rows. *)
Definition emp_block_8x16_epi16 (input : list Z)
           (ROW_NUM COLUMN_NUM rr cc : Z) (output : list Z)
  : outcome (list Z) :=
  do bytes <- for_seq (fun i bytes =>
      do x <- iadd rr i;
      do h <- load16 input (INPUT_index COLUMN_NUM x cc);
      Done (bytes ++ [h mod 256; Z.shiftr h 8 mod 256])) 0 8 [];
  do r <- for_down 8 (shift_after (fun i vec output =>
      let h := _mm_movemask_epi8 (tmp_x vec) in
      do y <- iadd cc i;
      do output <- store output (OUTPUT_index ROW_NUM rr y) (h mod 256);
      do y8 <- iadd y 8;
      store output (OUTPUT_index ROW_NUM rr y8) (Z.shiftr h 8 mod 256)))
    (bytes, output);
  Done (snd r).

Definition emp_block_8x8 (input : list Z) (ROW_NUM COLUMN_NUM rr cc : Z)
           (st : list Z * list Z) : outcome (list Z * list Z) :=
  let '(tmp, output) := st in
  do tmp <- for_seq (fun i tmp =>
      do x <- iadd rr i;
      do v <- load input (INPUT_index COLUMN_NUM x cc);
      store tmp i v) 0 8 tmp;
  for_down 8 (shift_after (fun i tmp output =>
      do y <- iadd cc i;
      store output (OUTPUT_index ROW_NUM rr y)
            (_mm_movemask_epi8 (tmp_x tmp) mod 256))) (tmp, output).

(** [empBitMatrixTranspose(input, ROW_NUM, COLUMN_NUM, output)]:
    [ROW_NUM] and [COLUMN_NUM] are [uint64_t], [rr] and [cc] are [int],
    and the loop bounds [ROW_NUM - 16] and [COLUMN_NUM - 16] are computed
    in [uint64_t].  A failed [assert] stops the program. *)
Definition empBitMatrixTranspose (input : list Z) (ROW_NUM COLUMN_NUM : Z)
           (output : list Z) (tmp : list Z) : outcome (list Z) :=
  if decide (ROW_NUM mod 8 = 0 /\ COLUMN_NUM mod 8 = 0) then
    do r <- for_loop (loop_fuel ROW_NUM)
              (fun rr => u64 rr <=? u64 (ROW_NUM - 16))
              (fun rr => iadd rr 16)
              (fun rr output =>
                 do r <- for_loop (loop_fuel COLUMN_NUM)
                           (fun cc => u64 cc <? COLUMN_NUM)
                           (fun cc => iadd cc 8)
                           (emp_block_16x8 input ROW_NUM COLUMN_NUM rr)
                           0 output;
                 Done (snd r))
              0 output;
    let '(rr, output) := r in
    if decide (u64 rr = ROW_NUM) then Done output else
    do r <-
      (if decide ((COLUMN_NUM mod 8 = 0 /\ COLUMN_NUM mod 16 <> 0)
                  \/ (ROW_NUM mod 8 = 0 /\ ROW_NUM mod 16 <> 0))
       then
         for_loop (loop_fuel COLUMN_NUM)
           (fun cc => u64 cc <=? u64 (COLUMN_NUM - 16))
           (fun cc => iadd cc 16)
           (emp_block_8x16 input ROW_NUM COLUMN_NUM rr) 0 (tmp, output)
       else
         for_loop (loop_fuel COLUMN_NUM)
           (fun cc => u64 cc <=? u64 (COLUMN_NUM - 16))
           (fun cc => iadd cc 16)
           (fun cc st =>
              do output <- emp_block_8x16_epi16 input ROW_NUM COLUMN_NUM
                             rr cc (snd st);
              Done (fst st, output)) 0 (tmp, output));
    let '(cc, st) := r in
    if decide (u64 cc = COLUMN_NUM) then Done (snd st) else
    do st <- emp_block_8x8 input ROW_NUM COLUMN_NUM rr cc st;
    Done (snd st)
  else Undefined.

(** Bit [p] of a row-major dense bit matrix: the bits of a byte are taken
    from the most significant one, as [II = i ^ 7] has it. *)
Definition getbit (buf : list Z) (p : Z) : bool :=
  Z.testbit (nth (Z.to_nat (p / 8)) buf 0) (7 - p mod 8).

(** Where bit [j] of a row of bits, in the order of [getbit], sits in
    the little-endian value of its bytes. *)
Definition bitpos (j : Z) : Z := 8 * (j / 8) + (7 - j mod 8).

(** [k] times [_mm_slli_epi64(x, 1)]. *)
Definition shl (k : nat) (x : Z) : Z :=
  Nat.iter k (fun x => _mm_slli_epi64 x 1) x.

(** For an [nrows x ncols] matrix [inp] with [nrows = 8 * nr] and
    [ncols = 8 * nc]: the byte of row [x] that holds the columns
    [8c .. 8c+7]. *)
Definition inp_byte (inp : list Z) (nc x c : Z) : Z :=
  nth (Z.to_nat (x * nc + c)) inp 0.

(** The byte of [out] for row [y] of the transposed matrix and the
    columns [8 xb .. 8 xb + 7] has the bits of column [y] of [inp]. *)
Definition cell_ok (inp : list Z) (nr nc : Z) (out : list Z) (y xb : Z)
  : Prop :=
  exists b, out !! Z.to_nat (y * nr + xb) = Some b
            /\ is_byte b
            /\ forall u, 0 <= u < 8 ->
                 Z.testbit b (7 - u)
                 = Z.testbit (inp_byte inp nc (8 * xb + u) (y / 8))
                             (7 - y mod 8).

(** The cells written so far: all the byte rows below [xr], and the rows
    below [cc] of the [width] byte rows from [xr] on. *)
Definition done_upto (inp : list Z) (ncols nr nc : Z) (out : list Z)
           (xr width cc : Z) : Prop :=
  forall y xb, 0 <= y < ncols -> 0 <= xb < nr ->
               xb < xr \/ (xb < xr + width /\ y < cc) ->
               cell_ok inp nr nc out y xb.

(** The same for [empBitMatrixTranspose], which takes the bits of a
    byte from the least significant one. *)
Definition getbit_lsb (buf : list Z) (p : Z) : bool :=
  Z.testbit (nth (Z.to_nat (p / 8)) buf 0) (p mod 8).

Definition emp_cell_ok (inp : list Z) (nr nc : Z) (out : list Z) (y xb : Z)
  : Prop :=
  exists b, out !! Z.to_nat (y * nr + xb) = Some b
            /\ is_byte b
            /\ forall u, 0 <= u < 8 ->
                 Z.testbit b u
                 = Z.testbit (inp_byte inp nc (8 * xb + u) (y / 8)) (y mod 8).

Definition emp_done_upto (inp : list Z) (ncols nr nc : Z) (out : list Z)
           (xr width cc : Z) : Prop :=
  forall y xb, 0 <= y < ncols -> 0 <= xb < nr ->
               xb < xr \/ (xb < xr + width /\ y < cc) ->
               emp_cell_ok inp nr nc out y xb.

(** ** filter/bloom_filter.hpp *)

Definition bit_mask (k : Z) : Z :=
  nth (Z.to_nat k) [0x01; 0x02; 0x04; 0x08; 0x10; 0x20; 0x40; 0x80] 0.

Definition predefined_salt : list Z :=
  [ 0xAAAAAAAA; 0x55555555; 0x33333333; 0xCCCCCCCC; 0x66666666; 0x99999999; 0xB5B5B5B5; 0x4B4B4B4B;
    0xAA55AA55; 0x55335533; 0x33CC33CC; 0xCC66CC66; 0x66996699; 0x99B599B5; 0xB54BB54B; 0x4BAA4BAA;
    0xAA33AA33; 0x55CC55CC; 0x33663366; 0xCC99CC99; 0x66B566B5; 0x994B994B; 0xB5AAB5AA; 0xAAAAAA33;
    0x555555CC; 0x33333366; 0xCCCCCC99; 0x666666B5; 0x9999994B; 0xB5B5B5AA; 0xFFFFFFFF; 0xFFFF0000;
    0xB823D5EB; 0xC1191CDF; 0xF623AEB3; 0xDB58499F; 0xC8D42E70; 0xB173F616; 0xA91A5967; 0xDA427D63;
    0xB1E8A2EA; 0xF6C0D155; 0x4909FEA3; 0xA68CC6A7; 0xC395E782; 0xA26057EB; 0x0CD5DA28; 0x467C5492;
    0xF15E6982; 0x61C6FAD3; 0x9615E352; 0x6E9E355A; 0x689B563E; 0x0C9831A8; 0x6753C18B; 0xA622689B;
    0x8CA63C47; 0x42CC2884; 0x8E89919B; 0x6EDBD7D3; 0x15B6796C; 0x1D6FDFE4; 0x63FF9092; 0xE7401432;
    0xEFFE9412; 0xAEAEDF79; 0x9F245A31; 0x83C136FC; 0xC3DA4A8C; 0xA5112C8C; 0x5271F491; 0x9A948DAB;
    0xCEE59A8D; 0xB5F525AB; 0x59D13217; 0x24E7C331; 0x697C2103; 0x84B0A460; 0x86156DA9; 0xAEF2AC68;
    0x23243DA5; 0x3F649643; 0x5FA495A8; 0x67710DF8; 0x9A6C499E; 0xDCFB0227; 0x46A43433; 0x1832B07A;
    0xC46AFF3C; 0xB9C8FFF0; 0xC9500467; 0x34431BDF; 0xB652432B; 0xE367F12B; 0x427F4C1B; 0x224C006E;
    0x2E7E5A89; 0x96F99AA5; 0x0BEB452A; 0x2FD87C39; 0x74B2E1FB; 0x222EFD24; 0xF357F60C; 0x440FCB1E;
    0x8BBE030F; 0x6704DC29; 0x1144D12F; 0x948B1355; 0x6D8FD7E9; 0x1C11A014; 0xADD1592F; 0xFB3C712E;
    0xFC77642F; 0xF9C4CE8C; 0x31312FB9; 0x08B0DD79; 0x318FA6E7; 0xC040D23D; 0xC0589AA7; 0x0CA5C075;
    0xF874B172; 0x0CF914D5; 0x784D3280; 0x4E8CFEBC; 0xC569F575; 0xCDB2A091; 0x2CC016B4; 0x5C5F4421 ].

Record BloomFilter : Type := mkBloomFilter {
  hash_num : Z;                 (* uint32_t *)
  vec_salt : list Z;            (* std::vector<uint32_t> *)
  table_size : Z;               (* uint32_t *)
  bit_table : list Z;           (* std::vector<uint8_t> *)
  projected_element_num : Z;
  random_seed : Z;              (* uint32_t *)
  inserted_element_num : Z
}.

(** A binary [std::ifstream]: the bytes not yet consumed, and whether the
    stream is still good.  A short read stores what is left and fails the
    stream; a failed stream reads nothing. *)
Record ifstream : Type := mkIfstream { rest : list Z; good : bool }.

Definition fin_read (fin : ifstream) (n : Z) (old : list Z)
  : list Z * ifstream :=
  if good fin then
    if decide (n <= Z.of_nat (length (rest fin))) then
      (take (Z.to_nat n) (rest fin) ++ drop (Z.to_nat n) old,
       mkIfstream (drop (Z.to_nat n) (rest fin)) true)
    else
      (rest fin ++ drop (length (rest fin)) old, mkIfstream [] false)
  else (old, fin).

(** [v.resize(n, 0)] *)
Definition resize (v : list Z) (n : Z) : list Z :=
  take (Z.to_nat n) v ++ replicate (Z.to_nat n - length v) 0.

Section BloomFilter.

(** [FastKeyedHash] is [LiteMurmurHash] of utility/murmurhash3.hpp, a
    32-bit keyed hash of a byte string; [libc_salts] stands for the salts
    that the [srand]/[rand] loop of [GenUniqueSaltVector] appends to the
    predefined ones when more than 128 are asked for. *)
Variable FastKeyedHash : Z -> list Z -> Z.
Variable libc_salts : Z -> Z -> list Z.

Definition GenUniqueSaltVector (hash_num random_seed : Z) : outcome (list Z) :=
  let predefined_salt_num := 128 in
  if decide (hash_num <= predefined_salt_num) then
    let vec_salt := take (Z.to_nat hash_num) predefined_salt in
    for_n hash_num (fun i vec_salt =>
      do a <- load vec_salt i;
      do b <- load vec_salt ((i + 3) mod Z.of_nat (length vec_salt));
      store vec_salt i (u32 (a * b + random_seed))) vec_salt
  else
    Done (predefined_salt ++ libc_salts hash_num random_seed).

(** [PlainInsert(input, LEN)]; [input] is the bytes at [input].  The
    counter [i] of the loop is an [int] and [inserted_element_num] is a
    [size_t]: the definition follows the loop for at most [INT_MAX] hash
    functions and the increment below [2^64 - 1], and the statements
    below in which [PlainInsert] returns carry these bounds. *)
Definition PlainInsert (bf : BloomFilter) (input : list Z)
  : outcome BloomFilter :=
  do tbl <- for_n (hash_num bf) (fun i tbl =>
      do salt <- load (vec_salt bf) i;
      if decide (table_size bf = 0) then Undefined else
      let bit_index := u32 (FastKeyedHash salt input) mod table_size bf in
      do old <- load tbl (Z.shiftr bit_index 3);
      store tbl (Z.shiftr bit_index 3)
            (Z.lor old (bit_mask (Z.land bit_index 0x07)))) (bit_table bf);
  Done (mkBloomFilter (hash_num bf) (vec_salt bf) (table_size bf) tbl
          (projected_element_num bf) (random_seed bf)
          (inserted_element_num bf + 1)).

(** [PlainContain(input, LEN)]: the loop over [vec_salt], from the
    salts that are left.  Its counter is an [int]; the recursion is the
    loop for at most [INT_MAX] salts. *)
Fixpoint PlainContain_from (bf : BloomFilter) (salts : list Z)
         (input : list Z) : outcome bool :=
  match salts with
  | [] => Done true
  | salt :: salts' =>
      if decide (table_size bf = 0) then Undefined else
      let bit_index := u32 (FastKeyedHash salt input) mod table_size bf in
      let local_bit_index := Z.land bit_index 0x07 in
      do byte <- load (bit_table bf) (Z.shiftr bit_index 3);
      if decide (Z.land byte (bit_mask local_bit_index)
                 <> bit_mask local_bit_index)
      then Done false
      else PlainContain_from bf salts' input
  end.

Definition PlainContain (bf : BloomFilter) (input : list Z) : outcome bool :=
  PlainContain_from bf (vec_salt bf) input.

(** The constructor [BloomFilter(projected_element_num, p)].  Its
    parameter [projected_element_num] hides the member of that name, which
    it never assigns: [member] is the value that the member holds in the
    object under construction.  The two values that
    the constructor computes in floating point are arguments as well:
    [k] is [static_cast<size_t>(-log2(p))] and [m] is
    [static_cast<uint32_t>(projected_element_num * (-1.44 * log2(p)))]. *)
Definition BloomFilter_new (member k m : Z) : outcome BloomFilter :=
  let hash_num := u32 k in
  let random_seed := u32 (u64 (0xA5A5A5A55A5A5A5A * 0xA5A5A5A5 + 1)) in
  do vec_salt <- GenUniqueSaltVector hash_num random_seed;
  let table_size := m in
  Done (mkBloomFilter hash_num vec_salt table_size
          (resize [] (table_size / 8)) member random_seed 0).

(** [WriteObject(std::string file_name)]: the bytes written to the file.
    Each of the three [fout.write(&member, 8)] copies the four bytes of
    the [uint32_t] member and the four bytes that follow it in the object;
    [after_hash_num], [after_random_seed] and [after_table_size] are those
    following bytes. *)
Definition WriteObject (bf : BloomFilter)
           (after_hash_num after_random_seed after_table_size : list Z)
  : outcome (list Z) :=
  if decide (table_size bf / 8 <= Z.of_nat (length (bit_table bf))) then
    Done (le_split 4 (hash_num bf) ++ take 4 after_hash_num
          ++ le_split 4 (random_seed bf) ++ take 4 after_random_seed
          ++ le_split 4 (table_size bf) ++ take 4 after_table_size
          ++ take (Z.to_nat (table_size bf / 8)) (bit_table bf))
  else Undefined.

(** [ReadObject(std::string file_name)] on the object [bf]. *)
Definition ReadObject (file : list Z) (bf : BloomFilter)
  : outcome BloomFilter :=
  let fin := mkIfstream file true in
  let '(b, fin) := fin_read fin 4 (le_split 4 (hash_num bf)) in
  let hash_num' := le_combine b in
  let '(b, fin) := fin_read fin 4 (le_split 4 (random_seed bf)) in
  let random_seed' := le_combine b in
  do vec_salt' <- GenUniqueSaltVector hash_num' random_seed';
  let '(b, fin) := fin_read fin 4 (le_split 4 (table_size bf)) in
  let table_size' := le_combine b in
  let bit_table' := resize (bit_table bf) (table_size' / 8) in
  let '(b, fin) := fin_read fin (table_size' / 8) bit_table' in
  Done (mkBloomFilter hash_num' vec_salt' table_size' b
          (projected_element_num bf) random_seed'
          (inserted_element_num bf)).

(** The buffer variants use [sizeof(uint32_t)] for every member. *)
Definition WriteObject_buffer (bf : BloomFilter) (buffer : list Z)
  : outcome (list Z) :=
  do buffer <- memcpy buffer (le_split 4 (hash_num bf)) 4;
  do t <- memcpy (drop 4 buffer) (le_split 4 (random_seed bf)) 4;
  let buffer := take 4 buffer ++ t in
  do t <- memcpy (drop 8 buffer) (le_split 4 (table_size bf)) 4;
  let buffer := take 8 buffer ++ t in
  do t <- memcpy (drop 12 buffer) (bit_table bf) (table_size bf / 8);
  Done (take 12 buffer ++ t).

(** [ReadObject(char* buffer)] on the object [bf]. *)
Definition ReadObject_buffer (buffer : list Z) (bf : BloomFilter)
  : outcome BloomFilter :=
  do b <- memcpy (le_split 4 (hash_num bf)) buffer 4;
  let hash_num' := le_combine b in
  do b <- memcpy (le_split 4 (random_seed bf)) (drop 4 buffer) 4;
  let random_seed' := le_combine b in
  do vec_salt' <- GenUniqueSaltVector hash_num' random_seed';
  do b <- memcpy (le_split 4 (table_size bf)) (drop 8 buffer) 4;
  let table_size' := le_combine b in
  let bit_table' := resize (bit_table bf) (table_size' / 8) in
  do bit_table' <- memcpy bit_table' (drop 12 buffer) (table_size' / 8);
  Done (mkBloomFilter hash_num' vec_salt' table_size' bit_table'
          (projected_element_num bf) random_seed'
          (inserted_element_num bf)).

(** [ObjectSize()]: [3 * sizeof(uint32_t) + table_size/8]. *)
Definition ObjectSize (bf : BloomFilter) : Z := 3 * 4 + table_size bf / 8.

(** [Clear()] *)
Definition Clear (bf : BloomFilter) : BloomFilter :=
  mkBloomFilter (hash_num bf) (vec_salt bf) (table_size bf)
    (replicate (length (bit_table bf)) 0)
    (projected_element_num bf) (random_seed bf) 0.

(** [Insert(const std::string&)] and [Contain(const std::string&)]: the
    bytes of the string. *)
Definition Insert (bf : BloomFilter) (str : list Z) : outcome BloomFilter :=
  PlainInsert bf str.

Definition Contain (bf : BloomFilter) (str : list Z) : outcome bool :=
  PlainContain bf str.

(** [Insert(Container&)] on a vector of strings, without [OMP]: the
    elements are inserted one after the other.  The counter of the loop
    is an [int]; the recursion is the loop for at most [INT_MAX]
    elements. *)
Fixpoint Insert_container (bf : BloomFilter) (container : list (list Z))
  : outcome BloomFilter :=
  match container with
  | [] => Done bf
  | str :: container' =>
      do bf <- Insert bf str;
      Insert_container bf container'
  end.

End BloomFilter.

(** The filter that [BloomFilter(1, 0.5)] constructs: one hash function,
    a table of one bit stored in [1/8 = 0] bytes. *)
Definition filter_1_half : BloomFilter :=
  mkBloomFilter 1 [2584245991] 1 [] 1 3061464579 0.


(** ** Two parties over a reliable in-order channel *)

Inductive msg : Type :=
| Blocks (v : list Z)                 (* io.SendBlocks *)
| EC25519Points (v : list (list Z))   (* io.SendEC25519Points *)
| StringVector (v : list (list Z))    (* io.SendStringVector *)
| BaseOT (k0 k1 : list Z).            (* the base OT, as an ideal transfer *)

(** A party: what it returns, or [exit(status)], or undefined behaviour,
    or its next action on the channel. *)
Inductive proc (A : Type) : Type :=
| PRet (a : A)
| PExit (status : Z)
| PUndef
| PFuel
| PSend (m : msg) (k : proc A)
| PRecv (k : msg -> proc A).
Arguments PRet {A} a.
Arguments PExit {A} status.
Arguments PUndef {A}.
Arguments PFuel {A}.
Arguments PSend {A} m k.
Arguments PRecv {A} k.

Fixpoint pbind {A B : Type} (p : proc A) (f : A -> proc B) : proc B :=
  match p with
  | PRet a => f a
  | PExit s => PExit s
  | PUndef => PUndef
  | PFuel => PFuel
  | PSend m k => PSend m (pbind k f)
  | PRecv k => PRecv (fun m => pbind (k m) f)
  end.

Definition lift {A : Type} (o : outcome A) : proc A :=
  match o with
  | Done a => PRet a
  | Undefined => PUndef
  | OutOfFuel => PFuel
  end.

Notation "'run' x <- p ; k" := (pbind p (fun x => k))
  (at level 10, x name, p at level 100, k at level 200).

Inductive party : Type := Sender | Receiver.

Inductive stop : Type :=
| Exited (status : Z)
| UndefinedBehaviour
| NoFuel.

Inductive joint (A B : Type) : Type :=
| Finished (a : A) (b : B) (transcript : list (party * msg))
| Stopped (who : party) (why : stop) (transcript : list (party * msg))
| Deadlock (transcript : list (party * msg))
| JointNoFuel.
Arguments Finished {A B} a b transcript.
Arguments Stopped {A B} who why transcript.
Arguments Deadlock {A B} transcript.
Arguments JointNoFuel {A B}.

(** The sender moves until it waits for a message that has not been sent
    yet, then the receiver moves.  [to_r] and [to_s] are the messages in
    flight in each direction, oldest first. *)
Fixpoint joint_run {A B : Type} (fuel : nat) (s : proc A) (r : proc B)
         (to_r to_s : list msg) (tr : list (party * msg)) : joint A B :=
  match fuel with
  | O => JointNoFuel
  | Datatypes.S f =>
      let receiver_moves :=
        match r with
        | PSend m k => joint_run f s k to_r (to_s ++ [m]) (tr ++ [(Receiver, m)])
        | PRecv k =>
            match to_r with
            | m :: q => joint_run f s (k m) q to_s tr
            | [] => Deadlock tr
            end
        | PRet b =>
            match s with
            | PRet a => Finished a b tr
            | _ => Deadlock tr
            end
        | PExit st => Stopped Receiver (Exited st) tr
        | PUndef => Stopped Receiver UndefinedBehaviour tr
        | PFuel => Stopped Receiver NoFuel tr
        end in
      match s with
      | PSend m k => joint_run f k r (to_r ++ [m]) to_s (tr ++ [(Sender, m)])
      | PRecv k =>
          match to_s with
          | m :: q => joint_run f (k m) r to_r q tr
          | [] => receiver_moves
          end
      | PRet _ => receiver_moves
      | PExit st => Stopped Sender (Exited st) tr
      | PUndef => Stopped Sender UndefinedBehaviour tr
      | PFuel => Stopped Sender NoFuel tr
      end
  end.

(** The typed operations of the channel.  [ReceiveX(ptr, n)] reads [n]
    elements; a message of another kind or length is a channel error. *)
Definition SendBlocks {A} (v : list Z) (n : Z) (k : proc A) : proc A :=
  if decide (n <= Z.of_nat (length v))
  then PSend (Blocks (take (Z.to_nat n) v)) k else PUndef.

Definition ReceiveBlocks {A} (n : Z) (k : list Z -> proc A) : proc A :=
  PRecv (fun m =>
    match m with
    | Blocks v => if decide (Z.of_nat (length v) = n) then k v else PUndef
    | _ => PUndef
    end).

Definition SendEC25519Points {A} (v : list (list Z)) (n : Z) (k : proc A)
  : proc A :=
  if decide (n <= Z.of_nat (length v))
  then PSend (EC25519Points (take (Z.to_nat n) v)) k else PUndef.

Definition ReceiveEC25519Points {A} (n : Z) (k : list (list Z) -> proc A)
  : proc A :=
  PRecv (fun m =>
    match m with
    | EC25519Points v =>
        if decide (Z.of_nat (length v) = n) then k v else PUndef
    | _ => PUndef
    end).

Definition SendStringVector {A} (v : list (list Z)) (elem_len : Z)
           (k : proc A) : proc A :=
  PSend (StringVector v) k.

Definition ReceiveStringVector {A} (elem_len : Z)
           (k : list (list Z) -> proc A) : proc A :=
  PRecv (fun m =>
    match m with
    | StringVector v => k v
    | _ => PUndef
    end).

(** Whether a party can reach [exit], for some messages received. *)
Fixpoint may_exit {A : Type} (p : proc A) : Prop :=
  match p with
  | PExit _ => True
  | PSend _ k => may_exit k
  | PRecv k => exists m, may_exit (k m)
  | PRet _ | PUndef | PFuel => False
  end.

(** ** mpc/psi/cwprf_psi.hpp, namespace cwPRFPSI *)

Module cwPRFPSI.

Record PP : Type := mkPP {
  statistical_security_parameter : Z;
  computational_security_parameter : Z;
  LOG_SENDER_ITEM_NUM : Z;
  SENDER_ITEM_NUM : Z;
  LOG_RECEIVER_ITEM_NUM : Z;
  RECEIVER_ITEM_NUM : Z;
  TRUNCATE_LEN : Z
}.

(** [Setup]: the arguments and the members of [PP] are [size_t]; the
    sum for [TRUNCATE_LEN] is computed in [size_t]. *)
Definition Setup (computational_security_parameter
                  statistical_security_parameter
                  LOG_SENDER_ITEM_NUM LOG_RECEIVER_ITEM_NUM : Z) : outcome PP :=
  do SENDER_ITEM_NUM <- pow2_size_t LOG_SENDER_ITEM_NUM;
  do RECEIVER_ITEM_NUM <- pow2_size_t LOG_RECEIVER_ITEM_NUM;
  Done (mkPP statistical_security_parameter computational_security_parameter
          LOG_SENDER_ITEM_NUM SENDER_ITEM_NUM
          LOG_RECEIVER_ITEM_NUM RECEIVER_ITEM_NUM
          (u64 (statistical_security_parameter + LOG_SENDER_ITEM_NUM
                + LOG_RECEIVER_ITEM_NUM + 7) / 8)).

Section Protocol.

(** Not in these sources: the PRG ([SetSeed] with a salt, [GenRandomBytes]),
    the constant [fixed_seed], [Hash::BlockToBytes] and the X25519 scalar
    multiplication.  [px] of an [EC25519Point] is 32 bytes. *)
Variable Seed : Type.
Variable fixed_seed : Z.
Variable SetSeed : Z -> Z -> Seed.
Variable GenRandomBytes : Seed -> Z -> list Z.
Variable BlockToBytes : Z -> Z -> list Z.
Variable x25519_scalar_mulx : list Z -> list Z -> list Z.

(** [std::string(&p.px[0], &p.px[0] + TRUNCATE_LEN)] *)
Definition truncate (len : Z) (px : list Z) : outcome (list Z) :=
  if decide (0 <= len <= 32) then Done (take (Z.to_nat len) px)
  else Undefined.

Fixpoint truncate_all (len : Z) (v : list (list Z))
  : outcome (list (list Z)) :=
  match v with
  | [] => Done []
  | p :: v' =>
      do t <- truncate len p;
      do ts <- truncate_all len v';
      Done (t :: ts)
  end.

Definition sender_key : list Z := GenRandomBytes (SetSeed fixed_seed 0) 32.

(** [Send].  Each loop [for (auto i = 0; i < pp.SENDER_ITEM_NUM; i++)]
    (and over [RECEIVER_ITEM_NUM]) works on the [i]-th elements of its
    vectors and is the map over them here.  [i] is an [int] and the item
    numbers are [size_t]: the maps are what the loops compute for item
    numbers of at most [INT_MAX], and the statements below about runs
    that finish carry that bound. *)
Definition Send (pp : PP) (vec_Y : list Z) : proc unit :=
  if decide (Z.of_nat (length vec_Y) <> SENDER_ITEM_NUM pp) then PExit 1
  else
    let seed := SetSeed fixed_seed 0 in
    let k1 := GenRandomBytes seed 32 in
    let vec_Hash_Y := map (fun y => BlockToBytes y 32) vec_Y in
    let vec_Fk1_Y := map (x25519_scalar_mulx k1) vec_Hash_Y in
    SendEC25519Points vec_Fk1_Y (SENDER_ITEM_NUM pp) (
    ReceiveEC25519Points (RECEIVER_ITEM_NUM pp) (fun vec_Fk2_X =>
    let vec_Fk1k2_X := map (x25519_scalar_mulx k1) vec_Fk2_X in
    run vec_TRUNCATE_Fk1k2_X <- lift (truncate_all (TRUNCATE_LEN pp) vec_Fk1k2_X);
    SendStringVector vec_TRUNCATE_Fk1k2_X (TRUNCATE_LEN pp) (PRet tt))).

Definition receiver_key : list Z := GenRandomBytes (SetSeed fixed_seed 0) 32.

(** [if (S.find(vec_TRUNCATE_Fk1k2_X[i]) != S.end())
       vec_intersection.emplace_back(vec_X[i])] for [i] over [vec_X]. *)
Fixpoint intersection (S : gset (list Z)) (vec_TRUNCATE_Fk1k2_X : list (list Z))
         (vec_X : list Z) : outcome (list Z) :=
  match vec_X with
  | [] => Done []
  | x :: vec_X' =>
      match vec_TRUNCATE_Fk1k2_X with
      | [] => Undefined
      | t :: ts =>
          do rest <- intersection S ts vec_X';
          Done (if bool_decide (t ∈ S) then x :: rest else rest)
      end
  end.

(** [Receive], with its loops as in [Send]. *)
Definition Receive (pp : PP) (vec_X : list Z) : proc (list Z) :=
  if decide (Z.of_nat (length vec_X) <> RECEIVER_ITEM_NUM pp) then PExit 1
  else
    let seed := SetSeed fixed_seed 0 in
    let k2 := GenRandomBytes seed 32 in
    let vec_Hash_X := map (fun x => BlockToBytes x 32) vec_X in
    let vec_Fk2_X := map (x25519_scalar_mulx k2) vec_Hash_X in
    ReceiveEC25519Points (SENDER_ITEM_NUM pp) (fun vec_Fk1_Y =>
    SendEC25519Points vec_Fk2_X (RECEIVER_ITEM_NUM pp) (
    let vec_Fk2k1_Y := map (x25519_scalar_mulx k2) vec_Fk1_Y in
    ReceiveStringVector (TRUNCATE_LEN pp) (fun vec_TRUNCATE_Fk1k2_X =>
    run vec_TRUNCATE_Fk2k1_Y <- lift (truncate_all (TRUNCATE_LEN pp) vec_Fk2k1_Y);
    let S : gset (list Z) := list_to_set vec_TRUNCATE_Fk2k1_Y in
    lift (intersection S vec_TRUNCATE_Fk1k2_X vec_X)))).

(** The cwPRF [F_k(x) = H(x)^k] and the truncation of its result. *)
Definition F (k : list Z) (x : Z) : list Z :=
  x25519_scalar_mulx k (BlockToBytes x 32).

Definition trunc (pp : PP) (px : list Z) : list Z :=
  take (Z.to_nat (TRUNCATE_LEN pp)) px.

End Protocol.

End cwPRFPSI.

(** ** nizk/nizk_dlog_equality.hpp, namespace DLOGEquality *)

Module DLOGEquality.

Section Sigma.

(** Not in these sources: the curve group ([ECPoint] with [+], [*] by a
    [BigInt] and [==]), its [order], the point encoding [ToByteString]
    and [Hash::StringToBigInt]. *)
Variable ECPoint : Type.
Variable ec_add : ECPoint -> ECPoint -> ECPoint.
Variable ec_mul : ECPoint -> Z -> ECPoint.
Variable ec_eqb : ECPoint -> ECPoint -> bool.
Variable ToByteString : ECPoint -> string.
Variable order : Z.
Variable StringToBigInt : string -> Z.

Record Instance : Type := mkInstance { g1 : ECPoint; h1 : ECPoint; g2 : ECPoint; h2 : ECPoint }.

Record Witness : Type := mkWitness { w : Z }.

Record Proof_t : Type := mkProof { A1 : ECPoint; A2 : ECPoint; z : Z }.

(** [Prove]; [a] is the value of [GenRandomBigIntLessThan(order)].  The
    transcript string is an in-out argument. *)
Definition Prove (instance : Instance) (witness : Witness)
           (transcript_str : string) (a : Z) : string * Proof_t :=
  let transcript_str :=
    transcript_str +:+ (ToByteString (g1 instance) +:+ ToByteString (g2 instance)
                        +:+ ToByteString (h1 instance) +:+ ToByteString (h2 instance)) in
  let proof_A1 := ec_mul (g1 instance) a in
  let proof_A2 := ec_mul (g2 instance) a in
  let transcript_str :=
    transcript_str +:+ (ToByteString proof_A1 +:+ ToByteString proof_A2) in
  let e := StringToBigInt transcript_str in
  let proof_z := (a + e * w witness) mod order in
  (transcript_str, mkProof proof_A1 proof_A2 proof_z).

Definition Verify (instance : Instance) (transcript_str : string)
           (proof : Proof_t) : string * bool :=
  let transcript_str :=
    transcript_str +:+ (ToByteString (g1 instance) +:+ ToByteString (g2 instance)
                        +:+ ToByteString (h1 instance) +:+ ToByteString (h2 instance)) in
  let transcript_str :=
    transcript_str +:+ (ToByteString (A1 proof) +:+ ToByteString (A2 proof)) in
  let e := StringToBigInt transcript_str in
  let LEFT := ec_mul (g1 instance) (z proof) in
  let RIGHT := ec_add (A1 proof) (ec_mul (h1 instance) e) in
  let V1 := ec_eqb LEFT RIGHT in
  let LEFT := ec_mul (g2 instance) (z proof) in
  let RIGHT := ec_add (A2 proof) (ec_mul (h2 instance) e) in
  let V2 := ec_eqb LEFT RIGHT in
  let Validity := V1 && V2 in
  (transcript_str, Validity).

(** The challenge that [Verify] recomputes. *)
Definition challenge (instance : Instance) (transcript_str : string)
           (proof : Proof_t) : Z :=
  StringToBigInt
    ((transcript_str
      +:+ (ToByteString (g1 instance) +:+ ToByteString (g2 instance)
           +:+ ToByteString (h1 instance) +:+ ToByteString (h2 instance)))
     +:+ (ToByteString (A1 proof) +:+ ToByteString (A2 proof))).

End Sigma.

End DLOGEquality.

(** ** test/test_nizk_dlog_equality.cpp *)

Section test_nizk_dlog_equality.

Variable ECPoint : Type.
Variable ec_add : ECPoint -> ECPoint -> ECPoint.
Variable ec_mul : ECPoint -> Z -> ECPoint.
Variable ec_eqb : ECPoint -> ECPoint -> bool.
Variable ToByteString : ECPoint -> string.
Variable order : Z.
Variable StringToBigInt : string -> Z.

(** [GenRandomDDHInstanceWitness(pp, instance, witness, flag)]; [w] is
    the value of [GenRandomBigIntLessThan(order)] and [g1], [g2], [noisy]
    are the values of the calls of [GenRandomGenerator()]. *)
Definition GenRandomDDHInstanceWitness (flag : bool) (w : Z)
           (g1 g2 noisy : ECPoint)
  : DLOGEquality.Instance ECPoint * DLOGEquality.Witness :=
  let witness_w := w in
  let instance_g1 := g1 in
  let instance_g2 := g2 in
  let instance_h1 := ec_mul instance_g1 witness_w in
  let instance_h2 := ec_mul instance_g2 witness_w in
  let instance_h2 :=
    if Bool.eqb flag false then ec_add instance_h2 noisy else instance_h2 in
  (DLOGEquality.mkInstance ECPoint instance_g1 instance_h1
                           instance_g2 instance_h2,
   DLOGEquality.mkWitness witness_w).

(** [test_nizk_dlog_equality(flag)], with the value of [Verify], which
    the test computes and only prints under [DEBUG]; [a] is the
    randomness of [Prove]. *)
Definition test_nizk_dlog_equality (flag : bool) (w : Z)
           (g1 g2 noisy : ECPoint) (a : Z) : bool :=
  let '(instance, witness) :=
    GenRandomDDHInstanceWitness flag w g1 g2 noisy in
  let transcript_str := ""%string in
  let '(_, proof) :=
    DLOGEquality.Prove ECPoint ec_mul ToByteString order StringToBigInt
                       instance witness transcript_str a in
  let transcript_str := ""%string in
  snd (DLOGEquality.Verify ECPoint ec_add ec_mul ec_eqb ToByteString
                           StringToBigInt instance transcript_str proof).

End test_nizk_dlog_equality.

(** ** test/test_mqrpmt_psu.cpp *)

Module test_mqrpmt_psu.

Record TestCase : Type := mkTestCase {
  LOG_SENDER_ITEM_NUM : Z;
  LOG_RECEIVER_ITEM_NUM : Z;
  SENDER_ITEM_NUM : Z;
  RECEIVER_ITEM_NUM : Z;
  vec_X : list Z;                 (* sender's set *)
  vec_Y : list Z;                 (* receiver's set *)
  HAMMING_WEIGHT : Z;             (* cardinality of intersection *)
  UNION_CARDINALITY : Z;
  vec_indication_bit : list Z;
  vec_union : list Z
}.

Section GenTestCase.

(** Not in these sources: the PRG, and the generator
    [global_built_in_prg] of the two calls of [std::shuffle];
    [shuffle_bit] and [shuffle_Y] are the rearrangements that the two
    calls make. *)
Variable Seed : Type.
Variable GenRandomBlocks : Seed -> Z -> list Z * Seed.
Variable shuffle_bit : list Z -> list Z.
Variable shuffle_Y : list Z -> list Z.

(** [GenTestCase(LOG_SENDER_ITEM_NUM, LOG_RECEIVER_ITEM_NUM)]; [seed] is
    what [PRG::SetSeed(nullptr, 0)] returns, the members of [TestCase]
    are [size_t], and [i] and [j] are [int]. *)
Definition GenTestCase (LOG_SENDER_ITEM_NUM LOG_RECEIVER_ITEM_NUM : Z)
           (seed : Seed) : outcome TestCase :=
  do SENDER_ITEM_NUM <- pow2_size_t LOG_SENDER_ITEM_NUM;
  do RECEIVER_ITEM_NUM <- pow2_size_t LOG_RECEIVER_ITEM_NUM;
  let '(vec_X, seed) := GenRandomBlocks seed SENDER_ITEM_NUM in
  let '(vec_Y, seed) := GenRandomBlocks seed RECEIVER_ITEM_NUM in
  let HAMMING_WEIGHT := Z.min SENDER_ITEM_NUM RECEIVER_ITEM_NUM / 2 in
  let UNION_CARDINALITY :=
    u64 (SENDER_ITEM_NUM + RECEIVER_ITEM_NUM - HAMMING_WEIGHT) in
  let vec_indication_bit := resize [] SENDER_ITEM_NUM in
  do vec_indication_bit <-
    for_n SENDER_ITEM_NUM (fun i vec_indication_bit =>
      do i <- int_of i;
      if decide (i < HAMMING_WEIGHT) then store vec_indication_bit i 1
      else store vec_indication_bit i 0) vec_indication_bit;
  let vec_indication_bit := shuffle_bit vec_indication_bit in
  let vec_union := vec_Y in
  do r <-
    for_n SENDER_ITEM_NUM (fun i (st : Z * list Z * list Z) =>
      let '(j, vec_X, vec_union) := st in
      do i <- int_of i;
      do b <- load vec_indication_bit i;
      if decide (b = 1) then
        do y <- load vec_Y j;
        do vec_X <- store vec_X i y;
        do j <- iadd j 1;
        Done (j, vec_X, vec_union)
      else
        do x <- load vec_X i;
        Done (j, vec_X, vec_union ++ [x])) (0, vec_X, vec_union);
  let '(_, vec_X, vec_union) := r in
  let vec_Y := shuffle_Y vec_Y in
  Done (mkTestCase LOG_SENDER_ITEM_NUM LOG_RECEIVER_ITEM_NUM
          SENDER_ITEM_NUM RECEIVER_ITEM_NUM vec_X vec_Y
          HAMMING_WEIGHT UNION_CARDINALITY vec_indication_bit vec_union).

End GenTestCase.

End test_mqrpmt_psu.

(** ** mpc/ot/naor_pinkas_ot.hpp, namespace NPOT *)

Module NPOT.

(** Modelled from the spec: naor_pinkas_ot.hpp is not among these
    sources.  Section 4.3 of the specification has the base-OT receiver
    output [K[i] = k_{b[i]}[i]] for the sender's messages [k0[i]],
    [k1[i]]; a run of the base OT is one ideal transfer on the channel,
    and the group parameters play no part in it. *)
Definition PP : Type := unit.

Definition Setup : PP := tt.

Definition Send {A : Type} (pp : PP) (vec_K0 vec_K1 : list Z) (n : Z)
           (k : proc A) : proc A :=
  if decide (n <= Z.of_nat (length vec_K0) /\ n <= Z.of_nat (length vec_K1))
  then PSend (BaseOT (take (Z.to_nat n) vec_K0) (take (Z.to_nat n) vec_K1)) k
  else PUndef.

Definition Receive {A : Type} (pp : PP) (vec_selection_bit : list Z) (n : Z)
           (k : list Z -> proc A) : proc A :=
  PRecv (fun m =>
    match m with
    | BaseOT k0 k1 =>
        if decide (Z.of_nat (length k0) = n /\ Z.of_nat (length k1) = n
                   /\ n <= Z.of_nat (length vec_selection_bit))
        then k (zip_with (fun (b : Z) (ks : Z * Z) =>
                            if decide (b = 0) then fst ks else snd ks)
                         (take (Z.to_nat n) vec_selection_bit) (zip k0 k1))
        else PUndef
    | _ => PUndef
    end).

End NPOT.

(** ** mpc/ot/alsz_ote.hpp, namespace ALSZOTE *)

(** [const static size_t BASE_LEN = 128;] *)
Definition BASE_LEN : Z := 128.

Module ALSZOTE.

Definition CheckParameters {A : Type} (ROW_NUM COLUMN_NUM : Z) (k : proc A)
  : proc A :=
  if decide (ROW_NUM mod 128 <> 0 \/ COLUMN_NUM mod 128 <> 0)
  then PExit 1 else k.

Record PP : Type := mkPP {
  malicious : Z;
  baseOT : NPOT.PP;
  BASE_LEN : Z
}.

(** The argument is not used: [pp.BASE_LEN] keeps its default, 128. *)
Definition Setup (BASE_LEN : Z) : PP := mkPP 0 NPOT.Setup 128.

Section Protocol.

(** The components the protocol uses that are not in these sources: the
    PRG with its seed as explicit state, the hash, two block conversions,
    and the 16 bytes of the local union of [BitMatrixTranspose], which
    the code does not initialise. *)
Variable Seed : Type.
Variable GenRandomBits : Seed -> Z -> list Z * Seed.
Variable GenRandomBlocks : Seed -> Z -> list Z * Seed.
Variable ReSeed : Seed -> Z -> Z -> Seed.
Variable BlocksToBlock : list Z -> Z.
Variable FromSparseBytes : list Z -> Z -> list Z -> Z -> list Z.
Variable AND : list Z -> list Z -> list Z.
Variable tmp : list Z.

(** [std::vector<block> v(n)] *)
Definition blocks (n : Z) : list Z := replicate (Z.to_nat n) Block.zero_block.

(** [BitMatrixTranspose((uint8_t* )M.data(), nrows, ncols,
    (uint8_t* )out.data())] with [size_t] dimensions: the parameters are
    [int].  A dimension above [INT_MAX] is taken as undefined here; the
    callers then run [for (auto i = 0; i < ROW_NUM; i++)], which
    overflows [i]. *)
Definition BitMatrixTranspose_blocks (M : list Z) (nrows ncols : Z)
           (out : list Z) : outcome (list Z) :=
  do nrows <- int_of nrows;
  do ncols <- int_of ncols;
  do img <- BitMatrixTranspose (bytes_of_blocks M) nrows ncols
                               (bytes_of_blocks out) tmp;
  Done (blocks_of_bytes img).

(** [memcpy(row.data(), M.data() + offset, n)] for block vectors. *)
Definition memcpy_blocks (row M : list Z) (offset n : Z)
  : outcome (list Z) :=
  do img <- memcpy (bytes_of_blocks row)
                   (drop (Z.to_nat (16 * offset)) (bytes_of_blocks M)) n;
  Done (blocks_of_bytes img).

(** [seed] is what [PRG::SetSeed(nullptr, 0)] returns in this run. *)
Definition PrepareSend (pp : PP) (vec_K0 vec_K1 : list Z) (EXTEND_LEN : Z)
           (seed : Seed) : proc (list Z * list Z) :=
  let ROW_NUM := EXTEND_LEN in
  let COLUMN_NUM := BASE_LEN pp in
  CheckParameters ROW_NUM COLUMN_NUM (
  let '(vec_sender_selection_bit, seed) := GenRandomBits seed COLUMN_NUM in
  NPOT.Receive (baseOT pp) vec_sender_selection_bit COLUMN_NUM
    (fun vec_inner_K =>
  ReceiveBlocks COLUMN_NUM (fun vec_inner_C0 =>
  ReceiveBlocks COLUMN_NUM (fun vec_inner_C1 =>
  run Q_transpose <- lift (
    do vec_Q_seed <- for_n COLUMN_NUM (fun j vec_Q_seed =>
        do b <- load vec_sender_selection_bit j;
        do key <- load vec_inner_K j;
        if decide (b = 0) then
          do c <- load vec_inner_C0 j;
          store vec_Q_seed j (Z.lxor c key)
        else
          do c <- load vec_inner_C1 j;
          store vec_Q_seed j (Z.lxor c key)) (blocks COLUMN_NUM);
    do Q <- for_n COLUMN_NUM (fun j (st : list Z * Seed) =>
        let '(Q, seed) := st in
        do key <- load vec_Q_seed j;
        let seed := ReSeed seed key 0 in
        let '(Q_column, seed) := GenRandomBlocks seed (ROW_NUM / 128) in
        Done (Q ++ Q_column, seed)) ([], seed);
    BitMatrixTranspose_blocks (fst Q) COLUMN_NUM ROW_NUM
                              (blocks (ROW_NUM / 128 * COLUMN_NUM)));
  ReceiveBlocks (ROW_NUM / 128 * COLUMN_NUM) (fun P =>
  lift (
    do P_transpose <- BitMatrixTranspose_blocks P COLUMN_NUM ROW_NUM
                        (blocks (ROW_NUM / 128 * COLUMN_NUM));
    let vec_sender_selection_block :=
      FromSparseBytes vec_sender_selection_bit COLUMN_NUM
                      (blocks (COLUMN_NUM / 128)) (COLUMN_NUM / 128) in
    for_n ROW_NUM (fun i (st : list Z * list Z) =>
        let '(vec_K0, vec_K1) := st in
        do Q_row <- memcpy_blocks (blocks (COLUMN_NUM / 128)) Q_transpose
                      (u64 (i * COLUMN_NUM) / 128) (COLUMN_NUM / 8);
        do P_row <- memcpy_blocks (blocks (COLUMN_NUM / 128)) P_transpose
                      (u64 (i * COLUMN_NUM) / 128) (COLUMN_NUM / 8);
        let vec_adjust := AND vec_sender_selection_block P_row in
        do Q_row <- Block.XOR Q_row vec_adjust;
        do vec_K0 <- store vec_K0 i (BlocksToBlock Q_row);
        do Q_row' <- Block.XOR Q_row vec_sender_selection_block;
        do vec_K1 <- store vec_K1 i (BlocksToBlock Q_row');
        Done (vec_K0, vec_K1)) (vec_K0, vec_K1))))))).

Definition PrepareReceive (pp : PP) (vec_K : list Z)
           (vec_receiver_selection_bit : list Z) (EXTEND_LEN : Z)
           (seed : Seed) : proc (list Z) :=
  let ROW_NUM := EXTEND_LEN in
  let COLUMN_NUM := BASE_LEN pp in
  CheckParameters ROW_NUM COLUMN_NUM (
  let '(vec_T_seed, seed) := GenRandomBlocks seed COLUMN_NUM in
  let '(vec_U_seed, seed) := GenRandomBlocks seed COLUMN_NUM in
  let vec_receiver_selection_block :=
    FromSparseBytes vec_receiver_selection_bit ROW_NUM
                    (blocks (ROW_NUM / 128)) (ROW_NUM / 128) in
  run r <- lift (
    for_n COLUMN_NUM (fun j (st : list Z * list Z * list Z * Seed) =>
        let '(T, U, P, seed) := st in
        do key <- load vec_T_seed j;
        let seed := ReSeed seed key 0 in
        let '(T_column, seed) := GenRandomBlocks seed (ROW_NUM / 128) in
        let T := T ++ T_column in
        do key <- load vec_U_seed j;
        let seed := ReSeed seed key 0 in
        let '(U_column, seed) := GenRandomBlocks seed (ROW_NUM / 128) in
        (* [U.insert(U.end(), T_column.begin(), T_column.end())] *)
        let U := U ++ T_column in
        do P_column <- Block.XOR T_column U_column;
        do P_column <- Block.XOR P_column vec_receiver_selection_block;
        Done (T, U, P ++ P_column, seed)) ([], [], [], seed));
  let '(T, U, P, seed) := r in
  let '(vec_inner_K0, seed) := GenRandomBlocks seed COLUMN_NUM in
  let '(vec_inner_K1, seed) := GenRandomBlocks seed COLUMN_NUM in
  NPOT.Send (baseOT pp) vec_inner_K0 vec_inner_K1 COLUMN_NUM (
  run C <- lift (
    for_n COLUMN_NUM (fun j (st : list Z * list Z) =>
        let '(vec_inner_C0, vec_inner_C1) := st in
        do k0 <- load vec_inner_K0 j;
        do t <- load vec_T_seed j;
        do vec_inner_C0 <- store vec_inner_C0 j (Z.lxor k0 t);
        do k1 <- load vec_inner_K1 j;
        do u <- load vec_U_seed j;
        do vec_inner_C1 <- store vec_inner_C1 j (Z.lxor k1 u);
        Done (vec_inner_C0, vec_inner_C1))
      (blocks COLUMN_NUM, blocks COLUMN_NUM));
  SendBlocks (fst C) COLUMN_NUM (
  SendBlocks (snd C) COLUMN_NUM (
  SendBlocks P (ROW_NUM / 128 * COLUMN_NUM) (
  lift (
    do T_transpose <- BitMatrixTranspose_blocks T COLUMN_NUM ROW_NUM
                        (blocks (ROW_NUM / 128 * COLUMN_NUM));
    for_n ROW_NUM (fun i vec_K =>
        do T_row <- memcpy_blocks (blocks (COLUMN_NUM / 128)) T_transpose
                      (u64 (i * COLUMN_NUM) / 128) (COLUMN_NUM / 8);
        store vec_K i (BlocksToBlock T_row)) vec_K)))))).

Definition Send (pp : PP) (vec_m0 vec_m1 : list Z) (EXTEND_LEN : Z)
           (seed : Seed) : proc unit :=
  let ROW_NUM := EXTEND_LEN in
  let COLUMN_NUM := BASE_LEN pp in
  CheckParameters ROW_NUM COLUMN_NUM (
  run K <- PrepareSend pp (blocks ROW_NUM) (blocks ROW_NUM) EXTEND_LEN seed;
  let '(vec_K0, vec_K1) := K in
  run C <- lift (
    for_n ROW_NUM (fun i (st : list Z * list Z) =>
        let '(vec_outer_C0, vec_outer_C1) := st in
        do m0 <- load vec_m0 i;
        do k0 <- load vec_K0 i;
        do vec_outer_C0 <- store vec_outer_C0 i (Z.lxor m0 k0);
        do m1 <- load vec_m1 i;
        do k1 <- load vec_K1 i;
        do vec_outer_C1 <- store vec_outer_C1 i (Z.lxor m1 k1);
        Done (vec_outer_C0, vec_outer_C1))
      (blocks ROW_NUM, blocks ROW_NUM));
  SendBlocks (fst C) ROW_NUM (
  SendBlocks (snd C) ROW_NUM (
  PRet tt))).

Definition Receive (pp : PP) (vec_receiver_selection_bit : list Z)
           (EXTEND_LEN : Z) (seed : Seed) : proc (list Z) :=
  let ROW_NUM := EXTEND_LEN in
  let COLUMN_NUM := BASE_LEN pp in
  CheckParameters ROW_NUM COLUMN_NUM (
  run vec_K <- PrepareReceive pp (blocks ROW_NUM) vec_receiver_selection_bit
                              EXTEND_LEN seed;
  ReceiveBlocks ROW_NUM (fun vec_outer_C0 =>
  ReceiveBlocks ROW_NUM (fun vec_outer_C1 =>
  lift (
    for_n ROW_NUM (fun i vec_result =>
        do b <- load vec_receiver_selection_bit i;
        do k <- load vec_K i;
        if decide (b = 0) then
          do c <- load vec_outer_C0 i;
          store vec_result i (Z.lxor c k)
        else
          do c <- load vec_outer_C1 i;
          store vec_result i (Z.lxor c k)) (blocks ROW_NUM))))).

End Protocol.

End ALSZOTE.

(** ** Small instances of the components that are not in these sources

    They make the statements below applicable to concrete inputs. *)

Module Toy.

Definition Seed : Type := Z.
Definition fixed_seed : Z := 0.
Definition SetSeed (salt id : Z) : Seed := Z.lxor salt id.
Definition GenRandomBytes (seed : Seed) (n : Z) : list Z :=
  map (fun i : nat => (seed + Z.of_nat i) mod 256) (seq 0 (Z.to_nat n)).
Definition BlockToBytes (b len : Z) : list Z := le_split (Z.to_nat len) b.
Definition x25519_scalar_mulx (k p : list Z) : list Z :=
  zip_with (fun a b => (a + b + 1) mod 256) k p.

(** A PRG whose seed remembers the host that set it; the stream does
    not depend on the host. *)
Definition Host : Type := Z.
Definition HostSeed : Type := Host * Z.
Definition SetSeed_on (h : Host) (salt id : Z) : HostSeed :=
  (h, Z.lxor salt id).
Definition GenRandomBytes_of (seed : HostSeed) (n : Z) : list Z :=
  GenRandomBytes (snd seed) n.

(** What [Setup(128, 40, 1, 1)] and [Setup(128, 255, 1, 1)] return. *)
Definition pp : cwPRFPSI.PP := cwPRFPSI.mkPP 40 128 1 2 1 2 6.
Definition pp_255 : cwPRFPSI.PP := cwPRFPSI.mkPP 255 128 1 2 1 2 33.
Definition vec_X : list Z := [11; 22].
Definition vec_Y : list Z := [22; 33].

(** The group of order two, with a transcript hash that counts bytes. *)
Definition ECPoint : Type := bool.
Definition ec_add (P Q : ECPoint) : ECPoint := xorb P Q.
Definition ec_neg (P : ECPoint) : ECPoint := P.
Definition ec_mul (P : ECPoint) (k : Z) : ECPoint := if Z.odd k then P else false.
Definition ec_eqb (P Q : ECPoint) : bool := Bool.eqb P Q.
Definition ToByteString (P : ECPoint) : string := if P then "1"%string else "0"%string.
Definition order : Z := 2.
Definition StringToBigInt (s : string) : Z := Z.of_nat (String.length s).

End Toy.

(** A small PRG with a key and a counter, and the first block as hash.
    With an even key the bits of [GenRandomBits] come in groups of eight
    equal ones. *)
Module ToyOT.

Definition Seed : Type := Z * Z.

Definition stream (seed : Seed) (i : Z) : Z :=
  ((fst seed + 1) * 40503 + (snd seed + i + 1) * 2654435761
   + (fst seed + snd seed + i) * (fst seed + 3) * 2 ^ 61) mod 2 ^ 128.

Definition GenRandomBlocks (seed : Seed) (n : Z) : list Z * Seed :=
  (map (fun i : nat => stream seed (Z.of_nat i)) (seq 0 (Z.to_nat n)),
   (fst seed, snd seed + n)).

Definition GenRandomBits (seed : Seed) (n : Z) : list Z * Seed :=
  (map (fun i : nat =>
          let k := if Z.even (fst seed) then Z.of_nat i / 8 else Z.of_nat i in
          (stream seed k / 2 ^ 7) mod 2)
       (seq 0 (Z.to_nat n)),
   (fst seed, snd seed + n)).

Definition ReSeed (seed : Seed) (key id : Z) : Seed := (Z.lxor key id, 0).

Definition BlocksToBlock (v : list Z) : Z := (nth 0 v 0 * 3 + 1) mod 2 ^ 128.

Definition AND (vec_a vec_b : list Z) : list Z := zip_with Z.land vec_a vec_b.

Definition tmp : list Z := replicate 16 0.

Definition pp : ALSZOTE.PP := ALSZOTE.Setup 128.

Definition Send := ALSZOTE.Send Seed GenRandomBits GenRandomBlocks ReSeed
                                BlocksToBlock Block.FromSparseBytes AND tmp.
Definition Receive := ALSZOTE.Receive Seed GenRandomBlocks ReSeed
                                      BlocksToBlock Block.FromSparseBytes tmp.

Definition PrepareSend :=
  ALSZOTE.PrepareSend Seed GenRandomBits GenRandomBlocks ReSeed
                      BlocksToBlock Block.FromSparseBytes AND tmp.
Definition PrepareReceive :=
  ALSZOTE.PrepareReceive Seed GenRandomBlocks ReSeed
                         BlocksToBlock Block.FromSparseBytes tmp.

(** The sender's seed with an even key, and one with an odd key. *)
Definition seed_S : Seed := (8, 0).
Definition seed_S_odd : Seed := (7, 0).
Definition seed_R : Seed := (9, 0).

(** 128 transfers.  The selection bits [vec_b] change within a group of
    eight, those of [vec_b8] do not. *)
Definition vec_m0 : list Z :=
  map (fun i : nat => 1000 + Z.of_nat i) (seq 0 128).
Definition vec_m1 : list Z :=
  map (fun i : nat => 5000 + Z.of_nat i) (seq 0 128).
Definition vec_b : list Z :=
  map (fun i : nat => Z.of_nat (i / 3) mod 2) (seq 0 128).
Definition vec_b8 : list Z :=
  map (fun i : nat => Z.of_nat (i / 8) mod 2) (seq 0 128).

(** [2^24 + 128] transfers of zero blocks, all with selection bit 0. *)
Definition many : Z := 16777344.
Definition zeros : list Z := replicate (Z.to_nat many) 0.

End ToyOT.

(** A 16 x 16 bit matrix, in 32 bytes. *)
Definition M16 : list Z :=
  [1; 2; 3; 5; 8; 13; 21; 34; 55; 89; 144; 233; 121; 98; 219; 61;
   24; 85; 109; 194; 47; 241; 32; 17; 49; 66; 115; 181; 40; 221; 5; 226].

(** * Properties *)

(** ** Loops and buffers *)

Lemma for_seq_inv {S : Type} (I : Z -> S -> Prop)
      (body : Z -> S -> outcome S) (count : nat) :
  forall (start : Z) (s : S),
    I start s ->
    (forall i s, start <= i < start + Z.of_nat count -> I i s ->
                 exists s', body i s = Done s' /\ I (i + 1) s') ->
    exists s', for_seq body start count s = Done s'
               /\ I (start + Z.of_nat count) s'.
Proof.
  induction count as [|c IH]; intros start s HI Hstep.
  - exists s. split; [reflexivity|]. now replace (start + Z.of_nat 0) with start by lia.
  - destruct (Hstep start s) as (s1 & Hb & HI1); [lia|assumption|].
    destruct (IH (start + 1) s1 HI1) as (s2 & Hr & HI2).
    + intros i s0 Hi. apply Hstep. lia.
    + exists s2. split.
      * simpl. rewrite Hb. simpl. exact Hr.
      * now replace (start + Z.of_nat (Datatypes.S c))
          with (start + 1 + Z.of_nat c) by lia.
Qed.

Lemma load_Done (buf : list Z) (i : Z) (b : Z) :
  0 <= i -> buf !! Z.to_nat i = Some b -> load buf i = Done b.
Proof.
  intros Hi Hb. unfold load. destruct (decide (0 <= i)); [|lia].
  now rewrite Hb.
Qed.

Lemma load_in_range (buf : list Z) (i : Z) :
  0 <= i < Z.of_nat (length buf) ->
  exists b, load buf i = Done b /\ buf !! Z.to_nat i = Some b.
Proof.
  intros Hi.
  destruct (lookup_lt_is_Some_2 buf (Z.to_nat i)) as [b Hb]; [lia|].
  exists b. split; [apply load_Done; [lia|assumption]|assumption].
Qed.

Lemma load_out_of_range (buf : list Z) (i : Z) :
  Z.of_nat (length buf) <= i -> load buf i = Undefined.
Proof.
  intros Hi. unfold load. destruct (decide (0 <= i)); [|reflexivity].
  rewrite (lookup_ge_None_2 buf (Z.to_nat i)); [reflexivity|lia].
Qed.

Lemma store_Done (buf : list Z) (i v : Z) :
  0 <= i < Z.of_nat (length buf) ->
  store buf i v = Done (<[Z.to_nat i := v]> buf).
Proof.
  intros Hi. unfold store. destruct (decide _); [reflexivity|lia].
Qed.

Lemma store_out_of_range (buf : list Z) (i v : Z) :
  Z.of_nat (length buf) <= i -> store buf i v = Undefined.
Proof.
  intros Hi. unfold store. destruct (decide _); [lia|reflexivity].
Qed.

(** ** Little-endian images *)

Lemma le_combine_split (n : nat) :
  forall x, le_combine (le_split n x) = x mod 256 ^ Z.of_nat n.
Proof.
  induction n as [|n IH]; intros x.
  - simpl. now rewrite Z.mod_1_r.
  - cbn [le_split le_combine]. rewrite IH.
    rewrite Nat2Z.inj_succ, Z.pow_succ_r by lia.
    rewrite Z.rem_mul_r by lia. lia.
Qed.

Lemma le_split_combine (bs : list Z) :
  Forall is_byte bs -> le_split (length bs) (le_combine bs) = bs.
Proof.
  induction 1 as [|b r Hb Hr IH]; [reflexivity|].
  cbn [length le_split le_combine]. unfold is_byte in Hb.
  f_equal.
  - Z.div_mod_to_equations. lia.
  - replace ((b + 256 * le_combine r) / 256) with (le_combine r)
      by (Z.div_mod_to_equations; lia).
    exact IH.
Qed.

Lemma length_le_split (n : nat) (x : Z) : length (le_split n x) = n.
Proof. revert x; induction n; intros; simpl; auto. Qed.

Lemma le_split_is_byte (n : nat) :
  forall x, Forall is_byte (le_split n x).
Proof.
  induction n; intros x; simpl; constructor; auto.
  unfold is_byte. apply Z.mod_pos_bound. lia.
Qed.

(** ** Bloom filter *)

Lemma GenUniqueSaltVector_total (libc_salts : Z -> Z -> list Z)
      (hash_num random_seed : Z) :
  0 <= hash_num ->
  exists v, GenUniqueSaltVector libc_salts hash_num random_seed = Done v.
Proof.
  intros Hh. unfold GenUniqueSaltVector.
  destruct (decide (hash_num <= 128)) as [Hle|Hgt]; [|eexists; reflexivity].
  unfold for_n.
  destruct (for_seq_inv
              (fun (_ : Z) (v : list Z) => length v = Z.to_nat hash_num)
              (fun i vec_salt =>
                 do a <- load vec_salt i;
                 do b <- load vec_salt ((i + 3) mod Z.of_nat (length vec_salt));
                 store vec_salt i (u32 (a * b + random_seed)))
              (Z.to_nat hash_num) 0
              (take (Z.to_nat hash_num) predefined_salt)) as (v & Hv & _).
  - rewrite length_take. change (length predefined_salt) with 128%nat. lia.
  - intros i s Hi Hlen.
    destruct (load_in_range s i) as (a & Ha & _); [lia|].
    destruct (load_in_range s ((i + 3) mod Z.of_nat (length s)))
      as (b & Hb & _).
    { apply Z.mod_pos_bound. lia. }
    rewrite Ha, Hb. cbn [obind]. rewrite store_Done by lia.
    eexists. split; [reflexivity|]. now rewrite length_insert.
  - exists v. exact Hv.
Qed.

Lemma le_combine_split4 (x : Z) :
  0 <= x < 2 ^ 32 -> le_combine (le_split 4 x) = x.
Proof.
  intros Hx. rewrite le_combine_split.
  change (256 ^ Z.of_nat 4) with (2 ^ 32). now apply Z.mod_small.
Qed.

Lemma fin_read_good (r old : list Z) (n : Z) :
  n <= Z.of_nat (length r) ->
  fin_read (mkIfstream r true) n old
  = (take (Z.to_nat n) r ++ drop (Z.to_nat n) old,
     mkIfstream (drop (Z.to_nat n) r) true).
Proof.
  intros Hn. unfold fin_read. cbn [good rest].
  destruct (decide _); [reflexivity|lia].
Qed.

(** What the file variant of [ReadObject] makes of the file that
    [WriteObject] wrote: the second word of the file is not the seed but
    the bytes that followed [hash_num] in the writer, and the third word,
    read as [table_size], is the writer's [random_seed]. *)
Lemma ReadObject_WriteObject (libc_salts : Z -> Z -> list Z)
      (bf bf0 : BloomFilter) (a1 a2 a3 file : list Z) :
  0 <= hash_num bf < 2 ^ 32 ->
  0 <= random_seed bf < 2 ^ 32 ->
  length a1 = 4%nat -> length a2 = 4%nat -> length a3 = 4%nat ->
  WriteObject bf a1 a2 a3 = Done file ->
  exists bf', ReadObject libc_salts file bf0 = Done bf'
              /\ hash_num bf' = hash_num bf
              /\ random_seed bf' = le_combine a1
              /\ table_size bf' = random_seed bf.
Proof.
  intros Hh Hr H1 H2 H3 Hw.
  unfold WriteObject in Hw. destruct (decide _) as [Hfit|]; [|discriminate].
  injection Hw as <-.
  destruct a1 as [|p0 [|p1 [|p2 [|p3 [|]]]]]; try discriminate.
  destruct a2 as [|q0 [|q1 [|q2 [|q3 [|]]]]]; try discriminate.
  destruct a3 as [|r0 [|r1 [|r2 [|r3 [|]]]]]; try discriminate.
  pose proof (le_combine_split4 (hash_num bf) Hh) as Hhn.
  pose proof (le_combine_split4 (random_seed bf) Hr) as Hrs.
  unfold ReadObject.
  cbn [le_split take app] in *.
  change (Z.to_nat 4) with 4%nat.
  rewrite fin_read_good by (cbn [length]; clear; lia).
  change (Z.to_nat 4) with 4%nat. cbn [take drop app]. rewrite Hhn.
  rewrite fin_read_good by (cbn [length]; clear; lia).
  change (Z.to_nat 4) with 4%nat. cbn [take drop app].
  destruct (GenUniqueSaltVector_total libc_salts (hash_num bf)
              (le_combine [p0; p1; p2; p3])) as (v & Hv); [lia|].
  rewrite Hv. cbn [obind].
  rewrite fin_read_good by (cbn [length]; clear; lia).
  change (Z.to_nat 4) with 4%nat. cbn [take drop app]. rewrite Hrs.
  destruct (fin_read _ _ _) as [b fin].
  eexists. split; [reflexivity|]. cbn. auto.
Qed.

(** C5.  A filter as [BloomFilter(1, 0.5)] builds it ([hash_num = 1],
    [table_size = 1], the seed of the constructor), written with the file
    variant of [WriteObject] and read back with the file variant of
    [ReadObject]: the file is 24 bytes long where [ReadObject] expects 12,
    and the filter read back has the writer's seed as its [table_size] and
    the four bytes after [hash_num] as its seed. *)
Theorem ReadObject_WriteObject_file_mismatch :
  forall (libc_salts : Z -> Z -> list Z) (bf0 : BloomFilter),
  exists file bf',
    BloomFilter_new libc_salts 1 1 1 = Done filter_1_half
    /\ WriteObject filter_1_half [0; 0; 0; 0] [0; 0; 0; 0] [0; 0; 0; 0]
       = Done file
    /\ length file = 24%nat
    /\ ReadObject libc_salts file bf0 = Done bf'
    /\ hash_num bf' = hash_num filter_1_half
    /\ table_size filter_1_half = 1 /\ table_size bf' = 3061464579
    /\ random_seed filter_1_half = 3061464579 /\ random_seed bf' = 0.
Proof.
  intros libc_salts bf0.
  destruct (ReadObject_WriteObject libc_salts filter_1_half bf0
              [0; 0; 0; 0] [0; 0; 0; 0] [0; 0; 0; 0]
              [1; 0; 0; 0; 0; 0; 0; 0; 3; 62; 122; 182; 0; 0; 0; 0;
               1; 0; 0; 0; 0; 0; 0; 0])
    as (bf' & Hread & Hh & Hs & Ht);
    try reflexivity; try (cbn [hash_num random_seed filter_1_half]; lia).
  exists [1; 0; 0; 0; 0; 0; 0; 0; 3; 62; 122; 182; 0; 0; 0; 0;
          1; 0; 0; 0; 0; 0; 0; 0], bf'.
  repeat split; try assumption; reflexivity.
Qed.

Lemma load_nil (i : Z) : load [] i = Undefined.
Proof. unfold load. destruct (decide _); reflexivity. Qed.

(** C8.  The filter that [BloomFilter(1, 0.5)] builds has [hash_num = 1],
    one salt, [table_size = 1 > 0] and a [bit_table] of [1/8 = 0] bytes:
    [PlainInsert] of any element, with any hash function, accesses
    [bit_table[0]] outside the table. *)
Theorem PlainInsert_outside_bit_table :
  forall (FastKeyedHash : Z -> list Z -> Z) (libc_salts : Z -> Z -> list Z)
         (input : list Z),
    BloomFilter_new libc_salts 1 1 1 = Done filter_1_half
    /\ hash_num filter_1_half = 1
    /\ length (vec_salt filter_1_half) = 1%nat
    /\ table_size filter_1_half = 1
    /\ bit_table filter_1_half = []
    /\ PlainInsert FastKeyedHash filter_1_half input = Undefined.
Proof.
  intros FastKeyedHash libc_salts input.
  repeat split.
  unfold PlainInsert, for_n, filter_1_half.
  cbn [hash_num vec_salt table_size bit_table Z.to_nat Pos.to_nat
       Pos.iter_op Nat.add for_seq].
  change (Z.to_nat 1) with 1%nat. cbn [for_seq].
  rewrite (load_Done [2584245991] 0 2584245991) by (reflexivity || lia).
  cbn [obind].
  rewrite (decide_False (P := 1 = 0)) by lia.
  now rewrite load_nil.
Qed.

(** C4.  On the 128 sparse bytes [1, 0, ..., 0], [FromSparseBits] returns
    one block that is zero: the byte 0 of the input is 1 and no bit of the
    block is set. *)
Theorem FromSparseBits_leaves_zero_block :
  let bool_data := 1 :: replicate 127 0 in
  bool_data !! 0%nat = Some 1
  /\ Block.FromSparseBits bool_data 128 [Block.all_one_block] 1
     = Done [Block.zero_block]
  /\ Block.zero_block = 0
  /\ (forall j, Z.testbit Block.zero_block j = false).
Proof.
  cbv zeta.
  split; [reflexivity|].
  split; [vm_compute; reflexivity|].
  split; [reflexivity|].
  intros j. change Block.zero_block with 0. now destruct j.
Qed.

(** ** cwPRF-based PSI *)

Section PSI_properties.

Import cwPRFPSI.

Variable Seed : Type.
Variable fixed_seed : Z.
Variable SetSeed : Z -> Z -> Seed.
Variable GenRandomBytes : Seed -> Z -> list Z.
Variable BlockToBytes : Z -> Z -> list Z.
Variable x25519_scalar_mulx : list Z -> list Z -> list Z.

Local Abbreviation Send := (Send Seed fixed_seed SetSeed GenRandomBytes BlockToBytes x25519_scalar_mulx).
Local Abbreviation Receive := (Receive Seed fixed_seed SetSeed GenRandomBytes BlockToBytes x25519_scalar_mulx).
Local Abbreviation k1 := (sender_key Seed fixed_seed SetSeed GenRandomBytes).
Local Abbreviation k2 := (receiver_key Seed fixed_seed SetSeed GenRandomBytes).
Local Abbreviation F := (F BlockToBytes x25519_scalar_mulx).

Lemma truncate_all_Done (len : Z) (v : list (list Z)) :
  0 <= len <= 32 ->
  truncate_all len v = Done (map (take (Z.to_nat len)) v).
Proof.
  intros Hlen. induction v as [|p v IH]; [reflexivity|].
  cbn [truncate_all map]. unfold truncate at 1.
  destruct (decide _); [|lia]. cbn [obind]. now rewrite IH.
Qed.

Lemma intersection_map (S : gset (list Z)) (h : Z -> list Z) (vec_X : list Z) :
  intersection S (map h vec_X) vec_X
  = Done (filter (fun x => h x ∈ S) vec_X).
Proof.
  induction vec_X as [|x X IH]; [reflexivity|].
  cbn [intersection map]. rewrite IH. cbn [obind].
  rewrite filter_cons. unfold bool_decide.
  destruct (decide_rel elem_of (h x) S), (decide (h x ∈ S)); try reflexivity; contradiction.
Qed.

Lemma take_all_Z {A : Type} (v : list A) (n : Z) :
  Z.of_nat (length v) = n -> take (Z.to_nat n) v = v.
Proof. intros <-. rewrite Nat2Z.id. apply firstn_all. Qed.

Lemma psi_joint_run (pp : PP) (vec_X vec_Y : list Z) :
  Z.of_nat (length vec_X) = RECEIVER_ITEM_NUM pp ->
  Z.of_nat (length vec_Y) = SENDER_ITEM_NUM pp ->
  0 <= TRUNCATE_LEN pp <= 32 ->
  joint_run 8 (Send pp vec_Y) (Receive pp vec_X) [] [] []
  = Finished tt
      (filter (fun x => trunc pp (x25519_scalar_mulx k1 (F k2 x))
                        ∈ (list_to_set
                             (map (fun y => trunc pp (x25519_scalar_mulx k2 (F k1 y)))
                                  vec_Y) : gset (list Z)))
              vec_X)
      [ (Sender, EC25519Points (map (F k1) vec_Y));
        (Receiver, EC25519Points (map (F k2) vec_X));
        (Sender, StringVector
                   (map (fun x => trunc pp (x25519_scalar_mulx k1 (F k2 x))) vec_X)) ].
Proof.
  intros HX HY Htau.
  unfold cwPRFPSI.Send, cwPRFPSI.Receive.
  rewrite (decide_False (P := Z.of_nat (length vec_Y) <> SENDER_ITEM_NUM pp))
    by (intros H; apply H; assumption).
  rewrite (decide_False (P := Z.of_nat (length vec_X) <> RECEIVER_ITEM_NUM pp))
    by (intros H; apply H; assumption).
  unfold SendEC25519Points at 1. rewrite !length_map.
  rewrite (decide_True (P := SENDER_ITEM_NUM pp <= Z.of_nat (length vec_Y))) by lia.
  rewrite !take_all_Z by (rewrite !length_map; assumption).
  unfold ReceiveEC25519Points.
  cbn [joint_run app].
  rewrite !length_map.
  rewrite (decide_True (P := Z.of_nat (length vec_Y) = SENDER_ITEM_NUM pp)) by assumption.
  unfold SendEC25519Points at 1. rewrite !length_map.
  rewrite (decide_True (P := RECEIVER_ITEM_NUM pp <= Z.of_nat (length vec_X))) by lia.
  rewrite !take_all_Z by (rewrite !length_map; assumption).
  cbn [joint_run app].
  rewrite !length_map.
  rewrite (decide_True (P := Z.of_nat (length vec_X) = RECEIVER_ITEM_NUM pp)) by assumption.
  rewrite !truncate_all_Done by assumption.
  cbn [lift pbind SendStringVector ReceiveStringVector joint_run app].
  rewrite ?truncate_all_Done by assumption.
  cbn [lift pbind SendStringVector ReceiveStringVector joint_run app].
  rewrite !map_map.
  rewrite (intersection_map _ (fun x => take (Z.to_nat (TRUNCATE_LEN pp))
             (x25519_scalar_mulx k1 (F k2 x)))).
  cbn [lift joint_run]. reflexivity.
Qed.

(** C3. For every receiver input [vec_X] of length [RECEIVER_ITEM_NUM] and
    sender input [vec_Y] of length [SENDER_ITEM_NUM], both at most
    [INT_MAX], and a truncation length of at most 32, the bytes of a
    point, the joint run of [Send] and [Receive] finishes and [Receive]
    returns the elements [x] of [vec_X], in input order, whose received
    value [trunc (F_k1 (F_k2 x))] is in the set of the values
    [trunc (F_k2 (F_k1 y))], [y] in [vec_Y]; every element of [vec_X]
    that is also in [vec_Y] is returned. *)
Theorem PSI_Receive_output (pp : PP) (vec_X vec_Y : list Z) :
  Z.of_nat (length vec_X) = RECEIVER_ITEM_NUM pp ->
  Z.of_nat (length vec_Y) = SENDER_ITEM_NUM pp ->
  RECEIVER_ITEM_NUM pp <= INT_MAX ->
  SENDER_ITEM_NUM pp <= INT_MAX ->
  0 <= TRUNCATE_LEN pp <= 32 ->
  let S : gset (list Z) :=
    list_to_set
      (map (fun y => trunc pp (x25519_scalar_mulx k2 (F k1 y))) vec_Y) in
  let vec_intersection :=
    filter (fun x => trunc pp (x25519_scalar_mulx k1 (F k2 x)) ∈ S) vec_X in
  (exists transcript,
      joint_run 8 (Send pp vec_Y) (Receive pp vec_X) [] [] []
      = Finished tt vec_intersection transcript)
  /\ (forall x, x ∈ vec_X -> x ∈ vec_Y -> x ∈ vec_intersection).
Proof.
  intros HX HY _ _ Htau S vec_intersection. split.
  - eexists. apply psi_joint_run; assumption.
  - intros x HxX HxY. unfold vec_intersection.
    apply list_elem_of_filter. split; [|assumption].
    unfold S. apply elem_of_list_to_set.
    apply (list_elem_of_fmap_2'
             (fun y => trunc pp (x25519_scalar_mulx k2 (F k1 y))) vec_Y x);
      [assumption|reflexivity].
Qed.

(** C9. [Send] exits, as its first action and so before any message, if
    and only if [vec_Y.size()] differs from [SENDER_ITEM_NUM]; [Receive]
    does so if and only if [vec_X.size()] differs from
    [RECEIVER_ITEM_NUM]. *)
Theorem PSI_exit_iff_size_mismatch (pp : PP) (vec_X vec_Y : list Z) :
  (may_exit (Send pp vec_Y) <-> Z.of_nat (length vec_Y) <> SENDER_ITEM_NUM pp)
  /\ (Z.of_nat (length vec_Y) <> SENDER_ITEM_NUM pp -> Send pp vec_Y = PExit 1)
  /\ (may_exit (Receive pp vec_X)
      <-> Z.of_nat (length vec_X) <> RECEIVER_ITEM_NUM pp)
  /\ (Z.of_nat (length vec_X) <> RECEIVER_ITEM_NUM pp
      -> Receive pp vec_X = PExit 1).
Proof.
  assert (HS : Z.of_nat (length vec_Y) <> SENDER_ITEM_NUM pp ->
               Send pp vec_Y = PExit 1).
  { intros H. unfold cwPRFPSI.Send. now rewrite decide_True. }
  assert (HR : Z.of_nat (length vec_X) <> RECEIVER_ITEM_NUM pp ->
               Receive pp vec_X = PExit 1).
  { intros H. unfold cwPRFPSI.Receive. now rewrite decide_True. }
  repeat split; try assumption.
  - intros Hexit Heq. revert Hexit.
    unfold cwPRFPSI.Send.
    rewrite (decide_False (P := Z.of_nat (length vec_Y) <> SENDER_ITEM_NUM pp))
      by (intros H; apply H; assumption).
    unfold SendEC25519Points, ReceiveEC25519Points, SendStringVector.
    destruct (decide _); cbn [may_exit]; [|tauto].
    intros [m Hm]. destruct m; try contradiction.
    destruct (decide _); [|contradiction].
    destruct (truncate_all _ _); exact Hm.
  - intros H. rewrite (HS H). exact I.
  - intros Hexit Heq. revert Hexit.
    unfold cwPRFPSI.Receive.
    rewrite (decide_False (P := Z.of_nat (length vec_X) <> RECEIVER_ITEM_NUM pp))
      by (intros H; apply H; assumption).
    unfold SendEC25519Points, ReceiveEC25519Points, ReceiveStringVector.
    cbn [may_exit].
    intros [m Hm]. destruct m; try contradiction.
    destruct (decide (Z.of_nat (length v) = _)); [|contradiction].
    destruct (decide (RECEIVER_ITEM_NUM pp <= _)); [|contradiction].
    cbn [may_exit] in Hm. destruct Hm as [m' Hm'].
    destruct m'; try contradiction.
    destruct (truncate_all _ _); cbn in Hm'; try contradiction.
    destruct (intersection _ _ _); exact Hm'.
  - intros H. rewrite (HR H). exact I.
Qed.

End PSI_properties.

Lemma Toy_pp_Setup : cwPRFPSI.Setup 128 40 1 1 = Done Toy.pp.
Proof. reflexivity. Qed.

Lemma Toy_pp_255_Setup : cwPRFPSI.Setup 128 255 1 1 = Done Toy.pp_255.
Proof. reflexivity. Qed.

Section PSI_runs.

Import cwPRFPSI.

(** The PRG of a party lives on the host of that party, in one run:
    [SetSeed h] is [PRG::SetSeed] on the host [h]. *)
Variable Host : Type.
Variable Seed : Type.
Variable fixed_seed : Z.
Variable SetSeed : Host -> Z -> Z -> Seed.
Variable GenRandomBytes : Seed -> Z -> list Z.
Variable BlockToBytes : Z -> Z -> list Z.
Variable x25519_scalar_mulx : list Z -> list Z -> list Z.

(** Modelled from the spec: the PRG is not in these sources, and section
    4.2 says of it: the same seed and counter produce the same stream on
    every host. *)
Hypothesis PRG_deterministic : forall (h h' : Host) (key id n : Z),
  GenRandomBytes (SetSeed h key id) n = GenRandomBytes (SetSeed h' key id) n.

Local Abbreviation Send_on h :=
  (Send Seed fixed_seed (SetSeed h) GenRandomBytes BlockToBytes
        x25519_scalar_mulx).
Local Abbreviation Receive_on h :=
  (Receive Seed fixed_seed (SetSeed h) GenRandomBytes BlockToBytes
           x25519_scalar_mulx).
Local Abbreviation sender_key_on h :=
  (sender_key Seed fixed_seed (SetSeed h) GenRandomBytes).
Local Abbreviation receiver_key_on h :=
  (receiver_key Seed fixed_seed (SetSeed h) GenRandomBytes).
Local Abbreviation F := (F BlockToBytes x25519_scalar_mulx).

Lemma Send_host (h h' : Host) (pp : PP) (vec_Y : list Z) :
  Send_on h pp vec_Y = Send_on h' pp vec_Y.
Proof.
  unfold Send. cbv zeta.
  now rewrite (PRG_deterministic h h' fixed_seed 0 32).
Qed.

Lemma Receive_host (h h' : Host) (pp : PP) (vec_X : list Z) :
  Receive_on h pp vec_X = Receive_on h' pp vec_X.
Proof.
  unfold Receive. cbv zeta.
  now rewrite (PRG_deterministic h h' fixed_seed 0 32).
Qed.

(** C10. With a PRG that gives the same stream for the same seed and
    counter on every host: the key of the sender on the host [s] and the
    key of the receiver on the host [r] are the 32 bytes generated from
    [SetSeed(fixed_seed, 0)] there and are equal, and the keys of a
    second run, on the hosts [s'] and [r'], are the same keys.  For input
    vectors of the declared lengths, at most [INT_MAX], and a truncation
    length of at most 32, both runs finish with the same result and the
    same three messages, which are the functions of the inputs, the
    public parameters and that key given here. *)
Theorem PSI_keys_fixed_and_equal (s r s' r' : Host) (pp : PP)
        (vec_X vec_Y : list Z) :
  let k1 := sender_key_on s in
  let k2 := receiver_key_on r in
  let transcript :=
    [ (Sender, EC25519Points (map (F k1) vec_Y));
      (Receiver, EC25519Points (map (F k2) vec_X));
      (Sender, StringVector
                 (map (fun x => trunc pp (x25519_scalar_mulx k1 (F k2 x)))
                      vec_X)) ] in
  k1 = GenRandomBytes (SetSeed s fixed_seed 0) 32
  /\ k2 = GenRandomBytes (SetSeed r fixed_seed 0) 32
  /\ k1 = k2
  /\ sender_key_on s' = k1
  /\ receiver_key_on r' = k2
  /\ (Z.of_nat (length vec_X) = RECEIVER_ITEM_NUM pp ->
      Z.of_nat (length vec_Y) = SENDER_ITEM_NUM pp ->
      RECEIVER_ITEM_NUM pp <= INT_MAX ->
      SENDER_ITEM_NUM pp <= INT_MAX ->
      0 <= TRUNCATE_LEN pp <= 32 ->
      exists vec_intersection,
        joint_run 8 (Send_on s pp vec_Y) (Receive_on r pp vec_X) [] [] []
        = Finished tt vec_intersection transcript
        /\ joint_run 8 (Send_on s' pp vec_Y) (Receive_on r' pp vec_X)
                     [] [] []
           = Finished tt vec_intersection transcript).
Proof.
  intros k1 k2 transcript.
  assert (H2 : k2 = k1) by apply PRG_deterministic.
  split; [reflexivity|]. split; [reflexivity|].
  split; [now symmetry|].
  split; [apply PRG_deterministic|].
  split; [apply PRG_deterministic|].
  intros HX HY _ _ Htau.
  eexists.
  rewrite (Send_host s' s), (Receive_host r' s), (Receive_host r s).
  unfold transcript. rewrite H2.
  split; apply psi_joint_run; assumption.
Qed.

End PSI_runs.

Lemma PSI_Receive_output_witness :
  let S : gset (list Z) :=
    list_to_set
      (map (fun y => cwPRFPSI.trunc Toy.pp
                       (Toy.x25519_scalar_mulx
                          (cwPRFPSI.receiver_key Toy.Seed Toy.fixed_seed Toy.SetSeed Toy.GenRandomBytes)
                          (cwPRFPSI.F Toy.BlockToBytes Toy.x25519_scalar_mulx
                             (cwPRFPSI.sender_key Toy.Seed Toy.fixed_seed Toy.SetSeed Toy.GenRandomBytes) y)))
           Toy.vec_Y) in
  let vec_intersection :=
    filter (fun x => cwPRFPSI.trunc Toy.pp
                       (Toy.x25519_scalar_mulx
                          (cwPRFPSI.sender_key Toy.Seed Toy.fixed_seed Toy.SetSeed Toy.GenRandomBytes)
                          (cwPRFPSI.F Toy.BlockToBytes Toy.x25519_scalar_mulx
                             (cwPRFPSI.receiver_key Toy.Seed Toy.fixed_seed Toy.SetSeed Toy.GenRandomBytes) x))
                     ∈ S) Toy.vec_X in
  (exists transcript,
      joint_run 8
        (cwPRFPSI.Send Toy.Seed Toy.fixed_seed Toy.SetSeed Toy.GenRandomBytes
           Toy.BlockToBytes Toy.x25519_scalar_mulx Toy.pp Toy.vec_Y)
        (cwPRFPSI.Receive Toy.Seed Toy.fixed_seed Toy.SetSeed Toy.GenRandomBytes
           Toy.BlockToBytes Toy.x25519_scalar_mulx Toy.pp Toy.vec_X) [] [] []
      = Finished tt vec_intersection transcript)
  /\ (forall x, x ∈ Toy.vec_X -> x ∈ Toy.vec_Y -> x ∈ vec_intersection).
Proof.
  apply (PSI_Receive_output Toy.Seed Toy.fixed_seed Toy.SetSeed
           Toy.GenRandomBytes Toy.BlockToBytes Toy.x25519_scalar_mulx
           Toy.pp Toy.vec_X Toy.vec_Y).
  - reflexivity.
  - reflexivity.
  - vm_compute. discriminate.
  - vm_compute. discriminate.
  - vm_compute. split; discriminate.
Defined.

(** At the parameters of [Setup(128, 255, 1, 1)], whose truncation
    length is 33, the run on two sets of the declared size 2 does not
    finish: the sender reads past the 32 bytes of a point. *)
Lemma PSI_Receive_output_counterexample :
  cwPRFPSI.Setup 128 255 1 1 = Done Toy.pp_255
  /\ Z.of_nat (length Toy.vec_X) = cwPRFPSI.RECEIVER_ITEM_NUM Toy.pp_255
  /\ Z.of_nat (length Toy.vec_Y) = cwPRFPSI.SENDER_ITEM_NUM Toy.pp_255
  /\ forall vec_intersection transcript,
       joint_run 8
         (cwPRFPSI.Send Toy.Seed Toy.fixed_seed Toy.SetSeed Toy.GenRandomBytes
            Toy.BlockToBytes Toy.x25519_scalar_mulx Toy.pp_255 Toy.vec_Y)
         (cwPRFPSI.Receive Toy.Seed Toy.fixed_seed Toy.SetSeed
            Toy.GenRandomBytes Toy.BlockToBytes Toy.x25519_scalar_mulx
            Toy.pp_255 Toy.vec_X) [] [] []
       <> Finished tt vec_intersection transcript.
Proof.
  split; [reflexivity|]. split; [reflexivity|]. split; [reflexivity|].
  intros vec_intersection transcript.
  assert (H : exists tr,
             joint_run 8
               (cwPRFPSI.Send Toy.Seed Toy.fixed_seed Toy.SetSeed
                  Toy.GenRandomBytes Toy.BlockToBytes Toy.x25519_scalar_mulx
                  Toy.pp_255 Toy.vec_Y)
               (cwPRFPSI.Receive Toy.Seed Toy.fixed_seed Toy.SetSeed
                  Toy.GenRandomBytes Toy.BlockToBytes Toy.x25519_scalar_mulx
                  Toy.pp_255 Toy.vec_X) [] [] []
             = Stopped Sender UndefinedBehaviour tr)
    by (eexists; vm_compute; reflexivity).
  destruct H as [tr ->]. discriminate.
Qed.

Lemma PSI_keys_fixed_and_equal_witness :
  cwPRFPSI.sender_key Toy.HostSeed Toy.fixed_seed (Toy.SetSeed_on 1)
                      Toy.GenRandomBytes_of
  = cwPRFPSI.receiver_key Toy.HostSeed Toy.fixed_seed (Toy.SetSeed_on 2)
                          Toy.GenRandomBytes_of
  /\ exists vec_intersection transcript,
       joint_run 8
         (cwPRFPSI.Send Toy.HostSeed Toy.fixed_seed (Toy.SetSeed_on 1)
            Toy.GenRandomBytes_of Toy.BlockToBytes Toy.x25519_scalar_mulx
            Toy.pp Toy.vec_Y)
         (cwPRFPSI.Receive Toy.HostSeed Toy.fixed_seed (Toy.SetSeed_on 2)
            Toy.GenRandomBytes_of Toy.BlockToBytes Toy.x25519_scalar_mulx
            Toy.pp Toy.vec_X) [] [] []
       = Finished tt vec_intersection transcript
       /\ joint_run 8
            (cwPRFPSI.Send Toy.HostSeed Toy.fixed_seed (Toy.SetSeed_on 3)
               Toy.GenRandomBytes_of Toy.BlockToBytes Toy.x25519_scalar_mulx
               Toy.pp Toy.vec_Y)
            (cwPRFPSI.Receive Toy.HostSeed Toy.fixed_seed (Toy.SetSeed_on 4)
               Toy.GenRandomBytes_of Toy.BlockToBytes Toy.x25519_scalar_mulx
               Toy.pp Toy.vec_X) [] [] []
          = Finished tt vec_intersection transcript.
Proof.
  destruct (PSI_keys_fixed_and_equal Toy.Host Toy.HostSeed Toy.fixed_seed
              Toy.SetSeed_on Toy.GenRandomBytes_of Toy.BlockToBytes
              Toy.x25519_scalar_mulx (fun h h' key id n => eq_refl)
              1 2 3 4 Toy.pp Toy.vec_X Toy.vec_Y)
    as (_ & _ & Hk & _ & _ & Hruns).
  split; [exact Hk|].
  destruct Hruns as (vec_intersection & Hrun & Hrun').
  - reflexivity.
  - reflexivity.
  - vm_compute. discriminate.
  - vm_compute. discriminate.
  - vm_compute. split; discriminate.
  - eexists _, _. split; [exact Hrun|exact Hrun'].
Defined.

(** At the parameters of [Setup(128, 255, 1, 1)] the protocol has no
    third message: after the first two the sender's truncation to 33
    bytes is undefined. *)
Lemma PSI_keys_fixed_and_equal_counterexample :
  cwPRFPSI.Setup 128 255 1 1 = Done Toy.pp_255
  /\ Z.of_nat (length Toy.vec_X) = cwPRFPSI.RECEIVER_ITEM_NUM Toy.pp_255
  /\ Z.of_nat (length Toy.vec_Y) = cwPRFPSI.SENDER_ITEM_NUM Toy.pp_255
  /\ exists m1 m2,
       joint_run 8
         (cwPRFPSI.Send Toy.HostSeed Toy.fixed_seed (Toy.SetSeed_on 1)
            Toy.GenRandomBytes_of Toy.BlockToBytes Toy.x25519_scalar_mulx
            Toy.pp_255 Toy.vec_Y)
         (cwPRFPSI.Receive Toy.HostSeed Toy.fixed_seed (Toy.SetSeed_on 2)
            Toy.GenRandomBytes_of Toy.BlockToBytes Toy.x25519_scalar_mulx
            Toy.pp_255 Toy.vec_X) [] [] []
       = Stopped Sender UndefinedBehaviour
           [(Sender, EC25519Points m1); (Receiver, EC25519Points m2)].
Proof.
  split; [reflexivity|]. split; [reflexivity|]. split; [reflexivity|].
  eexists _, _. vm_compute. reflexivity.
Qed.

(** ** NIZK for discrete-log equality *)

Section DLOG_properties.

Import DLOGEquality.

Variable ECPoint : Type.
Variable ec_add : ECPoint -> ECPoint -> ECPoint.
Variable ec_neg : ECPoint -> ECPoint.
Variable ec_mul : ECPoint -> Z -> ECPoint.
Variable ec_eqb : ECPoint -> ECPoint -> bool.
Variable ec_zero : ECPoint.
Variable ToByteString : ECPoint -> string.
Variable order : Z.
Variable StringToBigInt : string -> Z.

(** The curve points form a commutative group under [+], [P * k] is the
    [k]-fold sum, [order] annihilates every point and only multiples of
    [order] annihilate a point other than the neutral one. *)
Hypothesis ec_eqb_eq : forall P Q, ec_eqb P Q = true <-> P = Q.
Hypothesis ec_add_assoc :
  forall P Q R, ec_add P (ec_add Q R) = ec_add (ec_add P Q) R.
Hypothesis ec_add_comm : forall P Q, ec_add P Q = ec_add Q P.
Hypothesis ec_add_zero : forall P, ec_add ec_zero P = P.
Hypothesis ec_add_neg : forall P, ec_add P (ec_neg P) = ec_zero.
Hypothesis ec_mul_add :
  forall P a b, ec_mul P (a + b) = ec_add (ec_mul P a) (ec_mul P b).
Hypothesis ec_mul_mul : forall P a b, ec_mul (ec_mul P a) b = ec_mul P (a * b).
Hypothesis ec_mul_one : forall P, ec_mul P 1 = P.
Hypothesis ec_mul_mod : forall P a, ec_mul P (a mod order) = ec_mul P a.
Hypothesis ec_mul_zero_inv :
  forall P a, ec_mul P a = ec_zero -> P = ec_zero \/ a mod order = 0.

Local Abbreviation Prove := (Prove ECPoint ec_mul ToByteString order StringToBigInt).
Local Abbreviation Verify := (Verify ECPoint ec_add ec_mul ec_eqb ToByteString StringToBigInt).
Local Abbreviation challenge := (challenge ECPoint ToByteString StringToBigInt).
Local Abbreviation Instance := (Instance ECPoint).
Local Abbreviation mkInstance := (mkInstance ECPoint).

Lemma ec_add_cancel_l (A P Q : ECPoint) : ec_add A P = ec_add A Q -> P = Q.
Proof.
  intros H.
  rewrite <- (ec_add_zero P), <- (ec_add_zero Q).
  rewrite <- (ec_add_neg A), (ec_add_comm A (ec_neg A)).
  rewrite <- !ec_add_assoc. now rewrite H.
Qed.

Lemma ec_mul_eq_inv (P : ECPoint) (a b : Z) :
  ec_mul P a = ec_mul P b -> P = ec_zero \/ (a - b) mod order = 0.
Proof.
  intros H. apply ec_mul_zero_inv.
  apply (ec_add_cancel_l (ec_mul P b)).
  rewrite <- ec_mul_add, (ec_add_comm _ ec_zero), ec_add_zero.
  rewrite <- H. f_equal. lia.
Qed.

Lemma Verify_Prove (instance : Instance) (w a : Z) (transcript_str : string) :
  h1 _ instance = ec_mul (g1 _ instance) w ->
  h2 _ instance = ec_mul (g2 _ instance) w ->
  snd (Verify instance transcript_str
         (snd (Prove instance (mkWitness w) transcript_str a))) = true.
Proof.
  intros Hh1 Hh2. unfold DLOGEquality.Verify, DLOGEquality.Prove.
  cbn [snd A1 A2 z DLOGEquality.w].
  set (e := StringToBigInt _).
  apply andb_true_iff. split; apply ec_eqb_eq.
  - rewrite ec_mul_mod, ec_mul_add, Hh1, ec_mul_mul.
    now rewrite (Z.mul_comm e w).
  - rewrite ec_mul_mod, ec_mul_add, Hh2, ec_mul_mul.
    now rewrite (Z.mul_comm e w).
Qed.

Lemma mod_sub_zero (x y q : Z) :
  x mod q = 0 -> y mod q = 0 -> (x - y) mod q = 0.
Proof.
  intros Hx Hy. destruct (Z.eq_dec q 0) as [->|Hq].
  - rewrite Z.mod_0_r in *. lia.
  - rewrite Zminus_mod, Hx, Hy. reflexivity.
Qed.

Lemma Verify_altered_h2 (instance : Instance) (w a : Z) (transcript_str : string) :
  h1 _ instance = ec_mul (g1 _ instance) w ->
  h2 _ instance = ec_mul (g2 _ instance) w ->
  g1 _ instance <> ec_zero ->
  g2 _ instance <> ec_zero ->
  let proof := snd (Prove instance (mkWitness w) transcript_str a) in
  let altered :=
    mkInstance (g1 _ instance) (h1 _ instance) (g2 _ instance)
               (ec_add (h2 _ instance) (g2 _ instance)) in
  challenge altered transcript_str proof mod order <> 0 ->
  snd (Verify altered transcript_str proof) = false.
Proof.
  intros Hh1 Hh2 Hg1 Hg2 proof altered He.
  apply not_true_is_false. intros Hacc. apply He. clear He.
  unfold DLOGEquality.Verify in Hacc. cbn [snd] in Hacc.
  apply andb_true_iff in Hacc. destruct Hacc as [HV1 HV2].
  apply ec_eqb_eq in HV1, HV2.
  unfold DLOGEquality.challenge.
  unfold proof, altered, DLOGEquality.Prove in *.
  cbn [snd A1 A2 z DLOGEquality.w g1 g2 h1 h2] in *.
  set (e := StringToBigInt _) in *.
  set (e' := StringToBigInt _) in HV1, HV2 |- *.
  rewrite ec_mul_mod, ec_mul_add, Hh1, ec_mul_mul in HV1.
  apply ec_add_cancel_l, ec_mul_eq_inv in HV1.
  destruct HV1 as [HV1|HV1]; [contradiction|].
  rewrite ec_mul_mod, ec_mul_add, Hh2 in HV2.
  assert (Hx : ec_add (ec_mul (g2 _ instance) w) (g2 _ instance)
               = ec_mul (g2 _ instance) (w + 1))
    by (now rewrite ec_mul_add, ec_mul_one).
  rewrite Hx, ec_mul_mul in HV2.
  apply ec_add_cancel_l, ec_mul_eq_inv in HV2.
  destruct HV2 as [HV2|HV2]; [contradiction|].
  replace e' with ((e * w - w * e') - (e * w - (w + 1) * e')) by lia.
  now apply mod_sub_zero.
Qed.

(** When [g2] is the neutral point, replacing [h2] by [h2 + g2] changes
    nothing and [Verify] accepts as before. *)
Lemma Verify_altered_h2_neutral (instance : Instance) (w a : Z)
      (transcript_str : string) :
  h1 _ instance = ec_mul (g1 _ instance) w ->
  h2 _ instance = ec_mul (g2 _ instance) w ->
  g2 _ instance = ec_zero ->
  let proof := snd (Prove instance (mkWitness w) transcript_str a) in
  let altered :=
    mkInstance (g1 _ instance) (h1 _ instance) (g2 _ instance)
               (ec_add (h2 _ instance) (g2 _ instance)) in
  snd (Verify altered transcript_str proof) = true.
Proof.
  intros Hh1 Hh2 Hg2 proof altered.
  assert (Halt : altered = instance).
  { unfold altered. rewrite Hg2 at 2.
    rewrite (ec_add_comm _ ec_zero), ec_add_zero. now destruct instance. }
  rewrite Halt. now apply Verify_Prove.
Qed.

(** C7, as the code has it.  For an instance with [h1 = g1^w] and
    [h2 = g2^w] and any transcript prefix, [Verify] accepts the proof that
    [Prove] makes for the instance and prefix.  When [g1] and [g2] are not
    the neutral point and the challenge that [Verify] recomputes for the
    instance with [h2] replaced by [h2 * g2] is not a multiple of the
    group order, [Verify] rejects that proof for the altered instance. *)
Theorem DLOG_completeness_and_altered_h2 (instance : Instance) (w a : Z)
        (transcript_str : string) :
  h1 _ instance = ec_mul (g1 _ instance) w ->
  h2 _ instance = ec_mul (g2 _ instance) w ->
  let proof := snd (Prove instance (mkWitness w) transcript_str a) in
  let altered :=
    mkInstance (g1 _ instance) (h1 _ instance) (g2 _ instance)
               (ec_add (h2 _ instance) (g2 _ instance)) in
  snd (Verify instance transcript_str proof) = true
  /\ (g1 _ instance <> ec_zero ->
      g2 _ instance <> ec_zero ->
      challenge altered transcript_str proof mod order <> 0 ->
      snd (Verify altered transcript_str proof) = false).
Proof.
  intros Hh1 Hh2 proof altered. split.
  - now apply Verify_Prove.
  - intros Hg1 Hg2 He. now apply Verify_altered_h2.
Qed.

End DLOG_properties.

(** The group of order two satisfies the group hypotheses. *)

Lemma Toy_ec_eqb_eq (P Q : Toy.ECPoint) : Toy.ec_eqb P Q = true <-> P = Q.
Proof. now destruct P, Q. Qed.

Lemma Toy_ec_add_assoc (P Q R : Toy.ECPoint) :
  Toy.ec_add P (Toy.ec_add Q R) = Toy.ec_add (Toy.ec_add P Q) R.
Proof. now destruct P, Q, R. Qed.

Lemma Toy_ec_add_comm (P Q : Toy.ECPoint) : Toy.ec_add P Q = Toy.ec_add Q P.
Proof. now destruct P, Q. Qed.

Lemma Toy_ec_add_zero (P : Toy.ECPoint) : Toy.ec_add false P = P.
Proof. now destruct P. Qed.

Lemma Toy_ec_add_neg (P : Toy.ECPoint) : Toy.ec_add P (Toy.ec_neg P) = false.
Proof. now destruct P. Qed.

Lemma Toy_ec_mul_add (P : Toy.ECPoint) (a b : Z) :
  Toy.ec_mul P (a + b) = Toy.ec_add (Toy.ec_mul P a) (Toy.ec_mul P b).
Proof.
  unfold Toy.ec_mul, Toy.ec_add. rewrite Z.odd_add.
  now destruct (Z.odd a), (Z.odd b), P.
Qed.

Lemma Toy_ec_mul_mul (P : Toy.ECPoint) (a b : Z) :
  Toy.ec_mul (Toy.ec_mul P a) b = Toy.ec_mul P (a * b).
Proof.
  unfold Toy.ec_mul. rewrite Z.odd_mul.
  now destruct (Z.odd a), (Z.odd b), P.
Qed.

Lemma Toy_ec_mul_one (P : Toy.ECPoint) : Toy.ec_mul P 1 = P.
Proof. reflexivity. Qed.

Lemma Toy_ec_mul_mod (P : Toy.ECPoint) (a : Z) :
  Toy.ec_mul P (a mod Toy.order) = Toy.ec_mul P a.
Proof.
  unfold Toy.ec_mul, Toy.order. rewrite Zmod_odd.
  now destruct (Z.odd a).
Qed.

Lemma Toy_ec_mul_zero_inv (P : Toy.ECPoint) (a : Z) :
  Toy.ec_mul P a = false -> P = false \/ a mod Toy.order = 0.
Proof.
  unfold Toy.ec_mul, Toy.order. rewrite Zmod_odd.
  destruct (Z.odd a); auto.
Qed.

Lemma DLOG_completeness_and_altered_h2_witness :
  let instance := DLOGEquality.mkInstance Toy.ECPoint true true true true in
  let proof :=
    snd (DLOGEquality.Prove Toy.ECPoint Toy.ec_mul Toy.ToByteString Toy.order
           Toy.StringToBigInt instance (DLOGEquality.mkWitness 1) "x" 1) in
  let altered := DLOGEquality.mkInstance Toy.ECPoint true true true false in
  snd (DLOGEquality.Verify Toy.ECPoint Toy.ec_add Toy.ec_mul Toy.ec_eqb
         Toy.ToByteString Toy.StringToBigInt instance "x" proof) = true
  /\ snd (DLOGEquality.Verify Toy.ECPoint Toy.ec_add Toy.ec_mul Toy.ec_eqb
            Toy.ToByteString Toy.StringToBigInt altered "x" proof) = false.
Proof.
  destruct (DLOG_completeness_and_altered_h2
              Toy.ECPoint Toy.ec_add Toy.ec_neg Toy.ec_mul Toy.ec_eqb false
              Toy.ToByteString Toy.order Toy.StringToBigInt
              Toy_ec_eqb_eq Toy_ec_add_assoc Toy_ec_add_comm Toy_ec_add_zero
              Toy_ec_add_neg Toy_ec_mul_add Toy_ec_mul_mul Toy_ec_mul_one
              Toy_ec_mul_mod Toy_ec_mul_zero_inv
              (DLOGEquality.mkInstance Toy.ECPoint true true true true)
              1 1 "x" eq_refl eq_refl) as [Hacc Hrej].
  split.
  - exact Hacc.
  - apply Hrej; [discriminate|discriminate|vm_compute; discriminate].
Defined.

(** In the group of order two: with [g2] the neutral point the altered
    instance is the instance itself and the proof is accepted for it;
    with [g2] not neutral and a challenge that is even, the proof is
    accepted for the altered instance as well. *)
Lemma DLOG_altered_h2_accepted :
  let Prove := DLOGEquality.Prove Toy.ECPoint Toy.ec_mul Toy.ToByteString
                 Toy.order Toy.StringToBigInt in
  let Verify := DLOGEquality.Verify Toy.ECPoint Toy.ec_add Toy.ec_mul
                  Toy.ec_eqb Toy.ToByteString Toy.StringToBigInt in
  let mk := DLOGEquality.mkInstance Toy.ECPoint in
  (true = Toy.ec_mul true 1 /\ false = Toy.ec_mul false 1
   /\ Toy.ec_add false false = false
   /\ snd (Verify (mk true true false (Toy.ec_add false false)) ""%string
             (snd (Prove (mk true true false false)
                     (DLOGEquality.mkWitness 1) ""%string 1))) = true)
  /\ (true = Toy.ec_mul true 1
      /\ Toy.ec_add true true = false
      /\ snd (Verify (mk true true true (Toy.ec_add true true)) ""%string
                (snd (Prove (mk true true true true)
                        (DLOGEquality.mkWitness 1) ""%string 1))) = true).
Proof. vm_compute. auto 10. Qed.

(** ** Bits of bytes, blocks and masks *)

Lemma testbit_add_shift (lo hi n m : Z) :
  0 <= lo < 2 ^ n -> 0 <= n -> 0 <= m ->
  Z.testbit (lo + 2 ^ n * hi) m
  = if m <? n then Z.testbit lo m else Z.testbit hi (m - n).
Proof.
  intros Hlo Hn Hm. destruct (Z.ltb_spec m n) as [Hlt|Hge].
  - rewrite <- (Z.mod_pow2_bits_low (lo + 2 ^ n * hi) n m) by lia.
    f_equal. symmetry. apply (Z.mod_unique_pos _ _ hi lo); lia.
  - replace m with ((m - n) + n) at 1 by lia.
    rewrite <- Z.div_pow2_bits by lia. f_equal.
    symmetry. apply (Z.div_unique_pos _ _ hi lo); lia.
Qed.

Lemma le_combine_bound (bs : list Z) :
  Forall is_byte bs -> 0 <= le_combine bs < 256 ^ Z.of_nat (length bs).
Proof.
  induction 1 as [|b r Hb Hr IH].
  - simpl. lia.
  - cbn [le_combine length]. rewrite Nat2Z.inj_succ, Z.pow_succ_r by lia.
    unfold is_byte in Hb. lia.
Qed.

Lemma testbit_le_combine (bs : list Z) :
  Forall is_byte bs ->
  forall (t : nat) (j : Z),
    (t < length bs)%nat -> 0 <= j < 8 ->
    Z.testbit (le_combine bs) (8 * Z.of_nat t + j) = Z.testbit (nth t bs 0) j.
Proof.
  induction 1 as [|b r Hb Hr IH]; intros t j Ht Hj; [simpl in Ht; lia|].
  cbn [le_combine]. change 256 with (2 ^ 8).
  rewrite testbit_add_shift by (unfold is_byte in Hb; lia).
  destruct t as [|t].
  - cbn [nth]. replace (8 * Z.of_nat 0 + j) with j by lia.
    destruct (Z.ltb_spec j 8); [reflexivity|lia].
  - cbn [nth]. destruct (Z.ltb_spec (8 * Z.of_nat (S t) + j) 8); [lia|].
    replace (8 * Z.of_nat (S t) + j - 8) with (8 * Z.of_nat t + j) by lia.
    apply IH; [simpl in Ht; lia|assumption].
Qed.

Lemma slli_epi64_1_bound (a : Z) : 0 <= _mm_slli_epi64 a 1 < 2 ^ 128.
Proof.
  unfold _mm_slli_epi64, _mm_set_epi64x, u64.
  destruct (decide _); [lia|].
  pose proof (Z.mod_pos_bound (Z.shiftl (lane_lo a) 1) (2 ^ 64)).
  pose proof (Z.mod_pos_bound (Z.shiftl (lane_hi a) 1) (2 ^ 64)).
  lia.
Qed.

Lemma testbit_slli_epi64_1 (a m : Z) :
  0 <= a < 2 ^ 128 -> 0 <= m < 128 ->
  Z.testbit (_mm_slli_epi64 a 1) m
  = if decide (m mod 64 = 0) then false else Z.testbit a (m - 1).
Proof.
  intros Ha Hm. unfold _mm_slli_epi64, _mm_set_epi64x, u64, lane_lo, lane_hi.
  destruct (decide (63 < 1)); [lia|].
  rewrite testbit_add_shift
    by (try apply Z.mod_pos_bound; lia).
  destruct (Z.ltb_spec m 64) as [Hlt|Hge].
  - rewrite Z.mod_pow2_bits_low by lia.
    destruct (decide (m mod 64 = 0)) as [H0|H0].
    + rewrite Z.mod_small in H0 by lia. subst m.
      now rewrite Z.shiftl_spec_low.
    + rewrite Z.mod_small in H0 by lia.
      rewrite Z.shiftl_spec by lia.
      apply Z.mod_pow2_bits_low. lia.
  - rewrite Z.mod_pow2_bits_low by lia.
    destruct (decide (m mod 64 = 0)) as [H0|H0].
    + assert (m = 64) by (Z.div_mod_to_equations; lia). subst m.
      now rewrite Z.shiftl_spec_low.
    + assert (m <> 64) by (intros ->; apply H0; reflexivity).
      rewrite Z.shiftl_spec by lia.
      rewrite Z.mod_pow2_bits_low by lia.
      rewrite Z.div_pow2_bits by lia. f_equal. lia.
Qed.

Lemma shl_bound (k : nat) (x : Z) :
  0 <= x < 2 ^ 128 -> 0 <= shl k x < 2 ^ 128.
Proof.
  intros Hx. destruct k as [|k]; [exact Hx|].
  unfold shl. cbn [Nat.iter]. apply slli_epi64_1_bound.
Qed.

Lemma testbit_shl (k : nat) (x : Z) (t j : Z) :
  0 <= x < 2 ^ 128 -> 0 <= t < 16 -> Z.of_nat k <= j < 8 ->
  Z.testbit (shl k x) (8 * t + j) = Z.testbit x (8 * t + j - Z.of_nat k).
Proof.
  intros Hx Ht. revert j. induction k as [|k IH]; intros j Hj.
  - cbn. f_equal. lia.
  - change (shl (S k) x) with (_mm_slli_epi64 (shl k x) 1).
    rewrite testbit_slli_epi64_1 by (try apply shl_bound; lia).
    destruct (decide _) as [H0|H0].
    + exfalso. Z.div_mod_to_equations. lia.
    + replace (8 * t + j - 1) with (8 * t + (j - 1)) by lia.
      rewrite IH by lia. f_equal. lia.
Qed.

Lemma testbit_bits_combine (l : list bool) (j : nat) :
  Z.testbit (bits_combine l) (Z.of_nat j) = nth j l false.
Proof.
  revert j. induction l as [|b r IH]; intros j.
  - cbn. now destruct j.
  - cbn [bits_combine]. rewrite Z.add_comm. destruct j as [|j].
    + cbn [nth]. apply Z.testbit_0_r.
    + cbn [nth]. rewrite Nat2Z.inj_succ, Z.testbit_succ_r by lia. apply IH.
Qed.

Lemma testbit_movemask (a : Z) (t : Z) :
  0 <= t < 16 ->
  Z.testbit (_mm_movemask_epi8 a) t = Z.testbit a (8 * t + 7).
Proof.
  intros Ht. unfold _mm_movemask_epi8.
  assert (Hn : exists n : nat, t = Z.of_nat n /\ (n < 16)%nat)
    by (exists (Z.to_nat t); lia).
  destruct Hn as (n & -> & Hn).
  rewrite testbit_bits_combine.
  do 16 (destruct n as [|n]; [reflexivity|]). lia.
Qed.

Lemma bits_combine_bound (l : list bool) :
  0 <= bits_combine l < 2 ^ Z.of_nat (length l).
Proof.
  induction l as [|b r IH].
  - cbn. lia.
  - cbn [bits_combine length]. rewrite Nat2Z.inj_succ, Z.pow_succ_r by lia.
    destruct b; cbn [Z.b2z]; lia.
Qed.

Lemma movemask_bound (a : Z) : 0 <= _mm_movemask_epi8 a < 2 ^ 16.
Proof. apply (bits_combine_bound (map _ (seq 0 16))). Qed.

(** The two bytes that [store16] writes for a mask. *)
Lemma testbit_mask_lo (a j : Z) :
  0 <= j < 8 ->
  Z.testbit (_mm_movemask_epi8 a mod 256) j = Z.testbit a (8 * j + 7).
Proof.
  intros Hj. change 256 with (2 ^ 8).
  rewrite Z.mod_pow2_bits_low by lia. apply testbit_movemask. lia.
Qed.

Lemma testbit_mask_hi (a j : Z) :
  0 <= j < 8 ->
  Z.testbit (_mm_movemask_epi8 a / 256 mod 256) j
  = Z.testbit a (8 * (j + 8) + 7).
Proof.
  intros Hj. change 256 with (2 ^ 8).
  rewrite Z.mod_pow2_bits_low, Z.div_pow2_bits by lia.
  apply testbit_movemask. lia.
Qed.

Lemma testbit_mask_hi_shiftr (a j : Z) :
  0 <= j < 8 ->
  Z.testbit (Z.shiftr (_mm_movemask_epi8 a) 8 mod 256) j
  = Z.testbit a (8 * (j + 8) + 7).
Proof.
  intros Hj. rewrite Z.shiftr_div_pow2 by lia. now apply testbit_mask_hi.
Qed.

Lemma II_low (i : Z) : 0 <= i < 8 -> II i = 7 - i.
Proof.
  intros Hi. unfold II.
  assert (H : i = 0 \/ i = 1 \/ i = 2 \/ i = 3 \/ i = 4 \/ i = 5 \/ i = 6 \/ i = 7)
    by lia.
  repeat (destruct H as [->|H]; [reflexivity|]). now subst.
Qed.

Lemma II_high (i : Z) : 8 <= i < 16 -> II i = 23 - i.
Proof.
  intros Hi. unfold II.
  assert (H : i = 8 \/ i = 9 \/ i = 10 \/ i = 11 \/ i = 12 \/ i = 13
              \/ i = 14 \/ i = 15) by lia.
  repeat (destruct H as [->|H]; [reflexivity|]). now subst.
Qed.

(** ** Checked arithmetic and loops *)

Lemma int_of_Done (z : Z) : INT_MIN <= z <= INT_MAX -> int_of z = Done z.
Proof. intros H. unfold int_of. now destruct (decide _). Qed.

Lemma int_of_overflow (z : Z) : INT_MAX < z -> int_of z = Undefined.
Proof. intros H. unfold int_of. destruct (decide _); [lia|reflexivity]. Qed.

Lemma u64_small (z : Z) : 0 <= z < 2 ^ 64 -> u64 z = z.
Proof. intros Hz. unfold u64. now apply Z.mod_small. Qed.

Lemma iadd_Done (a b : Z) :
  INT_MIN <= a + b <= INT_MAX -> iadd a b = Done (a + b).
Proof. apply int_of_Done. Qed.

Lemma isub_Done (a b : Z) :
  INT_MIN <= a - b <= INT_MAX -> isub a b = Done (a - b).
Proof. apply int_of_Done. Qed.

Lemma imul_Done (a b : Z) :
  INT_MIN <= a * b <= INT_MAX -> imul a b = Done (a * b).
Proof. apply int_of_Done. Qed.

Lemma for_down_inv {S : Type} (I : nat -> S -> Prop)
      (body : Z -> S -> outcome S) (n : nat) :
  forall s,
    I n s ->
    (forall (c : nat) s, (c < n)%nat -> I (Datatypes.S c) s ->
                 exists s', body (Z.of_nat c) s = Done s' /\ I c s') ->
    exists s', for_down n body s = Done s' /\ I O s'.
Proof.
  induction n as [|c IH]; intros s HI Hstep.
  - exists s. split; [reflexivity|assumption].
  - destruct (Hstep c s) as (s1 & Hb & H1); [lia|assumption|].
    destruct (IH s1 H1) as (s2 & Hr & H2).
    + intros c' s' Hc'. apply Hstep. lia.
    + exists s2. split; [|assumption]. cbn [for_down]. rewrite Hb. exact Hr.
Qed.

(** A loop that counts up by [d] and stops after [n] iterations. *)
Lemma for_loop_inv {S : Type} (I : Z -> S -> Prop) (cond : Z -> bool)
      (step : Z -> outcome Z) (body : Z -> S -> outcome S) (d : Z) (n : nat) :
  forall (fuel : nat) (i : Z) (s : S),
    (n < fuel)%nat ->
    I i s ->
    (forall (k : nat) s, (k < n)%nat -> I (i + Z.of_nat k * d) s ->
       cond (i + Z.of_nat k * d) = true
       /\ step (i + Z.of_nat k * d) = Done (i + Z.of_nat (Datatypes.S k) * d)
       /\ exists s', body (i + Z.of_nat k * d) s = Done s'
                     /\ I (i + Z.of_nat (Datatypes.S k) * d) s') ->
    cond (i + Z.of_nat n * d) = false ->
    exists s', for_loop fuel cond step body i s = Done (i + Z.of_nat n * d, s')
               /\ I (i + Z.of_nat n * d) s'.
Proof.
  induction n as [|n IH]; intros fuel i s Hfuel HI Hstep Hend.
  - destruct fuel as [|fuel]; [lia|].
    replace (i + Z.of_nat 0 * d) with i in * by lia.
    exists s. cbn [for_loop]. rewrite Hend. auto.
  - destruct fuel as [|fuel]; [lia|].
    destruct (Hstep O s) as (Hc & Hs & s1 & Hb & H1); [lia| |].
    { now replace (i + Z.of_nat 0 * d) with i by lia. }
    replace (i + Z.of_nat 0 * d) with i in * by lia.
    replace (i + Z.of_nat 1 * d) with (i + d) in * by lia.
    destruct (IH fuel (i + d) s1) as (s2 & Hr & H2); [lia|assumption| |  |].
    + intros k s' Hk HI'.
      replace (i + d + Z.of_nat k * d) with (i + Z.of_nat (Datatypes.S k) * d)
        in * by lia.
      replace (i + d + Z.of_nat (Datatypes.S k) * d)
        with (i + Z.of_nat (Datatypes.S (Datatypes.S k)) * d) by lia.
      apply Hstep; [lia|assumption].
    + now replace (i + d + Z.of_nat n * d)
        with (i + Z.of_nat (Datatypes.S n) * d) by lia.
    + replace (i + d + Z.of_nat n * d)
        with (i + Z.of_nat (Datatypes.S n) * d) in * by lia.
      exists s2. split; [|assumption].
      cbn [for_loop]. rewrite Hc, Hb. cbn [obind]. rewrite Hs. cbn [obind].
      exact Hr.
Qed.

(** The same loop when the body of iteration [n] is undefined. *)
Lemma for_loop_undefined {S : Type} (I : Z -> S -> Prop) (cond : Z -> bool)
      (step : Z -> outcome Z) (body : Z -> S -> outcome S) (d : Z) (n : nat) :
  forall (fuel : nat) (i : Z) (s : S),
    (n < fuel)%nat ->
    I i s ->
    (forall (k : nat) s, (k < n)%nat -> I (i + Z.of_nat k * d) s ->
       cond (i + Z.of_nat k * d) = true
       /\ step (i + Z.of_nat k * d) = Done (i + Z.of_nat (Datatypes.S k) * d)
       /\ exists s', body (i + Z.of_nat k * d) s = Done s'
                     /\ I (i + Z.of_nat (Datatypes.S k) * d) s') ->
    cond (i + Z.of_nat n * d) = true ->
    (forall s, I (i + Z.of_nat n * d) s ->
               body (i + Z.of_nat n * d) s = Undefined) ->
    for_loop fuel cond step body i s = Undefined.
Proof.
  induction n as [|n IH]; intros fuel i s Hfuel HI Hstep Hc Hbad.
  - destruct fuel as [|fuel]; [lia|].
    replace (i + Z.of_nat 0 * d) with i in * by lia.
    cbn [for_loop]. rewrite Hc, (Hbad s HI). reflexivity.
  - destruct fuel as [|fuel]; [lia|].
    destruct (Hstep O s) as (Hc0 & Hs & s1 & Hb & H1); [lia| |].
    { now replace (i + Z.of_nat 0 * d) with i by lia. }
    replace (i + Z.of_nat 0 * d) with i in * by lia.
    replace (i + Z.of_nat 1 * d) with (i + d) in * by lia.
    cbn [for_loop]. rewrite Hc0, Hb. cbn [obind]. rewrite Hs. cbn [obind].
    apply (IH fuel (i + d) s1); [lia|assumption| | |].
    + intros k s' Hk HI'.
      replace (i + d + Z.of_nat k * d) with (i + Z.of_nat (Datatypes.S k) * d)
        in * by lia.
      replace (i + d + Z.of_nat (Datatypes.S k) * d)
        with (i + Z.of_nat (Datatypes.S (Datatypes.S k)) * d) by lia.
      apply Hstep; [lia|assumption].
    + now replace (i + d + Z.of_nat n * d)
        with (i + Z.of_nat (Datatypes.S n) * d) by lia.
    + intros s' Hs'. 
      replace (i + d + Z.of_nat n * d)
        with (i + Z.of_nat (Datatypes.S n) * d) in * by lia.
      now apply Hbad.
Qed.

Lemma tmp_x_set_tmp_x (x : Z) : 0 <= x < 2 ^ 128 -> tmp_x (set_tmp_x x) = x.
Proof.
  intros Hx. unfold tmp_x, set_tmp_x. rewrite le_combine_split.
  change (256 ^ Z.of_nat 16) with (2 ^ 128). now apply Z.mod_small.
Qed.

(** The eight emissions of a block: emission [j] sees [tmp.x] shifted
    [j] times. *)
Lemma emit_loop (emit : Z -> list Z -> list Z -> outcome (list Z))
      (I : nat -> list Z -> Prop) (tmp out : list Z) :
  length tmp = 16%nat ->
  I O out ->
  (forall (j : nat) tmp' out,
      (j < 8)%nat -> length tmp' = 16%nat ->
      tmp_x tmp' = shl j (tmp_x tmp) -> I j out ->
      exists out', emit (Z.of_nat (7 - j)) tmp' out = Done out'
                   /\ I (Datatypes.S j) out') ->
  exists tmp' out',
    for_down 8 (shift_after emit) (tmp, out) = Done (tmp', out')
    /\ length tmp' = 16%nat /\ Forall is_byte tmp' /\ I 8%nat out'.
Proof.
  intros Hlen HI Hstep.
  destruct (for_down_inv
    (fun (c : nat) (st : list Z * list Z) =>
       (c <= 8)%nat /\ length (fst st) = 16%nat
       /\ (c = 8%nat \/ Forall is_byte (fst st))
       /\ tmp_x (fst st) = shl (8 - c) (tmp_x tmp)
       /\ I (8 - c)%nat (snd st))
    (shift_after emit) 8 (tmp, out))
    as ([tmp' out'] & Hrun & _ & Hl & Hb & _ & HI').
  - cbn [fst snd]. repeat split; auto.
  - intros c [tmp1 out1] Hc (_ & Hl1 & _ & Hx1 & HI1). cbn [fst snd] in *.
    destruct (Hstep (7 - c)%nat tmp1 out1) as (out2 & He & HI2);
      [lia|assumption| | |].
    { now replace (7 - c)%nat with (8 - Datatypes.S c)%nat by lia. }
    { now replace (7 - c)%nat with (8 - Datatypes.S c)%nat by lia. }
    replace (7 - (7 - c))%nat with c in He by lia.
    unfold shift_after. rewrite He. cbn [obind].
    eexists. split; [reflexivity|]. cbn [fst snd].
    split; [lia|]. split; [apply length_le_split|].
    split; [right; apply le_split_is_byte|]. split.
    + rewrite tmp_x_set_tmp_x by apply slli_epi64_1_bound.
      rewrite Hx1. replace (8 - c)%nat with (Datatypes.S (8 - Datatypes.S c)) by lia.
      reflexivity.
    + now replace (8 - c)%nat with (Datatypes.S (7 - c)) by lia.
  - exists tmp', out'. cbn [fst snd] in *.
    destruct Hb as [Hb|Hb]; [discriminate|]. auto.
Qed.

Lemma for_down_first_undefined {S : Type} (body : Z -> S -> outcome S)
      (n : nat) (s : S) :
  body (Z.of_nat n) s = Undefined ->
  for_down (Datatypes.S n) body s = Undefined.
Proof. intros H. cbn [for_down]. now rewrite H. Qed.

(** A loop does not return when the body of an iteration it reaches
    does not. *)
Lemma for_loop_never_Done {S : Type} (cond : Z -> bool)
      (step : Z -> outcome Z) (body : Z -> S -> outcome S) (d : Z) (k : nat) :
  (forall j j', step j = Done j' -> j' = j + d) ->
  forall (fuel : nat) (i : Z) (s : S),
    (forall k' : nat, (k' <= k)%nat -> cond (i + Z.of_nat k' * d) = true) ->
    (forall s r, body (i + Z.of_nat k * d) s <> Done r) ->
    forall r, for_loop fuel cond step body i s <> Done r.
Proof.
  intros Hstep. induction k as [|k IH]; intros fuel i s Hcond Hbad r.
  - replace (i + Z.of_nat 0 * d) with i in Hbad by lia.
    destruct fuel as [|fuel]; [discriminate|]. cbn [for_loop].
    pose proof (Hcond O ltac:(lia)) as Hc.
    replace (i + Z.of_nat 0 * d) with i in Hc by lia. rewrite Hc.
    destruct (body i s) as [s'| |] eqn:Hb; try discriminate.
    now apply Hbad in Hb.
  - destruct fuel as [|fuel]; [discriminate|]. cbn [for_loop].
    pose proof (Hcond O ltac:(lia)) as Hc.
    replace (i + Z.of_nat 0 * d) with i in Hc by lia. rewrite Hc.
    destruct (body i s) as [s'| |] eqn:Hb; try discriminate. cbn [obind].
    destruct (step i) as [i'| |] eqn:Hs; try discriminate. cbn [obind].
    apply Hstep in Hs. subst i'. apply IH.
    + intros k' Hk'.
      replace (i + d + Z.of_nat k' * d)
        with (i + Z.of_nat (Datatypes.S k') * d) by lia.
      apply Hcond. lia.
    + intros s0 r0.
      replace (i + d + Z.of_nat k * d)
        with (i + Z.of_nat (Datatypes.S k) * d) by lia.
      apply Hbad.
Qed.

Lemma iadd_step (d j j' : Z) : iadd j d = Done j' -> j' = j + d.
Proof.
  unfold iadd, int_of. destruct (decide _); [|discriminate].
  now intros [= <-].
Qed.

(** ** Bit-matrix transposition *)

Lemma testbit_emit (tmp1 tmp' : list Z) (j : nat) (t : Z) :
  length tmp1 = 16%nat -> Forall is_byte tmp1 ->
  (j < 8)%nat -> 0 <= t < 16 ->
  tmp_x tmp' = shl j (tmp_x tmp1) ->
  Z.testbit (tmp_x tmp') (8 * t + 7)
  = Z.testbit (nth (Z.to_nat t) tmp1 0) (7 - Z.of_nat j).
Proof.
  intros Hl1 Hb1 Hj Ht Hx. rewrite Hx.
  assert (HX1 : 0 <= tmp_x tmp1 < 2 ^ 128).
  { pose proof (le_combine_bound tmp1 Hb1) as Hb. rewrite Hl1 in Hb.
    exact Hb. }
  rewrite testbit_shl by lia.
  replace (8 * t + 7 - Z.of_nat j)
    with (8 * Z.of_nat (Z.to_nat t) + (7 - Z.of_nat j)) by lia.
  unfold tmp_x. apply testbit_le_combine; try assumption; lia.
Qed.

Lemma lo_hi_bytes (a b : Z) :
  is_byte a -> is_byte b ->
  (a + 256 * b) mod 256 = a /\ Z.shiftr (a + 256 * b) 8 mod 256 = b.
Proof.
  unfold is_byte. intros Ha Hb. rewrite Z.shiftr_div_pow2 by lia.
  change (2 ^ 8) with 256. split; Z.div_mod_to_equations; lia.
Qed.

Lemma div_mod_8 (c k : Z) :
  0 <= k < 8 -> (8 * c + k) / 8 = c /\ (8 * c + k) mod 8 = k.
Proof. intros Hk. Z.div_mod_to_equations. lia. Qed.

Lemma getbit_cell (buf : list Z) (q u : Z) :
  0 <= u < 8 ->
  getbit buf (8 * q + u) = Z.testbit (nth (Z.to_nat q) buf 0) (7 - u).
Proof.
  intros Hu. unfold getbit. now destruct (div_mod_8 q u Hu) as [-> ->].
Qed.

Lemma split_8 (x n : Z) :
  0 <= x < 8 * n -> exists xb u, x = 8 * xb + u /\ 0 <= u < 8 /\ 0 <= xb < n.
Proof.
  intros Hx. exists (x / 8), (x mod 8). Z.div_mod_to_equations. lia.
Qed.

Lemma byte_ext (a b : Z) :
  is_byte a -> is_byte b ->
  (forall u, 0 <= u < 8 -> Z.testbit a (7 - u) = Z.testbit b (7 - u)) ->
  a = b.
Proof.
  unfold is_byte. intros Ha Hb Hbits. apply Z.bits_inj'. intros n Hn.
  destruct (Z.lt_ge_cases n 8) as [Hlt|Hge].
  - replace n with (7 - (7 - n)) by lia. apply Hbits. lia.
  - rewrite <- (Z.mod_small a (2 ^ 8)), <- (Z.mod_small b (2 ^ 8)) by lia.
    now rewrite !Z.mod_pow2_bits_high by lia.
Qed.

(** ** Index overflow *)

(** The first emission of a [16 x 8] block computes [OUT(rr, cc)], and
    [cc * nrows] in [int]. *)
Lemma emit_16x8_overflow (nrows rr cc : Z) (tmp out : list Z) :
  0 <= cc <= INT_MAX -> INT_MAX < cc * nrows ->
  shift_after (fun i tmp out =>
      do y <- iadd cc (II i);
      do idx <- OUT_index nrows rr y;
      store16 out idx (_mm_movemask_epi8 (tmp_x tmp))) (Z.of_nat 7) (tmp, out)
  = Undefined.
Proof.
  intros Hcc Hbig. unfold shift_after.
  change (II (Z.of_nat 7)) with 0.
  rewrite iadd_Done by (unfold INT_MIN, INT_MAX in *; lia). cbn [obind].
  unfold OUT_index, imul. rewrite int_of_overflow by lia. reflexivity.
Qed.

Lemma block_16x8_never_Done (inp : list Z) (nrows ncols rr cc : Z)
      (st r : list Z * list Z) :
  0 <= cc <= INT_MAX -> INT_MAX < cc * nrows ->
  block_16x8 inp nrows ncols rr cc st <> Done r.
Proof.
  intros Hcc Hbig. unfold block_16x8. destruct st as [tmp out].
  destruct (for_seq _ 0 16 tmp) as [tmp1| |]; try discriminate. cbn [obind].
  change 8%nat with (Datatypes.S 7).
  now rewrite for_down_first_undefined by now apply emit_16x8_overflow.
Qed.

(** With [16 <= nrows], [BitMatrixTranspose] does not return when some
    column [cc < ncols], a multiple of 8, has [cc * nrows] above
    [INT_MAX]. *)
Lemma BitMatrixTranspose_never_Done (inp : list Z) (nrows ncols c0 : Z)
      (out tmp r : list Z) :
  16 <= nrows <= INT_MAX -> 0 <= c0 -> 8 * c0 < ncols <= INT_MAX ->
  INT_MAX < 8 * c0 * nrows ->
  BitMatrixTranspose inp nrows ncols out tmp <> Done r.
Proof.
  intros Hnrows Hc0 Hncols Hbig. unfold BitMatrixTranspose.
  rewrite isub_Done by (unfold INT_MIN, INT_MAX in *; lia). cbn [obind].
  unfold loop_fuel at 1. cbn [for_loop].
  replace (0 <=? nrows - 16) with true by (symmetry; apply Z.leb_le; lia).
  destruct (for_loop (loop_fuel ncols) _ _ (block_16x8 inp nrows ncols 0) 0
              (tmp, out)) as [r1| |] eqn:Hrow; try discriminate.
  exfalso. revert Hrow.
  apply (for_loop_never_Done _ _ _ 8 (Z.to_nat c0)).
  - intros j j'. apply iadd_step.
  - intros k' Hk'. apply Z.ltb_lt. lia.
  - intros s r0. apply block_16x8_never_Done.
    + unfold INT_MAX in *. lia.
    + replace (0 + Z.of_nat (Z.to_nat c0) * 8) with (8 * c0) by lia. lia.
Qed.

Section Transpose.

(** An [nrows x ncols] matrix, [nrows = 8 * nr] and [ncols = 8 * nc]. *)
Variables (inp : list Z) (nrows ncols nr nc : Z).
Hypothesis Hnrows : nrows = 8 * nr.
Hypothesis Hncols : ncols = 8 * nc.
Hypothesis Hnr : 0 <= nr.
Hypothesis Hnc : 0 <= nc.
Hypothesis Hinp : Z.of_nat (length inp) = nr * ncols.
Hypothesis Hbytes : Forall is_byte inp.
Hypothesis Hnrows_int : nrows <= INT_MAX.
Hypothesis Hncols_int : ncols <= INT_MAX.

Local Abbreviation ibyte := (inp_byte inp nc).
Local Abbreviation cell := (cell_ok inp nr nc).
Local Abbreviation upto := (done_upto inp ncols nr nc).

Lemma inp_byte_is_byte (x c : Z) : is_byte (ibyte x c).
Proof.
  unfold inp_byte.
  destruct (nth_in_or_default (Z.to_nat (x * nc + c)) inp 0) as [Hin| ->].
  - rewrite Forall_forall in Hbytes. apply Hbytes.
    now apply list_elem_of_In.
  - unfold is_byte. lia.
Qed.

Lemma INP_index_Done (x c : Z) :
  0 <= x < nrows -> 0 <= c < nc -> x * ncols <= INT_MAX ->
  INP_index ncols x (8 * c) = Done (x * nc + c).
Proof.
  intros Hx Hc Hfit. unfold INP_index.
  rewrite imul_Done by (unfold INT_MIN, INT_MAX in *; nia).
  cbn [obind].
  replace (Z.quot (x * ncols) 8) with (x * nc)
    by (rewrite Hncols; rewrite Z.quot_div_nonneg by nia;
        apply (Z.div_unique_exact); nia).
  replace (Z.quot (8 * c) 8) with c
    by (rewrite Z.quot_div_nonneg by nia;
        apply (Z.div_unique_exact); nia).
  apply iadd_Done. unfold INT_MIN, INT_MAX in *.
  destruct (decide (x = 0)) as [->|Hx0]; [lia|]. nia.
Qed.

Lemma load_inp (x c : Z) :
  0 <= x < nrows -> 0 <= c < nc ->
  load inp (x * nc + c) = Done (ibyte x c).
Proof.
  intros Hx Hc. unfold load, inp_byte.
  destruct (decide (0 <= x * nc + c)); [|nia].
  destruct (lookup_lt_is_Some_2 inp (Z.to_nat (x * nc + c))) as [b Hb]; [nia|].
  rewrite Hb. f_equal. symmetry. now apply nth_lookup_Some with (d := 0).
Qed.

Lemma OUT_index_Done (xb y : Z) :
  0 <= xb < nr -> 0 <= y < ncols -> y * nrows <= INT_MAX ->
  OUT_index nrows (8 * xb) y = Done (y * nr + xb).
Proof.
  intros Hx Hy Hfit. unfold OUT_index.
  rewrite imul_Done by (unfold INT_MIN, INT_MAX in *; nia).
  cbn [obind].
  replace (Z.quot (y * nrows) 8) with (y * nr)
    by (rewrite Hnrows; rewrite Z.quot_div_nonneg by nia;
        apply (Z.div_unique_exact); nia).
  replace (Z.quot (8 * xb) 8) with xb
    by (rewrite Z.quot_div_nonneg by nia;
        apply (Z.div_unique_exact); nia).
  apply iadd_Done. unfold INT_MIN, INT_MAX in *.
  destruct (decide (y = 0)) as [->|Hy0]; [lia|]. nia.
Qed.

Lemma index_nonneg (y xb : Z) : 0 <= y -> 0 <= xb -> 0 <= y * nr + xb.
Proof. intros Hy Hx. nia. Qed.

Lemma index_inj (y xb y' xb' : Z) :
  0 <= xb < nr -> 0 <= xb' < nr ->
  y * nr + xb = y' * nr + xb' -> y = y' /\ xb = xb'.
Proof.
  intros Hx Hx' Heq.
  assert (y = y') by nia. subst. lia.
Qed.

Lemma II_range (i : Z) : 0 <= i < 16 -> 0 <= II i < 16.
Proof.
  intros Hi. destruct (Z.lt_ge_cases i 8).
  - rewrite II_low by lia. lia.
  - rewrite II_high by lia. lia.
Qed.

Lemma gather_16x8 (xr c : Z) (tmp : list Z) :
  length tmp = 16%nat -> 0 <= xr -> xr + 2 <= nr -> 0 <= c < nc ->
  (8 * xr + 15) * ncols <= INT_MAX ->
  exists tmp',
    for_seq (fun i tmp =>
      do x <- iadd (8 * xr) (II i);
      do idx <- INP_index ncols x (8 * c);
      do v <- load inp idx;
      store tmp i v) 0 16 tmp = Done tmp'
    /\ length tmp' = 16%nat
    /\ forall t : nat, (t < 16)%nat ->
         tmp' !! t = Some (ibyte (8 * xr + II (Z.of_nat t)) c).
Proof.
  intros Hlen Hxr Hxr2 Hc Hfit.
  destruct (for_seq_inv
    (fun (i : Z) (tmp : list Z) =>
       length tmp = 16%nat
       /\ forall t : nat, Z.of_nat t < i ->
            tmp !! t = Some (ibyte (8 * xr + II (Z.of_nat t)) c))
    (fun i tmp =>
      do x <- iadd (8 * xr) (II i);
      do idx <- INP_index ncols x (8 * c);
      do v <- load inp idx;
      store tmp i v) 16 0 tmp) as (tmp' & Hrun & Hlen' & Hall).
  - split; [assumption|]. intros t Ht. lia.
  - intros i s Hi [Hs Hprev].
    pose proof (II_range i ltac:(lia)) as HII.
    rewrite iadd_Done by (unfold INT_MIN, INT_MAX in *; lia). cbn [obind].
    rewrite INP_index_Done by (try lia; nia). cbn [obind].
    rewrite load_inp by lia. cbn [obind].
    rewrite store_Done by lia.
    eexists. split; [reflexivity|]. split; [now rewrite length_insert|].
    intros t Ht. destruct (decide (Z.of_nat t = i)) as [<-|Hne].
    + rewrite Nat2Z.id. apply list_lookup_insert_eq. lia.
    + rewrite list_lookup_insert_ne by lia. apply Hprev. lia.
  - exists tmp'. split; [exact Hrun|]. split; [assumption|].
    intros t Ht. apply Hall. lia.
Qed.

(** One [16 x 8] block: it writes the sixteen bytes of the cells of the
    columns [8c .. 8c+7] in the byte rows [xr] and [xr + 1], and nothing
    else. *)
Lemma block_16x8_spec (xr c : Z) (tmp out : list Z) :
  length tmp = 16%nat -> Z.of_nat (length out) = nr * ncols ->
  0 <= xr -> xr + 2 <= nr -> 0 <= c < nc ->
  (8 * xr + 15) * ncols <= INT_MAX -> (8 * c + 7) * nrows <= INT_MAX ->
  exists tmp' out',
    block_16x8 inp nrows ncols (8 * xr) (8 * c) (tmp, out) = Done (tmp', out')
    /\ length tmp' = 16%nat /\ Forall is_byte tmp'
    /\ length out' = length out
    /\ (forall n : nat,
          (forall k h, 0 <= k < 8 -> 0 <= h < 2 ->
                       n <> Z.to_nat ((8 * c + k) * nr + xr + h)) ->
          out' !! n = out !! n)
    /\ (forall k h, 0 <= k < 8 -> 0 <= h < 2 ->
                    cell out' (8 * c + k) (xr + h)).
Proof.
  intros Hlen Hout Hxr Hxr2 Hc Hfit Hfit'. unfold block_16x8.
  destruct (gather_16x8 xr c tmp) as (tmp1 & Hg & Hl1 & Ht1); try assumption.
  rewrite Hg. cbn [obind].
  assert (Hb1 : Forall is_byte tmp1).
  { apply Forall_lookup. intros i x Hix.
    assert (Hi : (i < 16)%nat) by (rewrite <- Hl1; eapply lookup_lt_Some; eauto).
    rewrite (Ht1 i Hi) in Hix. injection Hix as <-. apply inp_byte_is_byte. }
  assert (HX1 : 0 <= tmp_x tmp1 < 2 ^ 128).
  { pose proof (le_combine_bound tmp1 Hb1) as Hb. rewrite Hl1 in Hb.
    exact Hb. }
  assert (Hbit : forall (j : nat) (t u : Z) tmp',
             (j < 8)%nat -> 0 <= t < 16 ->
             tmp_x tmp' = shl j (tmp_x tmp1) ->
             Z.testbit (tmp_x tmp') (8 * t + 7)
             = Z.testbit (ibyte (8 * xr + II t) c) (7 - Z.of_nat j)).
  { intros j t u tmp' Hj Ht Hx. rewrite Hx.
    rewrite testbit_shl by lia.
    replace (8 * t + 7 - Z.of_nat j)
      with (8 * Z.of_nat (Z.to_nat t) + (7 - Z.of_nat j)) by lia.
    unfold tmp_x. rewrite testbit_le_combine by (try assumption; lia).
    assert (Ht' : (Z.to_nat t < 16)%nat) by (clear - Ht; lia).
    rewrite (nth_lookup_Some tmp1 (Z.to_nat t) 0 _ (Ht1 _ Ht')).
    now rewrite Z2Nat.id by lia. }
  destruct (emit_loop
    (fun i tmp out =>
      do y <- iadd (8 * c) (II i);
      do idx <- OUT_index nrows (8 * xr) y;
      store16 out idx (_mm_movemask_epi8 (tmp_x tmp)))
    (fun (j : nat) (o : list Z) =>
       length o = length out
       /\ (forall n : nat,
             (forall k h, 0 <= k < Z.of_nat j -> 0 <= h < 2 ->
                          n <> Z.to_nat ((8 * c + k) * nr + xr + h)) ->
             o !! n = out !! n)
       /\ (forall k h, 0 <= k < Z.of_nat j -> 0 <= h < 2 ->
                       cell o (8 * c + k) (xr + h)))
    tmp1 out Hl1) as (tmp' & out' & Hrun & Hl' & Hb' & Hlo & Hun & Hcells).
  - split; [reflexivity|]. split; [reflexivity|]. intros k h Hk. lia.
  - intros j tmp2 o Hj Hl2 Hx2 (Hlo & Hun & Hcells).
    rewrite II_low by lia.
    replace (7 - Z.of_nat (7 - j)) with (Z.of_nat j) by lia.
    rewrite iadd_Done by (unfold INT_MIN, INT_MAX in *; lia). cbn [obind].
    rewrite OUT_index_Done by (try lia; nia). cbn [obind].
    set (idx := (8 * c + Z.of_nat j) * nr + xr).
    assert (Hidx : 0 <= idx /\ idx + 1 < Z.of_nat (length o)) by (unfold idx; nia).
    unfold store16. rewrite store_Done by lia. cbn [obind].
    rewrite store_Done by (rewrite length_insert; lia).
    eexists. split; [reflexivity|].
    split; [now rewrite !length_insert|]. split.
    + intros n Hn.
      rewrite !list_lookup_insert_ne.
      * apply Hun. intros k h Hk Hh. apply Hn; lia.
      * specialize (Hn (Z.of_nat j) 0 ltac:(lia) ltac:(lia)).
        fold idx in Hn. replace (idx + 0) with idx in Hn by lia. congruence.
      * specialize (Hn (Z.of_nat j) 1 ltac:(lia) ltac:(lia)).
        fold idx in Hn. congruence.
    + intros k h Hk Hh.
      destruct (decide (k = Z.of_nat j)) as [->|Hkj].
      * assert (Hh' : h = 0 \/ h = 1) by lia.
        destruct (div_mod_8 c (Z.of_nat j) ltac:(lia)) as [Hdiv Hmod].
        destruct Hh' as [-> | ->].
        -- exists (_mm_movemask_epi8 (tmp_x tmp2) mod 256).
           replace ((8 * c + Z.of_nat j) * nr + (xr + 0)) with idx
             by (unfold idx; lia).
           split.
           { rewrite list_lookup_insert_ne by lia.
             apply list_lookup_insert_eq. lia. }
           split; [unfold is_byte; apply Z.mod_pos_bound; lia|].
           intros u Hu. rewrite Hdiv, Hmod.
           rewrite testbit_mask_lo by lia.
           rewrite (Hbit j (7 - u) 0 tmp2) by (assumption || lia).
           rewrite II_low by lia. f_equal. f_equal. lia.
        -- exists (_mm_movemask_epi8 (tmp_x tmp2) / 256 mod 256).
           replace ((8 * c + Z.of_nat j) * nr + (xr + 1)) with (idx + 1)
             by (unfold idx; lia).
           split.
           { apply list_lookup_insert_eq. rewrite length_insert. lia. }
           split; [unfold is_byte; apply Z.mod_pos_bound; lia|].
           intros u Hu. rewrite Hdiv, Hmod.
           rewrite testbit_mask_hi by lia.
           rewrite (Hbit j (7 - u + 8) 0 tmp2) by (assumption || lia).
           rewrite II_high by lia. f_equal. f_equal. lia.
      * destruct (Hcells k h ltac:(lia) Hh) as (b & Hb & Hrest).
        exists b. split; [|exact Hrest].
        rewrite !list_lookup_insert_ne; [exact Hb| |];
          unfold idx; intros Heq; apply Z2Nat.inj in Heq; nia.
  - exists tmp', out'. split; [exact Hrun|]. split; [assumption|].
    split; [assumption|]. split; [assumption|]. split.
    + intros n Hn. apply Hun. intros k h Hk Hh. apply Hn; lia.
    + intros k h Hk Hh. apply Hcells; lia.
Qed.

Lemma cell_ok_preserved (out out' : list Z) (y xb : Z) :
  out' !! Z.to_nat (y * nr + xb) = out !! Z.to_nat (y * nr + xb) ->
  cell out y xb -> cell out' y xb.
Proof. intros Heq (b & Hb & Hrest). exists b. now rewrite Heq. Qed.


Lemma load16_inp (x c : Z) :
  0 <= x < nrows -> 0 <= c -> c + 1 < nc ->
  load16 inp (x * nc + c) = Done (ibyte x c + 256 * ibyte x (c + 1)).
Proof.
  intros Hx Hc Hc1. unfold load16.
  rewrite load_inp by lia. cbn [obind].
  replace (x * nc + c + 1) with (x * nc + (c + 1)) by lia.
  rewrite load_inp by lia. reflexivity.
Qed.

Lemma gather_8x16 (xr c : Z) (tmp : list Z) :
  length tmp = 16%nat -> 0 <= xr < nr -> 0 <= c -> c + 2 <= nc ->
  (8 * xr + 7) * ncols <= INT_MAX ->
  exists tmp',
    for_down 8 (fun i tmp =>
      do x <- iadd (8 * xr) (II i);
      do idx <- INP_index ncols x (8 * c);
      do h <- load16 inp idx;
      do tmp <- store tmp i (h mod 256);
      store tmp (i + 8) (Z.shiftr h 8 mod 256)) tmp = Done tmp'
    /\ length tmp' = 16%nat
    /\ forall t : nat, (t < 8)%nat ->
         tmp' !! t = Some (ibyte (8 * xr + 7 - Z.of_nat t) c)
         /\ tmp' !! (t + 8)%nat
            = Some (ibyte (8 * xr + 7 - Z.of_nat t) (c + 1)).
Proof.
  intros Hlen Hxr Hc Hc2 Hfit.
  destruct (for_down_inv
    (fun (n : nat) (tmp : list Z) =>
       length tmp = 16%nat
       /\ forall t : nat, (n <= t < 8)%nat ->
            tmp !! t = Some (ibyte (8 * xr + 7 - Z.of_nat t) c)
            /\ tmp !! (t + 8)%nat
               = Some (ibyte (8 * xr + 7 - Z.of_nat t) (c + 1)))
    (fun i tmp =>
      do x <- iadd (8 * xr) (II i);
      do idx <- INP_index ncols x (8 * c);
      do h <- load16 inp idx;
      do tmp <- store tmp i (h mod 256);
      store tmp (i + 8) (Z.shiftr h 8 mod 256)) 8 tmp)
    as (tmp' & Hrun & Hlen' & Hall).
  - split; [assumption|]. intros t Ht. lia.
  - intros i s Hi [Hs Hprev].
    rewrite II_low by lia.
    rewrite iadd_Done by (unfold INT_MIN, INT_MAX in *; lia). cbn [obind].
    rewrite INP_index_Done by (try lia; nia). cbn [obind].
    rewrite load16_inp by lia. cbn [obind].
    destruct (lo_hi_bytes (ibyte (8 * xr + (7 - Z.of_nat i)) c)
                (ibyte (8 * xr + (7 - Z.of_nat i)) (c + 1)))
      as [-> ->]; try apply inp_byte_is_byte.
    rewrite store_Done by lia. cbn [obind].
    rewrite store_Done by (rewrite length_insert; lia).
    rewrite Nat2Z.id.
    replace (Z.to_nat (Z.of_nat i + 8)) with (i + 8)%nat by lia.
    eexists. split; [reflexivity|].
    split; [now rewrite !length_insert|].
    intros t Ht. destruct (decide (t = i)) as [->|Hne].
    + replace (8 * xr + 7 - Z.of_nat i) with (8 * xr + (7 - Z.of_nat i)) by lia.
      split.
      * rewrite list_lookup_insert_ne by lia.
        apply list_lookup_insert_eq. lia.
      * apply list_lookup_insert_eq. rewrite length_insert. lia.
    + rewrite !list_lookup_insert_ne by lia. apply Hprev. lia.
  - exists tmp'. split; [exact Hrun|]. split; [assumption|].
    intros t Ht. apply Hall. lia.
Qed.

(** One [8 x 16] block of the byte row [xr]: the cells of the columns
    [8c .. 8c+15]. *)
Lemma block_8x16_spec (xr c : Z) (tmp out : list Z) :
  length tmp = 16%nat -> Z.of_nat (length out) = nr * ncols ->
  0 <= xr < nr -> 0 <= c -> c + 2 <= nc ->
  (8 * xr + 7) * ncols <= INT_MAX -> (8 * c + 15) * nrows <= INT_MAX ->
  exists tmp' out',
    block_8x16 inp nrows ncols (8 * xr) (8 * c) (tmp, out) = Done (tmp', out')
    /\ length tmp' = 16%nat /\ Forall is_byte tmp'
    /\ length out' = length out
    /\ (forall n : nat,
          (forall k, 0 <= k < 16 -> n <> Z.to_nat ((8 * c + k) * nr + xr)) ->
          out' !! n = out !! n)
    /\ (forall k, 0 <= k < 16 -> cell out' (8 * c + k) xr).
Proof.
  intros Hlen Hout Hxr Hc Hc2 Hfit Hfit'. unfold block_8x16.
  destruct (gather_8x16 xr c tmp) as (tmp1 & Hg & Hl1 & Ht1); try assumption.
  rewrite Hg. cbn [obind].
  assert (Hb1 : Forall is_byte tmp1).
  { apply Forall_lookup. intros i x Hix.
    assert (Hi : (i < 16)%nat) by (rewrite <- Hl1; eapply lookup_lt_Some; eauto).
    destruct (decide (i < 8)%nat) as [Hlt|Hge].
    - destruct (Ht1 i Hlt) as [H1 _]. rewrite H1 in Hix.
      injection Hix as <-. apply inp_byte_is_byte.
    - destruct (Ht1 (i - 8)%nat ltac:(lia)) as [_ H2].
      replace (i - 8 + 8)%nat with i in H2 by lia. rewrite H2 in Hix.
      injection Hix as <-. apply inp_byte_is_byte. }
  destruct (emit_loop
    (fun i tmp out =>
      let h := _mm_movemask_epi8 (tmp_x tmp) in
      do y <- iadd (8 * c) (II i);
      do idx <- OUT_index nrows (8 * xr) y;
      do out <- store out idx (h mod 256);
      do y8 <- iadd y 8;
      do idx8 <- OUT_index nrows (8 * xr) y8;
      store out idx8 (Z.shiftr h 8 mod 256))
    (fun (j : nat) (o : list Z) =>
       length o = length out
       /\ (forall n : nat,
             (forall k, 0 <= k < Z.of_nat j \/ 8 <= k < 8 + Z.of_nat j ->
                        n <> Z.to_nat ((8 * c + k) * nr + xr)) ->
             o !! n = out !! n)
       /\ (forall k, 0 <= k < Z.of_nat j \/ 8 <= k < 8 + Z.of_nat j ->
                     cell o (8 * c + k) xr))
    tmp1 out Hl1) as (tmp' & out' & Hrun & Hl' & Hb' & Hlo & Hun & Hcells).
  - split; [reflexivity|]. split; [reflexivity|]. intros k Hk. lia.
  - intros j tmp2 o Hj Hl2 Hx2 (Hlo & Hun & Hcells). cbn zeta.
    rewrite II_low by lia.
    replace (7 - Z.of_nat (7 - j)) with (Z.of_nat j) by lia.
    rewrite iadd_Done by (unfold INT_MIN, INT_MAX in *; lia). cbn [obind].
    rewrite OUT_index_Done by (try lia; nia). cbn [obind].
    set (idx := (8 * c + Z.of_nat j) * nr + xr).
    set (idx8 := (8 * c + Z.of_nat j + 8) * nr + xr).
    assert (Hidx : 0 <= idx < idx8 /\ idx8 < Z.of_nat (length o))
      by (unfold idx, idx8; nia).
    rewrite store_Done by lia. cbn [obind].
    rewrite iadd_Done by (unfold INT_MIN, INT_MAX in *; lia). cbn [obind].
    rewrite OUT_index_Done by (try lia; nia). cbn [obind].
    fold idx8.
    rewrite store_Done by (rewrite length_insert; lia).
    eexists. split; [reflexivity|].
    split; [now rewrite !length_insert|]. split.
    + intros n Hn.
      rewrite !list_lookup_insert_ne.
      * apply Hun. intros k Hk. apply Hn; lia.
      * specialize (Hn (Z.of_nat j) ltac:(lia)). fold idx in Hn. congruence.
      * specialize (Hn (8 + Z.of_nat j) ltac:(lia)).
        replace ((8 * c + (8 + Z.of_nat j)) * nr + xr) with idx8 in Hn
          by (unfold idx8; lia).
        congruence.
    + intros k Hk.
      destruct (div_mod_8 c (Z.of_nat j) ltac:(lia)) as [Hdiv Hmod].
      destruct (div_mod_8 (c + 1) (Z.of_nat j) ltac:(lia)) as [Hdiv' Hmod'].
      destruct (decide (k = Z.of_nat j)) as [->|Hkj];
        [|destruct (decide (k = 8 + Z.of_nat j)) as [->|Hkj8]].
      * exists (_mm_movemask_epi8 (tmp_x tmp2) mod 256). fold idx.
        split.
        { rewrite list_lookup_insert_ne by lia.
          apply list_lookup_insert_eq. lia. }
        split; [unfold is_byte; apply Z.mod_pos_bound; lia|].
        intros u Hu. rewrite Hdiv, Hmod.
        rewrite testbit_mask_lo by lia.
        rewrite (testbit_emit tmp1 tmp2 j (7 - u)) by (assumption || lia).
        destruct (Ht1 (Z.to_nat (7 - u)) ltac:(lia)) as [H1 _].
        rewrite (nth_lookup_Some tmp1 _ 0 _ H1).
        f_equal. f_equal. lia.
      * exists (Z.shiftr (_mm_movemask_epi8 (tmp_x tmp2)) 8 mod 256).
        replace ((8 * c + (8 + Z.of_nat j)) * nr + xr) with idx8
          by (unfold idx8; lia).
        split.
        { apply list_lookup_insert_eq. rewrite length_insert. lia. }
        split; [unfold is_byte; apply Z.mod_pos_bound; lia|].
        intros u Hu.
        replace (8 * c + (8 + Z.of_nat j)) with (8 * (c + 1) + Z.of_nat j)
          by lia.
        rewrite Hdiv', Hmod'.
        rewrite testbit_mask_hi_shiftr by lia.
        rewrite (testbit_emit tmp1 tmp2 j (7 - u + 8)) by (assumption || lia).
        destruct (Ht1 (Z.to_nat (7 - u)) ltac:(lia)) as [_ H2].
        replace (Z.to_nat (7 - u + 8)) with (Z.to_nat (7 - u) + 8)%nat by lia.
        rewrite (nth_lookup_Some tmp1 _ 0 _ H2).
        f_equal. f_equal. lia.
      * destruct (Hcells k ltac:(lia)) as (b & Hb & Hrest).
        exists b. split; [|exact Hrest].
        rewrite !list_lookup_insert_ne; [exact Hb| |];
          unfold idx, idx8; intros Heq;
          (apply Z2Nat.inj in Heq; [|apply index_nonneg; lia..]);
          apply index_inj in Heq; lia.
  - exists tmp', out'. split; [exact Hrun|]. split; [assumption|].
    split; [assumption|]. split; [assumption|]. split.
    + intros n Hn. apply Hun. intros k Hk. apply Hn; lia.
    + intros k Hk. apply Hcells; lia.
Qed.

Lemma gather_8x8 (xr c : Z) (tmp : list Z) :
  length tmp = 16%nat -> Forall is_byte tmp ->
  0 <= xr < nr -> 0 <= c < nc ->
  (8 * xr + 7) * ncols <= INT_MAX ->
  exists tmp',
    for_down 8 (fun i tmp =>
      do x <- iadd (8 * xr) (II i);
      do idx <- INP_index ncols x (8 * c);
      do v <- load inp idx;
      store tmp i v) tmp = Done tmp'
    /\ length tmp' = 16%nat /\ Forall is_byte tmp'
    /\ forall t : nat, (t < 8)%nat ->
         tmp' !! t = Some (ibyte (8 * xr + 7 - Z.of_nat t) c).
Proof.
  intros Hlen Hbt Hxr Hc Hfit.
  destruct (for_down_inv
    (fun (n : nat) (tmp : list Z) =>
       length tmp = 16%nat /\ Forall is_byte tmp
       /\ forall t : nat, (n <= t < 8)%nat ->
            tmp !! t = Some (ibyte (8 * xr + 7 - Z.of_nat t) c))
    (fun i tmp =>
      do x <- iadd (8 * xr) (II i);
      do idx <- INP_index ncols x (8 * c);
      do v <- load inp idx;
      store tmp i v) 8 tmp)
    as (tmp' & Hrun & Hlen' & Hb' & Hall).
  - split; [assumption|]. split; [assumption|]. intros t Ht. lia.
  - intros i s Hi (Hs & Hbs & Hprev).
    rewrite II_low by lia.
    rewrite iadd_Done by (unfold INT_MIN, INT_MAX in *; lia). cbn [obind].
    rewrite INP_index_Done by (try lia; nia). cbn [obind].
    rewrite load_inp by lia. cbn [obind].
    rewrite store_Done by lia. rewrite Nat2Z.id.
    eexists. split; [reflexivity|].
    split; [now rewrite !length_insert|].
    split; [apply Forall_insert; [assumption|apply inp_byte_is_byte]|].
    intros t Ht. destruct (decide (t = i)) as [->|Hne].
    + replace (8 * xr + 7 - Z.of_nat i) with (8 * xr + (7 - Z.of_nat i)) by lia.
      apply list_lookup_insert_eq. lia.
    + rewrite !list_lookup_insert_ne by lia. apply Hprev. lia.
  - exists tmp'. split; [exact Hrun|]. split; [assumption|].
    split; [assumption|]. intros t Ht. apply Hall. lia.
Qed.

(** The [8 x 8] block of the byte row [xr] and the columns [8c .. 8c+7]. *)
Lemma block_8x8_spec (xr c : Z) (tmp out : list Z) :
  length tmp = 16%nat -> Forall is_byte tmp ->
  Z.of_nat (length out) = nr * ncols ->
  0 <= xr < nr -> 0 <= c < nc ->
  (8 * xr + 7) * ncols <= INT_MAX -> (8 * c + 7) * nrows <= INT_MAX ->
  exists tmp' out',
    block_8x8 inp nrows ncols (8 * xr) (8 * c) (tmp, out) = Done (tmp', out')
    /\ length out' = length out
    /\ (forall n : nat,
          (forall k, 0 <= k < 8 -> n <> Z.to_nat ((8 * c + k) * nr + xr)) ->
          out' !! n = out !! n)
    /\ (forall k, 0 <= k < 8 -> cell out' (8 * c + k) xr).
Proof.
  intros Hlen Hbt Hout Hxr Hc Hfit Hfit'. unfold block_8x8.
  destruct (gather_8x8 xr c tmp) as (tmp1 & Hg & Hl1 & Hb1 & Ht1);
    try assumption.
  rewrite Hg. cbn [obind].
  destruct (emit_loop
    (fun i tmp out =>
      do y <- iadd (8 * c) (II i);
      do idx <- OUT_index nrows (8 * xr) y;
      store out idx (_mm_movemask_epi8 (tmp_x tmp) mod 256))
    (fun (j : nat) (o : list Z) =>
       length o = length out
       /\ (forall n : nat,
             (forall k, 0 <= k < Z.of_nat j ->
                        n <> Z.to_nat ((8 * c + k) * nr + xr)) ->
             o !! n = out !! n)
       /\ (forall k, 0 <= k < Z.of_nat j -> cell o (8 * c + k) xr))
    tmp1 out Hl1) as (tmp' & out' & Hrun & Hl' & Hb' & Hlo & Hun & Hcells).
  - split; [reflexivity|]. split; [reflexivity|]. intros k Hk. lia.
  - intros j tmp2 o Hj Hl2 Hx2 (Hlo & Hun & Hcells).
    rewrite II_low by lia.
    replace (7 - Z.of_nat (7 - j)) with (Z.of_nat j) by lia.
    rewrite iadd_Done by (unfold INT_MIN, INT_MAX in *; lia). cbn [obind].
    rewrite OUT_index_Done by (try lia; nia). cbn [obind].
    set (idx := (8 * c + Z.of_nat j) * nr + xr).
    assert (Hidx : 0 <= idx < Z.of_nat (length o)) by (unfold idx; nia).
    rewrite store_Done by lia.
    eexists. split; [reflexivity|].
    split; [now rewrite !length_insert|]. split.
    + intros n Hn.
      rewrite list_lookup_insert_ne.
      * apply Hun. intros k Hk. apply Hn; lia.
      * specialize (Hn (Z.of_nat j) ltac:(lia)). fold idx in Hn. congruence.
    + intros k Hk.
      destruct (div_mod_8 c (Z.of_nat j) ltac:(lia)) as [Hdiv Hmod].
      destruct (decide (k = Z.of_nat j)) as [->|Hkj].
      * exists (_mm_movemask_epi8 (tmp_x tmp2) mod 256). fold idx.
        split; [apply list_lookup_insert_eq; lia|].
        split; [unfold is_byte; apply Z.mod_pos_bound; lia|].
        intros u Hu. rewrite Hdiv, Hmod.
        rewrite testbit_mask_lo by lia.
        rewrite (testbit_emit tmp1 tmp2 j (7 - u)) by (assumption || lia).
        rewrite (nth_lookup_Some tmp1 _ 0 _ (Ht1 (Z.to_nat (7 - u)) ltac:(lia))).
        f_equal. f_equal. lia.
      * destruct (Hcells k ltac:(lia)) as (b & Hb & Hrest).
        exists b. split; [|exact Hrest].
        rewrite list_lookup_insert_ne; [exact Hb|];
          unfold idx; intros Heq;
          (apply Z2Nat.inj in Heq; [|apply index_nonneg; lia..]);
          apply index_inj in Heq; lia.
  - exists tmp', out'. split; [exact Hrun|]. split; [assumption|]. split.
    + intros n Hn. apply Hun. intros k Hk. apply Hn; lia.
    + intros k Hk. apply Hcells; lia.
Qed.

(** The first row of [16 x 8] blocks stops at the first column [8 c0]
    with [8 c0 * nrows] above [INT_MAX]. *)
Lemma row_16x8_overflow (c0 : Z) (tmp out : list Z) :
  length tmp = 16%nat -> Z.of_nat (length out) = nr * ncols ->
  2 <= nr -> 15 * ncols <= INT_MAX -> 0 <= c0 < nc ->
  (8 * c0 - 1) * nrows <= INT_MAX < 8 * c0 * nrows ->
  for_loop (loop_fuel ncols) (fun cc => cc <? ncols) (fun cc => iadd cc 8)
           (block_16x8 inp nrows ncols 0) 0 (tmp, out)
  = Undefined.
Proof.
  intros Hlen Hout Hnr2 Hfit Hc0 Hbig.
  apply (for_loop_undefined
    (fun (cc : Z) (st : list Z * list Z) =>
       length (fst st) = 16%nat /\ length (snd st) = length out)
    _ _ _ 8 (Z.to_nat c0)).
  - unfold loop_fuel. lia.
  - cbn [fst snd]. auto.
  - intros k [tmp1 out1] Hk (Hl1 & Hlo1). cbn [fst snd] in *.
    replace (0 + Z.of_nat k * 8) with (8 * Z.of_nat k) by lia.
    replace (0 + Z.of_nat (Datatypes.S k) * 8) with (8 * Z.of_nat k + 8) by lia.
    split; [apply Z.ltb_lt; lia|].
    split; [apply iadd_Done; unfold INT_MIN, INT_MAX in *; lia|].
    change 0 with (8 * 0) at 1.
    destruct (block_16x8_spec 0 (Z.of_nat k) tmp1 out1)
      as (tmp2 & out2 & Hb & Hl2 & Hb2 & Hlo2 & _); try lia.
    { assert (8 * Z.of_nat k + 7 <= 8 * c0 - 1) by lia.
      unfold INT_MAX in *. nia. }
    exists (tmp2, out2). split; [exact Hb|]. cbn [fst snd].
    split; [assumption|congruence].
  - apply Z.ltb_lt. lia.
  - intros [tmp1 out1] (Hl1 & Hlo1). cbn [fst snd] in *.
    replace (0 + Z.of_nat (Z.to_nat c0) * 8) with (8 * c0) by lia.
    unfold block_16x8. change 0 with (8 * 0) at 1.
    destruct (gather_16x8 0 c0 tmp1) as (tmp2 & Hg & _); try lia.
    rewrite Hg. cbn [obind].
    change 8%nat with (Datatypes.S 7).
    apply for_down_first_undefined. apply emit_16x8_overflow.
    + unfold INT_MAX in *. lia.
    + lia.
Qed.

Lemma BitMatrixTranspose_overflow (c0 : Z) (tmp out : list Z) :
  length tmp = 16%nat -> Z.of_nat (length out) = nr * ncols ->
  2 <= nr -> 15 * ncols <= INT_MAX -> 0 <= c0 < nc ->
  (8 * c0 - 1) * nrows <= INT_MAX < 8 * c0 * nrows ->
  BitMatrixTranspose inp nrows ncols out tmp = Undefined.
Proof.
  intros Hlen Hout Hnr2 Hfit Hc0 Hbig. unfold BitMatrixTranspose.
  rewrite isub_Done by (unfold INT_MIN, INT_MAX in *; lia). cbn [obind].
  unfold loop_fuel at 1. cbn [for_loop].
  replace (0 <=? nrows - 16) with true by (symmetry; apply Z.leb_le; lia).
  now rewrite row_16x8_overflow with (c0 := c0).
Qed.

(** From here on the whole index range fits [int]. *)
Hypothesis Hint : nrows * ncols <= 2 ^ 31.

(** The row of [16 x 8] blocks at the byte rows [xr] and [xr + 1]. *)
Lemma row_16x8_spec (xr : Z) (tmp out : list Z) :
  length tmp = 16%nat -> Forall is_byte tmp ->
  Z.of_nat (length out) = nr * ncols ->
  0 <= xr -> xr + 2 <= nr ->
  upto out xr 2 0 ->
  exists tmp' out',
    for_loop (loop_fuel ncols) (fun cc => cc <? ncols) (fun cc => iadd cc 8)
             (block_16x8 inp nrows ncols (8 * xr)) 0 (tmp, out)
    = Done (ncols, (tmp', out'))
    /\ length tmp' = 16%nat /\ Forall is_byte tmp'
    /\ length out' = length out
    /\ upto out' (xr + 2) 2 0.
Proof.
  intros Hlen Hbt Hout Hxr Hxr2 Hdone.
  destruct (for_loop_inv
    (fun (cc : Z) (st : list Z * list Z) =>
       length (fst st) = 16%nat /\ Forall is_byte (fst st)
       /\ length (snd st) = length out
       /\ upto (snd st) xr 2 cc)
    (fun cc => cc <? ncols) (fun cc => iadd cc 8)
    (block_16x8 inp nrows ncols (8 * xr)) 8 (Z.to_nat nc)
    (loop_fuel ncols) 0 (tmp, out))
    as ([tmp' out'] & Hrun & Hl' & Hb' & Hlo' & Hd').
  - unfold loop_fuel. lia.
  - cbn [fst snd]. auto.
  - intros k [tmp1 out1] Hk (Hl1 & Hb1 & Hlo1 & Hd1). cbn [fst snd] in *.
    replace (0 + Z.of_nat k * 8) with (8 * Z.of_nat k) by lia.
    replace (0 + Z.of_nat (Datatypes.S k) * 8) with (8 * Z.of_nat k + 8) by lia.
    split; [apply Z.ltb_lt; lia|].
    split; [apply iadd_Done; unfold INT_MIN, INT_MAX in *; lia|].
    destruct (block_16x8_spec xr (Z.of_nat k) tmp1 out1)
      as (tmp2 & out2 & Hb & Hl2 & Hb2 & Hlo2 & Hun & Hcells); try lia;
      try (unfold INT_MAX; nia).
    exists (tmp2, out2). split; [exact Hb|]. cbn [fst snd].
    split; [assumption|]. split; [assumption|]. split; [congruence|].
    intros y xb Hy Hxb Hcase.
    destruct (decide (xr <= xb /\ 8 * Z.of_nat k <= y)) as [[Hge Hyk]|Hold].
    + replace y with (8 * Z.of_nat k + (y - 8 * Z.of_nat k)) by lia.
      replace xb with (xr + (xb - xr)) by lia.
      apply Hcells; lia.
    + apply (cell_ok_preserved out1).
      * apply Hun. intros k' h Hk' Hh Heq.
        apply Z2Nat.inj in Heq;
          [|apply index_nonneg; lia
           |apply Z.add_nonneg_nonneg; [apply index_nonneg|]; lia].
        replace ((8 * Z.of_nat k + k') * nr + xr + h)
          with ((8 * Z.of_nat k + k') * nr + (xr + h)) in Heq by lia.
        apply index_inj in Heq; lia.
      * apply Hd1; lia.
  - apply Z.ltb_ge. lia.
  - replace (0 + Z.of_nat (Z.to_nat nc) * 8) with ncols in * by lia.
    exists tmp', out'. cbn [fst snd] in *. split; [exact Hrun|].
    split; [assumption|]. split; [assumption|]. split; [assumption|].
    intros y xb Hy Hxb Hcase. apply Hd'; lia.
Qed.

(** The main body: all the rows of [16 x 8] blocks. *)
Lemma main_body_spec (tmp out : list Z) :
  length tmp = 16%nat -> Forall is_byte tmp ->
  Z.of_nat (length out) = nr * ncols ->
  exists tmp' out',
    for_loop (loop_fuel nrows) (fun rr => rr <=? nrows - 16)
      (fun rr => iadd rr 16)
      (fun rr st =>
         do r <- for_loop (loop_fuel ncols) (fun cc => cc <? ncols)
                   (fun cc => iadd cc 8)
                   (block_16x8 inp nrows ncols rr) 0 st;
         Done (snd r))
      0 (tmp, out)
    = Done (16 * (nr / 2), (tmp', out'))
    /\ length tmp' = 16%nat /\ Forall is_byte tmp'
    /\ length out' = length out
    /\ upto out' (2 * (nr / 2)) 0 0.
Proof.
  intros Hlen Hbt Hout.
  destruct (for_loop_inv
    (fun (rr : Z) (st : list Z * list Z) =>
       length (fst st) = 16%nat /\ Forall is_byte (fst st)
       /\ length (snd st) = length out
       /\ upto (snd st) (rr / 8) 0 0)
    (fun rr => rr <=? nrows - 16) (fun rr => iadd rr 16)
    (fun rr st =>
       do r <- for_loop (loop_fuel ncols) (fun cc => cc <? ncols)
                 (fun cc => iadd cc 8)
                 (block_16x8 inp nrows ncols rr) 0 st;
       Done (snd r))
    16 (Z.to_nat (nr / 2)) (loop_fuel nrows) 0 (tmp, out))
    as ([tmp' out'] & Hrun & Hl' & Hb' & Hlo' & Hd').
  - unfold loop_fuel. assert (nr / 2 <= nrows) by (Z.div_mod_to_equations; lia). lia.
  - cbn [fst snd]. split; [assumption|]. split; [assumption|].
    split; [reflexivity|].
    intros y xb Hy Hxb Hcase. change (0 / 8) with 0 in Hcase. lia.
  - intros k [tmp1 out1] Hk (Hl1 & Hb1 & Hlo1 & Hd1). cbn [fst snd] in *.
    assert (Hk2 : 2 * Z.of_nat k + 2 <= nr) by (Z.div_mod_to_equations; lia).
    replace (0 + Z.of_nat k * 16) with (8 * (2 * Z.of_nat k)) in * by lia.
    replace (0 + Z.of_nat (Datatypes.S k) * 16)
      with (8 * (2 * Z.of_nat k) + 16) by lia.
    split; [apply Z.leb_le; lia|].
    split; [apply iadd_Done; unfold INT_MIN, INT_MAX in *; lia|].
    destruct (row_16x8_spec (2 * Z.of_nat k) tmp1 out1)
      as (tmp2 & out2 & Hb & Hl2 & Hb2 & Hlo2 & Hd2); try lia; try assumption.
    { intros y xb Hy Hxb Hcase. apply Hd1; try assumption.
      replace (8 * (2 * Z.of_nat k) / 8) with (2 * Z.of_nat k)
        by (Z.div_mod_to_equations; lia). lia. }
    rewrite Hb. cbn [obind snd].
    exists (tmp2, out2). split; [reflexivity|]. cbn [fst snd].
    split; [assumption|]. split; [assumption|]. split; [congruence|].
    intros y xb Hy Hxb Hcase. apply Hd2; try assumption.
    replace ((8 * (2 * Z.of_nat k) + 16) / 8) with (2 * Z.of_nat k + 2) in Hcase
      by (Z.div_mod_to_equations; lia). lia.
  - apply Z.leb_gt. Z.div_mod_to_equations. lia.
  - replace (0 + Z.of_nat (Z.to_nat (nr / 2)) * 16) with (16 * (nr / 2)) in *
      by (Z.div_mod_to_equations; lia).
    exists tmp', out'. cbn [fst snd] in *. split; [exact Hrun|].
    split; [assumption|]. split; [assumption|]. split; [assumption|].
    intros y xb Hy Hxb Hcase. apply Hd'; try assumption.
    replace (16 * (nr / 2) / 8) with (2 * (nr / 2))
      by (Z.div_mod_to_equations; lia). lia.
Qed.

(** The row of [8 x 16] blocks at the last byte row. *)
Lemma row_8x16_spec (xr : Z) (tmp out : list Z) :
  length tmp = 16%nat -> Forall is_byte tmp ->
  Z.of_nat (length out) = nr * ncols ->
  0 <= xr < nr ->
  upto out xr 1 0 ->
  exists tmp' out',
    for_loop (loop_fuel ncols) (fun cc => cc <=? ncols - 16)
             (fun cc => iadd cc 16)
             (block_8x16 inp nrows ncols (8 * xr)) 0 (tmp, out)
    = Done (16 * (nc / 2), (tmp', out'))
    /\ length tmp' = 16%nat /\ Forall is_byte tmp'
    /\ length out' = length out
    /\ upto out' xr 1 (16 * (nc / 2)).
Proof.
  intros Hlen Hbt Hout Hxr Hdone.
  destruct (for_loop_inv
    (fun (cc : Z) (st : list Z * list Z) =>
       length (fst st) = 16%nat /\ Forall is_byte (fst st)
       /\ length (snd st) = length out
       /\ upto (snd st) xr 1 cc)
    (fun cc => cc <=? ncols - 16) (fun cc => iadd cc 16)
    (block_8x16 inp nrows ncols (8 * xr)) 16 (Z.to_nat (nc / 2))
    (loop_fuel ncols) 0 (tmp, out))
    as ([tmp' out'] & Hrun & Hl' & Hb' & Hlo' & Hd').
  - unfold loop_fuel.
    assert (nc / 2 <= ncols) by (Z.div_mod_to_equations; lia). lia.
  - cbn [fst snd]. auto.
  - intros k [tmp1 out1] Hk (Hl1 & Hb1 & Hlo1 & Hd1). cbn [fst snd] in *.
    assert (Hk2 : 2 * Z.of_nat k + 2 <= nc) by (Z.div_mod_to_equations; lia).
    replace (0 + Z.of_nat k * 16) with (8 * (2 * Z.of_nat k)) by lia.
    replace (0 + Z.of_nat (Datatypes.S k) * 16)
      with (8 * (2 * Z.of_nat k) + 16) by lia.
    split; [apply Z.leb_le; lia|].
    split; [apply iadd_Done; unfold INT_MIN, INT_MAX in *; lia|].
    destruct (block_8x16_spec xr (2 * Z.of_nat k) tmp1 out1)
      as (tmp2 & out2 & Hb & Hl2 & Hb2 & Hlo2 & Hun & Hcells); try lia;
      try (unfold INT_MAX; nia).
    exists (tmp2, out2). split; [exact Hb|]. cbn [fst snd].
    split; [assumption|]. split; [assumption|]. split; [congruence|].
    intros y xb Hy Hxb Hcase.
    destruct (decide (xb = xr /\ 8 * (2 * Z.of_nat k) <= y)) as [[-> Hyk]|Hold].
    + replace y with (8 * (2 * Z.of_nat k) + (y - 8 * (2 * Z.of_nat k))) by lia.
      apply Hcells; lia.
    + apply (cell_ok_preserved out1).
      * apply Hun. intros k' Hk' Heq.
        apply Z2Nat.inj in Heq; [|apply index_nonneg; lia..].
        apply index_inj in Heq; lia.
      * apply Hd1; lia.
  - apply Z.leb_gt. Z.div_mod_to_equations. lia.
  - replace (0 + Z.of_nat (Z.to_nat (nc / 2)) * 16) with (16 * (nc / 2)) in *
      by (Z.div_mod_to_equations; lia).
    exists tmp', out'. cbn [fst snd] in *. auto.
Qed.

(** [BitMatrixTranspose] returns, and every byte of its output holds the
    bits of the transposed matrix. *)
Lemma BitMatrixTranspose_cells (tmp out : list Z) :
  length tmp = 16%nat -> Forall is_byte tmp ->
  Z.of_nat (length out) = nr * ncols ->
  exists out',
    BitMatrixTranspose inp nrows ncols out tmp = Done out'
    /\ length out' = length out
    /\ forall y xb, 0 <= y < ncols -> 0 <= xb < nr -> cell out' y xb.
Proof.
  intros Hlen Hbt Hout. unfold BitMatrixTranspose.
  rewrite isub_Done by (unfold INT_MIN, INT_MAX in *; lia). cbn [obind].
  destruct (main_body_spec tmp out Hlen Hbt Hout)
    as (tmp1 & out1 & Hmain & Hl1 & Hb1 & Hlo1 & Hd1).
  rewrite Hmain. cbn [obind].
  destruct (decide (16 * (nr / 2) = nrows)) as [Heven|Hodd].
  { exists out1. cbn [snd]. split; [reflexivity|]. split; [assumption|].
    intros y xb Hy Hxb. apply Hd1; try assumption.
    Z.div_mod_to_equations. lia. }
  assert (Hnr1 : 2 * (nr / 2) = nr - 1) by (Z.div_mod_to_equations; lia).
  rewrite isub_Done by (unfold INT_MIN, INT_MAX in *; lia). cbn [obind].
  replace (16 * (nr / 2)) with (8 * (nr - 1)) by lia.
  destruct (row_8x16_spec (nr - 1) tmp1 out1)
    as (tmp2 & out2 & Hrow & Hl2 & Hb2 & Hlo2 & Hd2);
    try assumption; try lia.
  { intros y xb Hy Hxb Hcase. apply Hd1; try assumption. lia. }
  rewrite Hrow. cbn [obind].
  destruct (decide (16 * (nc / 2) = ncols)) as [Heven|Hodd'].
  { exists out2. cbn [snd]. split; [reflexivity|]. split; [congruence|].
    intros y xb Hy Hxb. apply Hd2; try assumption. lia. }
  assert (Hnc1 : 2 * (nc / 2) = nc - 1) by (Z.div_mod_to_equations; lia).
  replace (16 * (nc / 2)) with (8 * (nc - 1)) in * by lia.
  destruct (block_8x8_spec (nr - 1) (nc - 1) tmp2 out2)
    as (tmp3 & out3 & Hblk & Hlo3 & Hun & Hcells);
    try assumption; try lia; try (unfold INT_MAX; nia).
  rewrite Hblk. cbn [obind snd].
  exists out3. split; [reflexivity|]. split; [congruence|].
  intros y xb Hy Hxb.
  destruct (decide (xb = nr - 1 /\ 8 * (nc - 1) <= y)) as [[-> Hyk]|Hold].
  + replace y with (8 * (nc - 1) + (y - 8 * (nc - 1))) by lia.
    apply Hcells; lia.
  + apply (cell_ok_preserved out2).
    * apply Hun. intros k' Hk' Heq.
      apply Z2Nat.inj in Heq; [|apply index_nonneg; lia..].
      apply index_inj in Heq; lia.
    * apply Hd2; lia.
Qed.

(** [BitMatrixTranspose] returns the transposed matrix: bit [x] of its
    row [y] is bit [y] of row [x] of [inp]. *)
Lemma BitMatrixTranspose_spec (tmp out : list Z) :
  length tmp = 16%nat -> Forall is_byte tmp ->
  Z.of_nat (length out) = nr * ncols ->
  exists out',
    BitMatrixTranspose inp nrows ncols out tmp = Done out'
    /\ length out' = length out
    /\ Forall is_byte out'
    /\ forall x y, 0 <= x < nrows -> 0 <= y < ncols ->
         getbit out' (y * nrows + x) = getbit inp (x * ncols + y).
Proof.
  intros Hlen Hbt Hout.
  destruct (BitMatrixTranspose_cells tmp out Hlen Hbt Hout)
    as (out' & Hrun & Hlo & Hcells).
  exists out'. split; [exact Hrun|]. split; [exact Hlo|]. split.
  - apply Forall_lookup. intros n b Hn.
    assert (Hlt : (n < length out')%nat) by (eapply lookup_lt_Some; eauto).
    assert (Hnr0 : 0 < nr) by nia.
    assert (Hn' : Z.of_nat n < ncols * nr) by lia.
    destruct (Hcells (Z.of_nat n / nr) (Z.of_nat n mod nr))
      as (b' & Hb' & Hbyte & _).
    + split; [apply Z.div_pos; lia|].
      apply Z.div_lt_upper_bound; [lia|]. lia.
    + apply Z.mod_pos_bound. lia.
    + replace (Z.of_nat n / nr * nr + Z.of_nat n mod nr) with (Z.of_nat n) in Hb'
        by (rewrite (Z.mul_comm _ nr); apply Z.div_mod; lia).
      rewrite Nat2Z.id in Hb'. congruence.
  - intros x y Hx Hy.
    destruct (split_8 x nr ltac:(lia)) as (xb & u & -> & Hu & Hxb).
    destruct (split_8 y nc ltac:(lia)) as (yb & v & -> & Hv & Hyb).
    replace ((8 * yb + v) * nrows + (8 * xb + u))
      with (8 * ((8 * yb + v) * nr + xb) + u) by (rewrite Hnrows; ring).
    replace ((8 * xb + u) * ncols + (8 * yb + v))
      with (8 * ((8 * xb + u) * nc + yb) + v) by (rewrite Hncols; ring).
    rewrite !getbit_cell by assumption.
    destruct (Hcells (8 * yb + v) xb ltac:(lia) Hxb) as (b & Hb & _ & Hbits).
    rewrite (nth_lookup_Some _ _ 0 _ Hb), (Hbits u Hu).
    destruct (div_mod_8 yb v Hv) as [-> ->]. reflexivity.
Qed.

End Transpose.

(** Two byte images of the same length with the same bits are equal. *)
Lemma bytes_ext (l1 l2 : list Z) :
  length l1 = length l2 -> Forall is_byte l1 -> Forall is_byte l2 ->
  (forall p, 0 <= p < 8 * Z.of_nat (length l1) -> getbit l1 p = getbit l2 p) ->
  l1 = l2.
Proof.
  intros Hlen H1 H2 Hbits. apply list_eq. intros i.
  destruct (l1 !! i) as [a|] eqn:Ha.
  - assert (Hi : (i < length l1)%nat) by (eapply lookup_lt_Some; eauto).
    destruct (lookup_lt_is_Some_2 l2 i ltac:(lia)) as [b Hb]. rewrite Hb.
    f_equal. apply byte_ext.
    + exact (Forall_lookup_1 _ _ _ _ H1 Ha).
    + exact (Forall_lookup_1 _ _ _ _ H2 Hb).
    + intros u Hu.
      pose proof (Hbits (8 * Z.of_nat i + u) ltac:(lia)) as Hp.
      rewrite !getbit_cell, Nat2Z.id in Hp by assumption.
      now rewrite (nth_lookup_Some _ _ 0 _ Ha), (nth_lookup_Some _ _ 0 _ Hb) in Hp.
  - symmetry. apply lookup_ge_None. apply lookup_ge_None in Ha. lia.
Qed.

(** Transposing twice gives the matrix back. *)
Theorem BitMatrixTranspose_involutive_general
        (M : list Z) (R C : Z) (out1 out2 tmp1 tmp2 : list Z) :
  0 <= R <= INT_MAX -> 0 <= C <= INT_MAX ->
  R mod 8 = 0 -> C mod 8 = 0 -> R * C <= 2 ^ 31 ->
  8 * Z.of_nat (length M) = R * C -> Forall is_byte M ->
  length out1 = length M -> length out2 = length M ->
  length tmp1 = 16%nat -> Forall is_byte tmp1 ->
  length tmp2 = 16%nat -> Forall is_byte tmp2 ->
  exists T,
    BitMatrixTranspose M R C out1 tmp1 = Done T
    /\ length T = length M
    /\ (forall x y, 0 <= x < R -> 0 <= y < C ->
          getbit T (y * R + x) = getbit M (x * C + y))
    /\ BitMatrixTranspose T C R out2 tmp2 = Done M.
Proof.
  intros HR HC HR8 HC8 Hfit HM HbM Ho1 Ho2 Ht1 Hb1 Ht2 Hb2.
  assert (HRd : R = 8 * (R / 8)) by (Z.div_mod_to_equations; lia).
  assert (HCd : C = 8 * (C / 8)) by (Z.div_mod_to_equations; lia).
  assert (HR0 : 0 <= R / 8) by (Z.div_mod_to_equations; lia).
  assert (HC0 : 0 <= C / 8) by (Z.div_mod_to_equations; lia).
  set (nr := R / 8) in *. set (nc := C / 8) in *.
  assert (HlenM : Z.of_nat (length M) = nr * C) by nia.
  destruct (BitMatrixTranspose_spec M R C nr nc HRd HCd HR0 HC0 HlenM HbM
              ltac:(lia) ltac:(lia) Hfit tmp1 out1 Ht1 Hb1 ltac:(lia))
    as (T & HT & HlT & HbT & HbitsT).
  assert (HlenT : Z.of_nat (length T) = nc * R) by nia.
  destruct (BitMatrixTranspose_spec T C R nc nr HCd HRd HC0 HR0 HlenT HbT
              ltac:(lia) ltac:(lia) ltac:(lia) tmp2 out2 Ht2 Hb2 ltac:(lia))
    as (M' & HM' & HlM' & HbM' & HbitsM').
  exists T. split; [exact HT|]. split; [lia|]. split; [exact HbitsT|].
  rewrite HM'. f_equal. apply bytes_ext; try assumption; [lia|].
  intros p Hp.
  assert (HC1 : 0 < C) by nia.
  assert (Hpd : p = p / C * C + p mod C)
    by (rewrite (Z.mul_comm _ C); apply Z.div_mod; lia).
  assert (Hpm : 0 <= p mod C < C) by (apply Z.mod_pos_bound; lia).
  assert (Hpq : 0 <= p / C < R).
  { split; [apply Z.div_pos; lia|]. apply Z.div_lt_upper_bound; lia. }
  rewrite Hpd. rewrite HbitsM' by assumption. now apply HbitsT.
Qed.

(** ** empBitMatrixTranspose *)

Section EmpTranspose.

Variables (input : list Z) (ROW_NUM COLUMN_NUM nr nc : Z).
Hypothesis HROW : ROW_NUM = 8 * nr.
Hypothesis HCOL : COLUMN_NUM = 8 * nc.
Hypothesis Hnr : 0 <= nr.
Hypothesis Hnc : 0 <= nc.
Hypothesis Hinput : Z.of_nat (length input) = nr * COLUMN_NUM.
Hypothesis Hbytes : Forall is_byte input.
Hypothesis HROW_int : ROW_NUM <= INT_MAX.
Hypothesis HCOL_int : COLUMN_NUM <= INT_MAX.

Local Abbreviation ibyte := (inp_byte input nc).
Local Abbreviation cell := (emp_cell_ok input nr nc).
Local Abbreviation upto := (emp_done_upto input COLUMN_NUM nr nc).

Lemma INPUT_index_eq (x c : Z) :
  0 <= x < ROW_NUM -> 0 <= c < nc ->
  INPUT_index COLUMN_NUM x (8 * c) = x * nc + c.
Proof.
  intros Hx Hc. unfold INPUT_index.
  replace (Z.quot (8 * c) 8) with c
    by (rewrite Z.quot_div_nonneg by lia; symmetry;
        rewrite Z.mul_comm; apply Z.div_mul; lia).
  unfold INT_MAX in *.
  assert (Hxn : 0 <= x * nc /\ x * nc < 2 ^ 59) by nia.
  rewrite (u64_small x) by lia.
  rewrite (u64_small (x * COLUMN_NUM)) by nia.
  replace (x * COLUMN_NUM / 8) with (x * nc)
    by (apply Z.div_unique_exact; lia).
  rewrite (u64_small c) by lia.
  apply u64_small. lia.
Qed.

Lemma OUTPUT_index_eq (xb y : Z) :
  0 <= xb < nr -> 0 <= y < COLUMN_NUM ->
  OUTPUT_index ROW_NUM (8 * xb) y = y * nr + xb.
Proof.
  intros Hx Hy. unfold OUTPUT_index.
  replace (Z.quot (8 * xb) 8) with xb
    by (rewrite Z.quot_div_nonneg by lia; symmetry;
        rewrite Z.mul_comm; apply Z.div_mul; lia).
  unfold INT_MAX in *.
  assert (Hyn : 0 <= y * nr /\ y * nr < 2 ^ 59) by nia.
  rewrite (u64_small y) by lia.
  rewrite (u64_small (y * ROW_NUM)) by nia.
  replace (y * ROW_NUM / 8) with (y * nr)
    by (apply Z.div_unique_exact; lia).
  rewrite (u64_small xb) by lia.
  apply u64_small. lia.
Qed.

Lemma emp_load_input (x c : Z) :
  0 <= x < ROW_NUM -> 0 <= c < nc ->
  load input (x * nc + c) = Done (ibyte x c).
Proof. intros Hx Hc. now apply (load_inp input ROW_NUM COLUMN_NUM nr nc). Qed.

Lemma emp_gather_16x8 (xr c : Z) :
  0 <= xr -> xr + 2 <= nr -> 0 <= c < nc ->
  exists bytes,
    for_seq (fun i bytes =>
      do x <- iadd (8 * xr) i;
      do v <- load input (INPUT_index COLUMN_NUM x (8 * c));
      Done (bytes ++ [v])) 0 16 [] = Done bytes
    /\ length bytes = 16%nat
    /\ Forall is_byte bytes
    /\ forall t : nat, (t < 16)%nat ->
         nth t bytes 0 = ibyte (8 * xr + Z.of_nat t) c.
Proof.
  intros Hxr Hxr2 Hc.
  destruct (for_seq_inv
    (fun (i : Z) (bytes : list Z) =>
       Z.of_nat (length bytes) = i
       /\ Forall is_byte bytes
       /\ forall t : nat, Z.of_nat t < i ->
            nth t bytes 0 = ibyte (8 * xr + Z.of_nat t) c)
    (fun i bytes =>
      do x <- iadd (8 * xr) i;
      do v <- load input (INPUT_index COLUMN_NUM x (8 * c));
      Done (bytes ++ [v])) 16 0 []) as (bytes & Hrun & Hlen & Hb & Hall).
  - split; [reflexivity|]. split; [constructor|]. intros t Ht. lia.
  - intros i s Hi (Hs & Hbs & Hprev).
    rewrite iadd_Done by (unfold INT_MIN, INT_MAX in *; lia). cbn [obind].
    rewrite INPUT_index_eq by lia.
    rewrite emp_load_input by lia. cbn [obind].
    eexists. split; [reflexivity|].
    split; [rewrite length_app; cbn [length]; lia|].
    split.
    { apply Forall_app. split; [assumption|].
      constructor; [|constructor].
      apply (inp_byte_is_byte input nc Hbytes). }
    intros t Ht. destruct (decide (Z.of_nat t = i)) as [<-|Hne].
    + rewrite app_nth2 by lia.
      replace (t - length s)%nat with O by lia. reflexivity.
    + rewrite app_nth1 by lia. apply Hprev. lia.
  - exists bytes. split; [exact Hrun|]. split; [lia|]. split; [assumption|].
    intros t Ht. apply Hall. lia.
Qed.

Lemma emp_index_nonneg (y xb : Z) : 0 <= y -> 0 <= xb -> 0 <= y * nr + xb.
Proof. intros Hy Hx. nia. Qed.

Lemma emp_index_inj (y xb y' xb' : Z) :
  0 <= xb < nr -> 0 <= xb' < nr ->
  y * nr + xb = y' * nr + xb' -> y = y' /\ xb = xb'.
Proof.
  intros Hx Hx' Heq.
  assert (y = y') by nia. subst. lia.
Qed.

Lemma emp_cell_ok_preserved (out out' : list Z) (y xb : Z) :
  out' !! Z.to_nat (y * nr + xb) = out !! Z.to_nat (y * nr + xb) ->
  cell out y xb -> cell out' y xb.
Proof. intros Heq (b & Hb & Hrest). exists b. now rewrite Heq. Qed.

(** One [16 x 8] block. *)
Lemma emp_block_16x8_spec (xr c : Z) (out : list Z) :
  Z.of_nat (length out) = nr * COLUMN_NUM ->
  0 <= xr -> xr + 2 <= nr -> 0 <= c < nc ->
  exists out',
    emp_block_16x8 input ROW_NUM COLUMN_NUM (8 * xr) (8 * c) out = Done out'
    /\ length out' = length out
    /\ (forall n : nat,
          (forall k h, 0 <= k < 8 -> 0 <= h < 2 ->
                       n <> Z.to_nat ((8 * c + k) * nr + xr + h)) ->
          out' !! n = out !! n)
    /\ (forall k h, 0 <= k < 8 -> 0 <= h < 2 ->
                    cell out' (8 * c + k) (xr + h)).
Proof.
  intros Hout Hxr Hxr2 Hc. unfold emp_block_16x8.
  destruct (emp_gather_16x8 xr c) as (bytes & Hg & Hl1 & Hb1 & Ht1);
    try assumption.
  rewrite Hg. cbn [obind].
  destruct (emit_loop
    (fun i vec output =>
      do y <- iadd (8 * c) i;
      store16 output (OUTPUT_index ROW_NUM (8 * xr) y)
              (_mm_movemask_epi8 (tmp_x vec)))
    (fun (j : nat) (o : list Z) =>
       length o = length out
       /\ (forall n : nat,
             (forall k h, 8 - Z.of_nat j <= k < 8 -> 0 <= h < 2 ->
                          n <> Z.to_nat ((8 * c + k) * nr + xr + h)) ->
             o !! n = out !! n)
       /\ (forall k h, 8 - Z.of_nat j <= k < 8 -> 0 <= h < 2 ->
                       cell o (8 * c + k) (xr + h)))
    bytes out Hl1) as (tmp' & out' & Hrun & Hl' & Hb' & Hlo & Hun & Hcells).
  - split; [reflexivity|]. split; [reflexivity|]. intros k h Hk. lia.
  - intros j tmp2 o Hj Hl2 Hx2 (Hlo & Hun & Hcells).
    replace (Z.of_nat (7 - j)) with (7 - Z.of_nat j) by lia.
    rewrite iadd_Done by (unfold INT_MIN, INT_MAX in *; lia). cbn [obind].
    rewrite OUTPUT_index_eq by lia.
    set (idx := (8 * c + (7 - Z.of_nat j)) * nr + xr).
    assert (Hidx : 0 <= idx /\ idx + 1 < Z.of_nat (length o)) by (unfold idx; nia).
    unfold store16. rewrite store_Done by lia. cbn [obind].
    rewrite store_Done by (rewrite length_insert; lia).
    eexists. split; [reflexivity|].
    split; [now rewrite !length_insert|]. split.
    + intros n Hn.
      rewrite !list_lookup_insert_ne.
      * apply Hun. intros k h Hk Hh. apply Hn; lia.
      * specialize (Hn (7 - Z.of_nat j) 0 ltac:(lia) ltac:(lia)).
        fold idx in Hn. replace (idx + 0) with idx in Hn by lia. congruence.
      * specialize (Hn (7 - Z.of_nat j) 1 ltac:(lia) ltac:(lia)).
        fold idx in Hn. congruence.
    + intros k h Hk Hh.
      destruct (decide (k = 7 - Z.of_nat j)) as [->|Hkj].
      * assert (Hh' : h = 0 \/ h = 1) by lia.
        destruct (div_mod_8 c (7 - Z.of_nat j) ltac:(lia)) as [Hdiv Hmod].
        destruct Hh' as [-> | ->].
        -- exists (_mm_movemask_epi8 (tmp_x tmp2) mod 256).
           replace ((8 * c + (7 - Z.of_nat j)) * nr + (xr + 0)) with idx
             by (unfold idx; lia).
           split.
           { rewrite list_lookup_insert_ne by lia.
             apply list_lookup_insert_eq. lia. }
           split; [unfold is_byte; apply Z.mod_pos_bound; lia|].
           intros u Hu. rewrite Hdiv, Hmod.
           rewrite testbit_mask_lo by lia.
           rewrite (testbit_emit bytes tmp2 j u) by (assumption || lia).
           rewrite (Ht1 (Z.to_nat u)) by lia.
           f_equal. f_equal. lia.
        -- exists (_mm_movemask_epi8 (tmp_x tmp2) / 256 mod 256).
           replace ((8 * c + (7 - Z.of_nat j)) * nr + (xr + 1)) with (idx + 1)
             by (unfold idx; lia).
           split.
           { apply list_lookup_insert_eq. rewrite length_insert. lia. }
           split; [unfold is_byte; apply Z.mod_pos_bound; lia|].
           intros u Hu. rewrite Hdiv, Hmod.
           rewrite testbit_mask_hi by lia.
           rewrite (testbit_emit bytes tmp2 j (u + 8)) by (assumption || lia).
           rewrite (Ht1 (Z.to_nat (u + 8))) by lia.
           f_equal. f_equal. lia.
      * destruct (Hcells k h ltac:(lia) Hh) as (b & Hb & Hrest).
        exists b. split; [|exact Hrest].
        rewrite !list_lookup_insert_ne; [exact Hb| |];
          unfold idx; intros Heq; apply Z2Nat.inj in Heq; nia.
  - exists out'. cbn [snd]. rewrite Hrun. cbn [obind snd].
    split; [reflexivity|]. split; [assumption|]. split.
    + intros n Hn. apply Hun. intros k h Hk Hh. apply Hn; lia.
    + intros k h Hk Hh. apply Hcells; lia.
Qed.

(** The row of [16 x 8] blocks at the byte rows [xr] and [xr + 1]. *)
Lemma emp_row_16x8_spec (xr : Z) (out : list Z) :
  Z.of_nat (length out) = nr * COLUMN_NUM ->
  0 <= xr -> xr + 2 <= nr ->
  upto out xr 2 0 ->
  exists out',
    for_loop (loop_fuel COLUMN_NUM) (fun cc => u64 cc <? COLUMN_NUM)
             (fun cc => iadd cc 8)
             (emp_block_16x8 input ROW_NUM COLUMN_NUM (8 * xr)) 0 out
    = Done (COLUMN_NUM, out')
    /\ length out' = length out
    /\ upto out' (xr + 2) 2 0.
Proof.
  intros Hout Hxr Hxr2 Hdone.
  destruct (for_loop_inv
    (fun (cc : Z) (o : list Z) =>
       length o = length out /\ upto o xr 2 cc)
    (fun cc => u64 cc <? COLUMN_NUM) (fun cc => iadd cc 8)
    (emp_block_16x8 input ROW_NUM COLUMN_NUM (8 * xr)) 8 (Z.to_nat nc)
    (loop_fuel COLUMN_NUM) 0 out)
    as (out' & Hrun & Hlo' & Hd').
  - unfold loop_fuel. lia.
  - auto.
  - intros k out1 Hk (Hlo1 & Hd1).
    replace (0 + Z.of_nat k * 8) with (8 * Z.of_nat k) by lia.
    replace (0 + Z.of_nat (Datatypes.S k) * 8) with (8 * Z.of_nat k + 8) by lia.
    split; [rewrite u64_small by (unfold INT_MAX in *; lia); apply Z.ltb_lt; lia|].
    split; [apply iadd_Done; unfold INT_MIN, INT_MAX in *; lia|].
    destruct (emp_block_16x8_spec xr (Z.of_nat k) out1)
      as (out2 & Hb & Hlo2 & Hun & Hcells); try lia.
    exists out2. split; [exact Hb|]. split; [congruence|].
    intros y xb Hy Hxb Hcase.
    destruct (decide (xr <= xb /\ 8 * Z.of_nat k <= y)) as [[Hge Hyk]|Hold].
    + replace y with (8 * Z.of_nat k + (y - 8 * Z.of_nat k)) by lia.
      replace xb with (xr + (xb - xr)) by lia.
      apply Hcells; lia.
    + apply (emp_cell_ok_preserved out1).
      * apply Hun. intros k' h Hk' Hh Heq.
        apply Z2Nat.inj in Heq;
          [|apply emp_index_nonneg; lia
           |apply Z.add_nonneg_nonneg; [apply emp_index_nonneg|]; lia].
        replace ((8 * Z.of_nat k + k') * nr + xr + h)
          with ((8 * Z.of_nat k + k') * nr + (xr + h)) in Heq by lia.
        apply emp_index_inj in Heq; lia.
      * apply Hd1; lia.
  - replace (0 + Z.of_nat (Z.to_nat nc) * 8) with COLUMN_NUM by lia.
    rewrite u64_small by (unfold INT_MAX in *; lia). apply Z.ltb_ge. lia.
  - replace (0 + Z.of_nat (Z.to_nat nc) * 8) with COLUMN_NUM in * by lia.
    exists out'. split; [exact Hrun|]. split; [assumption|].
    intros y xb Hy Hxb Hcase. apply Hd'; lia.
Qed.

(** The main body, for at least 16 rows. *)
Lemma emp_main_body_spec (out : list Z) :
  Z.of_nat (length out) = nr * COLUMN_NUM ->
  16 <= ROW_NUM ->
  exists out',
    for_loop (loop_fuel ROW_NUM) (fun rr => u64 rr <=? u64 (ROW_NUM - 16))
      (fun rr => iadd rr 16)
      (fun rr output =>
         do r <- for_loop (loop_fuel COLUMN_NUM)
                   (fun cc => u64 cc <? COLUMN_NUM)
                   (fun cc => iadd cc 8)
                   (emp_block_16x8 input ROW_NUM COLUMN_NUM rr) 0 output;
         Done (snd r))
      0 out
    = Done (16 * (nr / 2), out')
    /\ length out' = length out
    /\ upto out' (2 * (nr / 2)) 0 0.
Proof.
  intros Hout HR16.
  assert (Hu : u64 (ROW_NUM - 16) = ROW_NUM - 16)
    by (apply u64_small; unfold INT_MAX in *; lia).
  destruct (for_loop_inv
    (fun (rr : Z) (o : list Z) =>
       length o = length out /\ upto o (rr / 8) 0 0)
    (fun rr => u64 rr <=? u64 (ROW_NUM - 16)) (fun rr => iadd rr 16)
    (fun rr output =>
       do r <- for_loop (loop_fuel COLUMN_NUM)
                 (fun cc => u64 cc <? COLUMN_NUM)
                 (fun cc => iadd cc 8)
                 (emp_block_16x8 input ROW_NUM COLUMN_NUM rr) 0 output;
       Done (snd r))
    16 (Z.to_nat (nr / 2)) (loop_fuel ROW_NUM) 0 out)
    as (out' & Hrun & Hlo' & Hd').
  - unfold loop_fuel.
    assert (nr / 2 <= ROW_NUM) by (Z.div_mod_to_equations; lia). lia.
  - split; [reflexivity|].
    intros y xb Hy Hxb Hcase. change (0 / 8) with 0 in Hcase. lia.
  - intros k out1 Hk (Hlo1 & Hd1).
    assert (Hk2 : 2 * Z.of_nat k + 2 <= nr) by (Z.div_mod_to_equations; lia).
    replace (0 + Z.of_nat k * 16) with (8 * (2 * Z.of_nat k)) in * by lia.
    replace (0 + Z.of_nat (Datatypes.S k) * 16)
      with (8 * (2 * Z.of_nat k) + 16) by lia.
    split.
    { rewrite Hu, u64_small by (unfold INT_MAX in *; lia).
      apply Z.leb_le. lia. }
    split; [apply iadd_Done; unfold INT_MIN, INT_MAX in *; lia|].
    destruct (emp_row_16x8_spec (2 * Z.of_nat k) out1)
      as (out2 & Hb & Hlo2 & Hd2); try lia.
    { intros y xb Hy Hxb Hcase. apply Hd1; try assumption.
      replace (8 * (2 * Z.of_nat k) / 8) with (2 * Z.of_nat k)
        by (Z.div_mod_to_equations; lia). lia. }
    rewrite Hb. cbn [obind snd].
    exists out2. split; [reflexivity|]. split; [congruence|].
    intros y xb Hy Hxb Hcase. apply Hd2; try assumption.
    replace ((8 * (2 * Z.of_nat k) + 16) / 8) with (2 * Z.of_nat k + 2) in Hcase
      by (Z.div_mod_to_equations; lia). lia.
  - rewrite Hu.
    rewrite u64_small by (unfold INT_MAX in *; Z.div_mod_to_equations; lia).
    apply Z.leb_gt. Z.div_mod_to_equations. lia.
  - replace (0 + Z.of_nat (Z.to_nat (nr / 2)) * 16) with (16 * (nr / 2)) in *
      by (Z.div_mod_to_equations; lia).
    exists out'. split; [exact Hrun|]. split; [assumption|].
    intros y xb Hy Hxb Hcase. apply Hd'; try assumption.
    replace (16 * (nr / 2) / 8) with (2 * (nr / 2))
      by (Z.div_mod_to_equations; lia). lia.
Qed.

Lemma emp_load16_input (x c : Z) :
  0 <= x < ROW_NUM -> 0 <= c -> c + 1 < nc ->
  load16 input (x * nc + c) = Done (ibyte x c + 256 * ibyte x (c + 1)).
Proof.
  intros Hx Hc Hc1. now apply (load16_inp input ROW_NUM COLUMN_NUM nr nc).
Qed.

Lemma emp_gather_8x16 (xr c : Z) (tmp : list Z) :
  length tmp = 16%nat -> 0 <= xr < nr -> 0 <= c -> c + 2 <= nc ->
  exists tmp',
    for_seq (fun i tmp =>
      do x <- iadd (8 * xr) i;
      do h <- load16 input (INPUT_index COLUMN_NUM x (8 * c));
      do tmp <- store tmp i (h mod 256);
      store tmp (i + 8) (Z.shiftr h 8 mod 256)) 0 8 tmp = Done tmp'
    /\ length tmp' = 16%nat
    /\ forall t : nat, (t < 8)%nat ->
         tmp' !! t = Some (ibyte (8 * xr + Z.of_nat t) c)
         /\ tmp' !! (t + 8)%nat = Some (ibyte (8 * xr + Z.of_nat t) (c + 1)).
Proof.
  intros Hlen Hxr Hc Hc2.
  destruct (for_seq_inv
    (fun (i : Z) (tmp : list Z) =>
       length tmp = 16%nat
       /\ forall t : nat, Z.of_nat t < i ->
            tmp !! t = Some (ibyte (8 * xr + Z.of_nat t) c)
            /\ tmp !! (t + 8)%nat = Some (ibyte (8 * xr + Z.of_nat t) (c + 1)))
    (fun i tmp =>
      do x <- iadd (8 * xr) i;
      do h <- load16 input (INPUT_index COLUMN_NUM x (8 * c));
      do tmp <- store tmp i (h mod 256);
      store tmp (i + 8) (Z.shiftr h 8 mod 256)) 8 0 tmp)
    as (tmp' & Hrun & Hlen' & Hall).
  - split; [assumption|]. intros t Ht. lia.
  - intros i s Hi [Hs Hprev].
    rewrite iadd_Done by (unfold INT_MIN, INT_MAX in *; lia). cbn [obind].
    rewrite INPUT_index_eq by lia.
    rewrite emp_load16_input by lia. cbn [obind].
    destruct (lo_hi_bytes (ibyte (8 * xr + i) c) (ibyte (8 * xr + i) (c + 1)))
      as [-> ->]; try apply (inp_byte_is_byte input nc Hbytes).
    rewrite store_Done by lia. cbn [obind].
    rewrite store_Done by (rewrite length_insert; lia).
    replace (Z.to_nat (i + 8)) with (Z.to_nat i + 8)%nat by lia.
    eexists. split; [reflexivity|].
    split; [now rewrite !length_insert|].
    intros t Ht. destruct (decide (t = Z.to_nat i)) as [->|Hne].
    + rewrite Z2Nat.id by lia. split.
      * rewrite list_lookup_insert_ne by lia.
        apply list_lookup_insert_eq. lia.
      * apply list_lookup_insert_eq. rewrite length_insert. lia.
    + rewrite !list_lookup_insert_ne by lia. apply Hprev. lia.
  - exists tmp'. split; [exact Hrun|]. split; [assumption|].
    intros t Ht. apply Hall. lia.
Qed.

(** One [8 x 16] block of the byte row [xr]. *)
Lemma emp_block_8x16_spec (xr c : Z) (tmp out : list Z) :
  length tmp = 16%nat -> Z.of_nat (length out) = nr * COLUMN_NUM ->
  0 <= xr < nr -> 0 <= c -> c + 2 <= nc ->
  exists tmp' out',
    emp_block_8x16 input ROW_NUM COLUMN_NUM (8 * xr) (8 * c) (tmp, out)
    = Done (tmp', out')
    /\ length tmp' = 16%nat /\ Forall is_byte tmp'
    /\ length out' = length out
    /\ (forall n : nat,
          (forall k, 0 <= k < 16 -> n <> Z.to_nat ((8 * c + k) * nr + xr)) ->
          out' !! n = out !! n)
    /\ (forall k, 0 <= k < 16 -> cell out' (8 * c + k) xr).
Proof.
  intros Hlen Hout Hxr Hc Hc2. unfold emp_block_8x16.
  destruct (emp_gather_8x16 xr c tmp) as (tmp1 & Hg & Hl1 & Ht1);
    try assumption.
  rewrite Hg. cbn [obind].
  assert (Hb1 : Forall is_byte tmp1).
  { apply Forall_lookup. intros i x Hix.
    assert (Hi : (i < 16)%nat) by (rewrite <- Hl1; eapply lookup_lt_Some; eauto).
    destruct (decide (i < 8)%nat) as [Hlt|Hge].
    - destruct (Ht1 i Hlt) as [H1 _]. rewrite H1 in Hix.
      injection Hix as <-. apply (inp_byte_is_byte input nc Hbytes).
    - destruct (Ht1 (i - 8)%nat ltac:(lia)) as [_ H2].
      replace (i - 8 + 8)%nat with i in H2 by lia. rewrite H2 in Hix.
      injection Hix as <-. apply (inp_byte_is_byte input nc Hbytes). }
  destruct (emit_loop
    (fun i tmp output =>
      let h := _mm_movemask_epi8 (tmp_x tmp) in
      do y <- iadd (8 * c) i;
      do output <- store output (OUTPUT_index ROW_NUM (8 * xr) y) (h mod 256);
      do y8 <- iadd y 8;
      store output (OUTPUT_index ROW_NUM (8 * xr) y8) (Z.shiftr h 8 mod 256))
    (fun (j : nat) (o : list Z) =>
       length o = length out
       /\ (forall n : nat,
             (forall k, 8 - Z.of_nat j <= k < 8 \/ 16 - Z.of_nat j <= k < 16 ->
                        n <> Z.to_nat ((8 * c + k) * nr + xr)) ->
             o !! n = out !! n)
       /\ (forall k, 8 - Z.of_nat j <= k < 8 \/ 16 - Z.of_nat j <= k < 16 ->
                     cell o (8 * c + k) xr))
    tmp1 out Hl1) as (tmp' & out' & Hrun & Hl' & Hb' & Hlo & Hun & Hcells).
  - split; [reflexivity|]. split; [reflexivity|]. intros k Hk. lia.
  - intros j tmp2 o Hj Hl2 Hx2 (Hlo & Hun & Hcells). cbn zeta.
    replace (Z.of_nat (7 - j)) with (7 - Z.of_nat j) by lia.
    rewrite iadd_Done by (unfold INT_MIN, INT_MAX in *; lia). cbn [obind].
    rewrite OUTPUT_index_eq by lia.
    set (idx := (8 * c + (7 - Z.of_nat j)) * nr + xr).
    set (idx8 := (8 * c + (7 - Z.of_nat j) + 8) * nr + xr).
    assert (Hidx : 0 <= idx < idx8 /\ idx8 < Z.of_nat (length o))
      by (unfold idx, idx8; nia).
    rewrite store_Done by lia. cbn [obind].
    rewrite iadd_Done by (unfold INT_MIN, INT_MAX in *; lia). cbn [obind].
    rewrite OUTPUT_index_eq by lia.
    fold idx8.
    rewrite store_Done by (rewrite length_insert; lia).
    eexists. split; [reflexivity|].
    split; [now rewrite !length_insert|]. split.
    + intros n Hn.
      rewrite !list_lookup_insert_ne.
      * apply Hun. intros k Hk. apply Hn; lia.
      * specialize (Hn (7 - Z.of_nat j) ltac:(lia)). fold idx in Hn. congruence.
      * specialize (Hn (15 - Z.of_nat j) ltac:(lia)).
        replace ((8 * c + (15 - Z.of_nat j)) * nr + xr) with idx8 in Hn
          by (unfold idx8; lia).
        congruence.
    + intros k Hk.
      destruct (div_mod_8 c (7 - Z.of_nat j) ltac:(lia)) as [Hdiv Hmod].
      destruct (div_mod_8 (c + 1) (7 - Z.of_nat j) ltac:(lia)) as [Hdiv' Hmod'].
      destruct (decide (k = 7 - Z.of_nat j)) as [->|Hkj];
        [|destruct (decide (k = 15 - Z.of_nat j)) as [->|Hkj8]].
      * exists (_mm_movemask_epi8 (tmp_x tmp2) mod 256). fold idx.
        split.
        { rewrite list_lookup_insert_ne by lia.
          apply list_lookup_insert_eq. lia. }
        split; [unfold is_byte; apply Z.mod_pos_bound; lia|].
        intros u Hu. rewrite Hdiv, Hmod.
        rewrite testbit_mask_lo by lia.
        rewrite (testbit_emit tmp1 tmp2 j u) by (assumption || lia).
        destruct (Ht1 (Z.to_nat u) ltac:(lia)) as [H1 _].
        rewrite (nth_lookup_Some tmp1 _ 0 _ H1).
        f_equal. f_equal. lia.
      * exists (Z.shiftr (_mm_movemask_epi8 (tmp_x tmp2)) 8 mod 256).
        replace ((8 * c + (15 - Z.of_nat j)) * nr + xr) with idx8
          by (unfold idx8; lia).
        split.
        { apply list_lookup_insert_eq. rewrite length_insert. lia. }
        split; [unfold is_byte; apply Z.mod_pos_bound; lia|].
        intros u Hu.
        replace (8 * c + (15 - Z.of_nat j))
          with (8 * (c + 1) + (7 - Z.of_nat j)) by lia.
        rewrite Hdiv', Hmod'.
        rewrite testbit_mask_hi_shiftr by lia.
        rewrite (testbit_emit tmp1 tmp2 j (u + 8)) by (assumption || lia).
        destruct (Ht1 (Z.to_nat u) ltac:(lia)) as [_ H2].
        replace (Z.to_nat (u + 8)) with (Z.to_nat u + 8)%nat by lia.
        rewrite (nth_lookup_Some tmp1 _ 0 _ H2).
        f_equal. f_equal. lia.
      * destruct (Hcells k ltac:(lia)) as (b & Hb & Hrest).
        exists b. split; [|exact Hrest].
        rewrite !list_lookup_insert_ne; [exact Hb| |];
          unfold idx, idx8; intros Heq;
          (apply Z2Nat.inj in Heq; [|apply emp_index_nonneg; lia..]);
          apply emp_index_inj in Heq; lia.
  - exists tmp', out'. split; [exact Hrun|]. split; [assumption|].
    split; [assumption|]. split; [assumption|]. split.
    + intros n Hn. apply Hun. intros k Hk. apply Hn; lia.
    + intros k Hk. apply Hcells; lia.
Qed.

Lemma emp_gather_8x8 (xr c : Z) (tmp : list Z) :
  length tmp = 16%nat -> Forall is_byte tmp ->
  0 <= xr < nr -> 0 <= c < nc ->
  exists tmp',
    for_seq (fun i tmp =>
      do x <- iadd (8 * xr) i;
      do v <- load input (INPUT_index COLUMN_NUM x (8 * c));
      store tmp i v) 0 8 tmp = Done tmp'
    /\ length tmp' = 16%nat /\ Forall is_byte tmp'
    /\ forall t : nat, (t < 8)%nat ->
         tmp' !! t = Some (ibyte (8 * xr + Z.of_nat t) c).
Proof.
  intros Hlen Hbt Hxr Hc.
  destruct (for_seq_inv
    (fun (i : Z) (tmp : list Z) =>
       length tmp = 16%nat /\ Forall is_byte tmp
       /\ forall t : nat, Z.of_nat t < i ->
            tmp !! t = Some (ibyte (8 * xr + Z.of_nat t) c))
    (fun i tmp =>
      do x <- iadd (8 * xr) i;
      do v <- load input (INPUT_index COLUMN_NUM x (8 * c));
      store tmp i v) 8 0 tmp)
    as (tmp' & Hrun & Hlen' & Hb' & Hall).
  - split; [assumption|]. split; [assumption|]. intros t Ht. lia.
  - intros i s Hi (Hs & Hbs & Hprev).
    rewrite iadd_Done by (unfold INT_MIN, INT_MAX in *; lia). cbn [obind].
    rewrite INPUT_index_eq by lia.
    rewrite emp_load_input by lia. cbn [obind].
    rewrite store_Done by lia.
    eexists. split; [reflexivity|].
    split; [now rewrite !length_insert|].
    split; [apply Forall_insert;
            [assumption|apply (inp_byte_is_byte input nc Hbytes)]|].
    intros t Ht. destruct (decide (t = Z.to_nat i)) as [->|Hne].
    + rewrite Z2Nat.id by lia. apply list_lookup_insert_eq. lia.
    + rewrite !list_lookup_insert_ne by lia. apply Hprev. lia.
  - exists tmp'. split; [exact Hrun|]. split; [assumption|].
    split; [assumption|]. intros t Ht. apply Hall. lia.
Qed.

(** The [8 x 8] block of the byte row [xr]. *)
Lemma emp_block_8x8_spec (xr c : Z) (tmp out : list Z) :
  length tmp = 16%nat -> Forall is_byte tmp ->
  Z.of_nat (length out) = nr * COLUMN_NUM ->
  0 <= xr < nr -> 0 <= c < nc ->
  exists tmp' out',
    emp_block_8x8 input ROW_NUM COLUMN_NUM (8 * xr) (8 * c) (tmp, out)
    = Done (tmp', out')
    /\ length out' = length out
    /\ (forall n : nat,
          (forall k, 0 <= k < 8 -> n <> Z.to_nat ((8 * c + k) * nr + xr)) ->
          out' !! n = out !! n)
    /\ (forall k, 0 <= k < 8 -> cell out' (8 * c + k) xr).
Proof.
  intros Hlen Hbt Hout Hxr Hc. unfold emp_block_8x8.
  destruct (emp_gather_8x8 xr c tmp) as (tmp1 & Hg & Hl1 & Hb1 & Ht1);
    try assumption.
  rewrite Hg. cbn [obind].
  destruct (emit_loop
    (fun i tmp output =>
      do y <- iadd (8 * c) i;
      store output (OUTPUT_index ROW_NUM (8 * xr) y)
            (_mm_movemask_epi8 (tmp_x tmp) mod 256))
    (fun (j : nat) (o : list Z) =>
       length o = length out
       /\ (forall n : nat,
             (forall k, 8 - Z.of_nat j <= k < 8 ->
                        n <> Z.to_nat ((8 * c + k) * nr + xr)) ->
             o !! n = out !! n)
       /\ (forall k, 8 - Z.of_nat j <= k < 8 -> cell o (8 * c + k) xr))
    tmp1 out Hl1) as (tmp' & out' & Hrun & Hl' & Hb' & Hlo & Hun & Hcells).
  - split; [reflexivity|]. split; [reflexivity|]. intros k Hk. lia.
  - intros j tmp2 o Hj Hl2 Hx2 (Hlo & Hun & Hcells).
    replace (Z.of_nat (7 - j)) with (7 - Z.of_nat j) by lia.
    rewrite iadd_Done by (unfold INT_MIN, INT_MAX in *; lia). cbn [obind].
    rewrite OUTPUT_index_eq by lia.
    set (idx := (8 * c + (7 - Z.of_nat j)) * nr + xr).
    assert (Hidx : 0 <= idx < Z.of_nat (length o)) by (unfold idx; nia).
    rewrite store_Done by lia.
    eexists. split; [reflexivity|].
    split; [now rewrite !length_insert|]. split.
    + intros n Hn.
      rewrite list_lookup_insert_ne.
      * apply Hun. intros k Hk. apply Hn; lia.
      * specialize (Hn (7 - Z.of_nat j) ltac:(lia)). fold idx in Hn. congruence.
    + intros k Hk.
      destruct (div_mod_8 c (7 - Z.of_nat j) ltac:(lia)) as [Hdiv Hmod].
      destruct (decide (k = 7 - Z.of_nat j)) as [->|Hkj].
      * exists (_mm_movemask_epi8 (tmp_x tmp2) mod 256). fold idx.
        split; [apply list_lookup_insert_eq; lia|].
        split; [unfold is_byte; apply Z.mod_pos_bound; lia|].
        intros u Hu. rewrite Hdiv, Hmod.
        rewrite testbit_mask_lo by lia.
        rewrite (testbit_emit tmp1 tmp2 j u) by (assumption || lia).
        rewrite (nth_lookup_Some tmp1 _ 0 _ (Ht1 (Z.to_nat u) ltac:(lia))).
        f_equal. f_equal. lia.
      * destruct (Hcells k ltac:(lia)) as (b & Hb & Hrest).
        exists b. split; [|exact Hrest].
        rewrite list_lookup_insert_ne; [exact Hb|];
          unfold idx; intros Heq;
          (apply Z2Nat.inj in Heq; [|apply emp_index_nonneg; lia..]);
          apply emp_index_inj in Heq; lia.
  - exists tmp', out'. split; [exact Hrun|]. split; [assumption|]. split.
    + intros n Hn. apply Hun. intros k Hk. apply Hn; lia.
    + intros k Hk. apply Hcells; lia.
Qed.

(** The row of [8 x 16] blocks at the last byte row, for at least 16
    columns. *)
Lemma emp_row_8x16_spec (xr : Z) (tmp out : list Z) :
  length tmp = 16%nat -> Forall is_byte tmp ->
  Z.of_nat (length out) = nr * COLUMN_NUM ->
  0 <= xr < nr -> 16 <= COLUMN_NUM ->
  upto out xr 1 0 ->
  exists tmp' out',
    for_loop (loop_fuel COLUMN_NUM)
             (fun cc => u64 cc <=? u64 (COLUMN_NUM - 16))
             (fun cc => iadd cc 16)
             (emp_block_8x16 input ROW_NUM COLUMN_NUM (8 * xr)) 0 (tmp, out)
    = Done (16 * (nc / 2), (tmp', out'))
    /\ length tmp' = 16%nat /\ Forall is_byte tmp'
    /\ length out' = length out
    /\ upto out' xr 1 (16 * (nc / 2)).
Proof.
  intros Hlen Hbt Hout Hxr HC16 Hdone.
  assert (Hu : u64 (COLUMN_NUM - 16) = COLUMN_NUM - 16)
    by (apply u64_small; unfold INT_MAX in *; lia).
  destruct (for_loop_inv
    (fun (cc : Z) (st : list Z * list Z) =>
       length (fst st) = 16%nat /\ Forall is_byte (fst st)
       /\ length (snd st) = length out
       /\ upto (snd st) xr 1 cc)
    (fun cc => u64 cc <=? u64 (COLUMN_NUM - 16)) (fun cc => iadd cc 16)
    (emp_block_8x16 input ROW_NUM COLUMN_NUM (8 * xr)) 16 (Z.to_nat (nc / 2))
    (loop_fuel COLUMN_NUM) 0 (tmp, out))
    as ([tmp' out'] & Hrun & Hl' & Hb' & Hlo' & Hd').
  - unfold loop_fuel.
    assert (nc / 2 <= COLUMN_NUM) by (Z.div_mod_to_equations; lia). lia.
  - cbn [fst snd]. auto.
  - intros k [tmp1 out1] Hk (Hl1 & Hb1 & Hlo1 & Hd1). cbn [fst snd] in *.
    assert (Hk2 : 2 * Z.of_nat k + 2 <= nc) by (Z.div_mod_to_equations; lia).
    replace (0 + Z.of_nat k * 16) with (8 * (2 * Z.of_nat k)) by lia.
    replace (0 + Z.of_nat (Datatypes.S k) * 16)
      with (8 * (2 * Z.of_nat k) + 16) by lia.
    split.
    { rewrite Hu, u64_small by (unfold INT_MAX in *; lia).
      apply Z.leb_le. lia. }
    split; [apply iadd_Done; unfold INT_MIN, INT_MAX in *; lia|].
    destruct (emp_block_8x16_spec xr (2 * Z.of_nat k) tmp1 out1)
      as (tmp2 & out2 & Hb & Hl2 & Hb2 & Hlo2 & Hun & Hcells); try lia.
    exists (tmp2, out2). split; [exact Hb|]. cbn [fst snd].
    split; [assumption|]. split; [assumption|]. split; [congruence|].
    intros y xb Hy Hxb Hcase.
    destruct (decide (xb = xr /\ 8 * (2 * Z.of_nat k) <= y)) as [[-> Hyk]|Hold].
    + replace y with (8 * (2 * Z.of_nat k) + (y - 8 * (2 * Z.of_nat k))) by lia.
      apply Hcells; lia.
    + apply (emp_cell_ok_preserved out1).
      * apply Hun. intros k' Hk' Heq.
        apply Z2Nat.inj in Heq; [|apply emp_index_nonneg; lia..].
        apply emp_index_inj in Heq; lia.
      * apply Hd1; lia.
  - rewrite Hu.
    rewrite u64_small by (unfold INT_MAX in *; Z.div_mod_to_equations; lia).
    apply Z.leb_gt. Z.div_mod_to_equations. lia.
  - replace (0 + Z.of_nat (Z.to_nat (nc / 2)) * 16) with (16 * (nc / 2)) in *
      by (Z.div_mod_to_equations; lia).
    exists tmp', out'. cbn [fst snd] in *. auto.
Qed.

(** [empBitMatrixTranspose] returns for at least 16 rows (and at least 16
    columns when the rows are not a multiple of 16), and every byte of
    its output holds the bits of the transposed matrix. *)
Lemma empBitMatrixTranspose_cells (tmp out : list Z) :
  length tmp = 16%nat -> Forall is_byte tmp ->
  Z.of_nat (length out) = nr * COLUMN_NUM ->
  16 <= ROW_NUM -> 16 <= COLUMN_NUM \/ ROW_NUM mod 16 = 0 ->
  exists out',
    empBitMatrixTranspose input ROW_NUM COLUMN_NUM out tmp = Done out'
    /\ length out' = length out
    /\ forall y xb, 0 <= y < COLUMN_NUM -> 0 <= xb < nr -> cell out' y xb.
Proof.
  intros Hlen Hbt Hout HR16 HC16. unfold empBitMatrixTranspose.
  rewrite decide_True by (split; Z.div_mod_to_equations; lia).
  destruct (emp_main_body_spec out Hout HR16) as (out1 & Hmain & Hlo1 & Hd1).
  rewrite Hmain. cbn [obind].
  rewrite (u64_small (16 * (nr / 2)))
    by (unfold INT_MAX in *; Z.div_mod_to_equations; lia).
  destruct (decide (16 * (nr / 2) = ROW_NUM)) as [Heven|Hodd].
  { exists out1. split; [reflexivity|]. split; [assumption|].
    intros y xb Hy Hxb. apply Hd1; try assumption.
    Z.div_mod_to_equations. lia. }
  assert (Hnr1 : 2 * (nr / 2) = nr - 1) by (Z.div_mod_to_equations; lia).
  assert (HR16' : ROW_NUM mod 16 <> 0) by (Z.div_mod_to_equations; lia).
  assert (HC16' : 16 <= COLUMN_NUM) by (destruct HC16; [assumption|contradiction]).
  rewrite decide_True by (right; split; [Z.div_mod_to_equations; lia|assumption]).
  replace (16 * (nr / 2)) with (8 * (nr - 1)) by lia.
  destruct (emp_row_8x16_spec (nr - 1) tmp out1)
    as (tmp2 & out2 & Hrow & Hl2 & Hb2 & Hlo2 & Hd2);
    try assumption; try lia.
  { intros y xb Hy Hxb Hcase. apply Hd1; try assumption. lia. }
  rewrite Hrow. cbn [obind].
  rewrite (u64_small (16 * (nc / 2)))
    by (unfold INT_MAX in *; Z.div_mod_to_equations; lia).
  destruct (decide (16 * (nc / 2) = COLUMN_NUM)) as [Heven|Hodd'].
  { exists out2. cbn [snd]. split; [reflexivity|]. split; [congruence|].
    intros y xb Hy Hxb. apply Hd2; try assumption. lia. }
  assert (Hnc1 : 2 * (nc / 2) = nc - 1) by (Z.div_mod_to_equations; lia).
  replace (16 * (nc / 2)) with (8 * (nc - 1)) in * by lia.
  destruct (emp_block_8x8_spec (nr - 1) (nc - 1) tmp2 out2)
    as (tmp3 & out3 & Hblk & Hlo3 & Hun & Hcells);
    try assumption; try lia.
  rewrite Hblk. cbn [obind snd].
  exists out3. split; [reflexivity|]. split; [congruence|].
  intros y xb Hy Hxb.
  destruct (decide (xb = nr - 1 /\ 8 * (nc - 1) <= y)) as [[-> Hyk]|Hold].
  + replace y with (8 * (nc - 1) + (y - 8 * (nc - 1))) by lia.
    apply Hcells; lia.
  + apply (emp_cell_ok_preserved out2).
    * apply Hun. intros k' Hk' Heq.
      apply Z2Nat.inj in Heq; [|apply emp_index_nonneg; lia..].
      apply emp_index_inj in Heq; lia.
    * apply Hd2; lia.
Qed.

Lemma empBitMatrixTranspose_spec (tmp out : list Z) :
  length tmp = 16%nat -> Forall is_byte tmp ->
  Z.of_nat (length out) = nr * COLUMN_NUM ->
  16 <= ROW_NUM -> 16 <= COLUMN_NUM \/ ROW_NUM mod 16 = 0 ->
  exists out',
    empBitMatrixTranspose input ROW_NUM COLUMN_NUM out tmp = Done out'
    /\ length out' = length out
    /\ Forall is_byte out'
    /\ forall x y, 0 <= x < ROW_NUM -> 0 <= y < COLUMN_NUM ->
         getbit_lsb out' (y * ROW_NUM + x) = getbit_lsb input (x * COLUMN_NUM + y).
Proof.
  intros Hlen Hbt Hout HR16 HC16.
  destruct (empBitMatrixTranspose_cells tmp out Hlen Hbt Hout HR16 HC16)
    as (out' & Hrun & Hlo & Hcells).
  exists out'. split; [exact Hrun|]. split; [exact Hlo|]. split.
  - apply Forall_lookup. intros n b Hn.
    assert (Hlt : (n < length out')%nat) by (eapply lookup_lt_Some; eauto).
    assert (Hnr0 : 0 < nr) by nia.
    assert (Hn' : Z.of_nat n < COLUMN_NUM * nr) by lia.
    destruct (Hcells (Z.of_nat n / nr) (Z.of_nat n mod nr))
      as (b' & Hb' & Hbyte & _).
    + split; [apply Z.div_pos; lia|].
      apply Z.div_lt_upper_bound; [lia|]. lia.
    + apply Z.mod_pos_bound. lia.
    + replace (Z.of_nat n / nr * nr + Z.of_nat n mod nr) with (Z.of_nat n) in Hb'
        by (rewrite (Z.mul_comm _ nr); apply Z.div_mod; lia).
      rewrite Nat2Z.id in Hb'. congruence.
  - intros x y Hx Hy.
    destruct (split_8 x nr ltac:(lia)) as (xb & u & -> & Hu & Hxb).
    destruct (split_8 y nc ltac:(lia)) as (yb & v & -> & Hv & Hyb).
    replace ((8 * yb + v) * ROW_NUM + (8 * xb + u))
      with (8 * ((8 * yb + v) * nr + xb) + u) by (rewrite HROW; ring).
    replace ((8 * xb + u) * COLUMN_NUM + (8 * yb + v))
      with (8 * ((8 * xb + u) * nc + yb) + v) by (rewrite HCOL; ring).
    unfold getbit_lsb.
    destruct (div_mod_8 ((8 * yb + v) * nr + xb) u Hu) as [-> ->].
    destruct (div_mod_8 ((8 * xb + u) * nc + yb) v Hv) as [-> ->].
    destruct (Hcells (8 * yb + v) xb ltac:(lia) Hxb) as (b & Hb & _ & Hbits).
    rewrite (nth_lookup_Some _ _ 0 _ Hb), (Hbits u Hu).
    destruct (div_mod_8 yb v Hv) as [-> ->]. reflexivity.
Qed.

End EmpTranspose.

Lemma bytes_ext_lsb (l1 l2 : list Z) :
  length l1 = length l2 -> Forall is_byte l1 -> Forall is_byte l2 ->
  (forall p, 0 <= p < 8 * Z.of_nat (length l1) ->
             getbit_lsb l1 p = getbit_lsb l2 p) ->
  l1 = l2.
Proof.
  intros Hlen H1 H2 Hbits. apply list_eq. intros i.
  destruct (l1 !! i) as [a|] eqn:Ha.
  - assert (Hi : (i < length l1)%nat) by (eapply lookup_lt_Some; eauto).
    destruct (lookup_lt_is_Some_2 l2 i ltac:(lia)) as [b Hb]. rewrite Hb.
    f_equal. apply byte_ext.
    + exact (Forall_lookup_1 _ _ _ _ H1 Ha).
    + exact (Forall_lookup_1 _ _ _ _ H2 Hb).
    + intros u Hu.
      pose proof (Hbits (8 * Z.of_nat i + (7 - u)) ltac:(lia)) as Hp.
      unfold getbit_lsb in Hp.
      destruct (div_mod_8 (Z.of_nat i) (7 - u) ltac:(lia)) as [Hd Hm].
      rewrite Hd, Hm, Nat2Z.id in Hp.
      now rewrite (nth_lookup_Some _ _ 0 _ Ha), (nth_lookup_Some _ _ 0 _ Hb) in Hp.
  - symmetry. apply lookup_ge_None. apply lookup_ge_None in Ha. lia.
Qed.

(** Transposing twice with [empBitMatrixTranspose] gives the matrix back,
    for at least 16 rows and 16 columns. *)
Lemma empBitMatrixTranspose_involutive
      (M : list Z) (R C : Z) (out1 out2 tmp1 tmp2 : list Z) :
  16 <= R <= INT_MAX -> 16 <= C <= INT_MAX ->
  R mod 8 = 0 -> C mod 8 = 0 ->
  8 * Z.of_nat (length M) = R * C -> Forall is_byte M ->
  length out1 = length M -> length out2 = length M ->
  length tmp1 = 16%nat -> Forall is_byte tmp1 ->
  length tmp2 = 16%nat -> Forall is_byte tmp2 ->
  exists T,
    empBitMatrixTranspose M R C out1 tmp1 = Done T
    /\ length T = length M
    /\ (forall x y, 0 <= x < R -> 0 <= y < C ->
          getbit_lsb T (y * R + x) = getbit_lsb M (x * C + y))
    /\ empBitMatrixTranspose T C R out2 tmp2 = Done M.
Proof.
  intros HR HC HR8 HC8 HM HbM Ho1 Ho2 Ht1 Hb1 Ht2 Hb2.
  assert (HRd : R = 8 * (R / 8)) by (Z.div_mod_to_equations; lia).
  assert (HCd : C = 8 * (C / 8)) by (Z.div_mod_to_equations; lia).
  assert (HR0 : 0 <= R / 8) by (Z.div_mod_to_equations; lia).
  assert (HC0 : 0 <= C / 8) by (Z.div_mod_to_equations; lia).
  set (nr := R / 8) in *. set (nc := C / 8) in *.
  assert (HlenM : Z.of_nat (length M) = nr * C) by nia.
  destruct (empBitMatrixTranspose_spec M R C nr nc HRd HCd HR0 HC0 HlenM HbM
              ltac:(lia) ltac:(lia) tmp1 out1 Ht1 Hb1 ltac:(lia)
              ltac:(lia) ltac:(lia))
    as (T & HT & HlT & HbT & HbitsT).
  assert (HlenT : Z.of_nat (length T) = nc * R) by nia.
  destruct (empBitMatrixTranspose_spec T C R nc nr HCd HRd HC0 HR0 HlenT HbT
              ltac:(lia) ltac:(lia) tmp2 out2 Ht2 Hb2 ltac:(lia)
              ltac:(lia) ltac:(lia))
    as (M' & HM' & HlM' & HbM' & HbitsM').
  exists T. split; [exact HT|]. split; [lia|]. split; [exact HbitsT|].
  rewrite HM'. f_equal. apply bytes_ext_lsb; try assumption; [lia|].
  intros p Hp.
  assert (HC1 : 0 < C) by lia.
  assert (Hpd : p = p / C * C + p mod C)
    by (rewrite (Z.mul_comm _ C); apply Z.div_mod; lia).
  assert (Hpm : 0 <= p mod C < C) by (apply Z.mod_pos_bound; lia).
  assert (Hpq : 0 <= p / C < R).
  { split; [apply Z.div_pos; lia|]. apply Z.div_lt_upper_bound; lia. }
  rewrite Hpd. rewrite HbitsM' by assumption. now apply HbitsT.
Qed.

(** ** Transposing twice *)

(** C6, within the index ranges of the two functions.  For a bit matrix
    [M] of [R] rows and [C] columns, [R] and [C] multiples of 8, in
    row-major dense form: [BitMatrixTranspose] gives the transposed
    [C x R] matrix and, applied to it, gives [M] back, when
    [R * C <= 2^31]; and so does [empBitMatrixTranspose] (with the bits
    of a byte taken from the least significant one) when [R] and [C] are
    at least 16. *)
Theorem transpose_involution
        (M : list Z) (R C : Z) (out1 out2 tmp1 tmp2 : list Z) :
  0 <= R <= INT_MAX -> 0 <= C <= INT_MAX ->
  R mod 8 = 0 -> C mod 8 = 0 ->
  8 * Z.of_nat (length M) = R * C -> Forall is_byte M ->
  length out1 = length M -> length out2 = length M ->
  length tmp1 = 16%nat -> Forall is_byte tmp1 ->
  length tmp2 = 16%nat -> Forall is_byte tmp2 ->
  (R * C <= 2 ^ 31 ->
   exists T,
     BitMatrixTranspose M R C out1 tmp1 = Done T
     /\ (forall x y, 0 <= x < R -> 0 <= y < C ->
           getbit T (y * R + x) = getbit M (x * C + y))
     /\ BitMatrixTranspose T C R out2 tmp2 = Done M)
  /\ (16 <= R -> 16 <= C ->
      exists T,
        empBitMatrixTranspose M R C out1 tmp1 = Done T
        /\ (forall x y, 0 <= x < R -> 0 <= y < C ->
              getbit_lsb T (y * R + x) = getbit_lsb M (x * C + y))
        /\ empBitMatrixTranspose T C R out2 tmp2 = Done M).
Proof.
  intros HR HC HR8 HC8 HM HbM Ho1 Ho2 Ht1 Hb1 Ht2 Hb2. split.
  - intros Hfit.
    destruct (BitMatrixTranspose_involutive_general M R C out1 out2 tmp1 tmp2)
      as (T & HT & _ & Hbits & Hback); try assumption.
    exists T. auto.
  - intros HR16 HC16.
    destruct (empBitMatrixTranspose_involutive M R C out1 out2 tmp1 tmp2)
      as (T & HT & _ & Hbits & Hback); try assumption; try lia.
    exists T. auto.
Qed.


Lemma transpose_involution_witness :
  (exists T,
     BitMatrixTranspose M16 16 16 (replicate 32 0) (replicate 16 0) = Done T
     /\ (forall x y, 0 <= x < 16 -> 0 <= y < 16 ->
           getbit T (y * 16 + x) = getbit M16 (x * 16 + y))
     /\ BitMatrixTranspose T 16 16 (replicate 32 0) (replicate 16 0) = Done M16)
  /\ (exists T,
        empBitMatrixTranspose M16 16 16 (replicate 32 0) (replicate 16 0) = Done T
        /\ (forall x y, 0 <= x < 16 -> 0 <= y < 16 ->
              getbit_lsb T (y * 16 + x) = getbit_lsb M16 (x * 16 + y))
        /\ empBitMatrixTranspose T 16 16 (replicate 32 0) (replicate 16 0)
           = Done M16).
Proof.
  assert (Hz : Forall is_byte (replicate 16 0))
    by (apply Forall_replicate; unfold is_byte; lia).
  assert (HM : Forall is_byte M16)
    by (unfold M16; repeat constructor; unfold is_byte; lia).
  destruct (transpose_involution M16 16 16 (replicate 32 0) (replicate 32 0)
              (replicate 16 0) (replicate 16 0)) as [H1 H2];
    try reflexivity; try assumption; try (unfold INT_MAX; lia).
  split; [apply H1|apply H2]; lia.
Defined.

(** C6 as stated fails at both ends: [empBitMatrixTranspose] on an
    [8 x 8] matrix reads [INPUT(15, 0)], and [BitMatrixTranspose] on a
    [128 x (2^24 + 128)] matrix computes [OUT(0, 2^24)], whose index is
    not an [int]. *)
Lemma transpose_undefined :
  empBitMatrixTranspose [1; 2; 4; 8; 16; 32; 64; 128] 8 8
                        (replicate 8 0) (replicate 16 0) = Undefined
  /\ BitMatrixTranspose (replicate (Z.to_nat 268437504) 0) 128 16777344
                        (replicate (Z.to_nat 268437504) 0) (replicate 16 0)
     = Undefined.
Proof.
  split; [vm_compute; reflexivity|].
  assert (Hlen : Z.of_nat (length (replicate (Z.to_nat 268437504) 0))
                 = 16 * 16777344)
    by (rewrite length_replicate; lia).
  assert (Hbytes : Forall is_byte (replicate (Z.to_nat 268437504) 0))
    by (apply Forall_replicate; unfold is_byte; lia).
  exact (BitMatrixTranspose_overflow
           (replicate (Z.to_nat 268437504) 0) 128 16777344 16 2097168
           eq_refl eq_refl ltac:(lia) ltac:(lia) Hlen Hbytes
           ltac:(unfold INT_MAX; lia) ltac:(unfold INT_MAX; lia)
           2097152 (replicate 16 0) (replicate (Z.to_nat 268437504) 0)
           eq_refl Hlen ltac:(lia) ltac:(unfold INT_MAX; lia) ltac:(lia)
           ltac:(unfold INT_MAX; lia)).
Qed.

(** With 8 rows the bound [ROW_NUM - 16] of the main loop wraps around
    in [uint64_t], and the loop reads rows that the matrix does not
    have. *)
Lemma empBitMatrixTranspose_8_rows :
  (u64 0 <=? u64 (8 - 16)) = true
  /\ INPUT_index 16 15 0 = 30
  /\ empBitMatrixTranspose (replicate 16 255) 8 16
                           (replicate 16 0) (replicate 16 0) = Undefined.
Proof. repeat split; vm_compute; reflexivity. Qed.

(** ** Block vectors and their byte images *)

Lemma is_block_high (x n : Z) :
  is_block x -> 128 <= n -> Z.testbit x n = false.
Proof.
  unfold is_block. intros Hx Hn.
  rewrite <- (Z.mod_small x (2 ^ 128)) by lia.
  apply Z.mod_pow2_bits_high. lia.
Qed.

Lemma is_block_bits (x : Z) :
  0 <= x -> (forall n, 128 <= n -> Z.testbit x n = false) -> is_block x.
Proof.
  intros Hx Hhigh. unfold is_block.
  assert (Heq : x = x mod 2 ^ 128).
  { apply Z.bits_inj'. intros n Hn.
    destruct (Z.lt_ge_cases n 128).
    - now rewrite Z.mod_pow2_bits_low by lia.
    - rewrite Z.mod_pow2_bits_high by lia. now apply Hhigh. }
  rewrite Heq. apply Z.mod_pos_bound. lia.
Qed.

Lemma lxor_is_block (a b : Z) :
  is_block a -> is_block b -> is_block (Z.lxor a b).
Proof.
  intros Ha Hb. apply is_block_bits.
  - apply Z.lxor_nonneg. unfold is_block in *. lia.
  - intros n Hn. rewrite Z.lxor_spec.
    now rewrite (is_block_high a), (is_block_high b).
Qed.

Lemma land_is_block (a b : Z) :
  is_block a -> is_block b -> is_block (Z.land a b).
Proof.
  intros Ha Hb. apply is_block_bits.
  - apply Z.land_nonneg. unfold is_block in *. lia.
  - intros n Hn. rewrite Z.land_spec.
    now rewrite (is_block_high a).
Qed.

Lemma zero_block_is_block : is_block Block.zero_block.
Proof. unfold is_block. now vm_compute. Qed.

Lemma block_ext (a b : Z) :
  is_block a -> is_block b ->
  (forall m, 0 <= m < 128 -> Z.testbit a m = Z.testbit b m) -> a = b.
Proof.
  intros Ha Hb Hbits. apply Z.bits_inj'. intros n Hn.
  destruct (Z.lt_ge_cases n 128).
  - apply Hbits. lia.
  - now rewrite (is_block_high a), (is_block_high b).
Qed.

Lemma bitpos_range (j : Z) : 0 <= j < 128 -> 0 <= bitpos j < 128.
Proof. unfold bitpos. intros Hj. Z.div_mod_to_equations. lia. Qed.

Lemma bitpos_involutive (j : Z) : 0 <= j < 128 -> bitpos (bitpos j) = j.
Proof. unfold bitpos. intros Hj. Z.div_mod_to_equations. lia. Qed.

(** Two blocks are equal when they agree on the 128 bits of a row. *)
Lemma block_ext_bitpos (a b : Z) :
  is_block a -> is_block b ->
  (forall j, 0 <= j < 128 -> Z.testbit a (bitpos j) = Z.testbit b (bitpos j)) ->
  a = b.
Proof.
  intros Ha Hb Hbits. apply block_ext; try assumption.
  intros m Hm. rewrite <- (bitpos_involutive m Hm).
  apply Hbits. now apply bitpos_range.
Qed.

Lemma length_bytes_of_blocks (v : list Z) :
  length (bytes_of_blocks v) = (16 * length v)%nat.
Proof.
  unfold bytes_of_blocks. induction v as [|x v IH]; [reflexivity|].
  cbn [map concat]. rewrite length_app, length_le_split, IH. simpl. lia.
Qed.

Lemma bytes_of_blocks_is_byte (v : list Z) : Forall is_byte (bytes_of_blocks v).
Proof.
  unfold bytes_of_blocks. induction v as [|x v IH]; [constructor|].
  cbn [map concat]. apply Forall_app. split; [apply le_split_is_byte|exact IH].
Qed.

Lemma bytes_of_blocks_cons (x : Z) (v : list Z) :
  bytes_of_blocks (x :: v) = le_split 16 x ++ bytes_of_blocks v.
Proof. reflexivity. Qed.

Lemma bytes_of_blocks_app (v w : list Z) :
  bytes_of_blocks (v ++ w) = bytes_of_blocks v ++ bytes_of_blocks w.
Proof. unfold bytes_of_blocks. now rewrite map_app, concat_app. Qed.

Lemma chunks16_bytes_of_blocks (v : list Z) :
  chunks16 (length v) (bytes_of_blocks v) = map (le_split 16) v.
Proof.
  induction v as [|x v IH]; [reflexivity|].
  rewrite bytes_of_blocks_cons. cbn [length chunks16 map].
  rewrite take_app_length' by now rewrite length_le_split.
  rewrite drop_app_length' by now rewrite length_le_split.
  now rewrite IH.
Qed.

Lemma le_combine_split_block (x : Z) :
  is_block x -> le_combine (le_split 16 x) = x.
Proof.
  unfold is_block. intros Hx. rewrite le_combine_split.
  apply Z.mod_small. change (256 ^ Z.of_nat 16) with (2 ^ 128). lia.
Qed.

Lemma blocks_of_bytes_of_blocks (v : list Z) :
  Forall is_block v -> blocks_of_bytes (bytes_of_blocks v) = v.
Proof.
  intros Hv. unfold blocks_of_bytes.
  rewrite length_bytes_of_blocks.
  replace (16 * length v / 16)%nat with (length v)
    by (symmetry; rewrite Nat.mul_comm; apply Nat.div_mul; lia).
  rewrite chunks16_bytes_of_blocks, map_map.
  induction Hv as [|x v Hx Hv IH]; [reflexivity|].
  cbn [map]. now rewrite le_combine_split_block, IH.
Qed.

Lemma chunks16_spec (k : nat) :
  forall bs : list Z,
    length bs = (16 * k)%nat ->
    concat (chunks16 k bs) = bs
    /\ Forall (fun c => length c = 16%nat) (chunks16 k bs)
    /\ length (chunks16 k bs) = k.
Proof.
  induction k as [|k IH]; intros bs Hlen.
  - destruct bs; [|discriminate]. repeat split. constructor.
  - cbn [chunks16 concat length].
    destruct (IH (drop 16 bs)) as (Hc & Hl & Hn).
    { rewrite length_drop. lia. }
    rewrite Hc, take_drop. split; [reflexivity|]. split; [|lia].
    constructor; [|assumption]. rewrite length_take. lia.
Qed.

Lemma bytes_of_blocks_of_bytes (bs : list Z) (k : nat) :
  length bs = (16 * k)%nat -> Forall is_byte bs ->
  bytes_of_blocks (blocks_of_bytes bs) = bs
  /\ length (blocks_of_bytes bs) = k
  /\ Forall is_block (blocks_of_bytes bs).
Proof.
  intros Hlen Hb. unfold blocks_of_bytes, bytes_of_blocks.
  replace (length bs / 16)%nat with k
    by (rewrite Hlen, Nat.mul_comm; symmetry; apply Nat.div_mul; lia).
  destruct (chunks16_spec k bs Hlen) as (Hc & Hl & Hn).
  assert (Hbc : Forall (Forall is_byte) (chunks16 k bs)).
  { rewrite <- Hc in Hb. revert Hb. generalize (chunks16 k bs).
    induction l as [|c l IHl]; intros Hb; [constructor|].
    cbn [concat] in Hb. apply Forall_app in Hb as [H1 H2].
    constructor; auto. }
  rewrite length_map, Hn. split; [|split; [reflexivity|]].
  - rewrite <- Hc at 2. rewrite map_map. f_equal.
    clear Hc Hn. induction Hl as [|c l Hcl Hl IH]; [reflexivity|].
    apply Forall_cons in Hbc as [Hc1 Hc2].
    cbn [map]. rewrite IH by assumption. f_equal.
    rewrite <- Hcl. now apply le_split_combine.
  - clear Hc Hn. induction Hl as [|c l Hcl Hl IH]; [constructor|].
    apply Forall_cons in Hbc as [Hc1 Hc2].
    cbn [map]. constructor; [|now apply IH].
    pose proof (le_combine_bound c Hc1) as Hbound. rewrite Hcl in Hbound.
    exact Hbound.
Qed.

Lemma nth_bytes_of_blocks (v : list Z) (q t : nat) :
  (q < length v)%nat -> (t < 16)%nat ->
  nth (16 * q + t) (bytes_of_blocks v) 0 = nth t (le_split 16 (nth q v 0)) 0.
Proof.
  revert q. induction v as [|x v IH]; intros q Hq Ht; [simpl in Hq; lia|].
  rewrite bytes_of_blocks_cons. destruct q as [|q].
  - rewrite app_nth1 by (rewrite length_le_split; lia). reflexivity.
  - rewrite app_nth2 by (rewrite length_le_split; lia).
    rewrite length_le_split.
    replace (16 * Datatypes.S q + t - 16)%nat with (16 * q + t)%nat by lia.
    cbn [nth]. apply IH; [simpl in Hq; lia|assumption].
Qed.

Lemma testbit_nth_le_split (x : Z) (t : nat) (u : Z) :
  is_block x -> (t < 16)%nat -> 0 <= u < 8 ->
  Z.testbit (nth t (le_split 16 x) 0) u = Z.testbit x (8 * Z.of_nat t + u).
Proof.
  intros Hx Ht Hu.
  rewrite <- (le_combine_split_block x Hx) at 2.
  symmetry. apply testbit_le_combine; [apply le_split_is_byte| |assumption].
  now rewrite length_le_split.
Qed.

(** Bit [p] of the byte image of a block vector. *)
Lemma getbit_bytes_of_blocks (v : list Z) (p : Z) :
  Forall is_block v -> 0 <= p < 128 * Z.of_nat (length v) ->
  getbit (bytes_of_blocks v) p
  = Z.testbit (nth (Z.to_nat (p / 128)) v 0) (bitpos (p mod 128)).
Proof.
  intros Hv Hp. unfold getbit, bitpos.
  set (q := Z.to_nat (p / 128)). set (t := Z.to_nat (p mod 128 / 8)).
  assert (Hq : (q < length v)%nat).
  { unfold q. apply Nat2Z.inj_lt. rewrite Z2Nat.id by (apply Z.div_pos; lia).
    apply Z.div_lt_upper_bound; lia. }
  assert (Ht : (t < 16)%nat).
  { unfold t. apply Nat2Z.inj_lt.
    rewrite Z2Nat.id by (Z.div_mod_to_equations; lia).
    Z.div_mod_to_equations. lia. }
  replace (Z.to_nat (p / 8)) with (16 * q + t)%nat
    by (unfold q, t; Z.div_mod_to_equations; lia).
  rewrite nth_bytes_of_blocks by assumption.
  rewrite testbit_nth_le_split; try assumption.
  - f_equal. unfold t. rewrite Z2Nat.id by (Z.div_mod_to_equations; lia).
    Z.div_mod_to_equations. lia.
  - assert (Hin : nth q v 0 ∈ v)
      by (apply list_elem_of_In, nth_In; assumption).
    rewrite Forall_forall in Hv. now apply Hv.
  - Z.div_mod_to_equations. lia.
Qed.

Lemma length_blocks (n : Z) : length (ALSZOTE.blocks n) = Z.to_nat n.
Proof. apply length_replicate. Qed.

Lemma blocks_is_block (n : Z) : Forall is_block (ALSZOTE.blocks n).
Proof.
  unfold ALSZOTE.blocks. apply Forall_replicate. apply zero_block_is_block.
Qed.

(** Row [i] of a matrix with one block per row. *)
Lemma memcpy_blocks_row (M : list Z) (i : Z) :
  Forall is_block M -> 0 <= i < Z.of_nat (length M) -> i < 2 ^ 32 ->
  ALSZOTE.memcpy_blocks (ALSZOTE.blocks 1) M (u64 (i * 128) / 128) 16
  = Done [nth (Z.to_nat i) M 0].
Proof.
  intros HM Hi Hi32. unfold ALSZOTE.memcpy_blocks.
  rewrite u64_small by lia. rewrite Z.div_mul by lia.
  assert (Hsplit : M = take (Z.to_nat i) M ++ nth (Z.to_nat i) M 0
                         :: drop (Datatypes.S (Z.to_nat i)) M).
  { rewrite <- (take_drop (Z.to_nat i) M) at 1. f_equal.
    destruct (lookup_lt_is_Some_2 M (Z.to_nat i) ltac:(lia)) as [x Hx].
    rewrite (nth_lookup_Some _ _ 0 _ Hx). now apply drop_S. }
  assert (Hsrc : drop (Z.to_nat (16 * i)) (bytes_of_blocks M)
                 = le_split 16 (nth (Z.to_nat i) M 0)
                   ++ bytes_of_blocks (drop (Datatypes.S (Z.to_nat i)) M)).
  { rewrite Hsplit at 1. rewrite bytes_of_blocks_app, bytes_of_blocks_cons.
    apply drop_app_length'. rewrite length_bytes_of_blocks, length_take. lia. }
  rewrite Hsrc. unfold memcpy.
  rewrite decide_True.
  2:{ rewrite length_app, length_le_split, !length_bytes_of_blocks, length_blocks.
      lia. }
  cbn [obind]. change (Z.to_nat 16) with 16%nat.
  rewrite take_app_length' by now rewrite length_le_split.
  rewrite drop_ge by (rewrite length_bytes_of_blocks, length_blocks; lia).
  rewrite app_nil_r. f_equal.
  assert (Hx : is_block (nth (Z.to_nat i) M 0)).
  { rewrite Forall_forall in HM. apply HM.
    apply list_elem_of_In, nth_In. lia. }
  change (le_split 16 (nth (Z.to_nat i) M 0))
    with (bytes_of_blocks [nth (Z.to_nat i) M 0] ) at 1.
  - unfold bytes_of_blocks. cbn [map concat]. rewrite app_nil_r.
    unfold blocks_of_bytes. rewrite length_le_split.
    change (16 / 16)%nat with 1%nat. cbn [chunks16 map].
    rewrite take_ge by (rewrite length_le_split; lia).
    now rewrite le_combine_split_block.
Qed.

(** Transposing a matrix of 128 rows of [R] bits, a block vector with
    [R / 128] blocks per row: row [i] of the result is one block, and its
    bit [j] is bit [i] of row [j]. *)
Lemma BitMatrixTranspose_blocks_spec (tmp M : list Z) (R n : Z) :
  length tmp = 16%nat -> Forall is_byte tmp ->
  R = 128 * n -> 1 <= n -> R <= 2 ^ 24 ->
  Z.of_nat (length M) = R -> Forall is_block M ->
  exists Mt,
    ALSZOTE.BitMatrixTranspose_blocks tmp M 128 R
      (ALSZOTE.blocks (R / 128 * 128)) = Done Mt
    /\ Z.of_nat (length Mt) = R
    /\ Forall is_block Mt
    /\ forall i j, 0 <= i < R -> 0 <= j < 128 ->
         Z.testbit (nth (Z.to_nat i) Mt 0) (bitpos j)
         = Z.testbit (nth (Z.to_nat (j * n + i / 128)) M 0)
                     (bitpos (i mod 128)).
Proof.
  intros Htmp Hbtmp HR Hn HR24 HlM HbM.
  unfold ALSZOTE.BitMatrixTranspose_blocks.
  rewrite !int_of_Done by (unfold INT_MIN, INT_MAX; lia). cbn [obind].
  replace (R / 128 * 128) with R by (subst R; rewrite Z.mul_comm, Z.div_mul; lia).
  destruct (BitMatrixTranspose_spec (bytes_of_blocks M) 128 R 16 (16 * n))
    with (tmp := tmp) (out := bytes_of_blocks (ALSZOTE.blocks R))
    as (img & Hrun & Hlimg & Hbimg & Hbits);
    try assumption; try lia.
  - rewrite length_bytes_of_blocks. lia.
  - apply bytes_of_blocks_is_byte.
  - unfold INT_MAX. lia.
  - unfold INT_MAX. lia.
  - rewrite length_bytes_of_blocks, length_blocks. lia.
  - rewrite Hrun. cbn [obind].
    destruct (bytes_of_blocks_of_bytes img (Z.to_nat R)) as (Himg & HlMt & HbMt);
      try assumption.
    { rewrite Hlimg, length_bytes_of_blocks, length_blocks. reflexivity. }
    eexists. split; [reflexivity|]. split; [lia|]. split; [assumption|].
    intros i j Hi Hj.
    pose proof (Hbits j i ltac:(lia) Hi) as Hb.
    rewrite <- Himg in Hb.
    rewrite !getbit_bytes_of_blocks in Hb by (try assumption; nia).
    replace ((i * 128 + j) / 128) with i in Hb
      by (Z.div_mod_to_equations; lia).
    replace ((i * 128 + j) mod 128) with j in Hb
      by (Z.div_mod_to_equations; lia).
    rewrite Hb. f_equal; [f_equal; f_equal|f_equal].
    + subst R. replace (j * (128 * n) + i) with (i + (j * n) * 128) by lia.
      rewrite Z.div_add by lia. lia.
    + subst R. replace (j * (128 * n) + i) with (i + (j * n) * 128) by lia.
      now rewrite Z.mod_add by lia.
Qed.

(** ** Loops over vectors *)

Lemma load_nth (buf : list Z) (i : Z) :
  0 <= i < Z.of_nat (length buf) -> load buf i = Done (nth (Z.to_nat i) buf 0).
Proof.
  intros Hi.
  destruct (lookup_lt_is_Some_2 buf (Z.to_nat i) ltac:(lia)) as [x Hx].
  rewrite (load_Done buf i x) by (assumption || lia).
  now rewrite (nth_lookup_Some _ _ 0 _ Hx).
Qed.

Lemma nth_insert_eq (v : list Z) (i : nat) (x : Z) :
  (i < length v)%nat -> nth i (<[i:=x]> v) 0 = x.
Proof.
  intros Hi. apply nth_lookup_Some. now apply list_lookup_insert_eq.
Qed.

Lemma nth_insert_ne (v : list Z) (i k : nat) (x : Z) :
  i <> k -> nth k (<[i:=x]> v) 0 = nth k v 0.
Proof.
  intros Hne. destruct (decide (k < length v)%nat) as [Hk|Hk].
  - destruct (lookup_lt_is_Some_2 v k Hk) as [y Hy].
    rewrite (nth_lookup_Some _ _ 0 _ Hy).
    apply nth_lookup_Some. now rewrite list_lookup_insert_ne.
  - rewrite !nth_overflow; [reflexivity|lia|rewrite length_insert; lia].
Qed.

(** [for (i = 0; i < n; i++) v[i] = f i] *)
Lemma for_n_update (body : Z -> list Z -> outcome (list Z)) (f : Z -> Z)
      (n : Z) (v : list Z) :
  0 <= n -> Z.of_nat (length v) = n ->
  (forall i v, 0 <= i < n -> Z.of_nat (length v) = n ->
               body i v = Done (<[Z.to_nat i := f i]> v)) ->
  exists v',
    for_n n body v = Done v'
    /\ Z.of_nat (length v') = n
    /\ forall i, 0 <= i < n -> nth (Z.to_nat i) v' 0 = f i.
Proof.
  intros Hn Hlen Hbody. unfold for_n.
  destruct (for_seq_inv
    (fun (i : Z) (v : list Z) =>
       Z.of_nat (length v) = n
       /\ forall k, 0 <= k < i -> nth (Z.to_nat k) v 0 = f k)
    body (Z.to_nat n) 0 v)
    as (v' & Hrun & Hl' & Hall).
  - split; [assumption|]. intros k Hk. lia.
  - intros i s Hi [Hs Hprev]. rewrite Hbody by lia.
    eexists. split; [reflexivity|]. split; [now rewrite length_insert|].
    intros k Hk. destruct (decide (k = i)) as [->|Hne].
    + apply nth_insert_eq. lia.
    + rewrite nth_insert_ne by lia. apply Hprev. lia.
  - exists v'. split; [exact Hrun|]. split; [assumption|].
    intros i Hi. apply Hall. lia.
Qed.

(** The same for a loop that fills two vectors. *)
Lemma for_n_update2 (body : Z -> list Z * list Z -> outcome (list Z * list Z))
      (f g : Z -> Z) (n : Z) (v w : list Z) :
  0 <= n -> Z.of_nat (length v) = n -> Z.of_nat (length w) = n ->
  (forall i v w, 0 <= i < n ->
                 Z.of_nat (length v) = n -> Z.of_nat (length w) = n ->
                 body i (v, w)
                 = Done (<[Z.to_nat i := f i]> v, <[Z.to_nat i := g i]> w)) ->
  exists v' w',
    for_n n body (v, w) = Done (v', w')
    /\ Z.of_nat (length v') = n /\ Z.of_nat (length w') = n
    /\ forall i, 0 <= i < n ->
         nth (Z.to_nat i) v' 0 = f i /\ nth (Z.to_nat i) w' 0 = g i.
Proof.
  intros Hn Hlv Hlw Hbody. unfold for_n.
  destruct (for_seq_inv
    (fun (i : Z) (st : list Z * list Z) =>
       Z.of_nat (length (fst st)) = n /\ Z.of_nat (length (snd st)) = n
       /\ forall k, 0 <= k < i ->
            nth (Z.to_nat k) (fst st) 0 = f k
            /\ nth (Z.to_nat k) (snd st) 0 = g k)
    body (Z.to_nat n) 0 (v, w))
    as ([v' w'] & Hrun & Hl' & Hl'' & Hall).
  - cbn [fst snd]. split; [assumption|]. split; [assumption|].
    intros k Hk. lia.
  - intros i [s t] Hi (Hs & Ht & Hprev). cbn [fst snd] in *.
    rewrite Hbody by lia.
    eexists. split; [reflexivity|]. cbn [fst snd].
    split; [now rewrite length_insert|].
    split; [now rewrite length_insert|].
    intros k Hk. destruct (decide (k = i)) as [->|Hne].
    + split; apply nth_insert_eq; lia.
    + rewrite !nth_insert_ne by lia. apply Hprev. lia.
  - exists v', w'. cbn [fst snd] in *. split; [exact Hrun|].
    split; [assumption|]. split; [assumption|].
    intros i Hi. apply Hall. lia.
Qed.

(** A loop that appends one column per iteration. *)
Lemma for_n_append {S : Type} (body : Z -> list Z * S -> outcome (list Z * S))
      (col : nat -> list Z) (n : Z) (s : S) :
  (forall (j : nat) M s, Z.of_nat j < n ->
     exists s', body (Z.of_nat j) (M, s) = Done (M ++ col j, s')) ->
  exists s',
    for_n n body ([], s)
    = Done (concat (map col (seq 0 (Z.to_nat n))), s').
Proof.
  intros Hbody. unfold for_n.
  destruct (for_seq_inv
    (fun (i : Z) (st : list Z * S) =>
       fst st = concat (map col (seq 0 (Z.to_nat i))))
    body (Z.to_nat n) 0 ([], s)) as ([M s'] & Hrun & HM).
  - reflexivity.
  - intros i [M s1] Hi HM. cbn [fst] in HM.
    destruct (Hbody (Z.to_nat i) M s1 ltac:(lia)) as (s2 & Hb).
    rewrite Z2Nat.id in Hb by lia. rewrite Hb.
    eexists. split; [reflexivity|]. cbn [fst].
    replace (Z.to_nat (i + 1)) with (Datatypes.S (Z.to_nat i)) by lia.
    rewrite seq_S, map_app, concat_app, HM. cbn [map concat Nat.add].
    now rewrite app_nil_r.
  - exists s'. cbn [fst] in HM. rewrite Hrun. f_equal. f_equal.
    rewrite HM. now rewrite Z.add_0_l, Nat2Z.id.
Qed.

(** The same for three matrices that grow together. *)
Lemma for_n_append3 {S : Type}
      (body : Z -> list Z * list Z * list Z * S
              -> outcome (list Z * list Z * list Z * S))
      (colT colU colP : nat -> list Z) (n : Z) (s : S) :
  (forall (j : nat) T U P s, Z.of_nat j < n ->
     exists s', body (Z.of_nat j) (T, U, P, s)
                = Done (T ++ colT j, U ++ colU j, P ++ colP j, s')) ->
  exists s',
    for_n n body ([], [], [], s)
    = Done (concat (map colT (seq 0 (Z.to_nat n))),
            concat (map colU (seq 0 (Z.to_nat n))),
            concat (map colP (seq 0 (Z.to_nat n))), s').
Proof.
  intros Hbody. unfold for_n.
  destruct (for_seq_inv
    (fun (i : Z) (st : list Z * list Z * list Z * S) =>
       fst (fst (fst st)) = concat (map colT (seq 0 (Z.to_nat i)))
       /\ snd (fst (fst st)) = concat (map colU (seq 0 (Z.to_nat i)))
       /\ snd (fst st) = concat (map colP (seq 0 (Z.to_nat i))))
    body (Z.to_nat n) 0 ([], [], [], s))
    as ([[[T U] P] s'] & Hrun & HT & HU & HP).
  - cbn [fst snd]. auto.
  - intros i [[[T U] P] s1] Hi (HT & HU & HP). cbn [fst snd] in *.
    destruct (Hbody (Z.to_nat i) T U P s1 ltac:(lia)) as (s2 & Hb).
    rewrite Z2Nat.id in Hb by lia. rewrite Hb.
    eexists. split; [reflexivity|]. cbn [fst snd].
    replace (Z.to_nat (i + 1)) with (Datatypes.S (Z.to_nat i)) by lia.
    rewrite !seq_S, !map_app, !concat_app, HT, HU, HP.
    cbn [map concat Nat.add]. now rewrite !app_nil_r.
  - exists s'. cbn [fst snd] in *. rewrite Hrun.
    rewrite Z.add_0_l, Nat2Z.id in HT, HU, HP. now subst.
Qed.

Lemma length_concat_columns (col : nat -> list Z) (n c : nat) :
  (forall k, (k < c)%nat -> length (col k) = n) ->
  length (concat (map col (seq 0 c))) = (c * n)%nat.
Proof.
  induction c as [|c IHc]; intros Hlen; [reflexivity|].
  rewrite seq_S, map_app, concat_app, length_app. cbn [map concat Nat.add].
  rewrite app_nil_r, IHc by (intros; apply Hlen; lia).
  rewrite Hlen by lia. lia.
Qed.

(** Block [q] of column [j] of a matrix with [n] blocks per column. *)
Lemma nth_concat_columns (col : nat -> list Z) (n c : nat) (j q : nat) :
  (forall k, (k < c)%nat -> length (col k) = n) ->
  (j < c)%nat -> (q < n)%nat ->
  nth (j * n + q) (concat (map col (seq 0 c))) 0 = nth q (col j) 0.
Proof.
  intros Hlen. revert j. induction c as [|c IH]; intros j Hj Hq; [lia|].
  rewrite seq_S, map_app, concat_app. cbn [map concat Nat.add].
  rewrite app_nil_r.
  assert (Hl : length (concat (map col (seq 0 c))) = (c * n)%nat)
    by (apply length_concat_columns; intros; apply Hlen; lia).
  destruct (decide (j = c)) as [->|Hne].
  - rewrite app_nth2 by (rewrite Hl; lia). rewrite Hl. f_equal. lia.
  - rewrite app_nth1 by (rewrite Hl; nia).
    apply IH; [intros; apply Hlen; lia|lia|assumption].
Qed.

Lemma Forall_concat_columns (P : Z -> Prop) (col : nat -> list Z) (c : nat) :
  (forall k, (k < c)%nat -> Forall P (col k)) ->
  Forall P (concat (map col (seq 0 c))).
Proof.
  induction c as [|c IHc]; intros HP; [constructor|].
  rewrite seq_S, map_app, concat_app. cbn [map concat Nat.add].
  rewrite app_nil_r. apply Forall_app. split.
  - apply IHc. intros; apply HP; lia.
  - apply HP. lia.
Qed.

(** Element [j] of what the base OT hands over. *)
Lemma nth_zip_with_choice (sel k0 k1 : list Z) (j : nat) :
  (j < length sel)%nat -> (j < length k0)%nat -> (j < length k1)%nat ->
  nth j (zip_with (fun (b : Z) (ks : Z * Z) =>
                     if decide (b = 0) then fst ks else snd ks)
                  sel (zip k0 k1)) 0
  = if decide (nth j sel 0 = 0) then nth j k0 0 else nth j k1 0.
Proof.
  intros Hs H0 H1.
  destruct (lookup_lt_is_Some_2 sel j Hs) as [x Hx].
  destruct (lookup_lt_is_Some_2 k0 j H0) as [y Hy].
  destruct (lookup_lt_is_Some_2 k1 j H1) as [z Hz].
  rewrite (nth_lookup_Some _ _ 0 _ Hx), (nth_lookup_Some _ _ 0 _ Hy),
    (nth_lookup_Some _ _ 0 _ Hz).
  apply nth_lookup_Some. apply lookup_zip_with_Some.
  exists x, (y, z). split; [reflexivity|]. split; [assumption|].
  now apply lookup_zip_Some.
Qed.

Lemma nth_zip_with_lxor (v w : list Z) (j : nat) :
  (j < length v)%nat -> (j < length w)%nat ->
  nth j (zip_with Z.lxor v w) 0 = Z.lxor (nth j v 0) (nth j w 0).
Proof.
  intros Hv Hw.
  destruct (lookup_lt_is_Some_2 v j Hv) as [x Hx].
  destruct (lookup_lt_is_Some_2 w j Hw) as [y Hy].
  rewrite (nth_lookup_Some _ _ 0 _ Hx), (nth_lookup_Some _ _ 0 _ Hy).
  apply nth_lookup_Some. apply lookup_zip_with_Some.
  exists x, y. auto.
Qed.

Lemma Forall_zip_with_lxor (v w : list Z) :
  Forall is_block v -> Forall is_block w ->
  Forall is_block (zip_with Z.lxor v w).
Proof.
  intros Hv. revert w. induction Hv as [|x v Hx Hv IH]; intros w Hw.
  - constructor.
  - destruct Hw as [|y w Hy Hw]; [constructor|].
    cbn [zip_with]. constructor; [now apply lxor_is_block|now apply IH].
Qed.

Lemma lxor_cancel_r (a b : Z) : Z.lxor (Z.lxor a b) b = a.
Proof. now rewrite Z.lxor_assoc, Z.lxor_nilpotent, Z.lxor_0_r. Qed.

Lemma lxor_cancel_l (a b : Z) : Z.lxor (Z.lxor a b) a = b.
Proof. now rewrite (Z.lxor_comm a b), lxor_cancel_r. Qed.

(** ** Steps of a joint run *)

Lemma joint_run_send {A B : Type} (f : nat) (m : msg) (k : proc A)
      (r : proc B) (to_r to_s : list msg) (tr : list (party * msg)) :
  joint_run (Datatypes.S f) (PSend m k) r to_r to_s tr
  = joint_run f k r (to_r ++ [m]) to_s (tr ++ [(Sender, m)]).
Proof. reflexivity. Qed.

Lemma joint_run_recv {A B : Type} (f : nat) (k : msg -> proc A)
      (r : proc B) (to_r : list msg) (m : msg) (q : list msg)
      (tr : list (party * msg)) :
  joint_run (Datatypes.S f) (PRecv k) r to_r (m :: q) tr
  = joint_run f (k m) r to_r q tr.
Proof. reflexivity. Qed.

Lemma joint_run_wait_send {A B : Type} (f : nat) (k : msg -> proc A)
      (m : msg) (r : proc B) (to_r : list msg) (tr : list (party * msg)) :
  joint_run (Datatypes.S f) (PRecv k) (PSend m r) to_r [] tr
  = joint_run f (PRecv k) r to_r [m] (tr ++ [(Receiver, m)]).
Proof. reflexivity. Qed.

Lemma joint_run_ret_recv {A B : Type} (f : nat) (a : A)
      (k : msg -> proc B) (m : msg) (q to_s : list msg)
      (tr : list (party * msg)) :
  joint_run (Datatypes.S f) (PRet a) (PRecv k) (m :: q) to_s tr
  = joint_run f (PRet a) (k m) q to_s tr.
Proof. reflexivity. Qed.

Lemma joint_run_ret_ret {A B : Type} (f : nat) (a : A) (b : B)
      (to_r to_s : list msg) (tr : list (party * msg)) :
  joint_run (Datatypes.S f) (PRet a) (PRet b) to_r to_s tr = Finished a b tr.
Proof. reflexivity. Qed.

Lemma joint_run_undef {A B : Type} (f : nat) (r : proc B)
      (to_r to_s : list msg) (tr : list (party * msg)) :
  joint_run (A := A) (Datatypes.S f) PUndef r to_r to_s tr
  = Stopped Sender UndefinedBehaviour tr.
Proof. reflexivity. Qed.

Lemma joint_run_fuel {A B : Type} (f : nat) (r : proc B)
      (to_r to_s : list msg) (tr : list (party * msg)) :
  joint_run (A := A) (Datatypes.S f) PFuel r to_r to_s tr
  = Stopped Sender NoFuel tr.
Proof. reflexivity. Qed.

(** Returning what a party returns changes nothing. *)
Lemma joint_run_pbind_ret {A B : Type} (f : nat) :
  forall (s : proc A) (r : proc B) (to_r to_s : list msg)
         (tr : list (party * msg)),
    joint_run f (pbind s PRet) (pbind r PRet) to_r to_s tr
    = joint_run f s r to_r to_s tr.
Proof.
  induction f as [|f IH]; intros s r to_r to_s tr; [reflexivity|].
  destruct s as [a|st| | |m k|k], r as [a'|st'| | |m' k'|k'];
    cbn [pbind joint_run]; try reflexivity;
    try (destruct to_s as [|x q]); try (destruct to_r as [|y q']);
    try reflexivity;
    try (apply (IH (PRet _)));
    try (apply (IH (PExit _)));
    try (apply (IH PUndef));
    try (apply (IH PFuel));
    try (apply (IH (PSend _ _)));
    try (apply (IH (PRecv _)));
    try (apply (IH _ (PRet _)));
    try (apply (IH _ (PExit _)));
    try (apply (IH _ PUndef));
    try (apply (IH _ PFuel));
    try (apply (IH _ (PSend _ _)));
    try (apply (IH _ (PRecv _))).
Qed.

(** A run that ends keeps its result with more fuel. *)
Lemma joint_run_more_fuel {A B : Type} (f : nat) :
  forall (s : proc A) (r : proc B) (to_r to_s : list msg)
         (tr : list (party * msg)) (res : joint A B),
    joint_run f s r to_r to_s tr = res -> res <> JointNoFuel ->
    joint_run (Datatypes.S f) s r to_r to_s tr = res.
Proof.
  induction f as [|f IH]; intros s r to_r to_s tr res Hrun Hres.
  - cbn in Hrun. congruence.
  - revert Hrun.
    destruct s as [a|st| | |m k|k], r as [a'|st'| | |m' k'|k'];
      cbn [joint_run]; try (intros <-; reflexivity);
      try (destruct to_s as [|x q]); try (destruct to_r as [|y q']);
      try (intros <-; reflexivity);
      intros Hrun; apply IH in Hrun; try assumption; exact Hrun.
Qed.

Lemma joint_run_add_fuel {A B : Type} (k f : nat) (s : proc A) (r : proc B)
      (to_r to_s : list msg) (tr : list (party * msg)) (res : joint A B) :
  joint_run f s r to_r to_s tr = res -> res <> JointNoFuel ->
  joint_run (k + f) s r to_r to_s tr = res.
Proof.
  intros Hrun Hres. induction k as [|k IH]; [exact Hrun|].
  cbn [Nat.add]. now apply joint_run_more_fuel.
Qed.

(** ** Loops counted by an [int] *)

Lemma for_int_small {S : Type} (n : Z) (body : Z -> S -> outcome S) (s : S) :
  n <= INT_MAX -> for_int n body s = for_n n body s.
Proof. intros Hn. unfold for_int. now rewrite decide_True. Qed.

Lemma for_int_large {S : Type} (n : Z) (body : Z -> S -> outcome S) (s : S) :
  INT_MAX < n -> returns (for_int n body s) = false.
Proof.
  intros Hn. unfold for_int. rewrite decide_False by lia.
  now destruct (for_n (INT_MAX + 1) body s).
Qed.

Lemma list_eq_nth (v w : list Z) :
  length v = length w ->
  (forall i, (i < length v)%nat -> nth i v 0 = nth i w 0) -> v = w.
Proof.
  intros Hl Hn. apply (nth_ext v w 0 0 Hl). exact Hn.
Qed.

(** [XOR] of at most [INT_MAX] blocks with a vector that is not
    shorter. *)
Lemma XOR_Done (vec_a vec_b : list Z) :
  (length vec_a <= length vec_b)%nat ->
  Z.of_nat (length vec_a) <= INT_MAX ->
  Block.XOR vec_a vec_b = Done (zip_with Z.lxor vec_a vec_b).
Proof.
  intros Hlen Hint. unfold Block.XOR. rewrite for_int_small by assumption.
  destruct (for_n_update
              (fun i vec_result =>
                 do a <- load vec_a i;
                 do b <- load vec_b i;
                 store vec_result i (Z.lxor a b))
              (fun i => Z.lxor (nth (Z.to_nat i) vec_a 0)
                               (nth (Z.to_nat i) vec_b 0))
              (Z.of_nat (length vec_a))
              (replicate (Z.to_nat (Z.of_nat (length vec_a))) Block.zero_block))
    as (v' & Hrun & Hl & Hv).
  - lia.
  - rewrite length_replicate. lia.
  - intros i v Hi Hv. cbn beta.
    rewrite !load_nth by lia. cbn [obind].
    now rewrite store_Done by lia.
  - rewrite Hrun. f_equal. apply list_eq_nth.
    + rewrite length_zip_with. lia.
    + intros i Hi.
      rewrite nth_zip_with_lxor by lia.
      rewrite <- (Nat2Z.id i). apply Hv. lia.
Qed.

Lemma FixXOR_Done (vec_a : list Z) (b : Z) :
  Z.of_nat (length vec_a) <= INT_MAX ->
  Block.FixXOR vec_a b = Done (map (fun a => Z.lxor a b) vec_a).
Proof.
  intros Hint. unfold Block.FixXOR. rewrite for_int_small by assumption.
  destruct (for_n_update
              (fun i vec_result =>
                 do a <- load vec_a i;
                 store vec_result i (Z.lxor a b))
              (fun i => Z.lxor (nth (Z.to_nat i) vec_a 0) b)
              (Z.of_nat (length vec_a))
              (replicate (Z.to_nat (Z.of_nat (length vec_a))) Block.zero_block))
    as (v' & Hrun & Hl & Hv).
  - lia.
  - rewrite length_replicate. lia.
  - intros i v Hi Hv. cbn beta.
    rewrite !load_nth by lia. cbn [obind].
    now rewrite store_Done by lia.
  - rewrite Hrun. f_equal. apply list_eq_nth.
    + rewrite length_map. lia.
    + intros i Hi.
      rewrite <- (Nat2Z.id i) at 1. rewrite Hv by lia. rewrite Nat2Z.id.
      rewrite (nth_indep (map (fun a => Z.lxor a b) vec_a) 0 (Z.lxor 0 b))
        by (rewrite length_map; lia).
      now rewrite (map_nth (fun a => Z.lxor a b)).
Qed.

(** ** The packing of sparse bits *)

Lemma sparse_block_testbit (bits : list Z) :
  forall j, 0 <= j ->
    Z.testbit (Block.sparse_block bits) j
    = bool_decide (nth (Z.to_nat j) bits 0 = 1).
Proof.
  induction bits as [|b r IH]; intros j Hj.
  - cbn [Block.sparse_block]. rewrite Z.bits_0. now destruct (Z.to_nat j).
  - cbn [Block.sparse_block].
    replace ((if decide (b = 1) then 1 else 0) + 2 * Block.sparse_block r)
      with (2 * Block.sparse_block r + Z.b2z (bool_decide (b = 1)))
      by (rewrite Z.add_comm; f_equal; unfold bool_decide;
          destruct (decide_rel eq b 1), (decide (b = 1)); try reflexivity;
          contradiction).
    destruct (decide (j = 0)) as [->|Hne].
    + now rewrite Z.testbit_0_r.
    + replace j with (Z.succ (j - 1)) at 1 by lia.
      rewrite Z.testbit_succ_r by lia. rewrite IH by lia.
      replace (Z.to_nat j) with (Datatypes.S (Z.to_nat (j - 1))) by lia.
      reflexivity.
Qed.

Lemma sparse_block_range (bits : list Z) :
  0 <= Block.sparse_block bits < 2 ^ Z.of_nat (length bits).
Proof.
  induction bits as [|b r IH].
  - cbn. lia.
  - cbn [Block.sparse_block length]. rewrite Nat2Z.inj_succ, Z.pow_succ_r by lia.
    destruct (decide (b = 1)); lia.
Qed.

Lemma FromSparseBytes_length (byte_data block_data : list Z) (L n : Z) :
  0 <= n -> Z.of_nat (length block_data) = n ->
  Z.of_nat (length (Block.FromSparseBytes byte_data L block_data n)) = n.
Proof.
  intros Hn Hl. unfold Block.FromSparseBytes.
  rewrite length_app, length_map, length_seq, length_drop. lia.
Qed.

Lemma FromSparseBytes_nth (byte_data block_data : list Z) (L n : Z) (i : nat) :
  Z.of_nat i < n ->
  nth i (Block.FromSparseBytes byte_data L block_data n) 0
  = Block.sparse_block (take 128 (drop (128 * i) byte_data)).
Proof.
  intros Hi. unfold Block.FromSparseBytes.
  rewrite app_nth1 by (rewrite length_map, length_seq; lia).
  rewrite (nth_indep _ 0 (Block.sparse_block (take 128 (drop (128 * 0) byte_data))))
    by (rewrite length_map, length_seq; lia).
  rewrite (map_nth (fun i : nat =>
                      Block.sparse_block (take 128 (drop (128 * i) byte_data)))).
  rewrite seq_nth by lia. reflexivity.
Qed.

Lemma FromSparseBytes_block (byte_data block_data : list Z) (L n : Z) :
  Forall is_block block_data ->
  Forall is_block (Block.FromSparseBytes byte_data L block_data n).
Proof.
  intros Hb. unfold Block.FromSparseBytes. apply Forall_app. split.
  - apply Forall_map, Forall_forall. intros i _. unfold is_block.
    pose proof (sparse_block_range (take 128 (drop (128 * i) byte_data))) as Hr.
    assert (Hl : (length (take 128 (drop (128 * i) byte_data)) <= 128)%nat)
      by (rewrite length_take; lia).
    assert (2 ^ Z.of_nat (length (take 128 (drop (128 * i) byte_data)))
            <= 2 ^ 128) by (apply Z.pow_le_mono_r; lia).
    lia.
  - now apply Forall_drop.
Qed.

(** The packed bits in the order of [getbit]: position [p] of the byte
    image holds the sparse byte [bitpos p], the one with the same byte and
    the other bit order. *)
Lemma FromSparseBytes_getbit (byte_data block_data : list Z) (L n p : Z) :
  0 <= n -> Z.of_nat (length block_data) = n ->
  Forall is_block block_data ->
  0 <= p < 128 * n ->
  getbit (bytes_of_blocks (Block.FromSparseBytes byte_data L block_data n)) p
  = bool_decide (nth (Z.to_nat (bitpos p)) byte_data 0 = 1).
Proof.
  intros Hn Hl Hb Hp.
  pose proof (FromSparseBytes_length byte_data block_data L n Hn Hl) as Hlen.
  rewrite getbit_bytes_of_blocks
    by (try (apply FromSparseBytes_block; assumption); lia).
  assert (Hq : 0 <= p / 128 < n) by (Z.div_mod_to_equations; lia).
  assert (Hm : 0 <= p mod 128 < 128) by (apply Z.mod_pos_bound; lia).
  pose proof (bitpos_range (p mod 128) Hm) as Hbp.
  rewrite FromSparseBytes_nth by lia.
  rewrite sparse_block_testbit by lia.
  rewrite !nth_lookup.
  rewrite lookup_take_lt by lia.
  rewrite lookup_drop.
  assert (Heq : bitpos p = 128 * (p / 128) + bitpos (p mod 128))
    by (unfold bitpos; Z.div_mod_to_equations; lia).
  rewrite Heq.
  replace (Z.to_nat (128 * (p / 128) + bitpos (p mod 128)))
    with (128 * Z.to_nat (p / 128) + Z.to_nat (bitpos (p mod 128)))%nat
    by lia.
  reflexivity.
Qed.

Lemma lxor_7 (p : Z) : 0 <= p -> Z.lxor p 7 = bitpos p.
Proof.
  intros Hp. unfold bitpos.
  apply Z.bits_inj'. intros k Hk.
  rewrite Z.lxor_spec.
  assert (Hsplit : p = 8 * (p / 8) + p mod 8) by (apply Z.div_mod; lia).
  assert (Hr : 0 <= p mod 8 < 8) by (apply Z.mod_pos_bound; lia).
  destruct (Z.lt_ge_cases k 3) as [Hlt|Hge].
  - (* the three low bits are complemented *)
    rewrite <- (Z.mod_pow2_bits_low p 3 k) by lia.
    rewrite <- (Z.mod_pow2_bits_low (8 * (p / 8) + (7 - p mod 8)) 3 k) by lia.
    change (2 ^ 3) with 8.
    replace ((8 * (p / 8) + (7 - p mod 8)) mod 8) with (7 - p mod 8)
      by (rewrite Z.add_comm, Z.mul_comm, Z.mod_add by lia;
          symmetry; apply Z.mod_small; lia).
    assert (Hcases : p mod 8 = 0 \/ p mod 8 = 1 \/ p mod 8 = 2 \/ p mod 8 = 3
                     \/ p mod 8 = 4 \/ p mod 8 = 5 \/ p mod 8 = 6
                     \/ p mod 8 = 7) by lia.
    assert (Hk3 : k = 0 \/ k = 1 \/ k = 2) by lia.
    destruct Hk3 as [->|[->| ->]];
      repeat (destruct Hcases as [->|Hcases]); try rewrite Hcases;
      reflexivity.
  - (* the others are those of [p] *)
    replace (Z.testbit 7 k) with false
      by (symmetry; apply (Z.bits_above_log2 7 k); [lia|];
          change (Z.log2 7) with 2; lia).
    rewrite xorb_false_r.
    replace k with (k - 3 + 3) by lia.
    rewrite <- !Z.div_pow2_bits by lia. change (2 ^ 3) with 8.
    f_equal.
    rewrite Z.add_comm, Z.mul_comm, Z.div_add by lia.
    rewrite (Z.div_small (7 - p mod 8)) by lia. lia.
Qed.

(** ** ALSZ OT extension *)

Section OTE_properties.

Variable Seed : Type.
Variable GenRandomBits : Seed -> Z -> list Z * Seed.
Variable GenRandomBlocks : Seed -> Z -> list Z * Seed.
Variable ReSeed : Seed -> Z -> Z -> Seed.
Variable BlocksToBlock : list Z -> Z.
Variable AND : list Z -> list Z -> list Z.
Variable tmp : list Z.

Hypothesis GenRandomBits_length : forall seed n,
  0 <= n -> Z.of_nat (length (fst (GenRandomBits seed n))) = n.
Hypothesis GenRandomBits_bit : forall seed n,
  Forall is_bit (fst (GenRandomBits seed n)).
Hypothesis GenRandomBlocks_length : forall seed n,
  0 <= n -> Z.of_nat (length (fst (GenRandomBlocks seed n))) = n.
Hypothesis GenRandomBlocks_block : forall seed n,
  Forall is_block (fst (GenRandomBlocks seed n)).
Hypothesis ReSeed_fresh : forall seed seed' key,
  ReSeed seed key 0 = ReSeed seed' key 0.
Hypothesis AND_spec : forall vec_a vec_b,
  AND vec_a vec_b = zip_with Z.land vec_a vec_b.
Hypothesis tmp_length : length tmp = 16%nat.
Hypothesis tmp_bytes : Forall is_byte tmp.

(** The protocol with the packing of the selection bits that the
    specification describes. *)
Local Abbreviation PrepareSend :=
  (ALSZOTE.PrepareSend Seed GenRandomBits GenRandomBlocks ReSeed
                       BlocksToBlock Block.FromSparseBytes AND tmp).
Local Abbreviation PrepareReceive :=
  (ALSZOTE.PrepareReceive Seed GenRandomBlocks ReSeed
                          BlocksToBlock Block.FromSparseBytes tmp).
Local Abbreviation Send :=
  (ALSZOTE.Send Seed GenRandomBits GenRandomBlocks ReSeed
                BlocksToBlock Block.FromSparseBytes AND tmp).
Local Abbreviation Receive :=
  (ALSZOTE.Receive Seed GenRandomBlocks ReSeed
                   BlocksToBlock Block.FromSparseBytes tmp).

Variable pp : ALSZOTE.PP.
Hypothesis pp_BASE_LEN : ALSZOTE.BASE_LEN pp = 128.

Variables (R n : Z).
Hypothesis HR : R = 128 * n.
Hypothesis Hn : 1 <= n.

Variable b : list Z.
Hypothesis b_length : Z.of_nat (length b) = R.
Hypothesis b_bit : Forall is_bit b.

Variables (seedS seedR : Seed).

Lemma R_div : R / 128 = n.
Proof. rewrite HR, Z.mul_comm. apply Z.div_mul. lia. Qed.

Lemma R_mod : R mod 128 = 0.
Proof. rewrite HR, Z.mul_comm. apply Z.mod_mul. lia. Qed.

(** The values of a run: the sender's bits [s], the receiver's column
    seeds, the packed selection vectors, and the matrices [T], [P], [Q]
    by columns. *)
Let sbits : list Z := fst (GenRandomBits seedS 128).
Let T_seed : list Z := fst (GenRandomBlocks seedR 128).
Let U_seed : list Z :=
  fst (GenRandomBlocks (snd (GenRandomBlocks seedR 128)) 128).
Let rblock : list Z := Block.FromSparseBytes b R (ALSZOTE.blocks n) n.
Let sblock : list Z := Block.FromSparseBytes sbits 128 (ALSZOTE.blocks 1) 1.
Let expand (key : Z) : list Z := fst (GenRandomBlocks (ReSeed seedR key 0) n).
Let Tcol (j : nat) : list Z := expand (nth j T_seed 0).
Let Ucol (j : nat) : list Z := expand (nth j U_seed 0).
Let Pcol (j : nat) : list Z :=
  zip_with Z.lxor (zip_with Z.lxor (Tcol j) (Ucol j)) rblock.
Let Qcol (j : nat) : list Z :=
  if decide (nth j sbits 0 = 0) then Tcol j else Ucol j.
Let matrix (col : nat -> list Z) : list Z := concat (map col (seq 0 128)).

(** Bit [i] of the columns [j] of [T] and of [U]. *)
Let tbit (j i : Z) : bool :=
  Z.testbit (nth (Z.to_nat (i / 128)) (Tcol (Z.to_nat j)) 0)
            (bitpos (i mod 128)).
Let ubit (j i : Z) : bool :=
  Z.testbit (nth (Z.to_nat (i / 128)) (Ucol (Z.to_nat j)) 0)
            (bitpos (i mod 128)).

Lemma sbits_length : Z.of_nat (length sbits) = 128.
Proof. apply GenRandomBits_length. lia. Qed.

Lemma T_seed_length : Z.of_nat (length T_seed) = 128.
Proof. apply GenRandomBlocks_length. lia. Qed.

Lemma U_seed_length : Z.of_nat (length U_seed) = 128.
Proof. apply GenRandomBlocks_length. lia. Qed.

Lemma expand_length (key : Z) : Z.of_nat (length (expand key)) = n.
Proof. apply GenRandomBlocks_length. lia. Qed.

Lemma expand_block (key : Z) : Forall is_block (expand key).
Proof. apply GenRandomBlocks_block. Qed.

Lemma expand_fresh (seed : Seed) (key : Z) :
  fst (GenRandomBlocks (ReSeed seed key 0) n) = expand key.
Proof. unfold expand. now rewrite (ReSeed_fresh seed seedR). Qed.

(** The packed selection bits, read in the bit order of
    [BitMatrixTranspose]: position [p] holds the bit [bitpos p], which is
    [p xor 7]. *)
Lemma rblock_spec :
  Z.of_nat (length rblock) = n /\ Forall is_block rblock
  /\ forall p, 0 <= p < R ->
       getbit (bytes_of_blocks rblock) p
       = bool_decide (nth (Z.to_nat (bitpos p)) b 0 = 1).
Proof.
  unfold rblock.
  assert (Hl : Z.of_nat (length (ALSZOTE.blocks n)) = n)
    by (rewrite length_blocks; lia).
  split; [apply FromSparseBytes_length; [lia|exact Hl]|].
  split; [apply FromSparseBytes_block, blocks_is_block|].
  intros p Hp. apply FromSparseBytes_getbit;
    [lia|exact Hl|apply blocks_is_block|lia].
Qed.

Lemma sblock_spec :
  Z.of_nat (length sblock) = 1 /\ Forall is_block sblock
  /\ forall p, 0 <= p < 128 ->
       getbit (bytes_of_blocks sblock) p
       = bool_decide (nth (Z.to_nat (bitpos p)) sbits 0 = 1).
Proof.
  unfold sblock.
  assert (Hl : Z.of_nat (length (ALSZOTE.blocks 1)) = 1) by reflexivity.
  split; [apply FromSparseBytes_length; [lia|exact Hl]|].
  split; [apply FromSparseBytes_block, blocks_is_block|].
  intros p Hp. apply FromSparseBytes_getbit;
    [lia|exact Hl|apply blocks_is_block|lia].
Qed.

Lemma Pcol_length (j : nat) : Z.of_nat (length (Pcol j)) = n.
Proof.
  unfold Pcol, Tcol, Ucol. rewrite !length_zip_with.
  pose proof (expand_length (nth j T_seed 0)).
  pose proof (expand_length (nth j U_seed 0)).
  destruct rblock_spec as (Hl & _). lia.
Qed.

Lemma Pcol_block (j : nat) : Forall is_block (Pcol j).
Proof.
  unfold Pcol. apply Forall_zip_with_lxor; [|apply rblock_spec].
  apply Forall_zip_with_lxor; apply expand_block.
Qed.

Lemma first_steps {A B : Type} (vec_K0 vec_K1 vec_K : list Z)
      (ks : list Z * list Z -> proc A) (kr : list Z -> proc B) (f : nat) :
  Z.of_nat (length vec_K0) = R -> Z.of_nat (length vec_K1) = R ->
  Z.of_nat (length vec_K) = R ->
  n <= INT_MAX ->
  exists (sender_keys : list Z -> list Z -> outcome (list Z * list Z))
         (receiver_keys : outcome (list Z)) (tr : list (party * msg)),
    joint_run (6 + f) (pbind (PrepareSend pp vec_K0 vec_K1 R seedS) ks)
              (pbind (PrepareReceive pp vec_K b R seedR) kr) [] [] []
    = joint_run f
        (pbind (pbind (lift (ALSZOTE.BitMatrixTranspose_blocks tmp
                               (matrix Qcol) 128 R (ALSZOTE.blocks (n * 128))))
                      (fun Q_transpose =>
                         ReceiveBlocks (n * 128) (fun P =>
                           lift (sender_keys Q_transpose P)))) ks)
        (PSend (Blocks (matrix Pcol)) (pbind (lift receiver_keys) kr))
        [] [] tr
    /\ (forall Qt P Pt,
          ALSZOTE.BitMatrixTranspose_blocks tmp P 128 R
            (ALSZOTE.blocks (n * 128)) = Done Pt ->
          Z.of_nat (length Qt) = R -> Z.of_nat (length Pt) = R ->
          Forall is_block Qt -> Forall is_block Pt -> R <= 2 ^ 24 ->
          exists K0 K1,
            sender_keys Qt P = Done (K0, K1)
            /\ Z.of_nat (length K0) = R /\ Z.of_nat (length K1) = R
            /\ forall i, 0 <= i < R ->
                 let q := Z.lxor (nth (Z.to_nat i) Qt 0)
                                 (Z.land (nth 0 sblock 0)
                                         (nth (Z.to_nat i) Pt 0)) in
                 nth (Z.to_nat i) K0 0 = BlocksToBlock [q]
                 /\ nth (Z.to_nat i) K1 0
                    = BlocksToBlock [Z.lxor q (nth 0 sblock 0)])
    /\ (forall Tt,
          ALSZOTE.BitMatrixTranspose_blocks tmp (matrix Tcol) 128 R
            (ALSZOTE.blocks (n * 128)) = Done Tt ->
          Z.of_nat (length Tt) = R -> Forall is_block Tt -> R <= 2 ^ 24 ->
          exists K,
            receiver_keys = Done K
            /\ Z.of_nat (length K) = R
            /\ forall i, 0 <= i < R ->
                 nth (Z.to_nat i) K 0
                 = BlocksToBlock [nth (Z.to_nat i) Tt 0]).
Proof.
  intros vec_K0_length vec_K1_length vec_K_length Hnint.
  unfold ALSZOTE.PrepareSend, ALSZOTE.PrepareReceive, ALSZOTE.CheckParameters.
  rewrite pp_BASE_LEN, R_div.
  rewrite !(decide_False (P := R mod 128 <> 0 \/ 128 mod 128 <> 0))
    by (rewrite R_mod; intros [H|H]; apply H; reflexivity).
  rewrite (surjective_pairing (GenRandomBits seedS 128)).
  rewrite (surjective_pairing (GenRandomBlocks seedR 128)).
  rewrite (surjective_pairing (GenRandomBlocks (snd (GenRandomBlocks seedR 128)) 128)).
  fold sbits T_seed U_seed. change (128 / 128) with 1. change (128 / 8) with 16.
  fold rblock sblock.
  match goal with
  | |- context [for_n 128 ?body ([], [], [], ?s)] =>
      destruct (for_n_append3 body Tcol Tcol Pcol 128 s) as (seedR' & Hloop)
  end.
  { intros j T U P s Hj. cbn beta iota.
    rewrite load_nth by (rewrite T_seed_length; lia). cbn [obind].
    rewrite Nat2Z.id.
    rewrite (surjective_pairing (GenRandomBlocks (ReSeed s (nth j T_seed 0) 0) n)).
    rewrite expand_fresh.
    rewrite load_nth by (rewrite U_seed_length; lia). cbn [obind].
    rewrite Nat2Z.id.
    match goal with
    | |- context [GenRandomBlocks (ReSeed ?s1 (nth j U_seed 0) 0) n] =>
        rewrite (surjective_pairing (GenRandomBlocks (ReSeed s1 (nth j U_seed 0) 0) n));
        rewrite (expand_fresh s1)
    end.
    fold (Tcol j) (Ucol j).
    pose proof (expand_length (nth j T_seed 0)) as HlT.
    pose proof (expand_length (nth j U_seed 0)) as HlU.
    fold (Tcol j) in HlT. fold (Ucol j) in HlU.
    destruct rblock_spec as (Hlr & _).
    rewrite XOR_Done by lia. cbn [obind].
    rewrite XOR_Done by (rewrite length_zip_with; lia). cbn [obind].
    fold (Pcol j). eexists. reflexivity. }
  rewrite Hloop. clear Hloop. cbn [lift pbind].
  change (Z.to_nat 128) with 128%nat. fold (matrix Tcol) (matrix Pcol).
  rewrite (surjective_pairing (GenRandomBlocks seedR' 128)).
  rewrite (surjective_pairing (GenRandomBlocks (snd (GenRandomBlocks seedR' 128)) 128)).
  set (K0i := fst (GenRandomBlocks seedR' 128)).
  set (K1i := fst (GenRandomBlocks (snd (GenRandomBlocks seedR' 128)) 128)).
  assert (HK0i : Z.of_nat (length K0i) = 128)
    by (apply GenRandomBlocks_length; lia).
  assert (HK1i : Z.of_nat (length K1i) = 128)
    by (apply GenRandomBlocks_length; lia).
  pose proof T_seed_length as HTs. pose proof U_seed_length as HUs.
  pose proof sbits_length as Hsb.
  unfold NPOT.Send. rewrite decide_True by lia.
  rewrite !take_all_Z by assumption.
  match goal with
  | |- context [for_n 128 ?body (ALSZOTE.blocks 128, ALSZOTE.blocks 128)] =>
      destruct (for_n_update2 body
                  (fun j => Z.lxor (nth (Z.to_nat j) K0i 0) (nth (Z.to_nat j) T_seed 0))
                  (fun j => Z.lxor (nth (Z.to_nat j) K1i 0) (nth (Z.to_nat j) U_seed 0))
                  128 (ALSZOTE.blocks 128) (ALSZOTE.blocks 128))
        as (C0 & C1 & HC & HlC0 & HlC1 & HCs)
  end.
  { lia. }
  { now rewrite length_blocks. }
  { now rewrite length_blocks. }
  { intros i v w Hi Hv Hw. cbn beta iota.
    rewrite !load_nth by lia. cbn [obind].
    rewrite store_Done by lia. cbn [obind].
    rewrite store_Done by lia. reflexivity. }
  rewrite HC. clear HC. cbn [lift pbind fst snd].
  unfold SendBlocks.
  assert (HlP : Z.of_nat (length (matrix Pcol)) = n * 128).
  { unfold matrix.
    rewrite (length_concat_columns Pcol (Z.to_nat n) 128).
    - lia.
    - intros k _. pose proof (Pcol_length k). lia. }
  rewrite !decide_True by lia.
  rewrite !take_all_Z by assumption.
  unfold NPOT.Receive, ReceiveBlocks.
  change (6 + f)%nat
    with (Datatypes.S (Datatypes.S (Datatypes.S (Datatypes.S
           (Datatypes.S (Datatypes.S f)))))).
  cbn [pbind].
  rewrite joint_run_wait_send, joint_run_recv. cbn beta iota.
  rewrite decide_True by lia. cbn [pbind app].
  rewrite joint_run_wait_send, joint_run_recv. cbn beta iota.
  rewrite decide_True by lia. cbn [pbind app].
  rewrite joint_run_wait_send, joint_run_recv. cbn beta iota.
  rewrite decide_True by lia. cbn [app].
  rewrite !take_all_Z by assumption.
  set (qseed := fun j : Z =>
         if decide (nth (Z.to_nat j) sbits 0 = 0)
         then nth (Z.to_nat j) T_seed 0 else nth (Z.to_nat j) U_seed 0).
  match goal with
  | |- context [for_n 128 ?body (ALSZOTE.blocks 128)] =>
      destruct (for_n_update body qseed 128 (ALSZOTE.blocks 128))
        as (vQ & HvQ & HlvQ & HvQs)
  end.
  { lia. }
  { now rewrite length_blocks. }
  { intros i v Hi Hv. cbn beta.
    rewrite load_nth by lia. cbn [obind].
    rewrite load_nth
      by (rewrite length_zip_with, length_zip_with; lia).
    cbn [obind].
    rewrite nth_zip_with_choice by lia.
    destruct (HCs i Hi) as [HC0 HC1]. unfold qseed.
    destruct (decide (nth (Z.to_nat i) sbits 0 = 0)).
    - rewrite load_nth by lia. cbn [obind].
      rewrite HC0, lxor_cancel_l. now rewrite store_Done by lia.
    - rewrite load_nth by lia. cbn [obind].
      rewrite HC1, lxor_cancel_l. now rewrite store_Done by lia. }
  rewrite HvQ. clear HvQ. cbn [obind].
  match goal with
  | |- context [for_n 128 ?body ([], ?s)] =>
      destruct (for_n_append body (fun j => expand (nth j vQ 0)) 128 s)
        as (seedS' & HQ)
  end.
  { intros j M s Hj. cbn beta iota.
    rewrite load_nth by lia. cbn [obind]. rewrite Nat2Z.id.
    rewrite (surjective_pairing (GenRandomBlocks (ReSeed s (nth j vQ 0) 0) n)).
    rewrite expand_fresh. eexists. reflexivity. }
  rewrite HQ. clear HQ. cbn [obind fst].
  change (Z.to_nat 128) with 128%nat.
  assert (HQm : concat (map (fun j => expand (nth j vQ 0)) (seq 0 128))
                = matrix Qcol).
  { unfold matrix. f_equal. apply map_ext_in. intros j Hj.
    apply in_seq in Hj.
    pose proof (HvQs (Z.of_nat j) ltac:(lia)) as Hq.
    rewrite Nat2Z.id in Hq. rewrite Hq. unfold qseed, Qcol, Tcol, Ucol.
    rewrite Nat2Z.id. now destruct (decide _). }
  rewrite HQm. clear HQm.
  eexists _, _, _. split; [reflexivity|]. split.
  - intros Qt P Pt HPt HlQt HlPt HbQt HbPt HR24.
    rewrite HPt. cbn [obind].
    destruct sblock_spec as (Hls & Hbs & _).
    assert (Hs1 : sblock = [nth 0 sblock 0]).
    { destruct sblock as [|s0 [|s1 rest]]; cbn in Hls; try lia. reflexivity. }
    match goal with
    | |- context [for_n R ?body (vec_K0, vec_K1)] =>
        destruct (for_n_update2 body
          (fun i => BlocksToBlock
                      [Z.lxor (nth (Z.to_nat i) Qt 0)
                              (Z.land (nth 0 sblock 0) (nth (Z.to_nat i) Pt 0))])
          (fun i => BlocksToBlock
                      [Z.lxor (Z.lxor (nth (Z.to_nat i) Qt 0)
                                 (Z.land (nth 0 sblock 0) (nth (Z.to_nat i) Pt 0)))
                              (nth 0 sblock 0)])
          R vec_K0 vec_K1) as (K0 & K1 & HK & HlK0 & HlK1 & HKs)
    end; try assumption; try lia.
    { intros i v w Hi Hv Hw. cbn beta iota.
      rewrite !memcpy_blocks_row by (assumption || lia). cbn [obind].
      rewrite AND_spec, Hs1. cbn [zip_with].
      rewrite XOR_Done by (cbn [length]; unfold INT_MAX; lia).
      cbn [obind zip_with].
      rewrite store_Done by lia. cbn [obind].
      rewrite XOR_Done by (cbn [length]; unfold INT_MAX; lia).
      cbn [obind zip_with].
      rewrite store_Done by lia. cbn [obind nth].
      reflexivity. }
    exists K0, K1. split; [exact HK|]. split; [assumption|].
    split; [assumption|]. intros i Hi. cbn zeta. now apply HKs.
  - intros Tt HTt HlTt HbTt HR24. rewrite HTt. cbn [obind].
    match goal with
    | |- context [for_n R ?body vec_K] =>
        destruct (for_n_update body
          (fun i => BlocksToBlock [nth (Z.to_nat i) Tt 0]) R vec_K)
          as (K & HK & HlK & HKs)
    end; try assumption; try lia.
    { intros i v Hi Hv. cbn beta.
      rewrite memcpy_blocks_row by (assumption || lia). cbn [obind].
      now rewrite store_Done by lia. }
    exists K. auto.
Qed.

Lemma nth_is_block (v : list Z) (i : nat) :
  Forall is_block v -> is_block (nth i v 0).
Proof.
  intros Hv. destruct (nth_in_or_default i v 0) as [Hin| ->].
  - rewrite Forall_forall in Hv. now apply Hv, list_elem_of_In.
  - unfold is_block. lia.
Qed.

Lemma nth_is_bit (v : list Z) (i : nat) :
  Forall is_bit v -> is_bit (nth i v 0).
Proof.
  intros Hv. destruct (nth_in_or_default i v 0) as [Hin| ->].
  - rewrite Forall_forall in Hv. now apply Hv, list_elem_of_In.
  - now left.
Qed.

Lemma Qcol_length (j : nat) : Z.of_nat (length (Qcol j)) = n.
Proof. unfold Qcol, Tcol, Ucol. destruct (decide _); apply expand_length. Qed.

Lemma Qcol_block (j : nat) : Forall is_block (Qcol j).
Proof. unfold Qcol, Tcol, Ucol. destruct (decide _); apply expand_block. Qed.

Lemma matrix_length (col : nat -> list Z) :
  (forall j, Z.of_nat (length (col j)) = n) ->
  Z.of_nat (length (matrix col)) = R.
Proof.
  intros Hcol. unfold matrix.
  rewrite (length_concat_columns col (Z.to_nat n) 128).
  - lia.
  - intros k _. pose proof (Hcol k). lia.
Qed.

Lemma matrix_block (col : nat -> list Z) :
  (forall j, Forall is_block (col j)) -> Forall is_block (matrix col).
Proof. intros Hcol. apply Forall_concat_columns. auto. Qed.

(** Bit [i] of column [j] of a matrix given by columns. *)
Lemma matrix_bit (col : nat -> list Z) (i j : Z) :
  (forall j, Z.of_nat (length (col j)) = n) ->
  0 <= i < R -> 0 <= j < 128 ->
  nth (Z.to_nat (j * n + i / 128)) (matrix col) 0
  = nth (Z.to_nat (i / 128)) (col (Z.to_nat j)) 0.
Proof.
  intros Hcol Hi Hj. unfold matrix.
  assert (Hq : 0 <= i / 128 < n) by (Z.div_mod_to_equations; lia).
  replace (Z.to_nat (j * n + i / 128))
    with (Z.to_nat j * Z.to_nat n + Z.to_nat (i / 128))%nat by nia.
  apply nth_concat_columns; [|lia|lia].
  intros k _. pose proof (Hcol k). lia.
Qed.

(** The bit of the packed [s] at the place of column [j] is the choice
    bit [bitpos j], that is [j xor 7]. *)
Lemma sblock_bit (j : Z) :
  0 <= j < 128 ->
  Z.testbit (nth 0 sblock 0) (bitpos j)
  = bool_decide (nth (Z.to_nat (bitpos j)) sbits 0 = 1).
Proof.
  intros Hj. destruct sblock_spec as (Hls & Hbs & Hsbit).
  rewrite <- Hsbit by lia.
  rewrite getbit_bytes_of_blocks by (assumption || lia).
  rewrite Z.div_small, Z.mod_small by lia. reflexivity.
Qed.

(** The bits of the rows [i] after the transpositions: the receiver's
    row has the bits of [T]; the sender's row has in column [j] the bit of
    [T] or of [U] by the choice bit [s[j]], corrected with the bit of [P]
    where the packed [s] has a one. *)
Lemma row_bits (Tt Qt Pt : list Z) (i j : Z) :
  (forall j, 0 <= j < 128 ->
     Z.testbit (nth (Z.to_nat i) Tt 0) (bitpos j)
     = Z.testbit (nth (Z.to_nat (j * n + i / 128)) (matrix Tcol) 0)
                 (bitpos (i mod 128))) ->
  (forall j, 0 <= j < 128 ->
     Z.testbit (nth (Z.to_nat i) Qt 0) (bitpos j)
     = Z.testbit (nth (Z.to_nat (j * n + i / 128)) (matrix Qcol) 0)
                 (bitpos (i mod 128))) ->
  (forall j, 0 <= j < 128 ->
     Z.testbit (nth (Z.to_nat i) Pt 0) (bitpos j)
     = Z.testbit (nth (Z.to_nat (j * n + i / 128)) (matrix Pcol) 0)
                 (bitpos (i mod 128))) ->
  0 <= i < R -> 0 <= j < 128 ->
  Z.testbit (nth (Z.to_nat i) Tt 0) (bitpos j) = tbit j i
  /\ Z.testbit (Z.lxor (nth (Z.to_nat i) Qt 0)
                       (Z.land (nth 0 sblock 0) (nth (Z.to_nat i) Pt 0)))
               (bitpos j)
     = xorb (if decide (nth (Z.to_nat j) sbits 0 = 0)
             then tbit j i else ubit j i)
            (bool_decide (nth (Z.to_nat (bitpos j)) sbits 0 = 1)
             && xorb (xorb (tbit j i) (ubit j i))
                     (bool_decide (nth (Z.to_nat (bitpos i)) b 0 = 1))).
Proof.
  intros HbitsT HbitsQ HbitsP Hi Hj.
  destruct rblock_spec as (Hlr & Hbr & Hrbit).
  assert (Hq : 0 <= i / 128 < n) by (Z.div_mod_to_equations; lia).
  assert (Hm : 0 <= i mod 128 < 128) by (apply Z.mod_pos_bound; lia).
  assert (Hri : Z.testbit (nth (Z.to_nat (i / 128)) rblock 0)
                          (bitpos (i mod 128))
                = bool_decide (nth (Z.to_nat (bitpos i)) b 0 = 1)).
  { rewrite <- Hrbit by lia.
    now rewrite getbit_bytes_of_blocks by (assumption || lia). }
  pose proof (HbitsT j Hj) as HT.
  pose proof (HbitsQ j Hj) as HQ.
  pose proof (HbitsP j Hj) as HP.
  rewrite matrix_bit in HT, HQ, HP
    by (try assumption; intros; first [apply expand_length | apply Qcol_length
                                       | apply Pcol_length]).
  pose proof (expand_length (nth (Z.to_nat j) T_seed 0)) as HlT.
  pose proof (expand_length (nth (Z.to_nat j) U_seed 0)) as HlU.
  unfold Pcol in HP.
  rewrite !nth_zip_with_lxor in HP
    by (rewrite ?length_zip_with; unfold Tcol, Ucol; lia).
  rewrite !Z.lxor_spec in HP. rewrite Hri in HP.
  split; [exact HT|].
  rewrite Z.lxor_spec, Z.land_spec, HQ, HP, sblock_bit by assumption.
  unfold Qcol, tbit, ubit. now destruct (decide _).
Qed.

(** The correlation of the rows when the choice bits of the sender are
    the same at [j] and at [j xor 7]: the sender's corrected row is the
    receiver's row, with [s] added when the selection bit [i xor 7] is
    set. *)
Lemma row_correlation (t q i : Z) :
  (forall j, 0 <= j < 128 ->
     nth (Z.to_nat (bitpos j)) sbits 0 = nth (Z.to_nat j) sbits 0) ->
  is_block t -> is_block q ->
  (forall j, 0 <= j < 128 ->
     Z.testbit t (bitpos j) = tbit j i
     /\ Z.testbit q (bitpos j)
        = xorb (if decide (nth (Z.to_nat j) sbits 0 = 0)
                then tbit j i else ubit j i)
               (bool_decide (nth (Z.to_nat (bitpos j)) sbits 0 = 1)
                && xorb (xorb (tbit j i) (ubit j i))
                        (bool_decide (nth (Z.to_nat (bitpos i)) b 0 = 1)))) ->
  q = if decide (nth (Z.to_nat (bitpos i)) b 0 = 0) then t
      else Z.lxor t (nth 0 sblock 0).
Proof.
  intros Hsym Ht Hq Hbits.
  destruct sblock_spec as (Hls & Hbs & _).
  pose proof (nth_is_block sblock 0 Hbs) as Hs0.
  apply block_ext_bitpos; [assumption| |].
  { destruct (decide _); [assumption|]. now apply lxor_is_block. }
  intros j Hj. destruct (Hbits j Hj) as [HT HQ]. rewrite HQ.
  pose proof (nth_is_bit sbits (Z.to_nat j) (GenRandomBits_bit seedS 128)) as Hsb.
  pose proof (nth_is_bit b (Z.to_nat (bitpos i)) b_bit) as Hbi.
  fold sbits in Hsb.
  rewrite (Hsym j Hj).
  assert (Hsel : forall x, is_bit x ->
            bool_decide (x = 1) = if decide (x = 0) then false else true).
  { intros x [-> | ->]; reflexivity. }
  rewrite !Hsel by assumption.
  destruct (decide (nth (Z.to_nat (bitpos i)) b 0 = 0)) as [Hb0|Hb1].
  - rewrite HT. destruct (decide (nth (Z.to_nat j) sbits 0 = 0));
      destruct (tbit j i), (ubit j i); reflexivity.
  - rewrite Z.lxor_spec, HT, sblock_bit, (Hsym j Hj), Hsel by assumption.
    destruct (decide (nth (Z.to_nat j) sbits 0 = 0));
      destruct (tbit j i), (ubit j i); reflexivity.
Qed.

(** What the keys of row [i] are made of. *)
Let rows (K0 K1 K : list Z) : Prop :=
  forall i, 0 <= i < R ->
    exists t q,
      is_block t /\ is_block q
      /\ nth (Z.to_nat i) K 0 = BlocksToBlock [t]
      /\ nth (Z.to_nat i) K0 0 = BlocksToBlock [q]
      /\ nth (Z.to_nat i) K1 0 = BlocksToBlock [Z.lxor q (nth 0 sblock 0)]
      /\ forall j, 0 <= j < 128 ->
           Z.testbit t (bitpos j) = tbit j i
           /\ Z.testbit q (bitpos j)
              = xorb (if decide (nth (Z.to_nat j) sbits 0 = 0)
                      then tbit j i else ubit j i)
                     (bool_decide (nth (Z.to_nat (bitpos j)) sbits 0 = 1)
                      && xorb (xorb (tbit j i) (ubit j i))
                              (bool_decide
                                 (nth (Z.to_nat (bitpos i)) b 0 = 1))).

(** The setup phase when the matrices fit the [int] indices of
    [BitMatrixTranspose]: both parties return. *)
Lemma prepare_rows {A B : Type} (vec_K0 vec_K1 vec_K : list Z)
      (ks : list Z * list Z -> proc A) (kr : list Z -> proc B) (f : nat) :
  Z.of_nat (length vec_K0) = R -> Z.of_nat (length vec_K1) = R ->
  Z.of_nat (length vec_K) = R ->
  R <= 2 ^ 24 ->
  exists K0 K1 K tr,
    Z.of_nat (length K0) = R /\ Z.of_nat (length K1) = R
    /\ Z.of_nat (length K) = R
    /\ rows K0 K1 K
    /\ joint_run (8 + f) (pbind (PrepareSend pp vec_K0 vec_K1 R seedS) ks)
                 (pbind (PrepareReceive pp vec_K b R seedR) kr) [] [] []
       = joint_run f (ks (K0, K1)) (kr K) [] [] tr.
Proof.
  intros HlK0 HlK1 HlK HR24.
  destruct (first_steps vec_K0 vec_K1 vec_K ks kr (2 + f))
    as (sk & rk & tr & Heq & HSK & HRK); try assumption.
  { unfold INT_MAX. lia. }
  destruct (BitMatrixTranspose_blocks_spec tmp (matrix Qcol) R n)
    as (Qt & HQt & HlQt & HbQt & HbitsQ); try assumption.
  { apply matrix_length, Qcol_length. }
  { apply matrix_block, Qcol_block. }
  destruct (BitMatrixTranspose_blocks_spec tmp (matrix Pcol) R n)
    as (Pt & HPt & HlPt & HbPt & HbitsP); try assumption.
  { apply matrix_length, Pcol_length. }
  { apply matrix_block, Pcol_block. }
  destruct (BitMatrixTranspose_blocks_spec tmp (matrix Tcol) R n)
    as (Tt & HTt & HlTt & HbTt & HbitsT); try assumption.
  { apply matrix_length. intros j. apply expand_length. }
  { apply matrix_block. intros j. apply expand_block. }
  replace (R / 128 * 128) with (n * 128) in HQt, HPt, HTt
    by (rewrite R_div; reflexivity).
  destruct (HSK Qt (matrix Pcol) Pt) as (K0 & K1 & HK & Hl0 & Hl1 & HKs);
    try assumption.
  destruct (HRK Tt) as (K & HKr & Hl & HKrs); try assumption.
  exists K0, K1, K, (tr ++ [(Receiver, Blocks (matrix Pcol))]).
  split; [assumption|]. split; [assumption|]. split; [assumption|]. split.
  - intros i Hi. destruct (HKs i Hi) as [H0 H1]. cbn zeta in H0, H1.
    destruct sblock_spec as (_ & Hbs & _).
    pose proof (nth_is_block sblock 0 Hbs) as Hs0.
    pose proof (nth_is_block Tt (Z.to_nat i) HbTt) as HTi.
    pose proof (nth_is_block Qt (Z.to_nat i) HbQt) as HQi.
    pose proof (nth_is_block Pt (Z.to_nat i) HbPt) as HPi.
    exists (nth (Z.to_nat i) Tt 0),
           (Z.lxor (nth (Z.to_nat i) Qt 0)
                   (Z.land (nth 0 sblock 0) (nth (Z.to_nat i) Pt 0))).
    split; [assumption|].
    split; [apply lxor_is_block; [assumption|now apply land_is_block]|].
    split; [now apply HKrs|]. split; [exact H0|]. split; [exact H1|].
    intros j Hj. apply (row_bits Tt Qt Pt i j); auto.
  - change (8 + f)%nat with (6 + (2 + f))%nat. rewrite Heq, HQt.
    cbn [lift pbind]. unfold ReceiveBlocks. cbn [pbind].
    change (2 + f)%nat with (Datatypes.S (Datatypes.S f)).
    rewrite joint_run_wait_send, joint_run_recv. cbn beta iota.
    rewrite decide_True
      by (rewrite (matrix_length Pcol) by apply Pcol_length; lia).
    rewrite HK, HKr. reflexivity.
Qed.

(** With choice bits of the sender that are the same at [j] and at
    [j xor 7], the keys are correlated by the selection bit [i xor 7]. *)
Lemma rows_correlated (K0 K1 K : list Z) :
  (forall j, 0 <= j < 128 ->
     nth (Z.to_nat (bitpos j)) sbits 0 = nth (Z.to_nat j) sbits 0) ->
  rows K0 K1 K ->
  forall i, 0 <= i < R ->
    nth (Z.to_nat i) K 0
    = if decide (nth (Z.to_nat (bitpos i)) b 0 = 0)
      then nth (Z.to_nat i) K0 0 else nth (Z.to_nat i) K1 0.
Proof.
  intros Hsym Hrows i Hi.
  destruct (Hrows i Hi) as (t & q & Ht & Hq & HK & HK0 & HK1 & Hbits).
  rewrite HK, HK0, HK1.
  rewrite (row_correlation t q i Hsym Ht Hq Hbits).
  destruct (decide _); [reflexivity|]. now rewrite lxor_cancel_r.
Qed.

(** The run of the setup phase. *)
Lemma prepare_run (vec_K0 vec_K1 vec_K : list Z) :
  Z.of_nat (length vec_K0) = R -> Z.of_nat (length vec_K1) = R ->
  Z.of_nat (length vec_K) = R ->
  R <= 2 ^ 24 ->
  exists K0 K1 K tr,
    joint_run 9 (PrepareSend pp vec_K0 vec_K1 R seedS)
              (PrepareReceive pp vec_K b R seedR) [] [] []
    = Finished (K0, K1) K tr
    /\ Z.of_nat (length K0) = R /\ Z.of_nat (length K1) = R
    /\ Z.of_nat (length K) = R
    /\ rows K0 K1 K.
Proof.
  intros HlK0 HlK1 HlK HR24.
  destruct (prepare_rows vec_K0 vec_K1 vec_K PRet PRet 1)
    as (K0 & K1 & K & tr & H0 & H1 & H2 & H3 & Hrun); try assumption.
  exists K0, K1, K, tr. split; [|auto].
  rewrite <- joint_run_pbind_ret. exact Hrun.
Qed.

Lemma BitMatrixTranspose_blocks_never_Done (M out r : list Z) :
  2 ^ 24 < R ->
  ALSZOTE.BitMatrixTranspose_blocks tmp M 128 R out <> Done r.
Proof.
  intros HR24. unfold ALSZOTE.BitMatrixTranspose_blocks.
  rewrite (int_of_Done 128) by (unfold INT_MIN, INT_MAX; lia). cbn [obind].
  unfold int_of at 1. destruct (decide _) as [HRint|]; [|discriminate].
  cbn [obind].
  destruct (BitMatrixTranspose _ 128 R _ tmp) as [img| |] eqn:Himg;
    try discriminate.
  exfalso. revert Himg.
  apply (BitMatrixTranspose_never_Done _ 128 R (2 ^ 21));
    unfold INT_MAX in *; lia.
Qed.

Lemma BitMatrixTranspose_blocks_overflow (M out : list Z) :
  2 ^ 24 < R -> 15 * R <= INT_MAX ->
  Z.of_nat (length M) = R -> Z.of_nat (length out) = R ->
  ALSZOTE.BitMatrixTranspose_blocks tmp M 128 R out = Undefined.
Proof.
  intros HR24 HR15 HlM Hlo. unfold ALSZOTE.BitMatrixTranspose_blocks.
  rewrite !int_of_Done by (unfold INT_MIN, INT_MAX in *; lia). cbn [obind].
  rewrite (BitMatrixTranspose_overflow (bytes_of_blocks M) 128 R 16 (16 * n))
    with (c0 := 2 ^ 21); try reflexivity; try lia;
    try (rewrite length_bytes_of_blocks; lia);
    try (unfold INT_MAX in *; lia);
    try apply bytes_of_blocks_is_byte; try assumption.
Qed.

(** The setup phase for more than [2^24] transfers: the sender stops in
    the transposition of [Q]. *)
Lemma prepare_overflow {A B : Type} (vec_K0 vec_K1 vec_K : list Z)
      (ks : list Z * list Z -> proc A) (kr : list Z -> proc B) (f : nat) :
  Z.of_nat (length vec_K0) = R -> Z.of_nat (length vec_K1) = R ->
  Z.of_nat (length vec_K) = R ->
  2 ^ 24 < R -> 15 * R <= INT_MAX ->
  exists tr,
    joint_run (7 + f) (pbind (PrepareSend pp vec_K0 vec_K1 R seedS) ks)
              (pbind (PrepareReceive pp vec_K b R seedR) kr) [] [] []
    = Stopped Sender UndefinedBehaviour tr.
Proof.
  intros HlK0 HlK1 HlK HR24 HR15.
  destruct (first_steps vec_K0 vec_K1 vec_K ks kr (1 + f))
    as (sk & rk & tr & Heq & _ & _); try assumption.
  { unfold INT_MAX in *. lia. }
  change (7 + f)%nat with (6 + (1 + f))%nat. rewrite Heq.
  rewrite BitMatrixTranspose_blocks_overflow; try assumption.
  - exists tr. reflexivity.
  - apply matrix_length, Qcol_length.
  - rewrite length_blocks. lia.
Qed.

(** The run of the setup phase above [2^24] transfers. *)
Lemma prepare_run_overflow (vec_K0 vec_K1 vec_K : list Z) :
  Z.of_nat (length vec_K0) = R -> Z.of_nat (length vec_K1) = R ->
  Z.of_nat (length vec_K) = R ->
  2 ^ 24 < R -> 15 * R <= INT_MAX ->
  exists tr,
    joint_run 7 (PrepareSend pp vec_K0 vec_K1 R seedS)
              (PrepareReceive pp vec_K b R seedR) [] [] []
    = Stopped Sender UndefinedBehaviour tr.
Proof.
  intros HlK0 HlK1 HlK HR24 HR15.
  destruct (prepare_overflow vec_K0 vec_K1 vec_K PRet PRet 0)
    as (tr & Hstop); try assumption.
  exists tr. rewrite <- joint_run_pbind_ret. exact Hstop.
Qed.

(** The run of the transfer: the receiver's element [i] is the
    ciphertext that the selection bit [b[i]] picks, opened with
    [K[i]]. *)
Lemma OT_run (vec_m0 vec_m1 : list Z) :
  Z.of_nat (length vec_m0) = R -> Z.of_nat (length vec_m1) = R ->
  R <= 2 ^ 24 ->
  exists K0 K1 K vec_result tr,
    rows K0 K1 K
    /\ joint_run 13 (Send pp vec_m0 vec_m1 R seedS) (Receive pp b R seedR)
                 [] [] []
       = Finished tt vec_result tr
    /\ Z.of_nat (length vec_result) = R
    /\ forall i, 0 <= i < R ->
         nth (Z.to_nat i) vec_result 0
         = Z.lxor (if decide (nth (Z.to_nat i) b 0 = 0)
                   then Z.lxor (nth (Z.to_nat i) vec_m0 0)
                               (nth (Z.to_nat i) K0 0)
                   else Z.lxor (nth (Z.to_nat i) vec_m1 0)
                               (nth (Z.to_nat i) K1 0))
                  (nth (Z.to_nat i) K 0).
Proof.
  intros Hm0 Hm1 HR24.
  unfold ALSZOTE.Send, ALSZOTE.Receive, ALSZOTE.CheckParameters.
  rewrite pp_BASE_LEN.
  rewrite !(decide_False (P := R mod 128 <> 0 \/ 128 mod 128 <> 0))
    by (rewrite R_mod; intros [H|H]; apply H; reflexivity).
  match goal with
  | |- context [joint_run _ (pbind _ ?ks) (pbind _ ?kr) [] [] []] =>
      destruct (prepare_rows (ALSZOTE.blocks R) (ALSZOTE.blocks R)
                             (ALSZOTE.blocks R) ks kr 5)
        as (K0 & K1 & K & tr & HlK0 & HlK1 & HlK & Hkeys & Hrun)
  end; try (rewrite length_blocks; lia); try assumption.
  exists K0, K1, K.
  change 13%nat with (8 + 5)%nat. rewrite Hrun. clear Hrun. cbn beta iota.
  match goal with
  | |- context [for_n R ?body (ALSZOTE.blocks R, ALSZOTE.blocks R)] =>
      destruct (for_n_update2 body
        (fun i => Z.lxor (nth (Z.to_nat i) vec_m0 0) (nth (Z.to_nat i) K0 0))
        (fun i => Z.lxor (nth (Z.to_nat i) vec_m1 0) (nth (Z.to_nat i) K1 0))
        R (ALSZOTE.blocks R) (ALSZOTE.blocks R))
        as (C0 & C1 & HC & HlC0 & HlC1 & HCs)
  end; try (rewrite length_blocks; lia); try lia.
  { intros i v w Hi Hv Hw. cbn beta iota.
    rewrite !load_nth by lia. cbn [obind].
    rewrite store_Done by lia. cbn [obind].
    now rewrite store_Done by lia. }
  rewrite HC. clear HC. cbn [lift pbind fst snd].
  unfold SendBlocks. rewrite !decide_True by lia.
  rewrite !take_all_Z by assumption.
  change 5%nat with (Datatypes.S (Datatypes.S (Datatypes.S
                       (Datatypes.S (Datatypes.S O))))).
  rewrite !joint_run_send. cbn [app].
  unfold ReceiveBlocks.
  rewrite joint_run_ret_recv. cbn beta iota. rewrite decide_True by lia.
  rewrite joint_run_ret_recv. cbn beta iota. rewrite decide_True by lia.
  match goal with
  | |- context [for_n R ?body (ALSZOTE.blocks R)] =>
      destruct (for_n_update body
        (fun i => Z.lxor (if decide (nth (Z.to_nat i) b 0 = 0)
                          then Z.lxor (nth (Z.to_nat i) vec_m0 0)
                                      (nth (Z.to_nat i) K0 0)
                          else Z.lxor (nth (Z.to_nat i) vec_m1 0)
                                      (nth (Z.to_nat i) K1 0))
                         (nth (Z.to_nat i) K 0))
        R (ALSZOTE.blocks R)) as (out & Hout & Hlout & Houts)
  end; try (rewrite length_blocks; lia); try lia.
  { intros i v Hi Hv. cbn beta.
    rewrite !load_nth by lia. cbn [obind].
    destruct (HCs i Hi) as [HC0 HC1].
    destruct (decide (nth (Z.to_nat i) b 0 = 0)); cbn [obind].
    - rewrite HC0. now rewrite store_Done by lia.
    - rewrite HC1. now rewrite store_Done by lia. }
  rewrite Hout. cbn [lift]. rewrite joint_run_ret_ret.
  eexists _, _. split; [exact Hkeys|]. split; [reflexivity|]. auto.
Qed.

(** Above [2^24] transfers the sender stops in [BitMatrixTranspose]. *)
Lemma OT_overflow (vec_m0 vec_m1 : list Z) :
  2 ^ 24 < R -> 15 * R <= INT_MAX ->
  exists tr,
    joint_run 7 (Send pp vec_m0 vec_m1 R seedS) (Receive pp b R seedR)
              [] [] []
    = Stopped Sender UndefinedBehaviour tr.
Proof.
  intros HR24 HR15.
  unfold ALSZOTE.Send, ALSZOTE.Receive, ALSZOTE.CheckParameters.
  rewrite pp_BASE_LEN.
  rewrite !(decide_False (P := R mod 128 <> 0 \/ 128 mod 128 <> 0))
    by (rewrite R_mod; intros [H|H]; apply H; reflexivity).
  match goal with
  | |- context [joint_run _ (pbind _ ?ks) (pbind _ ?kr) [] [] []] =>
      destruct (prepare_overflow (ALSZOTE.blocks R) (ALSZOTE.blocks R)
                                 (ALSZOTE.blocks R) ks kr 0)
        as (tr & Hrun)
  end; try (rewrite length_blocks; lia); try assumption.
  exists tr. exact Hrun.
Qed.

(** Where the keys of a row are not correlated: with a hash that tells
    blocks apart, [K[i]] is not the key of the selection bit [b[i]] when
    [b[i xor 7]] is the other bit, and neither when the rows differ in a
    bit. *)
Lemma lxor_fixed (a x : Z) : Z.lxor a x = a -> x = 0.
Proof.
  intros H.
  assert (Hx : x = Z.lxor a (Z.lxor a x))
    by (now rewrite <- Z.lxor_assoc, Z.lxor_nilpotent, Z.lxor_0_l).
  rewrite H, Z.lxor_nilpotent in Hx. exact Hx.
Qed.

Lemma key_differs_mirror (K0 K1 K : list Z) (i : Z) :
  (forall x y, is_block x -> is_block y ->
     BlocksToBlock [x] = BlocksToBlock [y] -> x = y) ->
  (forall j, 0 <= j < 128 ->
     nth (Z.to_nat (bitpos j)) sbits 0 = nth (Z.to_nat j) sbits 0) ->
  nth 0 sblock 0 <> 0 ->
  rows K0 K1 K -> 0 <= i < R ->
  nth (Z.to_nat (bitpos i)) b 0 <> nth (Z.to_nat i) b 0 ->
  nth (Z.to_nat i) K 0
  <> if decide (nth (Z.to_nat i) b 0 = 0)
     then nth (Z.to_nat i) K0 0 else nth (Z.to_nat i) K1 0.
Proof.
  intros Hinj Hsym Hs0 Hrows Hi Hb.
  rewrite (rows_correlated K0 K1 K Hsym Hrows i Hi).
  destruct (Hrows i Hi) as (t & q & Ht & Hq & HK & HK0 & HK1 & _).
  destruct sblock_spec as (_ & Hbs & _).
  pose proof (nth_is_block sblock 0 Hbs) as Hs0b.
  pose proof (nth_is_bit b (Z.to_nat (bitpos i)) b_bit) as Hb1.
  pose proof (nth_is_bit b (Z.to_nat i) b_bit) as Hb2.
  assert (Hne : nth (Z.to_nat i) K0 0 <> nth (Z.to_nat i) K1 0).
  { rewrite HK0, HK1. intros Heq.
    apply Hinj in Heq; [|assumption|now apply lxor_is_block].
    apply Hs0. apply (lxor_fixed q). now symmetry. }
  destruct (decide (nth (Z.to_nat (bitpos i)) b 0 = 0)),
           (decide (nth (Z.to_nat i) b 0 = 0));
    try congruence.
  exfalso. apply Hb. destruct Hb1, Hb2; congruence.
Qed.

Lemma key_differs_bit (K0 K1 K : list Z) (i j : Z) :
  (forall x y, is_block x -> is_block y ->
     BlocksToBlock [x] = BlocksToBlock [y] -> x = y) ->
  rows K0 K1 K -> 0 <= i < R -> 0 <= j < 128 ->
  nth (Z.to_nat i) b 0 = 0 ->
  xorb (if decide (nth (Z.to_nat j) sbits 0 = 0) then tbit j i else ubit j i)
       (bool_decide (nth (Z.to_nat (bitpos j)) sbits 0 = 1)
        && xorb (xorb (tbit j i) (ubit j i))
                (bool_decide (nth (Z.to_nat (bitpos i)) b 0 = 1)))
  <> tbit j i ->
  nth (Z.to_nat i) K 0
  <> if decide (nth (Z.to_nat i) b 0 = 0)
     then nth (Z.to_nat i) K0 0 else nth (Z.to_nat i) K1 0.
Proof.
  intros Hinj Hrows Hi Hj Hb Hbit.
  destruct (Hrows i Hi) as (t & q & Ht & Hq & HK & HK0 & HK1 & Hbits).
  rewrite decide_True by exact Hb. rewrite HK, HK0. intros Heq.
  apply Hinj in Heq; try assumption.
  destruct (Hbits j Hj) as [HT HQ]. apply Hbit.
  rewrite <- HQ, <- HT. now rewrite Heq.
Qed.

(** A key that is not the one of the selection bit gives a wrong
    element. *)
Lemma OT_wrong_element (vec_m0 vec_m1 : list Z) (i : Z) :
  Z.of_nat (length vec_m0) = R -> Z.of_nat (length vec_m1) = R ->
  R <= 2 ^ 24 -> 0 <= i < R ->
  (forall K0 K1 K, rows K0 K1 K ->
     nth (Z.to_nat i) K 0
     <> if decide (nth (Z.to_nat i) b 0 = 0)
        then nth (Z.to_nat i) K0 0 else nth (Z.to_nat i) K1 0) ->
  exists vec_result tr,
    joint_run 13 (Send pp vec_m0 vec_m1 R seedS) (Receive pp b R seedR)
              [] [] []
    = Finished tt vec_result tr
    /\ nth (Z.to_nat i) vec_result 0
       <> if decide (nth (Z.to_nat i) b 0 = 0)
          then nth (Z.to_nat i) vec_m0 0 else nth (Z.to_nat i) vec_m1 0.
Proof.
  intros Hm0 Hm1 HR24 Hi Hkey.
  destruct (OT_run vec_m0 vec_m1 Hm0 Hm1 HR24)
    as (K0 & K1 & K & vec_result & tr & Hrows & Hrun & Hlen & Hres).
  exists vec_result, tr. split; [assumption|].
  rewrite (Hres i Hi). intros Heq. apply (Hkey K0 K1 K Hrows).
  destruct (decide (nth (Z.to_nat i) b 0 = 0));
    rewrite Z.lxor_assoc in Heq; apply lxor_fixed in Heq;
    apply Z.lxor_eq in Heq; congruence.
Qed.

Lemma prepare_wrong_key (vec_K0 vec_K1 vec_K : list Z) (i : Z) :
  Z.of_nat (length vec_K0) = R -> Z.of_nat (length vec_K1) = R ->
  Z.of_nat (length vec_K) = R ->
  R <= 2 ^ 24 -> 0 <= i < R ->
  (forall K0 K1 K, rows K0 K1 K ->
     nth (Z.to_nat i) K 0
     <> if decide (nth (Z.to_nat i) b 0 = 0)
        then nth (Z.to_nat i) K0 0 else nth (Z.to_nat i) K1 0) ->
  exists K0 K1 K tr,
    joint_run 9 (PrepareSend pp vec_K0 vec_K1 R seedS)
              (PrepareReceive pp vec_K b R seedR) [] [] []
    = Finished (K0, K1) K tr
    /\ nth (Z.to_nat i) K 0
       <> if decide (nth (Z.to_nat i) b 0 = 0)
          then nth (Z.to_nat i) K0 0 else nth (Z.to_nat i) K1 0.
Proof.
  intros HlK0 HlK1 HlK HR24 Hi Hkey.
  destruct (prepare_run vec_K0 vec_K1 vec_K HlK0 HlK1 HlK HR24)
    as (K0 & K1 & K & tr & Hrun & _ & _ & _ & Hrows).
  exists K0, K1, K, tr. split; [assumption|]. now apply Hkey.
Qed.



End OTE_properties.

(** ** The small instance *)

Lemma ToyOT_GenRandomBits_length (seed : ToyOT.Seed) (n : Z) :
  0 <= n -> Z.of_nat (length (fst (ToyOT.GenRandomBits seed n))) = n.
Proof.
  intros Hn. unfold ToyOT.GenRandomBits. cbn [fst].
  rewrite length_map, length_seq. lia.
Qed.

Lemma ToyOT_GenRandomBits_bit (seed : ToyOT.Seed) (n : Z) :
  Forall is_bit (fst (ToyOT.GenRandomBits seed n)).
Proof.
  unfold ToyOT.GenRandomBits. cbn [fst]. apply Forall_map, Forall_forall.
  intros i _. unfold is_bit. cbn zeta.
  match goal with
  | |- ?x mod 2 = 0 \/ _ => pose proof (Z.mod_pos_bound x 2)
  end.
  lia.
Qed.

Lemma ToyOT_GenRandomBlocks_length (seed : ToyOT.Seed) (n : Z) :
  0 <= n -> Z.of_nat (length (fst (ToyOT.GenRandomBlocks seed n))) = n.
Proof.
  intros Hn. unfold ToyOT.GenRandomBlocks. cbn [fst].
  rewrite length_map, length_seq. lia.
Qed.

Lemma ToyOT_GenRandomBlocks_block (seed : ToyOT.Seed) (n : Z) :
  Forall is_block (fst (ToyOT.GenRandomBlocks seed n)).
Proof.
  unfold ToyOT.GenRandomBlocks. cbn [fst]. apply Forall_map, Forall_forall.
  intros i _. unfold is_block, ToyOT.stream. apply Z.mod_pos_bound. lia.
Qed.

Lemma ToyOT_ReSeed_fresh (seed seed' : ToyOT.Seed) (key : Z) :
  ToyOT.ReSeed seed key 0 = ToyOT.ReSeed seed' key 0.
Proof. reflexivity. Qed.

Lemma ToyOT_AND_spec (vec_a vec_b : list Z) :
  ToyOT.AND vec_a vec_b = zip_with Z.land vec_a vec_b.
Proof. reflexivity. Qed.

Lemma ToyOT_tmp_bytes : Forall is_byte ToyOT.tmp.
Proof. apply Forall_replicate. unfold is_byte. lia. Qed.

Lemma ToyOT_vec_b_bit : Forall is_bit ToyOT.vec_b.
Proof.
  unfold ToyOT.vec_b. apply Forall_map, Forall_forall. intros i _.
  unfold is_bit. pose proof (Z.mod_pos_bound (Z.of_nat (i / 3)) 2). lia.
Qed.

Lemma ToyOT_vec_b8_bit : Forall is_bit ToyOT.vec_b8.
Proof.
  unfold ToyOT.vec_b8. apply Forall_map, Forall_forall. intros i _.
  unfold is_bit. pose proof (Z.mod_pos_bound (Z.of_nat (i / 8)) 2). lia.
Qed.

Lemma ToyOT_zeros_length : Z.of_nat (length ToyOT.zeros) = ToyOT.many.
Proof. unfold ToyOT.zeros. rewrite length_replicate. unfold ToyOT.many. lia. Qed.

Lemma ToyOT_zeros_bit : Forall is_bit ToyOT.zeros.
Proof. apply Forall_replicate. now left. Qed.

(** A property of the numbers below [n], checked one by one. *)
Lemma forall_below (P : Z -> bool) (n : nat) :
  forallb P (map Z.of_nat (seq 0 n)) = true ->
  forall j, 0 <= j < Z.of_nat n -> P j = true.
Proof.
  intros H j Hj. rewrite forallb_forall in H. apply H.
  apply in_map_iff. exists (Z.to_nat j). split; [lia|].
  apply in_seq. lia.
Qed.

(** With the even key the choice bits are the same at [j] and at
    [j xor 7], and the packed bits are not all zero. *)
Lemma ToyOT_seed_S_mirror (j : Z) :
  0 <= j < 128 ->
  nth (Z.to_nat (Z.lxor j 7)) (fst (ToyOT.GenRandomBits ToyOT.seed_S 128)) 0
  = nth (Z.to_nat j) (fst (ToyOT.GenRandomBits ToyOT.seed_S 128)) 0.
Proof.
  intros Hj. apply Z.eqb_eq.
  apply (forall_below
           (fun j => nth (Z.to_nat (Z.lxor j 7))
                         (fst (ToyOT.GenRandomBits ToyOT.seed_S 128)) 0
                     =? nth (Z.to_nat j)
                            (fst (ToyOT.GenRandomBits ToyOT.seed_S 128)) 0)
           128); [vm_compute; reflexivity|lia].
Qed.

Lemma ToyOT_seed_S_bitpos (j : Z) :
  0 <= j < 128 ->
  nth (Z.to_nat (bitpos j)) (fst (ToyOT.GenRandomBits ToyOT.seed_S 128)) 0
  = nth (Z.to_nat j) (fst (ToyOT.GenRandomBits ToyOT.seed_S 128)) 0.
Proof. intros Hj. rewrite <- lxor_7 by lia. now apply ToyOT_seed_S_mirror. Qed.

(** The hash of the small instance tells blocks apart: 3 is invertible
    modulo [2^128]. *)
Lemma ToyOT_BlocksToBlock_inj (x y : Z) :
  is_block x -> is_block y ->
  ToyOT.BlocksToBlock [x] = ToyOT.BlocksToBlock [y] -> x = y.
Proof.
  unfold is_block, ToyOT.BlocksToBlock. cbn [nth]. intros Hx Hy Heq.
  set (inv3 := 226854911280625642308916404954512140971) in *.
  assert (Hinv : forall a, 0 <= a < 2 ^ 128 ->
            (inv3 * ((a * 3 + 1) mod 2 ^ 128 - 1)) mod 2 ^ 128 = a).
  { intros a Ha.
    assert (H3 : (inv3 * 3) mod 2 ^ 128 = 1) by (now vm_compute).
    transitivity ((a * ((inv3 * 3) mod 2 ^ 128)) mod 2 ^ 128).
    - rewrite Z.mul_mod_idemp_r by lia.
      rewrite <- (Z.mul_mod_idemp_r inv3 ((a * 3 + 1) mod 2 ^ 128 - 1))
        by lia.
      rewrite Zminus_mod_idemp_l.
      rewrite Z.mul_mod_idemp_r by lia.
      f_equal. lia.
    - rewrite H3, Z.mul_1_r. now apply Z.mod_small. }
  rewrite <- (Hinv x Hx), <- (Hinv y Hy). now rewrite Heq.
Qed.

Ltac toy :=
  first [ exact ToyOT_GenRandomBits_length | exact ToyOT_GenRandomBits_bit
        | exact ToyOT_GenRandomBlocks_length
        | exact ToyOT_GenRandomBlocks_block | exact ToyOT_ReSeed_fresh
        | exact ToyOT_AND_spec | exact ToyOT_tmp_bytes
        | exact ToyOT_vec_b_bit | exact ToyOT_vec_b8_bit
        | exact ToyOT_seed_S_mirror | exact ToyOT_seed_S_bitpos
        | exact ToyOT_BlocksToBlock_inj
        | reflexivity ].

Ltac toy_many :=
  match goal with
  | |- Z.of_nat (length ToyOT.zeros) = _ => exact ToyOT_zeros_length
  | |- Forall is_bit ToyOT.zeros => exact ToyOT_zeros_bit
  | |- _ => first [ toy | unfold ToyOT.many, INT_MAX; lia ]
  end.



Ltac toy_side :=
  match goal with
  | |- forall i, 0 <= i < _ -> exists t q, _ => assumption
  | |- _ <> _ => vm_compute; discriminate
  | |- _ <= 2 ^ 24 => vm_compute; discriminate
  | |- _ <= _ < _ => lia
  | |- _ => toy
  end.

(** The two ways in which a key of the small instance is not the one of
    the selection bit. *)
Ltac toy_mirror :=
  let K0 := fresh "K0" in
  let K1 := fresh "K1" in
  let K := fresh "K" in
  let Hrows := fresh "Hrows" in
  intros K0 K1 K Hrows;
  apply (key_differs_mirror ToyOT.Seed ToyOT.GenRandomBits
           ToyOT.GenRandomBlocks ToyOT.ReSeed ToyOT.BlocksToBlock ToyOT.tmp)
    with (R := 128) (n := 1) (seedS := ToyOT.seed_S) (seedR := ToyOT.seed_R);
  toy_side.

Ltac toy_bit :=
  let K0 := fresh "K0" in
  let K1 := fresh "K1" in
  let K := fresh "K" in
  let Hrows := fresh "Hrows" in
  intros K0 K1 K Hrows;
  apply (key_differs_bit ToyOT.Seed ToyOT.GenRandomBits
           ToyOT.GenRandomBlocks ToyOT.ReSeed ToyOT.BlocksToBlock)
    with (R := 128) (n := 1) (seedS := ToyOT.seed_S_odd)
         (seedR := ToyOT.seed_R) (j := 1);
  toy_side.



(** * Further properties *)

(** ** Single bits of a block *)

Lemma onesLowHigh_value :
  _mm_slli_epi64 Block.all_one_block 63 = 2 ^ 63 + 2 ^ 127.
Proof. vm_compute. reflexivity. Qed.

Lemma shiftl_top_bit (c : Z) :
  0 <= c <= 63 -> u64 (Z.shiftl (2 ^ 63) c) = if decide (c = 0) then 2 ^ 63 else 0.
Proof.
  intros Hc. unfold u64. rewrite Z.shiftl_mul_pow2 by lia.
  destruct (decide (c = 0)) as [->|Hne]; [reflexivity|].
  replace c with (1 + (c - 1)) by lia. rewrite Z.pow_add_r by lia.
  replace (2 ^ 63 * (2 ^ 1 * 2 ^ (c - 1))) with (2 ^ (c - 1) * 2 ^ 64)
    by (change (2 ^ 64) with (2 ^ 63 * 2 ^ 1); ring).
  apply Z.mod_mul. lia.
Qed.

Lemma land_63 (N : Z) : Z.land N 63 = N mod 64.
Proof. change 63 with (Z.ones 6). rewrite Z.land_ones by lia. reflexivity. Qed.

(** X1. [Calc2ToTheN(N)] is not the block with the single bit [N]: it
    is [2^63] for [N = 0] (and for every negative multiple of 64), [2^127]
    for the multiples of 64 from 64 on, and the zero block for every
    other [N]. *)
Theorem Calc2ToTheN_value (N : Z) :
  Block.Calc2ToTheN N
  = if decide (N mod 64 = 0)
    then (if decide (N < 64) then 2 ^ 63 else 2 ^ 127)
    else 0.
Proof.
  unfold Block.Calc2ToTheN. rewrite onesLowHigh_value, land_63.
  assert (Hm : 0 <= N mod 64 < 64) by (apply Z.mod_pos_bound; lia).
  unfold _mm_slli_epi64. destruct (decide (63 < N mod 64)); [lia|].
  destruct (decide (N < 64)).
  - change (_mm_srli_si128 (2 ^ 63 + 2 ^ 127) (64 / 8)) with (2 ^ 63).
    change (lane_hi (2 ^ 63)) with 0. change (lane_lo (2 ^ 63)) with (2 ^ 63).
    unfold _mm_set_epi64x. rewrite Z.shiftl_0_l.
    rewrite shiftl_top_bit by lia. change (u64 0) with 0.
    destruct (decide (N mod 64 = 0)); reflexivity.
  - change (_mm_slli_si128 (2 ^ 63 + 2 ^ 127) (64 / 8)) with (2 ^ 127).
    change (lane_hi (2 ^ 127)) with (2 ^ 63). change (lane_lo (2 ^ 127)) with 0.
    unfold _mm_set_epi64x. rewrite Z.shiftl_0_l.
    rewrite shiftl_top_bit by lia. change (u64 0) with 0.
    destruct (decide (N mod 64 = 0)); reflexivity.
Qed.

(** X2. [SetBitN(value, N)] returns [value] itself and
    [ClearBitN(value, N)] returns the zero block, for every [N] that is
    not a multiple of 64. *)
Theorem SetBitN_ClearBitN_value (value N : Z) :
  N mod 64 <> 0 ->
  Block.SetBitN value N = value /\ Block.ClearBitN value N = 0.
Proof.
  intros HN.
  unfold Block.SetBitN, Block.ClearBitN, _mm_or_si128, _mm_andnot_si128.
  rewrite !Calc2ToTheN_value, decide_False by assumption.
  now rewrite Z.lor_0_r, Z.land_0_r.
Qed.

Lemma SetBitN_ClearBitN_value_witness :
  Block.SetBitN 5 3 = 5 /\ Block.ClearBitN 5 3 = 0.
Proof. apply (SetBitN_ClearBitN_value 5 3). vm_compute. discriminate. Defined.

(** ** Vectors of blocks *)

Lemma zip_with_lxor_cancel (a b : list Z) :
  length a = length b -> zip_with Z.lxor (zip_with Z.lxor a b) b = a.
Proof.
  revert b. induction a as [|x a IH]; intros [|y b] Hlen; try discriminate.
  - reflexivity.
  - cbn [zip_with]. rewrite Z.lxor_assoc, Z.lxor_nilpotent, Z.lxor_0_r.
    f_equal. apply IH. now injection Hlen.
Qed.

Lemma zip_with_lxor_cancel_l (a b : list Z) :
  length a = length b -> zip_with Z.lxor a (zip_with Z.lxor a b) = b.
Proof.
  revert b. induction a as [|x a IH]; intros [|y b] Hlen; try discriminate.
  - reflexivity.
  - cbn [zip_with]. rewrite <- Z.lxor_assoc, Z.lxor_nilpotent, Z.lxor_0_l.
    f_equal. apply IH. now injection Hlen.
Qed.

(** X3. For two vectors of the same size, of at most [INT_MAX] blocks,
    [XOR] returns a vector of that size, and xoring the result with
    either argument gives the other one back. *)
Theorem XOR_cancel (vec_a vec_b : list Z) :
  length vec_a = length vec_b ->
  Z.of_nat (length vec_a) <= INT_MAX ->
  exists vec_c,
    Block.XOR vec_a vec_b = Done vec_c
    /\ length vec_c = length vec_a
    /\ Block.XOR vec_c vec_b = Done vec_a
    /\ Block.XOR vec_a vec_c = Done vec_b.
Proof.
  intros Hlen Hint. exists (zip_with Z.lxor vec_a vec_b).
  assert (Hc : length (zip_with Z.lxor vec_a vec_b) = length vec_a)
    by (rewrite length_zip_with; lia).
  rewrite !XOR_Done by lia.
  split; [reflexivity|]. split; [exact Hc|].
  now rewrite zip_with_lxor_cancel, zip_with_lxor_cancel_l.
Qed.

Lemma XOR_cancel_witness :
  exists vec_c,
    Block.XOR [1; 2; 3] [4; 5; 6] = Done vec_c
    /\ length vec_c = 3%nat
    /\ Block.XOR vec_c [4; 5; 6] = Done [1; 2; 3]
    /\ Block.XOR [1; 2; 3] vec_c = Done [4; 5; 6].
Proof.
  apply (XOR_cancel [1; 2; 3] [4; 5; 6]); [reflexivity|].
  cbn. unfold INT_MAX. lia.
Defined.

(** X4. For a vector of at most [INT_MAX] blocks, [FixXOR] returns a
    vector, [FixXOR] of that vector with the same block gives the
    argument back, and [FixXOR(vec_a, b)] is [XOR] of [vec_a] with the
    vector of that many copies of [b]. *)
Theorem FixXOR_cancel (vec_a : list Z) (b : Z) :
  Z.of_nat (length vec_a) <= INT_MAX ->
  exists vec_c,
    Block.FixXOR vec_a b = Done vec_c
    /\ length vec_c = length vec_a
    /\ Block.FixXOR vec_c b = Done vec_a
    /\ Block.XOR vec_a (replicate (length vec_a) b) = Done vec_c.
Proof.
  intros Hint. exists (map (fun a => Z.lxor a b) vec_a).
  rewrite !FixXOR_Done by (rewrite ?length_map; lia).
  rewrite XOR_Done by (rewrite ?length_replicate; lia).
  split; [reflexivity|]. split; [apply length_map|]. split.
  - f_equal. rewrite map_map. rewrite <- (map_id vec_a) at 2.
    apply map_ext. intros x.
    now rewrite Z.lxor_assoc, Z.lxor_nilpotent, Z.lxor_0_r.
  - f_equal. clear Hint.
    induction vec_a as [|x a IH]; [reflexivity|].
    cbn [length replicate zip_with map]. now rewrite IH.
Qed.

Lemma FixXOR_cancel_witness :
  exists vec_c,
    Block.FixXOR [1; 2; 3] 6 = Done vec_c
    /\ length vec_c = 3%nat
    /\ Block.FixXOR vec_c 6 = Done [1; 2; 3]
    /\ Block.XOR [1; 2; 3] (replicate 3 6) = Done vec_c.
Proof.
  apply (FixXOR_cancel [1; 2; 3] 6). cbn. unfold INT_MAX. lia.
Defined.

(** X5. [Compare(a, b)] is true exactly when the two blocks are
    equal. *)
Theorem Compare_true_iff (a b : Z) : Block.Compare a b = true <-> a = b.
Proof.
  unfold Block.Compare, _mm_testz_si128, _mm_xor_si128.
  rewrite Z.land_diag.
  destruct (Z.eqb_spec (Z.lxor a b) 0) as [H|H]; cbn.
  - apply Z.lxor_eq in H. tauto.
  - split; [discriminate|]. intros ->. now rewrite Z.lxor_nilpotent in H.
Qed.

(** X6. [Compare(vec_a, vec_b, LEN)], for [LEN] within both vectors,
    is true exactly when the first [LEN] blocks of the two vectors are
    the same. *)
Theorem Compare_vec_spec (vec_a vec_b : list Z) (LEN : Z) :
  0 <= LEN <= Z.of_nat (length vec_a) ->
  LEN <= Z.of_nat (length vec_b) ->
  LEN <= INT_MAX ->
  Block.Compare_vec vec_a vec_b LEN
  = Done (bool_decide (take (Z.to_nat LEN) vec_a = take (Z.to_nat LEN) vec_b)).
Proof.
  intros Ha Hb Hint. unfold Block.Compare_vec, for_n.
  destruct (for_seq_inv
              (fun i EQUAL =>
                 EQUAL = bool_decide (take (Z.to_nat i) vec_a
                                      = take (Z.to_nat i) vec_b))
              (fun i EQUAL =>
                 do i <- int_of i;
                 do a <- load vec_a i;
                 do b <- load vec_b i;
                 let vcmp := _mm_xor_si128 a b in
                 Done (if negb (_mm_testz_si128 vcmp vcmp)
                       then false else EQUAL))
              (Z.to_nat LEN) 0 true) as (r & Hr & HI).
  - reflexivity.
  - intros i EQUAL Hi HEQ.
    rewrite int_of_Done by (unfold INT_MIN, INT_MAX in *; lia).
    destruct (load_in_range vec_a i) as (a & Hla & Hsa); [lia|].
    destruct (load_in_range vec_b i) as (b & Hlb & Hsb); [lia|].
    cbn [obind]. rewrite Hla, Hlb. cbn [obind].
    eexists. split; [reflexivity|].
    replace (Z.to_nat (i + 1)) with (Datatypes.S (Z.to_nat i)) by lia.
    rewrite (take_S_r _ _ _ Hsa), (take_S_r _ _ _ Hsb).
    pose proof (Compare_true_iff a b) as Hab.
    unfold Block.Compare in Hab.
    destruct (negb (_mm_testz_si128 (_mm_xor_si128 a b) (_mm_xor_si128 a b))).
    + symmetry. apply bool_decide_eq_false. intros Heq.
      apply app_inj_tail in Heq. destruct Heq as [_ Heq].
      apply Hab in Heq. discriminate.
    + assert (a = b) as -> by now apply Hab.
      rewrite HEQ. apply bool_decide_ext. split.
      * now intros ->.
      * intros Heq. now apply app_inj_tail in Heq.
  - etransitivity; [exact Hr|]. f_equal. rewrite HI.
    now rewrite Z.add_0_l, Nat2Z.id.
Qed.

Lemma Compare_vec_spec_witness :
  Block.Compare_vec [1; 2; 3] [1; 2; 4; 5] 2 = Done true.
Proof.
  apply (Compare_vec_spec [1; 2; 3] [1; 2; 4; 5] 2);
    cbn; unfold INT_MAX; lia.
Defined.

(** ** Dense and sparse bits *)

Lemma memcpy_all (dst src : list Z) (n : Z) :
  Z.of_nat (length src) = n -> Z.of_nat (length dst) = n ->
  memcpy dst src n = Done src.
Proof.
  intros Hs Hd. unfold memcpy. rewrite decide_True by lia. f_equal.
  rewrite take_ge, drop_ge by lia. apply app_nil_r.
Qed.

(** X7. [ToDenseBits] followed by [FromDenseBits], for [n] blocks and
    [128 n] bits: the dense image has bit [j] of block [i] as its bit
    [128 i + j], the bits of a byte counted from the least significant
    one, and [FromDenseBits] gives the blocks back. *)
Theorem DenseBits_roundtrip (block_data bool_data out : list Z) (n : Z) :
  Forall is_block block_data ->
  Z.of_nat (length block_data) = n ->
  Z.of_nat (length bool_data) = 16 * n ->
  Z.of_nat (length out) = n ->
  exists dense,
    Block.ToDenseBits block_data n bool_data (128 * n) = Done dense
    /\ length dense = length bool_data
    /\ (forall i j, 0 <= i < n -> 0 <= j < 128 ->
          getbit_lsb dense (128 * i + j)
          = Z.testbit (nth (Z.to_nat i) block_data 0) j)
    /\ Block.FromDenseBits dense (128 * n) out n = Done block_data.
Proof.
  intros Hblk Hlen Hbuf Hout.
  assert (Hdiv : 128 * n / 8 = 16 * n)
    by (replace (128 * n) with (16 * n * 8) by ring; apply Z.div_mul; lia).
  exists (bytes_of_blocks block_data).
  unfold Block.ToDenseBits, Block.FromDenseBits. rewrite Hdiv.
  rewrite memcpy_all by (rewrite ?length_bytes_of_blocks; lia).
  split; [reflexivity|]. split; [rewrite length_bytes_of_blocks; lia|].
  split.
  - intros i j Hi Hj. unfold getbit_lsb.
    replace ((128 * i + j) / 8) with (16 * i + j / 8)
      by (Z.div_mod_to_equations; lia).
    replace ((128 * i + j) mod 8) with (j mod 8)
      by (Z.div_mod_to_equations; lia).
    replace (Z.to_nat (16 * i + j / 8))
      with (16 * Z.to_nat i + Z.to_nat (j / 8))%nat
      by (Z.div_mod_to_equations; lia).
    rewrite nth_bytes_of_blocks
      by (try apply Nat2Z.inj_lt; Z.div_mod_to_equations; lia).
    rewrite testbit_nth_le_split.
    + f_equal. Z.div_mod_to_equations. lia.
    + apply (proj1 (Forall_forall _ _) Hblk).
      apply list_elem_of_In, nth_In. lia.
    + Z.div_mod_to_equations. lia.
    + apply Z.mod_pos_bound. lia.
  - rewrite memcpy_all by (rewrite ?length_bytes_of_blocks; lia).
    cbn [obind]. f_equal. now apply blocks_of_bytes_of_blocks.
Qed.

Lemma DenseBits_roundtrip_witness :
  exists dense,
    Block.ToDenseBits [5; 2 ^ 127] 2 (replicate 32 0) (128 * 2) = Done dense
    /\ length dense = length (replicate 32 0)
    /\ (forall i j, 0 <= i < 2 -> 0 <= j < 128 ->
          getbit_lsb dense (128 * i + j)
          = Z.testbit (nth (Z.to_nat i) [5; 2 ^ 127] 0) j)
    /\ Block.FromDenseBits dense (128 * 2) [0; 0] 2 = Done [5; 2 ^ 127].
Proof.
  apply (DenseBits_roundtrip [5; 2 ^ 127] (replicate 32 0) [0; 0] 2);
    try reflexivity.
  repeat constructor; unfold is_block; lia.
Defined.

Lemma insert_replicate_drop (l : list Z) (i : nat) (z : Z) :
  (i < length l)%nat ->
  <[i := z]> (replicate i z ++ drop i l)
  = replicate (Datatypes.S i) z ++ drop (Datatypes.S i) l.
Proof.
  intros Hi. apply list_eq. intros k.
  destruct (decide (k = i)) as [->|Hne].
  - rewrite list_lookup_insert_eq
      by (rewrite length_app, length_replicate, length_drop; lia).
    rewrite lookup_app_l by (rewrite length_replicate; lia).
    symmetry. apply lookup_replicate_2. lia.
  - rewrite list_lookup_insert_ne by congruence.
    destruct (decide (k < i)%nat).
    + rewrite !lookup_app_l by (rewrite length_replicate; lia).
      rewrite !lookup_replicate_2 by lia. reflexivity.
    + rewrite !lookup_app_r by (rewrite length_replicate; lia).
      rewrite !length_replicate, !lookup_drop. f_equal. lia.
Qed.

(** X8. [FromSparseBits] does not look at the result of [SetBitN]:
    whatever the sparse bits are, the first [BLOCK_LEN] blocks become the
    zero block and the other blocks are not touched. *)
Theorem FromSparseBits_all_zero (bool_data block_data : list Z)
        (BIT_LEN BLOCK_LEN : Z) :
  0 <= BLOCK_LEN <= Z.of_nat (length block_data) ->
  128 * BLOCK_LEN <= Z.of_nat (length bool_data) ->
  128 * BLOCK_LEN <= INT_MAX ->
  Block.FromSparseBits bool_data BIT_LEN block_data BLOCK_LEN
  = Done (replicate (Z.to_nat BLOCK_LEN) Block.zero_block
          ++ drop (Z.to_nat BLOCK_LEN) block_data).
Proof.
  intros Hblk Hbits Hint. unfold Block.FromSparseBits, for_n at 1.
  match goal with
  | |- for_seq ?body 0 _ _ = _ =>
      destruct (for_seq_inv
                  (fun i s => s = replicate (Z.to_nat i) Block.zero_block
                                  ++ drop (Z.to_nat i) block_data)
                  body (Z.to_nat BLOCK_LEN) 0 block_data) as (r & Hr & HI)
  end.
  - reflexivity.
  - intros i s Hi ->.
    rewrite store_Done
      by (rewrite length_app, length_replicate, length_drop; lia).
    cbn [obind].
    rewrite insert_replicate_drop by lia.
    replace (Z.to_nat (i + 1)) with (Datatypes.S (Z.to_nat i)) by lia.
    set (bd := replicate _ _ ++ drop _ _).
    exists bd. split; [|reflexivity]. unfold for_n.
    match goal with
    | |- for_seq ?body 0 _ _ = _ =>
        destruct (for_seq_inv (fun _ s => s = bd) body (Z.to_nat 128) 0 bd)
          as (r' & Hr' & ->)
    end.
    + reflexivity.
    + intros j s Hj ->. exists bd. split; [|reflexivity].
      rewrite imul_Done by (unfold INT_MIN, INT_MAX in *; lia).
      cbn [obind].
      rewrite iadd_Done by (unfold INT_MIN, INT_MAX in *; lia).
      cbn [obind].
      destruct (load_in_range bool_data (128 * i + j)) as (b & Hb & _);
        [lia|].
      rewrite Hb. cbn [obind].
      destruct (decide (b = 1)); [|reflexivity].
      destruct (load_in_range bd i) as (v & Hv & _).
      { unfold bd. rewrite length_app, length_replicate, length_drop. lia. }
      rewrite Hv. reflexivity.
    + exact Hr'.
  - rewrite Hr. f_equal. rewrite HI. now rewrite Z.add_0_l, Nat2Z.id.
Qed.

Lemma FromSparseBits_all_zero_witness :
  Block.FromSparseBits (replicate 128 1) 128 [7; 9] 1
  = Done (replicate (Z.to_nat 1) Block.zero_block ++ drop (Z.to_nat 1) [7; 9]).
Proof.
  apply (FromSparseBits_all_zero (replicate 128 1) [7; 9] 128 1);
    cbn; unfold INT_MAX; lia.
Defined.

(** ** The limits of the two transpositions *)

(** X9. [BitMatrixTranspose] on at least 16 rows does not return when
    [(ncols - 8) * nrows] is above [INT_MAX]: the index of [OUT] for the
    last eight columns is not an [int]. *)
Theorem BitMatrixTranspose_index_overflow (inp out tmp : list Z)
        (nrows ncols : Z) :
  16 <= nrows <= INT_MAX -> ncols <= INT_MAX -> ncols mod 8 = 0 ->
  INT_MAX < (ncols - 8) * nrows ->
  returns (BitMatrixTranspose inp nrows ncols out tmp) = false.
Proof.
  intros Hrows Hcols Hmod Hbig.
  destruct (BitMatrixTranspose inp nrows ncols out tmp) as [r| |] eqn:Hrun;
    try reflexivity.
  exfalso. revert Hrun.
  apply (BitMatrixTranspose_never_Done inp nrows ncols (ncols / 8 - 1)).
  - exact Hrows.
  - unfold INT_MAX in *. Z.div_mod_to_equations. nia.
  - unfold INT_MAX in *. Z.div_mod_to_equations. lia.
  - replace (8 * (ncols / 8 - 1)) with (ncols - 8)
      by (Z.div_mod_to_equations; lia).
    exact Hbig.
Qed.

(** A matrix of 128 rows and [2^24 + 136] columns, in buffers of
    [128 * (2^24 + 136) / 8] bytes, with the 16 bytes of [tmp]. *)
Lemma BitMatrixTranspose_index_overflow_witness :
  returns (BitMatrixTranspose (replicate (Z.to_nat 268437632) 0) 128 16777352
                              (replicate (Z.to_nat 268437632) 0)
                              (replicate 16 0)) = false.
Proof.
  apply (BitMatrixTranspose_index_overflow
           (replicate (Z.to_nat 268437632) 0)
           (replicate (Z.to_nat 268437632) 0) (replicate 16 0)
           128 16777352).
  - unfold INT_MAX. lia.
  - unfold INT_MAX. lia.
  - apply Z.mod_divide; [lia|]. exists 2097169. lia.
  - unfold INT_MAX. lia.
Defined.

Lemma for_seq_undefined {S : Type} (I : Z -> S -> Prop)
      (body : Z -> S -> outcome S) (k : nat) :
  forall (count : nat) (start : Z) (s : S),
    (k < count)%nat ->
    I start s ->
    (forall i s, start <= i < start + Z.of_nat k -> I i s ->
                 exists s', body i s = Done s' /\ I (i + 1) s') ->
    (forall s, I (start + Z.of_nat k) s ->
               body (start + Z.of_nat k) s = Undefined) ->
    for_seq body start count s = Undefined.
Proof.
  induction k as [|k IH]; intros count start s Hk HI Hstep Hbad.
  - destruct count as [|count]; [lia|]. cbn [for_seq].
    replace (start + Z.of_nat 0) with start in Hbad by lia.
    now rewrite Hbad.
  - destruct count as [|count]; [lia|]. cbn [for_seq].
    destruct (Hstep start s ltac:(lia) HI) as (s' & Hs' & HI').
    rewrite Hs'. cbn [obind]. apply IH; [lia|exact HI'| |].
    + intros i s0 Hi. apply Hstep. lia.
    + intros s0. replace (start + 1 + Z.of_nat k)
        with (start + Z.of_nat (Datatypes.S k)) by lia.
      apply Hbad.
Qed.

(** X10. [empBitMatrixTranspose] on a matrix of 8 rows is undefined:
    [ROW_NUM - 16] wraps around in [uint64_t], the main loop for blocks
    of 16 rows runs, and it reads row 8, which the input does not
    have. *)
Theorem empBitMatrixTranspose_8_rows_undefined
        (input output tmp : list Z) (COLUMN_NUM : Z) :
  0 < COLUMN_NUM < 2 ^ 32 -> COLUMN_NUM mod 8 = 0 ->
  Z.of_nat (length input) = COLUMN_NUM ->
  empBitMatrixTranspose input 8 COLUMN_NUM output tmp = Undefined.
Proof.
  intros HC Hmod Hlen. unfold empBitMatrixTranspose.
  rewrite decide_True by (split; [reflexivity|assumption]).
  unfold loop_fuel. cbn [for_loop].
  change (u64 0 <=? u64 (8 - 16)) with true. cbv iota.
  change (u64 0) with 0.
  replace (0 <? COLUMN_NUM) with true by (symmetry; apply Z.ltb_lt; lia).
  unfold emp_block_16x8.
  rewrite (for_seq_undefined
             (fun _ _ => True)
             (fun i bytes =>
                do x <- iadd 0 i;
                do v <- load input (INPUT_index COLUMN_NUM x 0);
                Done (bytes ++ [v])) 8 16 0 []).
  - reflexivity.
  - lia.
  - exact I.
  - intros i s Hi _.
    rewrite iadd_Done by (unfold INT_MIN, INT_MAX; lia). cbn [obind].
    rewrite Z.add_0_l.
    assert (Hidx : INPUT_index COLUMN_NUM i 0 = i * (COLUMN_NUM / 8)).
    { unfold INPUT_index. change (Z.quot 0 8) with 0. change (u64 0) with 0.
      rewrite (u64_small i) by lia.
      rewrite (u64_small (i * COLUMN_NUM)) by nia.
      rewrite Z.add_0_r.
      replace (i * COLUMN_NUM / 8) with (i * (COLUMN_NUM / 8))
        by (Z.div_mod_to_equations; nia).
      apply u64_small. Z.div_mod_to_equations. nia. }
    rewrite Hidx.
    destruct (load_in_range input (i * (COLUMN_NUM / 8))) as (v & Hv & _).
    { Z.div_mod_to_equations. nia. }
    rewrite Hv. cbn [obind]. eexists. split; [reflexivity|exact I].
  - intros s _. change (0 + Z.of_nat 8) with 8.
    rewrite iadd_Done by (unfold INT_MIN, INT_MAX; lia). cbn [obind].
    change (0 + 8) with 8.
    assert (Hidx : INPUT_index COLUMN_NUM 8 0 = COLUMN_NUM).
    { unfold INPUT_index. change (Z.quot 0 8) with 0. change (u64 0) with 0.
      change (u64 8) with 8.
      rewrite (u64_small (8 * COLUMN_NUM)) by lia.
      rewrite Z.add_0_r, (Z.mul_comm 8), Z.div_mul by lia.
      apply u64_small. lia. }
    rewrite Hidx, load_out_of_range by lia. reflexivity.
Qed.

Lemma empBitMatrixTranspose_8_rows_undefined_witness :
  empBitMatrixTranspose (replicate 16 255) 8 16 (replicate 16 0)
                        (replicate 16 0) = Undefined.
Proof.
  apply (empBitMatrixTranspose_8_rows_undefined
           (replicate 16 255) (replicate 16 0) (replicate 16 0) 16);
    try reflexivity; lia.
Defined.

(** X11. [empBitMatrixTranspose] transposes a matrix of at least 16 rows
    when the number of rows is a multiple of 16 or there are at least 16
    columns, the bits of a byte counted from the least significant
    one. *)
Theorem empBitMatrixTranspose_transposes
        (input output tmp : list Z) (ROW_NUM COLUMN_NUM : Z) :
  16 <= ROW_NUM <= INT_MAX -> 0 <= COLUMN_NUM <= INT_MAX ->
  ROW_NUM mod 8 = 0 -> COLUMN_NUM mod 8 = 0 ->
  16 <= COLUMN_NUM \/ ROW_NUM mod 16 = 0 ->
  8 * Z.of_nat (length input) = ROW_NUM * COLUMN_NUM ->
  Forall is_byte input ->
  length output = length input ->
  length tmp = 16%nat -> Forall is_byte tmp ->
  exists T,
    empBitMatrixTranspose input ROW_NUM COLUMN_NUM output tmp = Done T
    /\ length T = length input
    /\ forall x y, 0 <= x < ROW_NUM -> 0 <= y < COLUMN_NUM ->
         getbit_lsb T (y * ROW_NUM + x) = getbit_lsb input (x * COLUMN_NUM + y).
Proof.
  intros HR HC HR8 HC8 Hdom Hlen Hbytes Hout Htmp Htmpb.
  assert (HRd : ROW_NUM = 8 * (ROW_NUM / 8))
    by (Z.div_mod_to_equations; lia).
  assert (HCd : COLUMN_NUM = 8 * (COLUMN_NUM / 8))
    by (Z.div_mod_to_equations; lia).
  assert (Hl : Z.of_nat (length input) = ROW_NUM / 8 * COLUMN_NUM)
    by (Z.div_mod_to_equations; nia).
  destruct (empBitMatrixTranspose_spec input ROW_NUM COLUMN_NUM
              (ROW_NUM / 8) (COLUMN_NUM / 8) HRd HCd
              ltac:(Z.div_mod_to_equations; lia)
              ltac:(Z.div_mod_to_equations; lia) Hl Hbytes
              ltac:(lia) ltac:(lia) tmp output Htmp Htmpb ltac:(lia)
              ltac:(lia) Hdom) as (T & HT & HlT & _ & Hbits).
  exists T. split; [exact HT|]. split; [lia|exact Hbits].
Qed.

Lemma empBitMatrixTranspose_transposes_witness :
  exists T,
    empBitMatrixTranspose (replicate 16 170) 16 8 (replicate 16 0)
                          (replicate 16 0) = Done T
    /\ length T = length (replicate 16 170)
    /\ forall x y, 0 <= x < 16 -> 0 <= y < 8 ->
         getbit_lsb T (y * 16 + x) = getbit_lsb (replicate 16 170) (x * 8 + y).
Proof.
  apply (empBitMatrixTranspose_transposes
           (replicate 16 170) (replicate 16 0) (replicate 16 0) 16 8);
    try reflexivity; try (unfold INT_MAX; lia);
    try (right; reflexivity);
    apply Forall_replicate; unfold is_byte; lia.
Defined.

(** ** Bloom filter: insertion and membership *)

Lemma bit_mask_pow (k : Z) : 0 <= k < 8 -> bit_mask k = 2 ^ k.
Proof.
  intros Hk.
  assert (k = 0 \/ k = 1 \/ k = 2 \/ k = 3 \/ k = 4 \/ k = 5 \/ k = 6 \/ k = 7)
    as [->|[->|[->|[->|[->|[->|[->| ->]]]]]]] by lia; reflexivity.
Qed.

Lemma land_7_range (k : Z) : 0 <= Z.land k 7 < 8.
Proof.
  change 7 with (Z.ones 3). rewrite Z.land_ones by lia.
  apply Z.mod_pos_bound. lia.
Qed.

Lemma land_pow2 (byte k : Z) :
  0 <= k -> Z.land byte (2 ^ k) = if Z.testbit byte k then 2 ^ k else 0.
Proof.
  intros Hk. apply Z.bits_inj'. intros n Hn.
  rewrite Z.land_spec, Z.pow2_bits_eqb by lia.
  destruct (Z.eqb_spec k n) as [->|Hne].
  - destruct (Z.testbit byte n); cbn.
    + now rewrite Z.pow2_bits_eqb, Z.eqb_refl by lia.
    + now rewrite Z.bits_0.
  - rewrite andb_false_r. destruct (Z.testbit byte k).
    + rewrite Z.pow2_bits_eqb by lia. symmetry. now apply Z.eqb_neq.
    + now rewrite Z.bits_0.
Qed.

Lemma land_bit_mask (byte k : Z) :
  0 <= k < 8 ->
  (Z.land byte (bit_mask k) = bit_mask k <-> Z.testbit byte k = true).
Proof.
  intros Hk. rewrite bit_mask_pow, land_pow2 by lia.
  assert (0 < 2 ^ k) by (apply Z.pow_pos_nonneg; lia).
  destruct (Z.testbit byte k); split; intros; try reflexivity; try lia;
    try discriminate.
Qed.

Lemma shiftr_3_range (k len : Z) :
  0 <= k < 8 * len -> 0 <= Z.shiftr k 3 < len.
Proof.
  intros Hk. rewrite Z.shiftr_div_pow2 by lia. change (2 ^ 3) with 8.
  Z.div_mod_to_equations. lia.
Qed.

Section Bloom_properties.

Variable FastKeyedHash : Z -> list Z -> Z.
Variable libc_salts : Z -> Z -> list Z.


(** The bit that a salt gives to an input, and whether it is set. *)
Let idx (ts : Z) (input : list Z) (salt : Z) : Z :=
  u32 (FastKeyedHash salt input) mod ts.
Let isset (tbl : list Z) (k : Z) : bool :=
  Z.testbit (nth (Z.to_nat (Z.shiftr k 3)) tbl 0) (Z.land k 7).

Lemma idx_range (ts : Z) (input : list Z) (salt : Z) :
  0 < ts -> 0 <= idx ts input salt < ts.
Proof. intros Hts. apply Z.mod_pos_bound. lia. Qed.

Lemma PlainContain_from_spec (bf : BloomFilter) (salts : list Z)
      (input : list Z) :
  0 < table_size bf <= 8 * Z.of_nat (length (bit_table bf)) ->
  PlainContain_from FastKeyedHash bf salts input
  = Done (forallb (fun salt =>
                     isset (bit_table bf) (idx (table_size bf) input salt))
                  salts).
Proof.
  intros Hts. induction salts as [|salt salts IH]; [reflexivity|].
  cbn [PlainContain_from forallb].
  rewrite decide_False by lia.
  fold (idx (table_size bf) input salt).
  pose proof (idx_range (table_size bf) input salt ltac:(lia)) as Hi.
  pose proof (shiftr_3_range (idx (table_size bf) input salt)
                (Z.of_nat (length (bit_table bf))) ltac:(lia)) as Hq.
  rewrite load_nth by exact Hq. cbn [obind].
  pose proof (land_bit_mask
                (nth (Z.to_nat (Z.shiftr (idx (table_size bf) input salt) 3))
                     (bit_table bf) 0)
                (Z.land (idx (table_size bf) input salt) 7)
                (land_7_range _)) as Hm.
  fold (isset (bit_table bf) (idx (table_size bf) input salt)) in Hm.
  destruct (decide _) as [Hne|Heq].
  - destruct (isset (bit_table bf) (idx (table_size bf) input salt));
      [|reflexivity].
    exfalso. apply Hne. now apply Hm.
  - assert (Hset : isset (bit_table bf) (idx (table_size bf) input salt)
                   = true).
    { apply Hm. destruct (decide (Z.land
                 (nth (Z.to_nat (Z.shiftr (idx (table_size bf) input salt) 3))
                      (bit_table bf) 0)
                 (bit_mask (Z.land (idx (table_size bf) input salt) 7))
               = bit_mask (Z.land (idx (table_size bf) input salt) 7)));
        [assumption|contradiction]. }
    rewrite Hset. exact IH.
Qed.

Lemma isset_insert (tbl : list Z) (k k' : Z) :
  0 <= k -> 0 <= k' -> Z.shiftr k 3 < Z.of_nat (length tbl) ->
  isset (<[Z.to_nat (Z.shiftr k 3) :=
             Z.lor (nth (Z.to_nat (Z.shiftr k 3)) tbl 0)
                   (bit_mask (Z.land k 7))]> tbl) k'
  = isset tbl k' || (k' =? k).
Proof.
  intros Hk Hk' Hq. unfold isset.
  assert (Hq0 : 0 <= Z.shiftr k 3) by (apply Z.shiftr_nonneg; lia).
  assert (Hq0' : 0 <= Z.shiftr k' 3) by (apply Z.shiftr_nonneg; lia).
  pose proof (land_7_range k) as Hr. pose proof (land_7_range k') as Hr'.
  assert (Hsplit : forall j, 0 <= j -> j = 8 * Z.shiftr j 3 + Z.land j 7).
  { intros j Hj. rewrite Z.shiftr_div_pow2 by lia. change (2 ^ 3) with 8.
    change 7 with (Z.ones 3). rewrite Z.land_ones by lia.
    change (2 ^ 3) with 8. apply Z.div_mod. lia. }
  destruct (decide (Z.shiftr k' 3 = Z.shiftr k 3)) as [Heq|Hne].
  - rewrite Heq, nth_insert_eq by lia.
    rewrite Z.lor_spec, bit_mask_pow, Z.pow2_bits_eqb by lia.
    f_equal. destruct (Z.eqb_spec (Z.land k 7) (Z.land k' 7)) as [He|He].
    + symmetry. apply Z.eqb_eq.
      rewrite (Hsplit k Hk), (Hsplit k' Hk'). lia.
    + symmetry. apply Z.eqb_neq. intros ->. contradiction.
  - rewrite nth_insert_ne by lia.
    replace (k' =? k) with false; [now rewrite orb_false_r|].
    symmetry. apply Z.eqb_neq. intros ->. contradiction.
Qed.

Lemma PlainInsert_spec (bf : BloomFilter) (input : list Z) :
  Z.of_nat (length (vec_salt bf)) = hash_num bf ->
  0 < table_size bf <= 8 * Z.of_nat (length (bit_table bf)) ->
  exists tbl,
    PlainInsert FastKeyedHash bf input
    = Done (mkBloomFilter (hash_num bf) (vec_salt bf) (table_size bf) tbl
              (projected_element_num bf) (random_seed bf)
              (inserted_element_num bf + 1))
    /\ length tbl = length (bit_table bf)
    /\ forall k, 0 <= k ->
         isset tbl k
         = isset (bit_table bf) k
           || existsb (fun salt => k =? idx (table_size bf) input salt)
                      (vec_salt bf).
Proof.
  intros Hsalts Hts. unfold PlainInsert, for_n.
  match goal with
  | |- context [for_seq ?body 0 _ _] =>
      destruct (for_seq_inv
                  (fun i tbl =>
                     length tbl = length (bit_table bf)
                     /\ forall k, 0 <= k ->
                          isset tbl k
                          = isset (bit_table bf) k
                            || existsb (fun salt =>
                                          k =? idx (table_size bf) input salt)
                                       (take (Z.to_nat i) (vec_salt bf)))
                  body (Z.to_nat (hash_num bf)) 0 (bit_table bf))
        as (tbl & Htbl & Hlen & Hbits)
  end.
  - split; [reflexivity|]. intros k _. cbn. now rewrite orb_false_r.
  - intros i tbl Hi [Hlen Hbits].
    destruct (load_in_range (vec_salt bf) i) as (salt & Hload & Hsalt);
      [lia|].
    rewrite Hload. cbn [obind]. rewrite decide_False by lia.
    fold (idx (table_size bf) input salt).
    pose proof (idx_range (table_size bf) input salt ltac:(lia)) as Hidx.
    pose proof (shiftr_3_range (idx (table_size bf) input salt)
                  (Z.of_nat (length tbl)) ltac:(lia)) as Hq.
    rewrite load_nth by exact Hq. cbn [obind].
    rewrite store_Done by exact Hq.
    eexists. split; [reflexivity|]. split.
    + now rewrite length_insert.
    + intros k Hk. rewrite isset_insert by lia. rewrite Hbits by lia.
      replace (Z.to_nat (i + 1)) with (Datatypes.S (Z.to_nat i)) by lia.
      rewrite (take_S_r _ _ _ Hsalt), existsb_app. cbn [existsb].
      now rewrite orb_false_r, orb_assoc.
  - rewrite Htbl. cbn [obind]. exists tbl. split; [reflexivity|].
    split; [exact Hlen|]. intros k Hk. rewrite Hbits by lia.
    rewrite Z.add_0_l, Nat2Z.id. rewrite <- Hsalts, Nat2Z.id.
    now rewrite firstn_all.
Qed.

Lemma PlainInsert_PlainContain (bf : BloomFilter) (input : list Z) :
  Z.of_nat (length (vec_salt bf)) = hash_num bf ->
  0 < table_size bf <= 8 * Z.of_nat (length (bit_table bf)) ->
  exists bf',
    PlainInsert FastKeyedHash bf input = Done bf'
    /\ PlainContain FastKeyedHash bf' input = Done true
    /\ (forall other, PlainContain FastKeyedHash bf other = Done true ->
                      PlainContain FastKeyedHash bf' other = Done true)
    /\ inserted_element_num bf' = inserted_element_num bf + 1
    /\ hash_num bf' = hash_num bf /\ vec_salt bf' = vec_salt bf
    /\ table_size bf' = table_size bf
    /\ length (bit_table bf') = length (bit_table bf).
Proof.
  intros Hsalts Hts.
  destruct (PlainInsert_spec bf input Hsalts Hts)
    as (tbl & Hins & Hlen & Hbits).
  eexists. split; [exact Hins|].
  cbn [inserted_element_num hash_num vec_salt table_size bit_table].
  repeat split; try assumption.
  - unfold PlainContain. rewrite PlainContain_from_spec
      by (cbn [table_size bit_table]; lia).
    cbn [table_size bit_table vec_salt]. f_equal.
    apply forallb_forall. intros salt Hin.
    pose proof (idx_range (table_size bf) input salt ltac:(lia)).
    rewrite Hbits by lia. apply orb_true_iff. right.
    apply existsb_exists. exists salt. split; [assumption|apply Z.eqb_refl].
  - intros other. unfold PlainContain.
    rewrite !PlainContain_from_spec by (cbn [table_size bit_table]; lia).
    cbn [table_size bit_table vec_salt]. intros Hold. f_equal.
    injection Hold as Hold. apply forallb_forall. intros salt Hin.
    pose proof (idx_range (table_size bf) other salt ltac:(lia)).
    rewrite Hbits by lia. apply orb_true_iff. left.
    now apply (proj1 (forallb_forall _ _) Hold).
Qed.

(** X12. No false negatives.  For a filter with one salt per hash
    function, at most [INT_MAX] of them, a table of [table_size] bits
    that [bit_table] holds, and a counter below the largest [size_t]
    value, [PlainInsert] succeeds and counts the element, [PlainContain]
    then finds the element, and it still finds everything it found
    before. *)
Theorem PlainInsert_then_PlainContain (bf : BloomFilter) (input : list Z) :
  Z.of_nat (length (vec_salt bf)) = hash_num bf ->
  hash_num bf <= INT_MAX ->
  0 < table_size bf <= 8 * Z.of_nat (length (bit_table bf)) ->
  0 <= inserted_element_num bf < 2 ^ 64 - 1 ->
  exists bf',
    PlainInsert FastKeyedHash bf input = Done bf'
    /\ PlainContain FastKeyedHash bf' input = Done true
    /\ (forall other, PlainContain FastKeyedHash bf other = Done true ->
                      PlainContain FastKeyedHash bf' other = Done true)
    /\ inserted_element_num bf' = inserted_element_num bf + 1.
Proof.
  intros Hsalts _ Hts _.
  destruct (PlainInsert_PlainContain bf input Hsalts Hts)
    as (bf' & H1 & H2 & H3 & H4 & _).
  exists bf'. auto.
Qed.

(** X13. [Insert] of a container of at most [INT_MAX] strings into a
    filter with at most [INT_MAX] hash functions, whose counter stays a
    [size_t] value: every string of the container is found afterwards,
    and the counter has grown by the size of the container. *)
Theorem Insert_container_Contain (bf : BloomFilter)
        (container : list (list Z)) :
  Z.of_nat (length (vec_salt bf)) = hash_num bf ->
  hash_num bf <= INT_MAX ->
  0 < table_size bf <= 8 * Z.of_nat (length (bit_table bf)) ->
  Z.of_nat (length container) <= INT_MAX ->
  0 <= inserted_element_num bf ->
  inserted_element_num bf + Z.of_nat (length container) < 2 ^ 64 ->
  exists bf',
    Insert_container FastKeyedHash bf container = Done bf'
    /\ (forall str, str ∈ container ->
                    Contain FastKeyedHash bf' str = Done true)
    /\ (forall str, Contain FastKeyedHash bf str = Done true ->
                    Contain FastKeyedHash bf' str = Done true)
    /\ inserted_element_num bf'
       = inserted_element_num bf + Z.of_nat (length container).
Proof.
  intros Hsalts _ Hts _ _ _. revert bf Hsalts Hts.
  induction container as [|str c IH]; intros bf Hsalts Hts.
  - exists bf. cbn. split; [reflexivity|]. split.
    + intros str Hin. now apply elem_of_nil in Hin.
    + split; [auto|lia].
  - destruct (PlainInsert_PlainContain bf str Hsalts Hts)
      as (bf1 & Hins & Hfound & Hkeep & Hcount & Hh & Hs & Ht & Hl).
    destruct (IH bf1) as (bf' & Hrest & Hall & Hkeep' & Hcount').
    { now rewrite Hs, Hh. }
    { rewrite Ht, Hl. exact Hts. }
    exists bf'. cbn [Insert_container].
    unfold Insert. rewrite Hins. cbn [obind].
    split; [exact Hrest|]. split; [|split].
    + intros x Hin. apply elem_of_cons in Hin. destruct Hin as [->|Hin].
      * apply Hkeep'. exact Hfound.
      * now apply Hall.
    + intros x Hx. apply Hkeep'. now apply Hkeep.
    + rewrite Hcount', Hcount. cbn [length]. lia.
Qed.

(** ** Bloom filter: construction and [Clear] *)

Lemma isset_zero (n : nat) (k : Z) : isset (replicate n 0) k = false.
Proof.
  unfold isset.
  destruct (decide (Z.to_nat (Z.shiftr k 3) < n)%nat) as [Hlt|Hge].
  - rewrite (nth_lookup_Some _ _ 0 0); [apply Z.bits_0|].
    now apply lookup_replicate_2.
  - rewrite nth_overflow by (rewrite length_replicate; lia). apply Z.bits_0.
Qed.

Lemma PlainContain_zero_table (bf : BloomFilter) (n : nat) (input : list Z) :
  bit_table bf = replicate n 0 ->
  0 < table_size bf <= 8 * Z.of_nat n ->
  vec_salt bf <> [] ->
  PlainContain FastKeyedHash bf input = Done false.
Proof.
  intros Htbl Hts Hsalt. unfold PlainContain.
  rewrite PlainContain_from_spec by (rewrite Htbl, length_replicate; lia).
  rewrite Htbl. destruct (vec_salt bf) as [|salt salts]; [contradiction|].
  cbn [forallb]. now rewrite isset_zero.
Qed.

Lemma predefined_salt_range :
  Forall (fun s => 0 <= s < 2 ^ 32) predefined_salt.
Proof.
  apply Forall_forall. intros s Hs.
  assert (H : forallb (fun s => (0 <=? s) && (s <? 2 ^ 32)) predefined_salt
              = true) by (vm_compute; reflexivity).
  apply list_elem_of_In in Hs.
  apply (proj1 (forallb_forall _ _) H) in Hs.
  apply andb_true_iff in Hs. destruct Hs as [H0 H1].
  apply Z.leb_le in H0. apply Z.ltb_lt in H1. lia.
Qed.

Lemma GenUniqueSaltVector_small (hash_num random_seed : Z) :
  0 <= hash_num <= 128 ->
  exists v,
    GenUniqueSaltVector libc_salts hash_num random_seed = Done v
    /\ Z.of_nat (length v) = hash_num
    /\ Forall (fun s => 0 <= s < 2 ^ 32) v.
Proof.
  intros Hh. unfold GenUniqueSaltVector. rewrite decide_True by lia.
  unfold for_n.
  match goal with
  | |- context [for_seq ?body 0 _ _] =>
      destruct (for_seq_inv
                  (fun (_ : Z) (v : list Z) =>
                     length v = Z.to_nat hash_num
                     /\ Forall (fun s => 0 <= s < 2 ^ 32) v)
                  body (Z.to_nat hash_num) 0
                  (take (Z.to_nat hash_num) predefined_salt))
        as (v & Hv & Hlen & Hrange)
  end.
  - split.
    + rewrite length_take. change (length predefined_salt) with 128%nat. lia.
    + apply Forall_take, predefined_salt_range.
  - intros i s Hi [Hlen Hrange].
    destruct (load_in_range s i) as (a & Ha & _); [lia|].
    destruct (load_in_range s ((i + 3) mod Z.of_nat (length s)))
      as (b & Hb & _).
    { apply Z.mod_pos_bound. lia. }
    rewrite Ha, Hb. cbn [obind]. rewrite store_Done by lia.
    eexists. split; [reflexivity|]. split.
    + now rewrite length_insert.
    + apply Forall_insert; [exact Hrange|].
      unfold u32. apply Z.mod_pos_bound. lia.
  - exists v. split; [exact Hv|]. split; [lia|exact Hrange].
Qed.

(** X14. [GenUniqueSaltVector] for at most 128 hash functions returns
    that many salts, each a [uint32_t] value, whatever the seed is. *)
Theorem GenUniqueSaltVector_length (hash_num random_seed : Z) :
  0 <= hash_num <= 128 ->
  exists v,
    GenUniqueSaltVector libc_salts hash_num random_seed = Done v
    /\ Z.of_nat (length v) = hash_num
    /\ Forall (fun s => 0 <= s < 2 ^ 32) v.
Proof. apply GenUniqueSaltVector_small. Qed.

Lemma resize_nil (n : Z) : resize [] n = replicate (Z.to_nat n) 0.
Proof. unfold resize. rewrite take_nil. cbn. f_equal. lia. Qed.

(** X15. The filter that the constructor builds for [k] hash functions,
    [1 <= k <= 128], and a table of [m] bits, [m] a positive multiple of
    8, has [k] salts and [m / 8] bytes, and finds no element. *)
Theorem BloomFilter_new_empty (projected_element_num k m : Z) :
  1 <= k <= 128 -> 0 < m -> m mod 8 = 0 ->
  exists bf,
    BloomFilter_new libc_salts projected_element_num k m = Done bf
    /\ hash_num bf = k
    /\ Z.of_nat (length (vec_salt bf)) = k
    /\ table_size bf = m
    /\ 8 * Z.of_nat (length (bit_table bf)) = m
    /\ inserted_element_num bf = 0
    /\ forall input, PlainContain FastKeyedHash bf input = Done false.
Proof.
  intros Hk Hm Hm8. unfold BloomFilter_new.
  assert (Hu : u32 k = k) by (unfold u32; apply Z.mod_small; lia).
  rewrite Hu.
  destruct (GenUniqueSaltVector_small k
              (u32 (u64 (0xA5A5A5A55A5A5A5A * 0xA5A5A5A5 + 1))))
    as (v & Hv & Hlen & _); [lia|].
  rewrite Hv. cbn [obind]. eexists. split; [reflexivity|].
  cbn [hash_num vec_salt table_size bit_table inserted_element_num].
  rewrite resize_nil, length_replicate.
  assert (H8 : 8 * Z.of_nat (Z.to_nat (m / 8)) = m)
    by (Z.div_mod_to_equations; lia).
  repeat split; try assumption.
  intros input. apply (PlainContain_zero_table _ (Z.to_nat (m / 8))).
  - reflexivity.
  - cbn [table_size]. lia.
  - cbn [vec_salt]. intros ->. cbn in Hlen. lia.
Qed.

(** X16. A filter without hash functions, as the constructor builds it
    for a false-positive probability above one half, finds every
    element: [PlainContain] does not look at the table, and [PlainInsert]
    changes the counter only.  [member] is the value that the
    unassigned member [projected_element_num] holds. *)
Theorem BloomFilter_new_no_hash (member m : Z) (input : list Z) :
  exists bf bf',
    BloomFilter_new libc_salts member 0 m = Done bf
    /\ hash_num bf = 0 /\ vec_salt bf = []
    /\ PlainContain FastKeyedHash bf input = Done true
    /\ PlainInsert FastKeyedHash bf input = Done bf'
    /\ hash_num bf' = 0 /\ vec_salt bf' = []
    /\ table_size bf' = table_size bf
    /\ bit_table bf' = bit_table bf
    /\ random_seed bf' = random_seed bf
    /\ inserted_element_num bf' = 1
    /\ PlainContain FastKeyedHash bf' input = Done true.
Proof.
  eexists _, _. split; [reflexivity|]. repeat split.
Qed.

(** X17. After [Clear] a filter with at least one hash function finds
    no element, and its counter is 0. *)
Theorem Clear_empties (bf : BloomFilter) (input : list Z) :
  0 < table_size bf <= 8 * Z.of_nat (length (bit_table bf)) ->
  vec_salt bf <> [] ->
  PlainContain FastKeyedHash (Clear bf) input = Done false
  /\ inserted_element_num (Clear bf) = 0
  /\ length (bit_table (Clear bf)) = length (bit_table bf).
Proof.
  intros Hts Hsalt. split; [|split].
  - apply (PlainContain_zero_table _ (length (bit_table bf)));
      [reflexivity|exact Hts|exact Hsalt].
  - reflexivity.
  - cbn. apply length_replicate.
Qed.

(** ** Bloom filter: the buffer variants of [WriteObject] and [ReadObject] *)

Lemma for_seq_preserves {S : Type} (P : S -> Prop)
      (body : Z -> S -> outcome S) :
  (forall i s s', body i s = Done s' -> P s -> P s') ->
  forall (count : nat) (start : Z) (s r : S),
    for_seq body start count s = Done r -> P s -> P r.
Proof.
  intros Hbody. induction count as [|count IH]; intros start s r Hr Hs.
  - cbn in Hr. now injection Hr as <-.
  - cbn [for_seq] in Hr. destruct (body start s) as [s'| |] eqn:Hb;
      try discriminate.
    cbn [obind] in Hr. eapply IH; [exact Hr|]. eapply Hbody; eauto.
Qed.

Lemma store_length (buf buf' : list Z) (i v : Z) :
  store buf i v = Done buf' -> length buf' = length buf.
Proof.
  unfold store. destruct (decide _); [|discriminate].
  intros H. injection H as <-. apply length_insert.
Qed.

Lemma PlainInsert_fields (bf bf' : BloomFilter) (input : list Z) :
  PlainInsert FastKeyedHash bf input = Done bf' ->
  hash_num bf' = hash_num bf /\ vec_salt bf' = vec_salt bf
  /\ table_size bf' = table_size bf /\ random_seed bf' = random_seed bf
  /\ length (bit_table bf') = length (bit_table bf).
Proof.
  unfold PlainInsert, for_n.
  match goal with
  | |- context [for_seq ?body 0 ?c ?s] =>
      destruct (for_seq body 0 c s) as [tbl| |] eqn:Hloop
  end; try discriminate.
  cbn [obind]. intros H. injection H as <-.
  cbn [hash_num vec_salt table_size random_seed bit_table].
  repeat split.
  refine (for_seq_preserves
            (fun tbl => length tbl = length (bit_table bf))
            _ _ _ _ _ _ Hloop eq_refl).
  intros i s s' Hb Hs. revert Hb.
  destruct (load (vec_salt bf) i); cbn [obind];
    try (intros Hb; discriminate Hb).
  destruct (decide (table_size bf = 0)); [intros Hb; discriminate Hb|].
  destruct (load s _); cbn [obind]; try (intros Hb; discriminate Hb).
  intros Hb. apply store_length in Hb. congruence.
Qed.

Lemma Insert_container_fields (container : list (list Z)) :
  forall bf bf',
    Insert_container FastKeyedHash bf container = Done bf' ->
    hash_num bf' = hash_num bf /\ vec_salt bf' = vec_salt bf
    /\ table_size bf' = table_size bf /\ random_seed bf' = random_seed bf
    /\ length (bit_table bf') = length (bit_table bf).
Proof.
  induction container as [|str c IH]; intros bf bf' H.
  - cbn in H. injection H as <-. auto.
  - cbn [Insert_container] in H. unfold Insert in H.
    destruct (PlainInsert FastKeyedHash bf str) as [bf1| |] eqn:H1;
      try discriminate.
    cbn [obind] in H. apply IH in H. apply PlainInsert_fields in H1.
    destruct H as (? & ? & ? & ? & ?), H1 as (? & ? & ? & ? & ?).
    repeat split; congruence.
Qed.

Lemma le_split_4_length (x : Z) : length (le_split 4 x) = 4%nat.
Proof. apply length_le_split. Qed.

Lemma memcpy_Done (dst src : list Z) (n : Z) :
  0 <= n <= Z.of_nat (length src) -> n <= Z.of_nat (length dst) ->
  memcpy dst src n = Done (take (Z.to_nat n) src ++ drop (Z.to_nat n) dst).
Proof. intros H1 H2. unfold memcpy. now rewrite decide_True by lia. Qed.

Lemma WriteObject_buffer_image (bf : BloomFilter) (buffer : list Z) :
  0 <= table_size bf ->
  table_size bf / 8 <= Z.of_nat (length (bit_table bf)) ->
  ObjectSize bf <= Z.of_nat (length buffer) ->
  WriteObject_buffer bf buffer
  = Done (le_split 4 (hash_num bf) ++ le_split 4 (random_seed bf)
          ++ le_split 4 (table_size bf)
          ++ take (Z.to_nat (table_size bf / 8)) (bit_table bf)
          ++ drop (Z.to_nat (ObjectSize bf)) buffer).
Proof.
  intros Hts Htbl Hbuf. unfold ObjectSize in *.
  assert (Hn : 0 <= table_size bf / 8) by (apply Z.div_pos; lia).
  destruct buffer as [|b0 [|b1 [|b2 [|b3 [|b4 [|b5 [|b6 [|b7 [|b8 [|b9
                     [|b10 [|b11 rest]]]]]]]]]]]];
    cbn [length] in Hbuf; try lia.
  unfold WriteObject_buffer.
  rewrite memcpy_Done by (rewrite ?le_split_4_length; cbn [length]; lia).
  cbn [obind]. change (Z.to_nat 4) with 4%nat.
  cbn [le_split take drop app].
  rewrite memcpy_Done by (cbn [length]; lia).
  cbn [obind]. change (Z.to_nat 4) with 4%nat.
  cbn [le_split take drop app].
  rewrite memcpy_Done by (cbn [length]; lia).
  cbn [obind]. change (Z.to_nat 4) with 4%nat.
  cbn [le_split take drop app]. rewrite !drop_0.
  rewrite memcpy_Done by lia.
  cbn [obind]. cbn [take app].
  replace (Z.to_nat (3 * 4 + table_size bf / 8))
    with (12 + Z.to_nat (table_size bf / 8))%nat by lia.
  cbn [Nat.add drop]. reflexivity.
Qed.

Lemma ReadObject_buffer_image (bf0 : BloomFilter) (h s t : Z)
      (tbl tail : list Z) (salts : list Z) :
  0 <= h < 2 ^ 32 -> 0 <= s < 2 ^ 32 -> 0 <= t < 2 ^ 32 ->
  Z.of_nat (length tbl) = t / 8 ->
  GenUniqueSaltVector libc_salts h s = Done salts ->
  ReadObject_buffer libc_salts
    (le_split 4 h ++ le_split 4 s ++ le_split 4 t ++ tbl ++ tail) bf0
  = Done (mkBloomFilter h salts t tbl (projected_element_num bf0) s
            (inserted_element_num bf0)).
Proof.
  intros Hh Hs Ht Htbl Hsalts. unfold ReadObject_buffer.
  pose proof (le_combine_split4 h Hh) as Eh.
  pose proof (le_combine_split4 s Hs) as Es.
  pose proof (le_combine_split4 t Ht) as Et.
  rewrite memcpy_Done
    by (rewrite ?length_app, ?le_split_4_length; cbn [length]; lia).
  cbn [obind]. change (Z.to_nat 4) with 4%nat.
  cbn [le_split take drop app] in *. rewrite Eh.
  rewrite memcpy_Done by (cbn [length]; lia).
  cbn [obind]. change (Z.to_nat 4) with 4%nat.
  cbn [take drop app]. rewrite Es, Hsalts. cbn [obind].
  rewrite memcpy_Done by (cbn [length]; lia).
  cbn [obind]. change (Z.to_nat 4) with 4%nat.
  cbn [take drop app]. rewrite !take_0, !drop_0. cbn [app]. rewrite Et.
  assert (Hres : Z.of_nat (length (resize (bit_table bf0) (t / 8))) = t / 8).
  { unfold resize. rewrite length_app, length_take, length_replicate.
    assert (0 <= t / 8) by (apply Z.div_pos; lia). lia. }
  rewrite memcpy_Done by (rewrite ?length_app; lia).
  cbn [obind]. do 2 f_equal.
  rewrite take_app_length' by lia.
  rewrite drop_ge by lia. apply app_nil_r.
Qed.

Lemma buffer_roundtrip (bf bf0 : BloomFilter) (buffer : list Z) :
  0 <= hash_num bf < 2 ^ 32 -> 0 <= random_seed bf < 2 ^ 32 ->
  0 <= table_size bf < 2 ^ 32 ->
  table_size bf / 8 <= Z.of_nat (length (bit_table bf)) ->
  ObjectSize bf <= Z.of_nat (length buffer) ->
  exists buffer' salts,
    WriteObject_buffer bf buffer = Done buffer'
    /\ length buffer' = length buffer
    /\ drop (Z.to_nat (ObjectSize bf)) buffer'
       = drop (Z.to_nat (ObjectSize bf)) buffer
    /\ GenUniqueSaltVector libc_salts (hash_num bf) (random_seed bf)
       = Done salts
    /\ ReadObject_buffer libc_salts buffer' bf0
       = Done (mkBloomFilter (hash_num bf) salts (table_size bf)
                 (take (Z.to_nat (table_size bf / 8)) (bit_table bf))
                 (projected_element_num bf0) (random_seed bf)
                 (inserted_element_num bf0)).
Proof.
  intros Hh Hs Ht Htbl Hbuf.
  destruct (GenUniqueSaltVector_total libc_salts (hash_num bf)
              (random_seed bf)) as (salts & Hsalts); [lia|].
  assert (Hn : 0 <= table_size bf / 8) by (apply Z.div_pos; lia).
  assert (Hos : Z.to_nat (ObjectSize bf)
                = (12 + Z.to_nat (table_size bf / 8))%nat)
    by (unfold ObjectSize; lia).
  eexists _, salts. split; [apply WriteObject_buffer_image; lia|].
  split; [|split; [|split; [exact Hsalts|]]].
  - rewrite !length_app, !le_split_4_length, length_take, length_drop.
    unfold ObjectSize in *. lia.
  - rewrite !app_assoc. rewrite drop_app_length'; [reflexivity|].
    rewrite !length_app, !le_split_4_length, length_take. lia.
  - apply ReadObject_buffer_image; try assumption.
    rewrite length_take. lia.
Qed.

(** X18. The buffer variant of [WriteObject] writes [ObjectSize()]
    bytes and leaves the rest of the buffer as it was, and the buffer
    variant of [ReadObject] restores from them [hash_num], [random_seed],
    [table_size], the [table_size / 8] bytes of the table, and the salts
    that [GenUniqueSaltVector] gives for [hash_num] and [random_seed];
    [projected_element_num] and [inserted_element_num] are not stored and
    keep the values of the object that is read into. *)
Theorem WriteObject_ReadObject_buffer (bf bf0 : BloomFilter)
        (buffer : list Z) :
  0 <= hash_num bf < 2 ^ 32 -> 0 <= random_seed bf < 2 ^ 32 ->
  0 <= table_size bf < 2 ^ 32 ->
  table_size bf / 8 <= Z.of_nat (length (bit_table bf)) ->
  ObjectSize bf <= Z.of_nat (length buffer) ->
  exists buffer' salts,
    WriteObject_buffer bf buffer = Done buffer'
    /\ length buffer' = length buffer
    /\ drop (Z.to_nat (ObjectSize bf)) buffer'
       = drop (Z.to_nat (ObjectSize bf)) buffer
    /\ GenUniqueSaltVector libc_salts (hash_num bf) (random_seed bf)
       = Done salts
    /\ ReadObject_buffer libc_salts buffer' bf0
       = Done (mkBloomFilter (hash_num bf) salts (table_size bf)
                 (take (Z.to_nat (table_size bf / 8)) (bit_table bf))
                 (projected_element_num bf0) (random_seed bf)
                 (inserted_element_num bf0)).
Proof. apply buffer_roundtrip. Qed.

Lemma PlainContain_from_ext (bf bf' : BloomFilter) (salts : list Z)
      (input : list Z) :
  table_size bf' = table_size bf -> bit_table bf' = bit_table bf ->
  PlainContain_from FastKeyedHash bf' salts input
  = PlainContain_from FastKeyedHash bf salts input.
Proof.
  intros Ht Hb. induction salts as [|salt salts IH]; [reflexivity|].
  cbn [PlainContain_from]. now rewrite Ht, Hb, IH.
Qed.

(** X19. A filter that the constructor built and [Insert] filled,
    written to a buffer and read back into any filter object, answers
    [PlainContain] as the original does, for every input. *)
Theorem stored_filter_membership (projected_element_num k m : Z)
        (container : list (list Z)) (buffer : list Z)
        (bf_new bf bf0 : BloomFilter) :
  0 <= k < 2 ^ 32 -> 0 <= m < 2 ^ 32 ->
  BloomFilter_new libc_salts projected_element_num k m = Done bf_new ->
  Insert_container FastKeyedHash bf_new container = Done bf ->
  ObjectSize bf <= Z.of_nat (length buffer) ->
  exists buffer' bf',
    WriteObject_buffer bf buffer = Done buffer'
    /\ ReadObject_buffer libc_salts buffer' bf0 = Done bf'
    /\ forall input, PlainContain FastKeyedHash bf' input
                     = PlainContain FastKeyedHash bf input.
Proof.
  intros Hk Hm Hnew Hins Hbuf.
  unfold BloomFilter_new in Hnew.
  assert (Hu : u32 k = k) by (unfold u32; apply Z.mod_small; lia).
  rewrite Hu in Hnew.
  set (seed := u32 (u64 (0xA5A5A5A55A5A5A5A * 0xA5A5A5A5 + 1))) in *.
  destruct (GenUniqueSaltVector libc_salts k seed) as [v| |] eqn:Hv;
    try discriminate.
  cbn [obind] in Hnew. injection Hnew as <-.
  destruct (Insert_container_fields _ _ _ Hins) as (Hh & Hs & Ht & Hr & Hl).
  cbn [hash_num vec_salt table_size random_seed bit_table] in *.
  rewrite resize_nil, length_replicate in Hl.
  assert (Hn : 0 <= m / 8) by (apply Z.div_pos; lia).
  assert (Hseed : 0 <= random_seed bf < 2 ^ 32)
    by (rewrite Hr; unfold seed, u32; apply Z.mod_pos_bound; lia).
  assert (Htbl : table_size bf / 8 <= Z.of_nat (length (bit_table bf)))
    by (rewrite Ht, Hl; lia).
  destruct (buffer_roundtrip bf bf0 buffer ltac:(lia) Hseed ltac:(lia)
              Htbl Hbuf)
    as (buffer' & salts & Hw & _ & _ & Hsalts & Hread).
  exists buffer'. eexists. split; [exact Hw|]. split; [exact Hread|].
  intros input. unfold PlainContain. cbn [vec_salt].
  rewrite Hh, Hr, Hv in Hsalts. injection Hsalts as <-. rewrite Hs.
  apply PlainContain_from_ext; cbn [table_size bit_table]; [reflexivity|].
  apply take_ge. rewrite Ht, Hl. lia.
Qed.

End Bloom_properties.

Lemma PlainInsert_then_PlainContain_witness :
  exists bf',
    PlainInsert (fun salt input => salt + le_combine input)
                (mkBloomFilter 2 [5; 9] 16 [0; 0] 10 0 0) [3] = Done bf'
    /\ PlainContain (fun salt input => salt + le_combine input) bf' [3]
       = Done true
    /\ (forall other,
          PlainContain (fun salt input => salt + le_combine input)
                       (mkBloomFilter 2 [5; 9] 16 [0; 0] 10 0 0) other
          = Done true ->
          PlainContain (fun salt input => salt + le_combine input) bf' other
          = Done true)
    /\ inserted_element_num bf' = 0 + 1.
Proof.
  apply (PlainInsert_then_PlainContain
           (fun salt input => salt + le_combine input)
           (mkBloomFilter 2 [5; 9] 16 [0; 0] 10 0 0) [3]).
  - reflexivity.
  - cbn. unfold INT_MAX. lia.
  - cbn. lia.
  - cbn. lia.
Defined.

Lemma Insert_container_Contain_witness :
  exists bf',
    Insert_container (fun salt input => salt + le_combine input)
                     (mkBloomFilter 2 [5; 9] 16 [0; 0] 10 0 0) [[3]; [4; 1]]
    = Done bf'
    /\ (forall str, str ∈ [[3]; [4; 1]] ->
          Contain (fun salt input => salt + le_combine input) bf' str
          = Done true)
    /\ (forall str,
          Contain (fun salt input => salt + le_combine input)
                  (mkBloomFilter 2 [5; 9] 16 [0; 0] 10 0 0) str = Done true ->
          Contain (fun salt input => salt + le_combine input) bf' str
          = Done true)
    /\ inserted_element_num bf' = 0 + Z.of_nat (length [[3]; [4; 1]]).
Proof.
  apply (Insert_container_Contain
           (fun salt input => salt + le_combine input)
           (mkBloomFilter 2 [5; 9] 16 [0; 0] 10 0 0) [[3]; [4; 1]]).
  - reflexivity.
  - cbn. unfold INT_MAX. lia.
  - cbn. lia.
  - cbn. unfold INT_MAX. lia.
  - cbn. lia.
  - cbn. lia.
Defined.

Lemma GenUniqueSaltVector_length_witness :
  exists v,
    GenUniqueSaltVector (fun _ _ => []) 3 7 = Done v
    /\ Z.of_nat (length v) = 3
    /\ Forall (fun s => 0 <= s < 2 ^ 32) v.
Proof. apply (GenUniqueSaltVector_length (fun _ _ => []) 3 7). lia. Defined.

Lemma BloomFilter_new_empty_witness :
  exists bf,
    BloomFilter_new (fun _ _ => []) 10 2 16 = Done bf
    /\ hash_num bf = 2
    /\ Z.of_nat (length (vec_salt bf)) = 2
    /\ table_size bf = 16
    /\ 8 * Z.of_nat (length (bit_table bf)) = 16
    /\ inserted_element_num bf = 0
    /\ forall input,
         PlainContain (fun salt input => salt + le_combine input) bf input
         = Done false.
Proof.
  apply (BloomFilter_new_empty (fun salt input => salt + le_combine input)
           (fun _ _ => []) 10 2 16); [lia|lia|reflexivity].
Defined.

Lemma Clear_empties_witness :
  PlainContain (fun salt input => salt + le_combine input)
               (Clear (mkBloomFilter 2 [5; 9] 16 [255; 255] 10 0 4)) [3]
  = Done false
  /\ inserted_element_num (Clear (mkBloomFilter 2 [5; 9] 16 [255; 255] 10 0 4))
     = 0
  /\ length (bit_table (Clear (mkBloomFilter 2 [5; 9] 16 [255; 255] 10 0 4)))
     = length (bit_table (mkBloomFilter 2 [5; 9] 16 [255; 255] 10 0 4)).
Proof.
  apply (Clear_empties (fun salt input => salt + le_combine input)
           (mkBloomFilter 2 [5; 9] 16 [255; 255] 10 0 4) [3]).
  - cbn. lia.
  - discriminate.
Defined.

Lemma WriteObject_ReadObject_buffer_witness :
  exists buffer' salts,
    WriteObject_buffer (mkBloomFilter 2 [5; 9] 16 [129; 3] 10 7 4)
                       (replicate 16 0) = Done buffer'
    /\ length buffer' = length (replicate 16 0)
    /\ drop (Z.to_nat (ObjectSize (mkBloomFilter 2 [5; 9] 16 [129; 3] 10 7 4)))
            buffer'
       = drop (Z.to_nat (ObjectSize (mkBloomFilter 2 [5; 9] 16 [129; 3] 10 7 4)))
              (replicate 16 0)
    /\ GenUniqueSaltVector (fun _ _ => []) 2 7 = Done salts
    /\ ReadObject_buffer (fun _ _ => []) buffer'
                         (mkBloomFilter 0 [] 0 [] 1 0 0)
       = Done (mkBloomFilter 2 salts 16 (take (Z.to_nat (16 / 8)) [129; 3])
                 1 7 0).
Proof.
  apply (WriteObject_ReadObject_buffer (fun _ _ => [])
           (mkBloomFilter 2 [5; 9] 16 [129; 3] 10 7 4)
           (mkBloomFilter 0 [] 0 [] 1 0 0) (replicate 16 0));
    vm_compute; repeat split; discriminate.
Defined.

Lemma stored_filter_membership_witness :
  exists buffer' bf',
    WriteObject_buffer
      (mkBloomFilter 1 [2584245991] 8 [16] 10 3061464579 1)
      (replicate 13 0) = Done buffer'
    /\ ReadObject_buffer (fun _ _ => []) buffer'
                         (mkBloomFilter 0 [] 0 [] 1 0 0) = Done bf'
    /\ forall input,
         PlainContain (fun salt input => salt + le_combine input) bf' input
         = PlainContain (fun salt input => salt + le_combine input)
             (mkBloomFilter 1 [2584245991] 8 [16] 10 3061464579 1) input.
Proof.
  apply (stored_filter_membership
           (fun salt input => salt + le_combine input) (fun _ _ => [])
           10 1 8 [[5]] (replicate 13 0)
           (mkBloomFilter 1 [2584245991] 8 [0] 10 3061464579 0)).
  - lia.
  - lia.
  - vm_compute. reflexivity.
  - vm_compute. reflexivity.
  - vm_compute. discriminate.
Defined.

Lemma GenUniqueSaltVector_predefined (libc_salts libc_salts' : Z -> Z -> list Z)
      (hash_num random_seed : Z) :
  hash_num <= 128 ->
  GenUniqueSaltVector libc_salts hash_num random_seed
  = GenUniqueSaltVector libc_salts' hash_num random_seed.
Proof.
  intros Hh. unfold GenUniqueSaltVector. now rewrite !decide_True by lia.
Qed.

Lemma constructor_salts_checked :
  forallb (fun n : nat =>
             match GenUniqueSaltVector (fun _ _ => []) (Z.of_nat n)
                     (u32 (u64 (0xA5A5A5A55A5A5A5A * 0xA5A5A5A5 + 1))) with
             | Done v => bool_decide (NoDup v)
             | _ => false
             end) (seq 0 129) = true.
Proof. vm_compute. reflexivity. Qed.

(** X20. The salts of a filter that the constructor builds with at most
    128 hash functions are pairwise distinct. *)
Theorem BloomFilter_new_salts_distinct (libc_salts : Z -> Z -> list Z)
        (projected_element_num k m : Z) :
  0 <= k <= 128 ->
  exists bf,
    BloomFilter_new libc_salts projected_element_num k m = Done bf
    /\ NoDup (vec_salt bf).
Proof.
  intros Hk. unfold BloomFilter_new.
  assert (Hu : u32 k = k) by (unfold u32; apply Z.mod_small; lia).
  rewrite Hu.
  rewrite (GenUniqueSaltVector_predefined libc_salts (fun _ _ => [])) by lia.
  pose proof (proj1 (forallb_forall _ _) constructor_salts_checked
                (Z.to_nat k)) as Hc.
  cbv beta in Hc. rewrite Z2Nat.id in Hc by lia.
  specialize (Hc ltac:(apply in_seq; lia)).
  destruct (GenUniqueSaltVector _ k _) as [v| |]; try discriminate.
  cbn [obind]. eexists. split; [reflexivity|].
  cbn [vec_salt]. now apply bool_decide_eq_true in Hc.
Qed.

Lemma BloomFilter_new_salts_distinct_witness :
  exists bf,
    BloomFilter_new (fun _ _ => []) 100 20 2880 = Done bf
    /\ NoDup (vec_salt bf).
Proof.
  apply (BloomFilter_new_salts_distinct (fun _ _ => []) 100 20 2880). lia.
Defined.

(** The seed matters: with seed 0 and five hash functions two of the
    salts are the same. *)
Lemma GenUniqueSaltVector_repeats :
  exists v, GenUniqueSaltVector (fun _ _ => []) 5 0 = Done v /\ ~ NoDup v.
Proof.
  eexists. split; [vm_compute; reflexivity|].
  apply (bool_decide_eq_false_1 (NoDup _)). vm_compute. reflexivity.
Qed.

(** ** Bloom filter: a file with the bytes of the buffer variant *)

Lemma ReadObject_image (libc_salts : Z -> Z -> list Z) (bf0 : BloomFilter)
      (h s t : Z) (tbl : list Z) (salts : list Z) :
  0 <= h < 2 ^ 32 -> 0 <= s < 2 ^ 32 -> 0 <= t < 2 ^ 32 ->
  Z.of_nat (length tbl) = t / 8 ->
  GenUniqueSaltVector libc_salts h s = Done salts ->
  ReadObject libc_salts
    (le_split 4 h ++ le_split 4 s ++ le_split 4 t ++ tbl) bf0
  = Done (mkBloomFilter h salts t tbl (projected_element_num bf0) s
            (inserted_element_num bf0)).
Proof.
  intros Hh Hs Ht Htbl Hsalts. unfold ReadObject.
  pose proof (le_combine_split4 h Hh) as Eh.
  pose proof (le_combine_split4 s Hs) as Es.
  pose proof (le_combine_split4 t Ht) as Et.
  cbn [le_split app] in *.
  rewrite fin_read_good by (cbn [length]; lia).
  change (Z.to_nat 4) with 4%nat. cbn [take drop app]. rewrite Eh.
  rewrite fin_read_good by (cbn [length]; lia).
  change (Z.to_nat 4) with 4%nat. cbn [take drop app]. rewrite Es, Hsalts.
  cbn [obind].
  rewrite fin_read_good by (cbn [length]; lia).
  change (Z.to_nat 4) with 4%nat. cbn [take drop app].
  rewrite ?take_0, ?drop_0. cbn [app]. rewrite Et.
  rewrite fin_read_good by lia.
  assert (Hres : Z.of_nat (length (resize (bit_table bf0) (t / 8))) = t / 8).
  { unfold resize. rewrite length_app, length_take, length_replicate.
    assert (0 <= t / 8) by (apply Z.div_pos; lia). lia. }
  do 2 f_equal.
  rewrite take_ge by lia. rewrite drop_ge by lia. apply app_nil_r.
Qed.

(** X21. The file variant of [ReadObject] reads the layout of the
    buffer variant of [WriteObject]: from a file that holds the
    [ObjectSize()] bytes that [WriteObject(char* )] writes, it restores
    [hash_num], [random_seed], [table_size], the table bytes and the
    salts. *)
Theorem ReadObject_file_of_buffer (libc_salts : Z -> Z -> list Z)
        (bf bf0 : BloomFilter) :
  0 <= hash_num bf < 2 ^ 32 -> 0 <= random_seed bf < 2 ^ 32 ->
  0 <= table_size bf < 2 ^ 32 ->
  table_size bf / 8 <= Z.of_nat (length (bit_table bf)) ->
  exists file salts,
    WriteObject_buffer bf (replicate (Z.to_nat (ObjectSize bf)) 0) = Done file
    /\ Z.of_nat (length file) = ObjectSize bf
    /\ GenUniqueSaltVector libc_salts (hash_num bf) (random_seed bf)
       = Done salts
    /\ ReadObject libc_salts file bf0
       = Done (mkBloomFilter (hash_num bf) salts (table_size bf)
                 (take (Z.to_nat (table_size bf / 8)) (bit_table bf))
                 (projected_element_num bf0) (random_seed bf)
                 (inserted_element_num bf0)).
Proof.
  intros Hh Hs Ht Htbl.
  assert (Hn : 0 <= table_size bf / 8) by (apply Z.div_pos; lia).
  assert (Hos : 0 <= ObjectSize bf) by (unfold ObjectSize; lia).
  destruct (GenUniqueSaltVector_total libc_salts (hash_num bf)
              (random_seed bf)) as (salts & Hsalts); [lia|].
  eexists _, salts. split.
  { apply WriteObject_buffer_image; try lia.
    rewrite length_replicate. lia. }
  rewrite drop_ge by (rewrite length_replicate; lia).
  rewrite app_nil_r. split; [|split; [exact Hsalts|]].
  - rewrite !length_app, !length_le_split, length_take.
    unfold ObjectSize. lia.
  - apply ReadObject_image; try assumption. rewrite length_take. lia.
Qed.

Lemma ReadObject_file_of_buffer_witness :
  exists file salts,
    WriteObject_buffer (mkBloomFilter 2 [5; 9] 16 [129; 3] 10 7 4)
      (replicate
         (Z.to_nat (ObjectSize (mkBloomFilter 2 [5; 9] 16 [129; 3] 10 7 4)))
         0) = Done file
    /\ Z.of_nat (length file)
       = ObjectSize (mkBloomFilter 2 [5; 9] 16 [129; 3] 10 7 4)
    /\ GenUniqueSaltVector (fun _ _ => []) 2 7 = Done salts
    /\ ReadObject (fun _ _ => []) file (mkBloomFilter 0 [] 0 [] 1 0 0)
       = Done (mkBloomFilter 2 salts 16 (take (Z.to_nat (16 / 8)) [129; 3])
                 1 7 0).
Proof.
  apply (ReadObject_file_of_buffer (fun _ _ => [])
           (mkBloomFilter 2 [5; 9] 16 [129; 3] 10 7 4)
           (mkBloomFilter 0 [] 0 [] 1 0 0));
    vm_compute; repeat split; discriminate.
Defined.

(** X22. A filter built for a table of 0 bits, as the constructor does
    for [projected_element_num = 0], with at least one hash function:
    [PlainInsert] and [PlainContain] compute [hash % table_size] with
    [table_size = 0], which is undefined. *)
Theorem BloomFilter_zero_table_undefined
        (FastKeyedHash : Z -> list Z -> Z) (libc_salts : Z -> Z -> list Z)
        (projected_element_num k : Z) (input : list Z) :
  1 <= k <= 128 ->
  exists bf,
    BloomFilter_new libc_salts projected_element_num k 0 = Done bf
    /\ table_size bf = 0 /\ bit_table bf = []
    /\ PlainInsert FastKeyedHash bf input = Undefined
    /\ PlainContain FastKeyedHash bf input = Undefined.
Proof.
  intros Hk. unfold BloomFilter_new.
  assert (Hu : u32 k = k) by (unfold u32; apply Z.mod_small; lia).
  rewrite Hu.
  destruct (GenUniqueSaltVector_small libc_salts k
              (u32 (u64 (0xA5A5A5A55A5A5A5A * 0xA5A5A5A5 + 1))))
    as (v & Hv & Hlen & _); [lia|].
  rewrite Hv. cbn [obind]. eexists. split; [reflexivity|].
  cbn [table_size bit_table]. split; [reflexivity|]. split; [reflexivity|].
  destruct v as [|salt v]; [cbn in Hlen; lia|]. split.
  - unfold PlainInsert, for_n. cbn [hash_num vec_salt table_size bit_table].
    replace (Z.to_nat k) with (Datatypes.S (Z.to_nat (k - 1))) by lia.
    cbn [for_seq].
    rewrite (load_Done (salt :: v) 0 salt) by (reflexivity || lia).
    cbn [obind]. now rewrite decide_True.
  - unfold PlainContain. cbn [vec_salt PlainContain_from table_size].
    now rewrite decide_True.
Qed.

Lemma BloomFilter_zero_table_undefined_witness :
  exists bf,
    BloomFilter_new (fun _ _ => []) 0 3 0 = Done bf
    /\ table_size bf = 0 /\ bit_table bf = []
    /\ PlainInsert (fun salt input => salt + le_combine input) bf [1]
       = Undefined
    /\ PlainContain (fun salt input => salt + le_combine input) bf [1]
       = Undefined.
Proof.
  apply (BloomFilter_zero_table_undefined
           (fun salt input => salt + le_combine input) (fun _ _ => [])
           0 3 [1]).
  lia.
Defined.

(** ** cwPRF-based PSI: the result as a set, and the truncation length *)

Section PSI_result.

Import cwPRFPSI.

Variable Seed : Type.
Variable fixed_seed : Z.
Variable SetSeed : Z -> Z -> Seed.
Variable GenRandomBytes : Seed -> Z -> list Z.
Variable BlockToBytes : Z -> Z -> list Z.
Variable x25519_scalar_mulx : list Z -> list Z -> list Z.

Local Abbreviation Send := (Send Seed fixed_seed SetSeed GenRandomBytes BlockToBytes x25519_scalar_mulx).
Local Abbreviation Receive := (Receive Seed fixed_seed SetSeed GenRandomBytes BlockToBytes x25519_scalar_mulx).
Local Abbreviation k1 := (sender_key Seed fixed_seed SetSeed GenRandomBytes).
Local Abbreviation k2 := (receiver_key Seed fixed_seed SetSeed GenRandomBytes).
Local Abbreviation F := (F BlockToBytes x25519_scalar_mulx).

Lemma filter_ext_elem {A : Type} (P Q : A -> Prop)
      {HP : forall x, Decision (P x)} {HQ : forall x, Decision (Q x)}
      (l : list A) :
  (forall x, x ∈ l -> (P x <-> Q x)) -> filter P l = filter Q l.
Proof.
  induction l as [|a l IH]; intros H; [reflexivity|].
  rewrite !filter_cons.
  assert (Ha : P a <-> Q a) by (apply H; left).
  assert (Hl : filter P l = filter Q l)
    by (apply IH; intros x Hx; apply H; now right).
  destruct (decide (P a)), (decide (Q a)); try tauto; now rewrite Hl.
Qed.

(** X23. For sets of the declared sizes, at most [INT_MAX], and a
    truncation length of at most 32: when no element of [vec_X] has the
    truncated value of a different element of [vec_Y], the run finishes
    and [Receive] returns exactly the elements of [vec_X] that are in
    [vec_Y], in the order of [vec_X]. *)
Theorem PSI_output_is_intersection (pp : PP) (vec_X vec_Y : list Z) :
  Z.of_nat (length vec_X) = RECEIVER_ITEM_NUM pp ->
  Z.of_nat (length vec_Y) = SENDER_ITEM_NUM pp ->
  RECEIVER_ITEM_NUM pp <= INT_MAX ->
  SENDER_ITEM_NUM pp <= INT_MAX ->
  0 <= TRUNCATE_LEN pp <= 32 ->
  (forall x y, x ∈ vec_X -> y ∈ vec_Y ->
     trunc pp (x25519_scalar_mulx k1 (F k2 x))
     = trunc pp (x25519_scalar_mulx k2 (F k1 y)) -> x = y) ->
  exists transcript,
    joint_run 8 (Send pp vec_Y) (Receive pp vec_X) [] [] []
    = Finished tt (filter (fun x => x ∈ vec_Y) vec_X) transcript.
Proof.
  intros HX HY _ _ Htau Hinj. eexists.
  rewrite (psi_joint_run Seed fixed_seed SetSeed GenRandomBytes BlockToBytes
             x25519_scalar_mulx pp vec_X vec_Y HX HY Htau).
  f_equal. apply filter_ext_elem. intros x Hx. split.
  - intros Hin. apply elem_of_list_to_set, list_elem_of_fmap in Hin.
    destruct Hin as (y & Heq & Hy).
    now rewrite (Hinj x y Hx Hy Heq).
  - intros Hy. apply elem_of_list_to_set.
    apply (list_elem_of_fmap_2'
             (fun y => trunc pp (x25519_scalar_mulx k2 (F k1 y))) vec_Y x);
      [assumption|reflexivity].
Qed.

(** X24. With a truncation length above 32 and a receiver set that is
    not empty, the sender stops with undefined behaviour after the first
    two messages: the truncation reads past the 32 bytes of a point. *)
Theorem PSI_truncation_past_point (pp : PP) (vec_X vec_Y : list Z) :
  Z.of_nat (length vec_X) = RECEIVER_ITEM_NUM pp ->
  Z.of_nat (length vec_Y) = SENDER_ITEM_NUM pp ->
  32 < TRUNCATE_LEN pp ->
  vec_X <> [] ->
  joint_run 8 (Send pp vec_Y) (Receive pp vec_X) [] [] []
  = Stopped Sender UndefinedBehaviour
      [ (Sender, EC25519Points (map (F k1) vec_Y));
        (Receiver, EC25519Points (map (F k2) vec_X)) ].
Proof.
  intros HX HY Htau Hne.
  unfold cwPRFPSI.Send, cwPRFPSI.Receive.
  rewrite (decide_False (P := Z.of_nat (length vec_Y) <> SENDER_ITEM_NUM pp))
    by (intros H; apply H; assumption).
  rewrite (decide_False (P := Z.of_nat (length vec_X) <> RECEIVER_ITEM_NUM pp))
    by (intros H; apply H; assumption).
  unfold SendEC25519Points at 1. rewrite !length_map.
  rewrite (decide_True (P := SENDER_ITEM_NUM pp <= Z.of_nat (length vec_Y))) by lia.
  rewrite !take_all_Z by (rewrite !length_map; assumption).
  unfold ReceiveEC25519Points.
  cbn [joint_run app].
  rewrite !length_map.
  rewrite (decide_True (P := Z.of_nat (length vec_Y) = SENDER_ITEM_NUM pp)) by assumption.
  unfold SendEC25519Points at 1. rewrite !length_map.
  rewrite (decide_True (P := RECEIVER_ITEM_NUM pp <= Z.of_nat (length vec_X))) by lia.
  rewrite !take_all_Z by (rewrite !length_map; assumption).
  cbn [joint_run app].
  rewrite !length_map.
  rewrite (decide_True (P := Z.of_nat (length vec_X) = RECEIVER_ITEM_NUM pp)) by assumption.
  destruct vec_X as [|x X]; [contradiction|].
  cbn [map truncate_all]. unfold truncate at 1.
  rewrite decide_False by lia. cbn [obind lift pbind joint_run].
  rewrite !map_map. reflexivity.
Qed.

(** X25. [Setup] for sets of [2^LOG_SENDER_ITEM_NUM] and
    [2^LOG_RECEIVER_ITEM_NUM] elements with both logarithms at most 30,
    so that the set sizes are within [int], and with a sum
    [statistical_security_parameter + LOG_SENDER_ITEM_NUM +
    LOG_RECEIVER_ITEM_NUM] of at most 249: [Setup] returns parameters with
    those set sizes, the truncation length keeps at least that sum of
    bits and fits the 32 bytes of a point, and the run of the protocol on
    sets of those sizes finishes. *)
Theorem PSI_Setup_run (kappa sigma ls lr : Z) (vec_X vec_Y : list Z) :
  0 <= sigma -> 0 <= ls <= 30 -> 0 <= lr <= 30 ->
  sigma + ls + lr <= 249 ->
  Z.of_nat (length vec_X) = 2 ^ lr ->
  Z.of_nat (length vec_Y) = 2 ^ ls ->
  exists pp,
    Setup kappa sigma ls lr = Done pp
    /\ SENDER_ITEM_NUM pp = 2 ^ ls /\ RECEIVER_ITEM_NUM pp = 2 ^ lr
    /\ sigma + ls + lr <= 8 * TRUNCATE_LEN pp < sigma + ls + lr + 8
    /\ TRUNCATE_LEN pp <= 32
    /\ exists vec_intersection transcript,
         joint_run 8 (Send pp vec_Y) (Receive pp vec_X) [] [] []
         = Finished tt vec_intersection transcript.
Proof.
  intros Hs Hls Hlr Hfit HX HY.
  unfold Setup, pow2_size_t. rewrite !decide_True by lia. cbn [obind].
  eexists. split; [reflexivity|].
  cbn [SENDER_ITEM_NUM RECEIVER_ITEM_NUM TRUNCATE_LEN].
  assert (Hu : u64 (sigma + ls + lr + 7) = sigma + ls + lr + 7)
    by (unfold u64; apply Z.mod_small; lia).
  rewrite Hu.
  split; [reflexivity|]. split; [reflexivity|].
  split; [Z.div_mod_to_equations; lia|].
  split; [Z.div_mod_to_equations; lia|].
  eexists _, _.
  apply (psi_joint_run Seed fixed_seed SetSeed GenRandomBytes BlockToBytes
           x25519_scalar_mulx); try assumption.
  cbn [TRUNCATE_LEN]. Z.div_mod_to_equations. lia.
Qed.

End PSI_result.

Lemma PSI_output_is_intersection_witness :
  exists transcript,
    joint_run 8
      (cwPRFPSI.Send Toy.Seed Toy.fixed_seed Toy.SetSeed Toy.GenRandomBytes
         Toy.BlockToBytes Toy.x25519_scalar_mulx Toy.pp Toy.vec_Y)
      (cwPRFPSI.Receive Toy.Seed Toy.fixed_seed Toy.SetSeed Toy.GenRandomBytes
         Toy.BlockToBytes Toy.x25519_scalar_mulx Toy.pp Toy.vec_X) [] [] []
    = Finished tt (filter (fun x => x ∈ Toy.vec_Y) Toy.vec_X) transcript.
Proof.
  apply (PSI_output_is_intersection Toy.Seed Toy.fixed_seed Toy.SetSeed
           Toy.GenRandomBytes Toy.BlockToBytes Toy.x25519_scalar_mulx
           Toy.pp Toy.vec_X Toy.vec_Y).
  - reflexivity.
  - reflexivity.
  - vm_compute. discriminate.
  - vm_compute. discriminate.
  - vm_compute. split; discriminate.
  - intros x y Hx Hy.
    apply elem_of_cons in Hx. destruct Hx as [->|Hx];
      [|apply elem_of_cons in Hx; destruct Hx as [->|Hx];
        [|now apply elem_of_nil in Hx]];
      (apply elem_of_cons in Hy; destruct Hy as [->|Hy];
       [|apply elem_of_cons in Hy; destruct Hy as [->|Hy];
         [|now apply elem_of_nil in Hy]]);
      vm_compute; congruence.
Defined.

Lemma PSI_truncation_past_point_witness :
  joint_run 8
    (cwPRFPSI.Send Toy.Seed Toy.fixed_seed Toy.SetSeed Toy.GenRandomBytes
       Toy.BlockToBytes Toy.x25519_scalar_mulx Toy.pp_255 Toy.vec_Y)
    (cwPRFPSI.Receive Toy.Seed Toy.fixed_seed Toy.SetSeed Toy.GenRandomBytes
       Toy.BlockToBytes Toy.x25519_scalar_mulx Toy.pp_255 Toy.vec_X) [] [] []
  = Stopped Sender UndefinedBehaviour
      [ (Sender, EC25519Points
                   (map (cwPRFPSI.F Toy.BlockToBytes Toy.x25519_scalar_mulx
                           (cwPRFPSI.sender_key Toy.Seed Toy.fixed_seed
                              Toy.SetSeed Toy.GenRandomBytes)) Toy.vec_Y));
        (Receiver, EC25519Points
                     (map (cwPRFPSI.F Toy.BlockToBytes Toy.x25519_scalar_mulx
                             (cwPRFPSI.receiver_key Toy.Seed Toy.fixed_seed
                                Toy.SetSeed Toy.GenRandomBytes)) Toy.vec_X)) ].
Proof.
  apply (PSI_truncation_past_point Toy.Seed Toy.fixed_seed Toy.SetSeed
           Toy.GenRandomBytes Toy.BlockToBytes Toy.x25519_scalar_mulx
           Toy.pp_255 Toy.vec_X Toy.vec_Y).
  - reflexivity.
  - reflexivity.
  - vm_compute. reflexivity.
  - discriminate.
Defined.

Lemma PSI_Setup_run_witness :
  exists pp,
    cwPRFPSI.Setup 128 40 1 1 = Done pp
    /\ cwPRFPSI.SENDER_ITEM_NUM pp = 2 ^ 1
    /\ cwPRFPSI.RECEIVER_ITEM_NUM pp = 2 ^ 1
    /\ 40 + 1 + 1 <= 8 * cwPRFPSI.TRUNCATE_LEN pp < 40 + 1 + 1 + 8
    /\ cwPRFPSI.TRUNCATE_LEN pp <= 32
    /\ exists vec_intersection transcript,
         joint_run 8
           (cwPRFPSI.Send Toy.Seed Toy.fixed_seed Toy.SetSeed
              Toy.GenRandomBytes Toy.BlockToBytes Toy.x25519_scalar_mulx pp
              Toy.vec_Y)
           (cwPRFPSI.Receive Toy.Seed Toy.fixed_seed Toy.SetSeed
              Toy.GenRandomBytes Toy.BlockToBytes Toy.x25519_scalar_mulx pp
              Toy.vec_X) [] [] []
         = Finished tt vec_intersection transcript.
Proof.
  apply (PSI_Setup_run Toy.Seed Toy.fixed_seed Toy.SetSeed
           Toy.GenRandomBytes Toy.BlockToBytes Toy.x25519_scalar_mulx
           128 40 1 1 Toy.vec_X Toy.vec_Y); try lia; reflexivity.
Defined.

(** ** NIZK for discrete-log equality: the test and the response *)

Section DLOG_response.

Import DLOGEquality.

Variable ECPoint : Type.
Variable ec_add : ECPoint -> ECPoint -> ECPoint.
Variable ec_neg : ECPoint -> ECPoint.
Variable ec_mul : ECPoint -> Z -> ECPoint.
Variable ec_eqb : ECPoint -> ECPoint -> bool.
Variable ec_zero : ECPoint.
Variable ToByteString : ECPoint -> string.
Variable order : Z.
Variable StringToBigInt : string -> Z.

Hypothesis ec_eqb_eq : forall P Q, ec_eqb P Q = true <-> P = Q.
Hypothesis ec_add_assoc :
  forall P Q R, ec_add P (ec_add Q R) = ec_add (ec_add P Q) R.
Hypothesis ec_add_comm : forall P Q, ec_add P Q = ec_add Q P.
Hypothesis ec_add_zero : forall P, ec_add ec_zero P = P.
Hypothesis ec_add_neg : forall P, ec_add P (ec_neg P) = ec_zero.
Hypothesis ec_mul_add :
  forall P a b, ec_mul P (a + b) = ec_add (ec_mul P a) (ec_mul P b).
Hypothesis ec_mul_mul : forall P a b, ec_mul (ec_mul P a) b = ec_mul P (a * b).
Hypothesis ec_mul_one : forall P, ec_mul P 1 = P.
Hypothesis ec_mul_mod : forall P a, ec_mul P (a mod order) = ec_mul P a.
Hypothesis ec_mul_zero_inv :
  forall P a, ec_mul P a = ec_zero -> P = ec_zero \/ a mod order = 0.

Local Abbreviation Prove := (Prove ECPoint ec_mul ToByteString order StringToBigInt).
Local Abbreviation Verify := (Verify ECPoint ec_add ec_mul ec_eqb ToByteString StringToBigInt).
Local Abbreviation challenge := (challenge ECPoint ToByteString StringToBigInt).
Local Abbreviation Instance := (Instance ECPoint).
Local Abbreviation mkInstance := (mkInstance ECPoint).
Local Abbreviation mkProof := (mkProof ECPoint).
Local Abbreviation GenInstanceWitness :=
  (GenRandomDDHInstanceWitness ECPoint ec_add ec_mul).
Local Abbreviation run_test :=
  (test_nizk_dlog_equality ECPoint ec_add ec_mul ec_eqb ToByteString order
                           StringToBigInt).

Lemma cancel_l (A P Q : ECPoint) : ec_add A P = ec_add A Q -> P = Q.
Proof.
  exact (ec_add_cancel_l ECPoint ec_add ec_neg ec_zero ec_add_assoc
           ec_add_comm ec_add_zero ec_add_neg A P Q).
Qed.

Lemma ec_add_zero_r (P : ECPoint) : ec_add P ec_zero = P.
Proof. now rewrite ec_add_comm, ec_add_zero. Qed.

Lemma ec_mul_0 (P : ECPoint) : ec_mul P 0 = ec_zero.
Proof.
  apply (cancel_l (ec_mul P 0)). rewrite <- ec_mul_add, ec_add_zero_r.
  reflexivity.
Qed.

Lemma ec_mul_opp (P : ECPoint) (k : Z) :
  ec_add (ec_mul P k) (ec_mul P (- k)) = ec_zero.
Proof. rewrite <- ec_mul_add, Z.add_opp_diag_r. apply ec_mul_0. Qed.

Lemma ec_add_swap (A B C D : ECPoint) :
  ec_add (ec_add A B) (ec_add C D) = ec_add (ec_add A C) (ec_add B D).
Proof.
  rewrite <- !ec_add_assoc. f_equal.
  rewrite !ec_add_assoc. f_equal. apply ec_add_comm.
Qed.

Lemma ec_mul_add_l_nonneg (P Q : ECPoint) (k : Z) :
  0 <= k -> ec_mul (ec_add P Q) k = ec_add (ec_mul P k) (ec_mul Q k).
Proof.
  revert k. apply natlike_ind.
  - now rewrite !ec_mul_0, ec_add_zero.
  - intros k Hk IH. unfold Z.succ.
    rewrite !ec_mul_add, IH, !ec_mul_one. apply ec_add_swap.
Qed.

Lemma ec_mul_add_l (P Q : ECPoint) (k : Z) :
  ec_mul (ec_add P Q) k = ec_add (ec_mul P k) (ec_mul Q k).
Proof.
  destruct (Z_le_gt_dec 0 k) as [Hk|Hk]; [now apply ec_mul_add_l_nonneg|].
  replace k with (- (- k)) by lia. set (m := - k).
  assert (Hm : 0 <= m) by (unfold m; lia). clearbody m.
  apply (cancel_l (ec_mul (ec_add P Q) m)).
  rewrite ec_mul_opp.
  rewrite ec_mul_add_l_nonneg by exact Hm.
  rewrite ec_add_swap. now rewrite !ec_mul_opp, ec_add_zero.
Qed.

(** X26. The test of the proof system: on the tuple that
    [GenRandomDDHInstanceWitness] makes with [flag = true], [Verify]
    accepts the proof of [Prove]; with [flag = false], where [noisy] is
    added to [h2], it accepts exactly when the challenge annihilates
    [noisy]. *)
Theorem test_nizk_dlog_equality_result (flag : bool) (w : Z)
        (gen1 gen2 noisy : ECPoint) (a : Z) :
  let instance := fst (GenInstanceWitness flag w gen1 gen2 noisy) in
  let witness := snd (GenInstanceWitness flag w gen1 gen2 noisy) in
  let proof := snd (Prove instance witness ""%string a) in
  run_test flag w gen1 gen2 noisy a = true
  <-> flag = true
      \/ ec_mul noisy (challenge instance ""%string proof) = ec_zero.
Proof.
  intros instance witness proof.
  unfold test_nizk_dlog_equality.
  fold instance. fold witness.
  replace (GenRandomDDHInstanceWitness ECPoint ec_add ec_mul
             flag w gen1 gen2 noisy) with (instance, witness)
    by (unfold instance, witness; now destruct (GenInstanceWitness _ _ _ _ _)).
  replace (Prove instance witness ""%string a)
    with (fst (Prove instance witness ""%string a), proof)
    by (unfold proof; now destruct (Prove _ _ _ _)).
  destruct flag.
  - split; [auto|]. intros _.
    apply (Verify_Prove ECPoint ec_add ec_mul ec_eqb ToByteString order
             StringToBigInt ec_eqb_eq ec_mul_add ec_mul_mul ec_mul_mod
             instance w a ""%string); reflexivity.
  - unfold DLOGEquality.Verify, DLOGEquality.challenge. cbn [snd].
    set (e := StringToBigInt _).
    unfold proof, DLOGEquality.Prove, instance, witness,
      GenRandomDDHInstanceWitness in *.
    cbn [fst snd Bool.eqb A1 A2 z DLOGEquality.w DLOGEquality.g1
         DLOGEquality.g2 DLOGEquality.h1 DLOGEquality.h2] in *.
    set (e0 := StringToBigInt _) in *.
    assert (He : e = e0) by reflexivity. clearbody e e0. subst e0.
    assert (H1 : ec_eqb (ec_mul gen1 ((a + e * w) mod order))
                        (ec_add (ec_mul gen1 a) (ec_mul (ec_mul gen1 w) e))
                 = true).
    { apply ec_eqb_eq. rewrite ec_mul_mod, ec_mul_add, ec_mul_mul.
      now rewrite (Z.mul_comm e w). }
    rewrite H1, andb_true_l. rewrite ec_eqb_eq.
    rewrite ec_mul_mod, ec_mul_add, ec_mul_add_l, ec_mul_mul.
    rewrite (Z.mul_comm e w).
    split.
    + intros H. right. apply cancel_l in H.
      apply (cancel_l (ec_mul gen2 (w * e))).
      now rewrite ec_add_zero_r.
    + intros [H|H]; [discriminate|]. now rewrite H, ec_add_zero_r.
Qed.

(** X27. [Verify] and the response: for an instance with [h1 = g1^w]
    and [h2 = g2^w] and [g1] not the neutral point, the proof of [Prove]
    with its response [z] replaced by [z'] is accepted exactly when [z']
    and [z] differ by a multiple of the group order; [Verify] does not
    require a response below the order. *)
Theorem Verify_response (instance : Instance) (w a z' : Z)
        (transcript_str : string) :
  h1 _ instance = ec_mul (g1 _ instance) w ->
  h2 _ instance = ec_mul (g2 _ instance) w ->
  g1 _ instance <> ec_zero ->
  let proof := snd (Prove instance (mkWitness w) transcript_str a) in
  snd (Verify instance transcript_str
         (mkProof (A1 _ proof) (A2 _ proof) z')) = true
  <-> (z' - z _ proof) mod order = 0.
Proof.
  intros Hh1 Hh2 Hg1 proof.
  pose proof (Verify_Prove ECPoint ec_add ec_mul ec_eqb ToByteString order
                StringToBigInt ec_eqb_eq ec_mul_add ec_mul_mul ec_mul_mod
                instance w a transcript_str Hh1 Hh2) as Hok.
  fold proof in Hok.
  unfold DLOGEquality.Verify in *. cbn [snd A1 A2 z] in *.
  set (e := StringToBigInt _) in *.
  apply andb_true_iff in Hok. destruct Hok as [Hok1 Hok2].
  apply ec_eqb_eq in Hok1, Hok2.
  rewrite andb_true_iff, !ec_eqb_eq. rewrite <- Hok1, <- Hok2.
  split.
  - intros [H _].
    destruct (ec_mul_eq_inv ECPoint ec_add ec_neg ec_mul ec_zero order
                ec_add_assoc ec_add_comm ec_add_zero ec_add_neg ec_mul_add
                ec_mul_zero_inv _ _ _ H) as [Hz|Hm];
      [contradiction|exact Hm].
  - intros Hm.
    assert (Hz : z' mod order = z _ proof mod order).
    { destruct (Z.eq_dec order 0) as [->|Hq].
      - rewrite !Z.mod_0_r in *. lia.
      - replace z' with (z _ proof + (z' - z _ proof)) by lia.
        rewrite Z.add_mod, Hm, Z.add_0_r by exact Hq.
        apply Z.mod_mod. exact Hq. }
    split.
    + now rewrite <- (ec_mul_mod _ z'), Hz, ec_mul_mod.
    + now rewrite <- (ec_mul_mod _ z'), Hz, ec_mul_mod.
Qed.

End DLOG_response.

Lemma test_nizk_dlog_equality_result_witness :
  let instance :=
    fst (GenRandomDDHInstanceWitness Toy.ECPoint Toy.ec_add Toy.ec_mul
           false 1 true true true) in
  let witness :=
    snd (GenRandomDDHInstanceWitness Toy.ECPoint Toy.ec_add Toy.ec_mul
           false 1 true true true) in
  let proof :=
    snd (DLOGEquality.Prove Toy.ECPoint Toy.ec_mul Toy.ToByteString Toy.order
           Toy.StringToBigInt instance witness ""%string 1) in
  test_nizk_dlog_equality Toy.ECPoint Toy.ec_add Toy.ec_mul Toy.ec_eqb
    Toy.ToByteString Toy.order Toy.StringToBigInt false 1 true true true 1
  = true
  <-> false = true
      \/ Toy.ec_mul true
           (DLOGEquality.challenge Toy.ECPoint Toy.ToByteString
              Toy.StringToBigInt instance ""%string proof) = false.
Proof.
  exact (test_nizk_dlog_equality_result
           Toy.ECPoint Toy.ec_add Toy.ec_neg Toy.ec_mul Toy.ec_eqb false
           Toy.ToByteString Toy.order Toy.StringToBigInt
           Toy_ec_eqb_eq Toy_ec_add_assoc Toy_ec_add_comm Toy_ec_add_zero
           Toy_ec_add_neg Toy_ec_mul_add Toy_ec_mul_mul Toy_ec_mul_one
           Toy_ec_mul_mod false 1 true true true 1).
Defined.

Lemma Verify_response_witness :
  let instance := DLOGEquality.mkInstance Toy.ECPoint true true true true in
  let proof :=
    snd (DLOGEquality.Prove Toy.ECPoint Toy.ec_mul Toy.ToByteString Toy.order
           Toy.StringToBigInt instance (DLOGEquality.mkWitness 1) "x" 1) in
  snd (DLOGEquality.Verify Toy.ECPoint Toy.ec_add Toy.ec_mul Toy.ec_eqb
         Toy.ToByteString Toy.StringToBigInt instance "x"
         (DLOGEquality.mkProof Toy.ECPoint
            (DLOGEquality.A1 _ proof) (DLOGEquality.A2 _ proof) 7)) = true
  <-> (7 - DLOGEquality.z _ proof) mod Toy.order = 0.
Proof.
  apply (Verify_response
           Toy.ECPoint Toy.ec_add Toy.ec_neg Toy.ec_mul Toy.ec_eqb false
           Toy.ToByteString Toy.order Toy.StringToBigInt
           Toy_ec_eqb_eq Toy_ec_add_assoc Toy_ec_add_comm Toy_ec_add_zero
           Toy_ec_add_neg Toy_ec_mul_add Toy_ec_mul_mul
           Toy_ec_mul_mod Toy_ec_mul_zero_inv
           (DLOGEquality.mkInstance Toy.ECPoint true true true true)
           1 1 7 "x" eq_refl eq_refl).
  discriminate.
Defined.

(** ** ALSZ OT extension: the parameter check *)

Lemma may_exit_lift {A : Type} (o : outcome A) : ~ may_exit (lift o).
Proof. destruct o; cbn; tauto. Qed.

Lemma may_exit_pbind {A B : Type} (p : proc A) (f : A -> proc B) :
  ~ may_exit p -> (forall a, ~ may_exit (f a)) -> ~ may_exit (pbind p f).
Proof.
  induction p as [a|st| | |m k IH|k IH]; cbn [pbind may_exit]; intros Hp Hf.
  - apply Hf.
  - tauto.
  - tauto.
  - tauto.
  - now apply IH.
  - intros [m Hm]. apply (IH m); [|exact Hf|exact Hm].
    intros Hk. apply Hp. now exists m.
Qed.

Lemma may_exit_ReceiveBlocks {A : Type} (n : Z) (k : list Z -> proc A) :
  (forall v, ~ may_exit (k v)) -> ~ may_exit (ReceiveBlocks n k).
Proof.
  intros Hk [m Hm]. destruct m; cbn in Hm; try contradiction.
  destruct (decide _); [now apply (Hk v)|contradiction].
Qed.

Lemma may_exit_SendBlocks {A : Type} (v : list Z) (n : Z) (k : proc A) :
  ~ may_exit k -> ~ may_exit (SendBlocks v n k).
Proof.
  intros Hk. unfold SendBlocks. destruct (decide _); cbn; tauto.
Qed.

Lemma may_exit_NPOT_Receive {A : Type} (pp : NPOT.PP) (b : list Z) (n : Z)
      (k : list Z -> proc A) :
  (forall v, ~ may_exit (k v)) -> ~ may_exit (NPOT.Receive pp b n k).
Proof.
  intros Hk [m Hm]. destruct m; cbn in Hm; try contradiction.
  destruct (decide _); [now apply (Hk _) in Hm|contradiction].
Qed.

Lemma may_exit_NPOT_Send {A : Type} (pp : NPOT.PP) (k0 k1 : list Z) (n : Z)
      (k : proc A) :
  ~ may_exit k -> ~ may_exit (NPOT.Send pp k0 k1 n k).
Proof.
  intros Hk. unfold NPOT.Send. destruct (decide _); cbn; tauto.
Qed.

Section OTE_parameter_check.

Variable Seed : Type.
Variable GenRandomBits : Seed -> Z -> list Z * Seed.
Variable GenRandomBlocks : Seed -> Z -> list Z * Seed.
Variable ReSeed : Seed -> Z -> Z -> Seed.
Variable BlocksToBlock : list Z -> Z.
Variable FromSparseBytes : list Z -> Z -> list Z -> Z -> list Z.
Variable AND : list Z -> list Z -> list Z.
Variable tmp : list Z.

Local Abbreviation PrepareSend :=
  (ALSZOTE.PrepareSend Seed GenRandomBits GenRandomBlocks ReSeed
                       BlocksToBlock FromSparseBytes AND tmp).
Local Abbreviation PrepareReceive :=
  (ALSZOTE.PrepareReceive Seed GenRandomBlocks ReSeed
                          BlocksToBlock FromSparseBytes tmp).
Local Abbreviation Send :=
  (ALSZOTE.Send Seed GenRandomBits GenRandomBlocks ReSeed
                BlocksToBlock FromSparseBytes AND tmp).
Local Abbreviation Receive :=
  (ALSZOTE.Receive Seed GenRandomBlocks ReSeed
                   BlocksToBlock FromSparseBytes tmp).

Lemma PrepareSend_no_exit (pp : ALSZOTE.PP) (K0 K1 : list Z) (L : Z)
      (seed : Seed) :
  ALSZOTE.BASE_LEN pp = 128 -> L mod 128 = 0 ->
  ~ may_exit (PrepareSend pp K0 K1 L seed).
Proof.
  intros Hpp HL. unfold ALSZOTE.PrepareSend, ALSZOTE.CheckParameters.
  rewrite Hpp. rewrite decide_False by (change (128 mod 128) with 0; lia).
  destruct (GenRandomBits seed 128) as [bits seed'].
  apply may_exit_NPOT_Receive. intros K.
  apply may_exit_ReceiveBlocks. intros C0.
  apply may_exit_ReceiveBlocks. intros C1.
  apply may_exit_pbind; [apply may_exit_lift|]. intros Qt.
  apply may_exit_ReceiveBlocks. intros P. apply may_exit_lift.
Qed.

Lemma PrepareReceive_no_exit (pp : ALSZOTE.PP) (K b : list Z) (L : Z)
      (seed : Seed) :
  ALSZOTE.BASE_LEN pp = 128 -> L mod 128 = 0 ->
  ~ may_exit (PrepareReceive pp K b L seed).
Proof.
  intros Hpp HL. unfold ALSZOTE.PrepareReceive, ALSZOTE.CheckParameters.
  rewrite Hpp. rewrite decide_False by (change (128 mod 128) with 0; lia).
  destruct (GenRandomBlocks seed 128) as [T_seed seed1].
  destruct (GenRandomBlocks seed1 128) as [U_seed seed2].
  apply may_exit_pbind; [apply may_exit_lift|]. intros [[[T U] P] seed3].
  destruct (GenRandomBlocks seed3 128) as [K0 seed4].
  destruct (GenRandomBlocks seed4 128) as [K1 seed5].
  apply may_exit_NPOT_Send.
  apply may_exit_pbind; [apply may_exit_lift|]. intros C.
  do 3 apply may_exit_SendBlocks. apply may_exit_lift.
Qed.

(** X28. The parameter check of the OT extension.  With the parameters
    of [Setup], whatever its argument: when [EXTEND_LEN] is not a
    multiple of 128, [exit(EXIT_FAILURE)] is the first action of [Send]
    and of [Receive], before any message; when it is, neither of them
    exits, whatever it receives. *)
Theorem OT_exit_iff_bad_length (base_len EXTEND_LEN : Z)
        (vec_m0 vec_m1 vec_receiver_selection_bit : list Z)
        (seedS seedR : Seed) :
  let pp := ALSZOTE.Setup base_len in
  ((EXTEND_LEN mod 128 <> 0
    /\ Send pp vec_m0 vec_m1 EXTEND_LEN seedS = PExit 1)
   \/ (EXTEND_LEN mod 128 = 0
       /\ ~ may_exit (Send pp vec_m0 vec_m1 EXTEND_LEN seedS)))
  /\ ((EXTEND_LEN mod 128 <> 0
       /\ Receive pp vec_receiver_selection_bit EXTEND_LEN seedR = PExit 1)
      \/ (EXTEND_LEN mod 128 = 0
          /\ ~ may_exit (Receive pp vec_receiver_selection_bit EXTEND_LEN
                                 seedR))).
Proof.
  intros pp.
  assert (Hpp : ALSZOTE.BASE_LEN pp = 128) by reflexivity.
  destruct (decide (EXTEND_LEN mod 128 = 0)) as [HL|HL].
  - split; right; (split; [exact HL|]).
    + unfold ALSZOTE.Send, ALSZOTE.CheckParameters at 1. rewrite Hpp.
      rewrite decide_False by (change (128 mod 128) with 0; lia).
      apply may_exit_pbind; [now apply PrepareSend_no_exit|].
      intros [K0 K1].
      apply may_exit_pbind; [apply may_exit_lift|]. intros C.
      do 2 apply may_exit_SendBlocks. cbn. tauto.
    + unfold ALSZOTE.Receive, ALSZOTE.CheckParameters at 1. rewrite Hpp.
      rewrite decide_False by (change (128 mod 128) with 0; lia).
      apply may_exit_pbind; [now apply PrepareReceive_no_exit|].
      intros K.
      do 2 (apply may_exit_ReceiveBlocks; intros ?). apply may_exit_lift.
  - split; left; (split; [exact HL|]).
    + unfold ALSZOTE.Send, ALSZOTE.CheckParameters at 1.
      now rewrite decide_True by (left; exact HL).
    + unfold ALSZOTE.Receive, ALSZOTE.CheckParameters at 1.
      now rewrite decide_True by (left; exact HL).
Qed.

End OTE_parameter_check.

(** ** The test case of the PSU test *)

Section GenTestCase_properties.

Import test_mqrpmt_psu.

Variable Seed : Type.
Variable GenRandomBlocks : Seed -> Z -> list Z * Seed.
Variable shuffle_bit : list Z -> list Z.
Variable shuffle_Y : list Z -> list Z.

Hypothesis GenRandomBlocks_length : forall seed n,
  0 <= n -> Z.of_nat (length (fst (GenRandomBlocks seed n))) = n.
Hypothesis shuffle_bit_Permutation : forall l, shuffle_bit l ≡ₚ l.
Hypothesis shuffle_Y_Permutation : forall l, shuffle_Y l ≡ₚ l.

Let ones (l : list Z) : nat := length (filter (fun b => b = 1) l).

Lemma ones_app (l1 l2 : list Z) : ones (l1 ++ l2) = (ones l1 + ones l2)%nat.
Proof. unfold ones. now rewrite filter_app, length_app. Qed.

Lemma ones_replicate_1 (n : nat) : ones (replicate n 1) = n.
Proof.
  unfold ones. induction n as [|n IH]; [reflexivity|].
  cbn [replicate]. rewrite filter_cons_True by reflexivity.
  cbn [length]. now rewrite IH.
Qed.

Lemma ones_replicate_0 (n : nat) : ones (replicate n 0) = 0%nat.
Proof.
  unfold ones. induction n as [|n IH]; [reflexivity|].
  cbn [replicate]. now rewrite filter_cons_False by discriminate.
Qed.

Lemma ones_take_le (l : list Z) (i : nat) : (ones (take i l) <= ones l)%nat.
Proof.
  rewrite <- (take_drop i l) at 2. rewrite ones_app. lia.
Qed.

Lemma ones_take_S (l : list Z) (i : nat) (b : Z) :
  l !! i = Some b ->
  ones (take (Datatypes.S i) l)
  = (ones (take i l) + if decide (b = 1%Z) then 1 else 0)%nat.
Proof.
  intros Hb. rewrite (take_S_r _ _ _ Hb), ones_app. f_equal.
  unfold ones. destruct (decide (b = 1)).
  - now rewrite filter_cons_True.
  - now rewrite filter_cons_False.
Qed.

Lemma ones_le_length (l : list Z) : (ones l <= length l)%nat.
Proof. unfold ones. apply length_filter. Qed.

Lemma indication_bits (S HW : Z) :
  0 <= HW <= S -> S <= INT_MAX ->
  exists bits,
    for_n S (fun i vec_indication_bit =>
               do i <- int_of i;
               if decide (i < HW) then store vec_indication_bit i 1
               else store vec_indication_bit i 0) (resize [] S)
    = Done bits
    /\ Z.of_nat (length bits) = S
    /\ Z.of_nat (ones bits) = HW.
Proof.
  intros HHW HS.
  assert (Hres : resize [] S = replicate (Z.to_nat S) 0).
  { unfold resize. rewrite take_nil. cbn. f_equal. lia. }
  destruct (for_n_update
              (fun i vec_indication_bit =>
                 do i <- int_of i;
                 if decide (i < HW) then store vec_indication_bit i 1
                 else store vec_indication_bit i 0)
              (fun i => if decide (i < HW) then 1 else 0)
              S (resize [] S)) as (bits & Hbits & Hlen & Hnth).
  - lia.
  - rewrite Hres, length_replicate. lia.
  - intros i v Hi Hv.
    rewrite int_of_Done by (unfold INT_MIN, INT_MAX in *; lia).
    cbn [obind]. destruct (decide (i < HW)); now rewrite store_Done by lia.
  - exists bits. split; [exact Hbits|]. split; [exact Hlen|].
    assert (Heq : bits = replicate (Z.to_nat HW) 1
                         ++ replicate (Z.to_nat (S - HW)) 0).
    { apply (nth_ext _ _ 0 0).
      - rewrite length_app, !length_replicate. lia.
      - intros k Hk. specialize (Hnth (Z.of_nat k) ltac:(lia)).
        rewrite Nat2Z.id in Hnth. rewrite Hnth.
        destruct (decide (Z.of_nat k < HW)).
        + rewrite app_nth1 by (rewrite length_replicate; lia).
          symmetry. apply nth_lookup_Some, lookup_replicate_2. lia.
        + rewrite app_nth2 by (rewrite length_replicate; lia).
          symmetry. apply nth_lookup_Some, lookup_replicate_2.
          rewrite length_replicate. lia. }
    rewrite Heq, ones_app, ones_replicate_1, ones_replicate_0. lia.
Qed.

Lemma adjust_loop (X0 Y bits : list Z) (S R : Z) :
  Z.of_nat (length X0) = S -> Z.of_nat (length Y) = R ->
  Z.of_nat (length bits) = S -> Z.of_nat (ones bits) <= R ->
  S <= INT_MAX ->
  exists j X U,
    for_n S (fun i (st : Z * list Z * list Z) =>
      let '(j, vec_X, vec_union) := st in
      do i <- int_of i;
      do b <- load bits i;
      if decide (b = 1) then
        do y <- load Y j;
        do vec_X <- store vec_X i y;
        do j <- iadd j 1;
        Done (j, vec_X, vec_union)
      else
        do x <- load vec_X i;
        Done (j, vec_X, vec_union ++ [x])) (0, X0, Y)
    = Done (j, X, U)
    /\ length X = length X0
    /\ Z.of_nat (length U) = R + S - Z.of_nat (ones bits)
    /\ (forall e, e ∈ U <->
          e ∈ Y \/ exists k, bits !! k <> Some 1 /\ X0 !! k = Some e)
    /\ (forall k e, bits !! k = Some 1 -> X !! k = Some e -> e ∈ Y)
    /\ (forall k, bits !! k <> Some 1 -> X !! k = X0 !! k).
Proof.
  intros HX HY Hbits Hones HS. unfold for_n.
  match goal with
  | |- context [for_seq ?body 0 _ _] =>
      destruct (for_seq_inv
        (fun i (st : Z * list Z * list Z) =>
           let '(j, X, U) := st in
           j = Z.of_nat (ones (take (Z.to_nat i) bits))
           /\ length X = length X0
           /\ Z.of_nat (length U) = R + i - j
           /\ (forall e, e ∈ U <->
                 e ∈ Y \/ exists k, (k < Z.to_nat i)%nat
                                    /\ bits !! k <> Some 1
                                    /\ X0 !! k = Some e)
           /\ (forall k e, (k < Z.to_nat i)%nat -> bits !! k = Some 1 ->
                           X !! k = Some e -> e ∈ Y)
           /\ (forall k, (Z.to_nat i <= k)%nat \/ bits !! k <> Some 1 ->
                         X !! k = X0 !! k))
        body (Z.to_nat S) 0 (0, X0, Y)) as ([[j X] U] & Hrun & HI)
  end.
  - cbn [Z.to_nat take]. split; [reflexivity|]. split; [reflexivity|].
    split; [cbn; lia|]. split; [|split].
    + intros e. split; [now left|].
      intros [He|(k & Hk & _)]; [assumption|lia].
    + intros k e Hk. lia.
    + intros k _. reflexivity.
  - intros i [[j X] U] Hi (Hj & HlX & HlU & HU & HX1 & HX0).
    rewrite int_of_Done by (unfold INT_MIN, INT_MAX in *; lia).
    cbn [obind].
    destruct (load_in_range bits i) as (b & Hload & Hb); [lia|].
    rewrite Hload. cbn [obind].
    pose proof (ones_take_S bits (Z.to_nat i) b Hb) as Hstep.
    pose proof (ones_take_le bits (Datatypes.S (Z.to_nat i))) as Hle.
    replace (Z.to_nat (i + 1)) with (Datatypes.S (Z.to_nat i)) by lia.
    destruct (decide (b = 1)) as [->|Hb1].
    + destruct (load_in_range Y j) as (y & Hly & Hy); [lia|].
      rewrite Hly. cbn [obind]. rewrite store_Done by lia. cbn [obind].
      pose proof (ones_le_length bits) as Hol.
      rewrite iadd_Done by (unfold INT_MIN, INT_MAX in *; lia).
      cbn [obind]. eexists. split; [reflexivity|].
      split; [lia|]. split; [now rewrite length_insert|].
      split; [lia|]. split; [|split].
      * intros e. rewrite HU. split.
        -- intros [He|(k & Hk & Hkb & Hke)]; [now left|].
           right. exists k. split; [lia|auto].
        -- intros [He|(k & Hk & Hkb & Hke)]; [now left|].
           right. exists k. split; [|auto].
           destruct (decide (k = Z.to_nat i)) as [->|Hne]; [congruence|lia].
      * intros k e Hk Hkb Hke.
        destruct (decide (k = Z.to_nat i)) as [->|Hne].
        -- rewrite list_lookup_insert_eq in Hke by lia.
           injection Hke as <-. apply list_elem_of_lookup. eauto.
        -- rewrite list_lookup_insert_ne in Hke by congruence.
           apply (HX1 k e); [lia|assumption|assumption].
      * intros k Hk.
        assert (Hne : Z.to_nat i <> k).
        { intros <-. destruct Hk as [Hk|Hk]; [lia|congruence]. }
        rewrite list_lookup_insert_ne by exact Hne.
        apply HX0. destruct Hk as [Hk|Hk]; [left; lia|now right].
    + destruct (load_in_range X i) as (x & Hlx & Hx); [lia|].
      rewrite Hlx. cbn [obind]. eexists. split; [reflexivity|].
      assert (Hx0 : X0 !! Z.to_nat i = Some x)
        by (rewrite <- HX0; [exact Hx|left; lia]).
      split; [lia|]. split; [assumption|].
      split; [rewrite length_app; cbn [length]; lia|]. split; [|split].
      * intros e. rewrite elem_of_app, HU, list_elem_of_singleton. split.
        -- intros [[He|(k & Hk & Hkb & Hke)]| ->].
           ++ now left.
           ++ right. exists k. split; [lia|auto].
           ++ right. exists (Z.to_nat i). split; [lia|].
              split; [congruence|assumption].
        -- intros [He|(k & Hk & Hkb & Hke)]; [now left; left|].
           destruct (decide (k = Z.to_nat i)) as [->|Hne].
           ++ right. congruence.
           ++ left. right. exists k. split; [lia|auto].
      * intros k e Hk Hkb Hke.
        destruct (decide (k = Z.to_nat i)) as [->|Hne]; [congruence|].
        apply (HX1 k e); [lia|assumption|assumption].
      * intros k Hk. apply HX0.
        destruct Hk as [Hk|Hk]; [left; lia|now right].
  - destruct HI as (Hj & HlX & HlU & HU & HX1 & HX0).
    rewrite Z.add_0_l, Nat2Z.id in *.
    assert (Htake : take (Z.to_nat S) bits = bits)
      by (apply take_ge; lia).
    rewrite Htake in Hj.
    exists j, X, U. split; [exact Hrun|]. split; [exact HlX|].
    split; [lia|]. split; [|split].
    + intros e. rewrite HU. split.
      * intros [He|(k & _ & Hkb & Hke)]; [now left|]. right. eauto.
      * intros [He|(k & Hkb & Hke)]; [now left|]. right.
        exists k. split; [|auto].
        apply lookup_lt_Some in Hke. lia.
    + intros k e Hkb Hke. apply (HX1 k e); try assumption.
      apply lookup_lt_Some in Hkb. lia.
    + intros k Hk. apply HX0. now right.
Qed.

(** X29. For a sender set of [2^LOG_SENDER_ITEM_NUM] elements within
    [int] and [LOG_RECEIVER_ITEM_NUM] below 64, [GenTestCase] returns a
    test case in which [vec_X] and [vec_Y] have
    [2^LOG_SENDER_ITEM_NUM] and [2^LOG_RECEIVER_ITEM_NUM] elements,
    [HAMMING_WEIGHT] of the indication bits are 1, every element of
    [vec_X] at a position where the bit is 1 is an element of [vec_Y],
    and [vec_union] has [UNION_CARDINALITY] elements, which are exactly
    the elements of [vec_X] and of [vec_Y]. *)
Theorem GenTestCase_union (LOG_S LOG_R : Z) (seed : Seed) :
  0 <= LOG_S -> 0 <= LOG_R < 64 -> 2 ^ LOG_S <= INT_MAX ->
  exists tc,
    GenTestCase Seed GenRandomBlocks shuffle_bit shuffle_Y LOG_S LOG_R seed
    = Done tc
    /\ SENDER_ITEM_NUM tc = 2 ^ LOG_S /\ RECEIVER_ITEM_NUM tc = 2 ^ LOG_R
    /\ Z.of_nat (length (vec_X tc)) = SENDER_ITEM_NUM tc
    /\ Z.of_nat (length (vec_Y tc)) = RECEIVER_ITEM_NUM tc
    /\ HAMMING_WEIGHT tc = Z.min (2 ^ LOG_S) (2 ^ LOG_R) / 2
    /\ Z.of_nat (length (filter (fun b => b = 1) (vec_indication_bit tc)))
       = HAMMING_WEIGHT tc
    /\ UNION_CARDINALITY tc
       = SENDER_ITEM_NUM tc + RECEIVER_ITEM_NUM tc - HAMMING_WEIGHT tc
    /\ Z.of_nat (length (vec_union tc)) = UNION_CARDINALITY tc
    /\ (forall e, e ∈ vec_union tc <-> e ∈ vec_X tc \/ e ∈ vec_Y tc)
    /\ (forall i e, vec_indication_bit tc !! i = Some 1 ->
                    vec_X tc !! i = Some e -> e ∈ vec_Y tc).
Proof.
  intros HLS HLR Hint. unfold GenTestCase, pow2_size_t.
  assert (HLS31 : LOG_S < 31).
  { destruct (decide (LOG_S < 31)) as [|Hge]; [assumption|]. exfalso.
    pose proof (Z.pow_le_mono_r 2 31 LOG_S ltac:(lia) ltac:(lia)) as Hp.
    change (2 ^ 31) with 2147483648 in Hp. unfold INT_MAX in Hint. lia. }
  rewrite !decide_True by lia. cbn [obind].
  set (S := 2 ^ LOG_S) in *. set (R := 2 ^ LOG_R).
  assert (HS : 0 < S) by (apply Z.pow_pos_nonneg; lia).
  assert (HR : 0 < R) by (apply Z.pow_pos_nonneg; lia).
  assert (HR63 : R <= 2 ^ 63)
    by (apply Z.pow_le_mono_r; lia).
  pose proof (GenRandomBlocks_length seed S ltac:(lia)) as HlX.
  destruct (GenRandomBlocks seed S) as [X0 seed1]. cbn [fst] in HlX.
  pose proof (GenRandomBlocks_length seed1 R ltac:(lia)) as HlY.
  destruct (GenRandomBlocks seed1 R) as [Y seed2]. cbn [fst] in HlY.
  set (HW := Z.min S R / 2).
  assert (HHW : 0 <= HW <= S /\ HW <= R)
    by (unfold HW; Z.div_mod_to_equations; lia).
  assert (Hu : u64 (S + R - HW) = S + R - HW)
    by (unfold u64; apply Z.mod_small; unfold INT_MAX in Hint; lia).
  rewrite Hu.
  destruct (indication_bits S HW ltac:(lia) Hint)
    as (bits0 & Hb0 & Hlb0 & Hob0).
  rewrite Hb0. cbn [obind].
  pose proof (shuffle_bit_Permutation bits0) as Hperm.
  assert (Hlb : Z.of_nat (length (shuffle_bit bits0)) = S)
    by (rewrite (Permutation_length Hperm); exact Hlb0).
  assert (Hob : Z.of_nat (ones (shuffle_bit bits0)) = HW).
  { unfold ones in *. rewrite <- Hob0. f_equal. apply Permutation_length.
    now rewrite Hperm. }
  destruct (adjust_loop X0 Y (shuffle_bit bits0) S R HlX HlY Hlb
              ltac:(lia) Hint)
    as (j & X & U & Hloop & HlX' & HlU & HU & HX1 & HX0).
  rewrite Hloop. cbn [obind]. eexists. split; [reflexivity|].
  cbn [SENDER_ITEM_NUM RECEIVER_ITEM_NUM vec_X vec_Y HAMMING_WEIGHT
       UNION_CARDINALITY vec_indication_bit vec_union].
  pose proof (shuffle_Y_Permutation Y) as HpY.
  split; [reflexivity|]. split; [reflexivity|]. split; [lia|].
  split; [rewrite (Permutation_length HpY); exact HlY|].
  split; [reflexivity|]. split; [exact Hob|]. split; [reflexivity|].
  split; [fold (ones (shuffle_bit bits0)) in Hob; lia|]. split.
  - intros e. rewrite HU. rewrite (elem_of_Permutation_proper _ _ _ HpY).
    split.
    + intros [He|(k & Hkb & Hke)]; [now right|]. left.
      apply list_elem_of_lookup. exists k. now rewrite HX0.
    + intros [He|He]; [|now left].
      apply list_elem_of_lookup in He. destruct He as (k & Hk).
      destruct (decide (shuffle_bit bits0 !! k = Some 1)) as [Hb|Hb].
      * left. now apply (HX1 k e).
      * right. exists k. split; [exact Hb|]. now rewrite <- HX0.
  - intros i e Hb He. rewrite (elem_of_Permutation_proper _ _ _ HpY).
    now apply (HX1 i e).
Qed.

End GenTestCase_properties.

Lemma GenTestCase_union_witness :
  exists tc,
    test_mqrpmt_psu.GenTestCase Z
      (fun seed n => (map (fun i : nat => seed + Z.of_nat i)
                          (seq 0 (Z.to_nat n)), seed + n))
      (fun l => reverse l) (fun l => reverse l) 2 3 100
    = Done tc
    /\ test_mqrpmt_psu.SENDER_ITEM_NUM tc = 2 ^ 2
    /\ test_mqrpmt_psu.RECEIVER_ITEM_NUM tc = 2 ^ 3
    /\ Z.of_nat (length (test_mqrpmt_psu.vec_X tc))
       = test_mqrpmt_psu.SENDER_ITEM_NUM tc
    /\ Z.of_nat (length (test_mqrpmt_psu.vec_Y tc))
       = test_mqrpmt_psu.RECEIVER_ITEM_NUM tc
    /\ test_mqrpmt_psu.HAMMING_WEIGHT tc = Z.min (2 ^ 2) (2 ^ 3) / 2
    /\ Z.of_nat (length (filter (fun b => b = 1)
                           (test_mqrpmt_psu.vec_indication_bit tc)))
       = test_mqrpmt_psu.HAMMING_WEIGHT tc
    /\ test_mqrpmt_psu.UNION_CARDINALITY tc
       = test_mqrpmt_psu.SENDER_ITEM_NUM tc
         + test_mqrpmt_psu.RECEIVER_ITEM_NUM tc
         - test_mqrpmt_psu.HAMMING_WEIGHT tc
    /\ Z.of_nat (length (test_mqrpmt_psu.vec_union tc))
       = test_mqrpmt_psu.UNION_CARDINALITY tc
    /\ (forall e, e ∈ test_mqrpmt_psu.vec_union tc <->
                  e ∈ test_mqrpmt_psu.vec_X tc
                  \/ e ∈ test_mqrpmt_psu.vec_Y tc)
    /\ (forall i e,
          test_mqrpmt_psu.vec_indication_bit tc !! i = Some 1 ->
          test_mqrpmt_psu.vec_X tc !! i = Some e ->
          e ∈ test_mqrpmt_psu.vec_Y tc).
Proof.
  apply (GenTestCase_union Z
           (fun seed n => (map (fun i : nat => seed + Z.of_nat i)
                               (seq 0 (Z.to_nat n)), seed + n))
           (fun l => reverse l) (fun l => reverse l)).
  - intros seed n Hn. cbn [fst]. rewrite length_map, length_seq. lia.
  - intros l. apply reverse_Permutation.
  - intros l. apply reverse_Permutation.
  - lia.
  - lia.
  - unfold INT_MAX. lia.
Defined.
